(* ===== verification/_CoqProject ===== *)
-Q . S2P
Prelude.v
Text.v
Codec.v
Mempool.v
Chunk.v
ConnPool.v
Float64.v
Net.v
Json.v
Model.v
Queue.v
Discovery.v
Session.v
Scheduler.v
Control.v
SessionInv.v
Handle.v
Client.v
Paths.v
FileNames.v
Download.v
FileSys.v
Transfer.v
Extraction.v
Upload.v
Prepare.v
Tasks.v
Listing.v
Agent.v
AgentInv.v
GoSilver.v
App.v
Dispatch.v
Typed.v
Delivery.v
DispatchInv.v
Web.v
Operations.v
Feed.v
Conduct.v
WebInv.v
WorldInv.v
Closing.v
Http.v
State.v
CommandLine.v
