(* ===== verification/Prelude.v ===== *)
(** * GoSilver Core: a verification library

    GoSilver distributes a file or a folder from one sender to many receivers of a
    local network. A sender serves the chunks of a file; every receiver fetches chunks
    from the sender and from other receivers and serves those it has. The parts, from the
    wire up, and the files here that model them:

    - Frames and messages. internal/gsp (Codec): one type byte, a length, a payload.
      internal/gsp_sdk/model (Model): the JSON of the protocol over file Json, numbers and
      UTF-8 in Text, addresses in Net; Typed: what may come out of reading any message.
      internal/queue (Queue): a stub that is not used.
    - Storage. internal/chunk (Chunk): numbered chunks of an open file, with checksums.
      pkg/mempool (Mempool), pkg/conn_pool (ConnPool): shared buffers and connections.
    - The node. internal/gsp_sdk/server: session.go, peer.go, tool.go (Session);
      queue.go (Scheduler, scores in Float64); control.go (Control); handle and operation.go
      (Handle). SessionInv has the invariants of a session over all interleavings
      of its critical sections. internal/gsp_sdk/client (Client): the requests.
    - Downloading. internal/receiver/download.go (Download): workers that claim, fetch and
      report chunks. pkg/gosilver (GoSilver, FileNames): the public client and server.
    - Folders. internal/transfer/files.go (Transfer, Prepare, Extraction) over a file
      system with links (FileSys) and paths (Paths).
    - The receiver that a sender controls. internal/webui/agent.go (Agent, AgentInv), its
      messages (Tasks), directory listings (Listing).
    - The application behind the page. internal/webui: app.go (App), its requests to
      receivers (Dispatch, DispatchInv, Feed), modes (Web), operations, actions, closing and
      the interleaving of everything (Operations), the HTTP guard and the routes (Http), the
      state that is shown (State), uploads (Upload). How its programs behave beside each
      other: what a step may change (Conduct), which modes they leave (WebInv), the
      invariant of the whole (WorldInv), how they end (Closing).
    - The program. cmd/main.go (CommandLine): flags, start, end.
    - All the parts together. Delivery: a folder from one machine to another.
    - Finding a sender. pkg/discovery and internal/discover (Discovery).

    How they meet: the handlers and the client exchange Model messages in Codec frames
    over ConnPool connections; handlers and coordinator act on one Session, from which the
    scheduler lends leases and which Chunk reads; a worker of Download calls
    Client.FetchChunk and stores into the same Chunk; the agent runs downloads and
    extractions; the application sends TaskSpec messages that the agent decodes. The
    class [Message] (file Json) is the interface between who encodes and who decodes: its
    laws are discharged once per message, and clients use them only through it; the class
    [Typed] (file Typed) states what whoever reads a message may rely on.

    ** How code is modelled

    A method that holds a mutex throughout is one function on the state. Where other
    goroutines run between its critical sections, each section is a function, and the
    interleavings are a step relation (ConnPool, SessionInv, Download, GoSilver,
    AgentInv). The application (App) writes such methods as programs of sections, answers
    of the outside, requests, waits and mutexes ([prog]); [app_step] interleaves an operation,
    a command, the discovery loops, the loops of distribution, the user and [Close]. A context
    is a number; it is over when the number is in [cancelled], where the sessions and agents that
    were told to stop are too. A goroutine that others wait for has a number in [doing], [loops]
    or [feeds] until it ends; the goroutines of an agent or a session that are waited for
    together are a [group], which is in [busy] while one of them is left. The two mutexes that
    are held over several sections, receiverMu and hubMu, are in [locks] while they are held.
    Requests that up to eight goroutines send at a time are any selection, in any order, of those
    that would be sent ([turns], [schedule] in Dispatch), since those whose turn comes after the
    context is over are not sent. Errors are
    values. Integers are Z with their wrap-around where it can be reached ([int64], the
    32-bit checksum and length); floats are the binary64 of the Standard Library. A map
    that Go traverses takes the order as an argument. Clocks, random numbers,
    sockets, and what the operating system answers are arguments too, so that a theorem
    holds for whatever they do; the few laws assumed of them are hypotheses of the theorem
    that needs them, each shown satisfiable by a witness ([Pow_half_range] of math.Pow in
    Scheduler, the answering instances in Discovery). Slices and buffers that are shared
    are a heap (Mempool, Chunk).

    ** What the theorems show

    - Transport: round trips of frames, soundness of the decoders, accepted messages well
      typed and read back as they are, exclusive buffers, bounds of the connection pool.
    - Transfer of a file: a fetched chunk is the sender's chunk, verified before it is
      written; saving all chunks rebuilds the file; a download that ends without error has
      the whole file under the target name; it terminates; the feeder offers each index once;
      every chunk the workers fetch from a sender that has the file is copied.
    - The session: leases are counted, ownership is consistent, sources are sound and
      their order deterministic, uploads bounded, stopping final, registration all or
      nothing; every zone is completed by the coordinator; two findings on leaving peers and
      on the overload command.
    - Folders: manifests are exactly those that can be created; destinations and extractions
      stay inside their root; a successful extraction is the manifest; a folder that is
      prepared, dispatched, downloaded in chunks and extracted is the sender's folder.
    - The receiver and the application: the agent refines its lifecycle and acts only on
      guarded requests; commands are bounded; a sender and a receiver never run in one
      instance; one operation and one command run at a time, cancelling ends them, [Close]
      returns and what is closed stays closed; only probed machines are asked to start, the
      probe's key binds everything that is sent; following tasks succeeds only when they all
      did; the continuous distribution admits a machine once; only the local page acts, and
      only on a loopback address; uploads stay in their directory; a sender is found only
      when it is unique; the page shows each machine once, in order.

    ** Fuel and bounds

    A fixpoint with a [fuel] argument takes at least as much as the length of its text, the
    number of elements or nodes, or the number it counts down from, and consumes some of it
    on each round, so that its bound is never reached: digits of a number (Text), escapes
    and values (Json; [ParseJson_print] shows it for what is printed), the runes of a name, the
    directories above a path (Transfer, [find_ancestor]), the depth of a tree (Prepare, where
    it is proved), the greatest common divisor and the step of the feed order (Download,
    proved). A download needs no fuel: its steps are a relation whose termination is
    [download_terminates]. [max_links] = 255 is the system's limit on links. The loops of
    the application that end only when they are told to ([monitor], [discoverLoop],
    [distributionLoop]) take a number of rounds and then wait for their context, as a round
    that changes nothing would; the theorems hold for every number. [eventually] (Closing)
    needs no fuel: it is an inductive predicate over steps.

    ** Not modelled

    The process settings of a shell command (process_unix.go, process_windows.go) and the
    Windows variants of the file functions, which only call the system; the sockets, the
    multicast and mDNS libraries below the messages; static pages; opening a browser;
    logging. [net/url], archive/tar, mime/multipart and the shell are what they deliver; the
    texts of times and of floating-point numbers in the page's state are arguments. The
    goroutines of an agent and of a session are groups, of which the application knows when they
    are all gone: that a group that was told to end can is what [close_returns] and
    [cancelled_ends] (Closing) take from them; what an agent's goroutines do is in Agent, what a
    session's do in Handle. [AutoStart] of a receiver
    is taken to finish before the first action of the user (see [started] in Operations);
    selecting the sender's mode in between could leave both services, as that start reads the
    mode and sets it in two sections. JSON: a member that is repeated
    replaces the former one, also where Go would merge into a nested structure. *)

From stdpp Require Export base gmap strings list numbers pretty option sorting.
From Stdlib Require Export ZArith Lia.
From Stdlib Require Strings.Byte.

#[export] Set Default Goal Selector "!".

(** ** Automation shared by the development *)

Create HintDb go discriminated.
Create Rewrite HintDb go.

(** Split conjunctions of the goal, finishing the trivial parts. *)
Ltac split_all := repeat (split; try done).

(** Destruct the scrutinee of the outermost [match] or [if] of the goal. *)
Ltac case_goal :=
  match goal with
  | |- context [match ?x with _ => _ end] => destruct x eqn:?
  end.

(** The same in a hypothesis, discarding the impossible branches. *)
Ltac case_hyp H :=
  match type of H with
  | context [match ?x with _ => _ end] => destruct x eqn:?; simplify_eq/=; try done
  end.

(** Reflect the boolean integer tests the translated guards use. *)
Ltac zbool :=
  repeat match goal with
  | H : (_ && _)%bool = true |- _ => apply andb_true_iff in H; destruct H
  | H : (_ || _)%bool = false |- _ => apply orb_false_iff in H; destruct H
  | H : negb _ = true |- _ => apply negb_true_iff in H
  | H : negb _ = false |- _ => apply negb_false_iff in H
  | H : (_ <? _)%Z = true |- _ => apply Z.ltb_lt in H
  | H : (_ <? _)%Z = false |- _ => apply Z.ltb_ge in H
  | H : (_ <=? _)%Z = true |- _ => apply Z.leb_le in H
  | H : (_ <=? _)%Z = false |- _ => apply Z.leb_gt in H
  | H : (_ =? _)%Z = true |- _ => apply Z.eqb_eq in H
  | H : (_ =? _)%Z = false |- _ => apply Z.eqb_neq in H
  | H : (_ >? _)%Z = true |- _ => rewrite Z.gtb_ltb in H; apply Z.ltb_lt in H
  | H : (_ >? _)%Z = false |- _ => rewrite Z.gtb_ltb in H; apply Z.ltb_ge in H
  | H : bool_decide _ = true |- _ => apply bool_decide_eq_true in H
  | H : bool_decide _ = false |- _ => apply bool_decide_eq_false in H
  end.

(** ** Results: Go's [(value, error)] pairs *)

Inductive res (E A : Type) : Type :=
| Ok (a : A)
| Err (e : E).
Arguments Ok {E A} a.
Arguments Err {E A} e.

Definition res_bind {E A B} (r : res E A) (k : A → res E B) : res E B :=
  match r with Ok a => k a | Err e => Err e end.

Declare Scope go_scope.
Delimit Scope go_scope with go.
Notation "'let?' x := c 'in' k" := (res_bind c (fun x => k))
  (at level 10, x name, c at level 100, k at level 200) : go_scope.
Notation "'let?' ' p := c 'in' k" := (res_bind c (fun p => k))
  (at level 10, p strict pattern, c at level 100, k at level 200) : go_scope.

(** A failing guard: [if b { return e }]. *)
Definition guard_err {E} (b : bool) (e : E) : res E unit :=
  if b then Err e else Ok tt.

Definition is_ok {E A} (r : res E A) : bool :=
  match r with Ok _ => true | Err _ => false end.

Lemma res_bind_Ok {E A B} (r : res E A) (k : A → res E B) b :
  res_bind r k = Ok b ↔ ∃ a, r = Ok a ∧ k a = Ok b.
Proof. destruct r; naive_solver. Qed.

Lemma guard_err_Ok {E} b (e : E) u : guard_err b e = Ok u ↔ b = false.
Proof. destruct b, u; naive_solver. Qed.

(** ** Machine integers

    A Go integer of width [w] is a [Z] in its range; every operation that can
    leave the range is followed by the wrap-around below. *)

Definition int64_min : Z := -(2 ^ 63).
Definition int64_max : Z := 2 ^ 63 - 1.
Definition in_int64 (z : Z) : bool := (int64_min <=? z)%Z && (z <=? int64_max)%Z.
Definition int64 (z : Z) : Z := ((z + 2 ^ 63) mod 2 ^ 64 - 2 ^ 63)%Z.
Definition uint32 (z : Z) : Z := (z mod 2 ^ 32)%Z.

Lemma int64_id z : (int64_min ≤ z ≤ int64_max)%Z → int64 z = z.
Proof.
  unfold int64, int64_min, int64_max. intros. rewrite Z.mod_small; lia.
Qed.

Lemma in_int64_spec z : in_int64 z = true ↔ (int64_min ≤ z ≤ int64_max)%Z.
Proof. unfold in_int64. rewrite andb_true_iff, !Z.leb_le. lia. Qed.

Lemma uint32_id z : (0 ≤ z < 2 ^ 32)%Z → uint32 z = z.
Proof. intros. unfold uint32. by rewrite Z.mod_small. Qed.

Lemma uint32_range z : (0 ≤ uint32 z < 2 ^ 32)%Z.
Proof. unfold uint32. apply Z.mod_pos_bound. lia. Qed.

#[export] Hint Resolve uint32_range : go.

(** Integer goals mentioning the width constants. *)
Ltac zlia := unfold int64_min, int64_max in *; lia.

(** ** Byte strings

    Frames and file contents are lists of [Byte.byte]; text (identifiers,
    addresses, paths) is [string], whose characters are bytes, as in Go. *)

Abbreviation bytes := (list Byte.byte).

Definition byte_val (b : Byte.byte) : Z := Z.of_N (Byte.to_N b).
Definition byte_of (z : Z) : Byte.byte :=
  default Byte.x00 (Byte.of_N (Z.to_N (z mod 256))).

Lemma byte_val_range b : (0 ≤ byte_val b < 256)%Z.
Proof. unfold byte_val. pose proof (Byte.to_N_bounded b). lia. Qed.

Lemma byte_of_val b : byte_of (byte_val b) = b.
Proof.
  unfold byte_of. pose proof (byte_val_range b).
  rewrite Z.mod_small by lia. unfold byte_val. rewrite N2Z.id.
  by rewrite Byte.of_to_N.
Qed.

Lemma byte_val_of z : byte_val (byte_of z) = (z mod 256)%Z.
Proof.
  unfold byte_of, byte_val. pose proof (Z.mod_pos_bound z 256 ltac:(lia)).
  destruct (Byte.of_N (Z.to_N (z mod 256))) as [b|] eqn:Hb.
  - apply Byte.to_of_N in Hb. simpl. lia.
  - apply Byte.of_N_None_iff in Hb. lia.
Qed.

#[export] Instance byte_eq_dec : EqDecision Byte.byte := Byte.byte_eq_dec.
#[export] Hint Rewrite byte_of_val byte_val_of : go.

Fixpoint string_bytes (s : string) : bytes :=
  match s with
  | EmptyString => []
  | String a s' => Ascii.byte_of_ascii a :: string_bytes s'
  end.

Fixpoint bytes_string (l : bytes) : string :=
  match l with
  | [] => EmptyString
  | b :: l' => String (Ascii.ascii_of_byte b) (bytes_string l')
  end.

Lemma bytes_string_bytes s : bytes_string (string_bytes s) = s.
Proof.
  induction s as [|a s IH]; simpl; [done|].
  by rewrite Ascii.ascii_of_byte_of_ascii, IH.
Qed.

(** Slices: [l[off:off+n]] with the offsets of the source, which are integers. *)
Definition zlen {A} (l : list A) : Z := Z.of_nat (length l).
Definition zslice {A} (off n : Z) (l : list A) : list A :=
  take (Z.to_nat n) (drop (Z.to_nat off) l).

Lemma zlen_nonneg {A} (l : list A) : (0 ≤ zlen l)%Z.
Proof. unfold zlen. lia. Qed.

Lemma zlen_app {A} (l k : list A) : zlen (l ++ k) = (zlen l + zlen k)%Z.
Proof. unfold zlen. rewrite length_app. lia. Qed.

Lemma zlen_zslice {A} off n (l : list A) :
  (0 ≤ off)%Z → (0 ≤ n)%Z → (off + n ≤ zlen l)%Z → zlen (zslice off n l) = n.
Proof.
  unfold zlen, zslice. intros. rewrite length_take, length_drop. lia.
Qed.

#[export] Hint Resolve zlen_nonneg : go.
#[export] Hint Rewrite @zlen_app : go.

(** ** Sorting: [sort.Slice(l, less)]

    Insertion into the sorted prefix, as [sort.Slice] does on short slices. The
    theorems about it use only that the result is a sorted permutation, and
    that such a permutation is unique when [less] is a strict total order on
    the elements. *)

Section sort_slice.
Context {A : Type} (less : A → A → bool).

Fixpoint insert_by (x : A) (l : list A) : list A :=
  match l with
  | [] => [x]
  | y :: l' => if less x y then x :: y :: l' else y :: insert_by x l'
  end.

Fixpoint sort_slice (l : list A) : list A :=
  match l with
  | [] => []
  | x :: l' => insert_by x (sort_slice l')
  end.

(** [less] is a strict total order on the elements of [l]. *)
Record strict_total (l : list A) : Prop := {
  st_irrefl x : x ∈ l → less x x = false;
  st_trans x y z : x ∈ l → y ∈ l → z ∈ l →
    less x y = true → less y z = true → less x z = true;
  st_total x y : x ∈ l → y ∈ l → less x y = false → less y x = false → x = y;
}.

Lemma insert_by_perm x l : insert_by x l ≡ₚ x :: l.
Proof.
  induction l as [|y l IH]; simpl; [done|].
  destruct (less x y); [done|]. rewrite IH. apply Permutation_swap.
Qed.

Lemma sort_slice_perm l : sort_slice l ≡ₚ l.
Proof.
  induction l as [|x l IH]; simpl; [done|]. by rewrite insert_by_perm, IH.
Qed.

Lemma sort_slice_length l : length (sort_slice l) = length l.
Proof. by rewrite sort_slice_perm. Qed.

Definition sort_le (x y : A) : Prop := less y x = false.

Lemma strict_total_sub l k : (∀ x, x ∈ k → x ∈ l) → strict_total l → strict_total k.
Proof. intros Hs [Hi Ht Htot]. split; eauto. Qed.

Lemma strict_total_perm l k : l ≡ₚ k → strict_total l → strict_total k.
Proof. intros Hp. apply strict_total_sub. intros x. by rewrite Hp. Qed.

Lemma sort_le_trans l x y z :
  strict_total l → x ∈ l → y ∈ l → z ∈ l → sort_le x y → sort_le y z → sort_le x z.
Proof.
  unfold sort_le. intros [Hi Ht Htot] ??? H1 H2.
  destruct (less z x) eqn:E; [|done].
  destruct (less x y) eqn:E1.
  - rewrite <-H2. symmetry. by apply (Ht z x y).
  - assert (x = y) as -> by auto. congruence.
Qed.

Lemma strict_total_asym l x y :
  strict_total l → x ∈ l → y ∈ l → less x y = true → sort_le x y.
Proof.
  intros [Hi Ht Htot] ?? H. unfold sort_le. destruct (less y x) eqn:E; [|done].
  rewrite <-(Hi x) by done. symmetry. by apply (Ht x y x).
Qed.

Lemma insert_by_sorted x l :
  strict_total (x :: l) → StronglySorted sort_le l → StronglySorted sort_le (insert_by x l).
Proof.
  intros Hst Hs. induction l as [|y l IH]; simpl; [by repeat constructor|].
  apply StronglySorted_inv in Hs as [Hs Hall].
  destruct (less x y) eqn:E.
  - assert (sort_le x y) by (eapply strict_total_asym; eauto; set_solver).
    constructor; [by constructor|]. constructor; [done|].
    rewrite Forall_forall in *. intros z Hz.
    eapply (sort_le_trans (x :: y :: l)); eauto; set_solver.
  - constructor.
    + apply IH; [|done]. eapply strict_total_sub; [|exact Hst]. set_solver.
    + rewrite Forall_forall in *. intros z. rewrite insert_by_perm.
      rewrite elem_of_cons. intros [->|Hz]; [by unfold sort_le|auto].
Qed.

Lemma sort_slice_sorted l : strict_total l → StronglySorted sort_le (sort_slice l).
Proof.
  induction l as [|x l IH]; intros Hst; simpl; [constructor|].
  apply insert_by_sorted.
  - eapply strict_total_perm; [|exact Hst]. by rewrite sort_slice_perm.
  - apply IH. eapply strict_total_sub; [|exact Hst]. set_solver.
Qed.

(** Sorting does not depend on the order the elements were collected in. *)
Lemma sort_slice_unique l k :
  strict_total l → l ≡ₚ k → sort_slice l = sort_slice k.
Proof.
  intros Hst Hp.
  assert (strict_total k) as Hst' by by eapply strict_total_perm.
  pose proof (sort_slice_sorted l Hst) as H1.
  pose proof (sort_slice_sorted k Hst') as H2.
  assert (sort_slice l ≡ₚ sort_slice k) as Hq by by rewrite !sort_slice_perm.
  assert (∀ x, x ∈ sort_slice l → x ∈ l) as Hin.
  { intros x. by rewrite sort_slice_perm. }
  revert H1 H2 Hq Hin. generalize (sort_slice l) as a, (sort_slice k) as b.
  clear Hst' Hp. intros a. induction a as [|x a IH]; intros b H1 H2 Hq Hin.
  { symmetry. by apply Permutation_nil. }
  destruct b as [|y b]; [by apply symmetry, Permutation_nil in Hq|].
  apply StronglySorted_inv in H1 as [H1 Hx], H2 as [H2 Hy].
  assert (x = y) as ->.
  { rewrite Forall_forall in Hx, Hy.
    assert (x ∈ y :: b) as [?|Hxb]%elem_of_cons by (rewrite <-Hq; set_solver); [done|].
    assert (y ∈ x :: a) as [?|Hya]%elem_of_cons by (rewrite Hq; set_solver); [done|].
    apply (st_total _ Hst); [set_solver|set_solver|by apply Hy|by apply Hx]. }
  f_equal. apply Permutation_cons_inv in Hq. apply IH; try done. set_solver.
Qed.
End sort_slice.

(** The first [n] elements of a list of at least [n] elements are non-empty. *)
Lemma hd_sorted_in {A} (l : list A) x : head l = Some x → x ∈ l.
Proof. destruct l; naive_solver set_solver. Qed.

(** A list without duplicate keys has at most one element per key. *)
Lemma NoDup_fmap_elem {A B} (f : A → B) (l : list A) x y :
  NoDup (f <$> l) → x ∈ l → y ∈ l → f x = f y → x = y.
Proof.
  induction l as [|z l IH]; cbn; [set_solver|].
  intros [Hz Hnd]%NoDup_cons. rewrite !elem_of_cons. intros [->|Hx] [->|Hy] Hf; auto.
  - destruct Hz. rewrite Hf. by apply list_elem_of_fmap_2.
  - destruct Hz. rewrite <-Hf. by apply list_elem_of_fmap_2.
Qed.
