(* ===== verification/Text.v ===== *)
(** * Text: characters, decimal numbers, UTF-8

    What the sources use of [strings], [strconv] and [unicode/utf8]. A Go
    string is a sequence of bytes; the functions below work on its characters
    ([chars], each one a byte). *)

From S2P Require Import Prelude.
From Stdlib Require Export Strings.Ascii.
Local Open Scope Z_scope.

Abbreviation chars := (list ascii).

Definition chars_of (s : string) : chars := String.list_ascii_of_string s.
Definition string_of (l : chars) : string := String.string_of_list_ascii l.
Definition code (c : ascii) : Z := Z.of_N (N_of_ascii c).
Definition chr (z : Z) : ascii := ascii_of_N (Z.to_N z).

Lemma string_of_chars s : string_of (chars_of s) = s.
Proof. apply String.string_of_list_ascii_of_string. Qed.
Lemma chars_of_string l : chars_of (string_of l) = l.
Proof. apply String.list_ascii_of_string_of_list_ascii. Qed.
#[export] Hint Rewrite string_of_chars chars_of_string : go.

Lemma chars_of_inj s t : chars_of s = chars_of t → s = t.
Proof. intros H. by rewrite <-(string_of_chars s), H, string_of_chars. Qed.

Lemma chars_of_app s t : chars_of (s +:+ t) = chars_of s ++ chars_of t.
Proof.
  unfold chars_of. induction s as [|a s IH]; [done|]. exact (f_equal (cons a) IH).
Qed.

Lemma string_of_app l k : string_of (l ++ k) = string_of l +:+ string_of k.
Proof. apply chars_of_inj. by rewrite chars_of_app, !chars_of_string. Qed.

Lemma code_range c : 0 ≤ code c < 256.
Proof. unfold code. pose proof (N_ascii_bounded c). lia. Qed.

Lemma chr_code c : chr (code c) = c.
Proof. unfold chr, code. rewrite N2Z.id. apply ascii_N_embedding. Qed.

Lemma code_chr z : 0 ≤ z < 256 → code (chr z) = z.
Proof. intros. unfold chr, code. rewrite N_ascii_embedding; lia. Qed.

Lemma code_inj c d : code c = code d → c = d.
Proof. intros H. by rewrite <-(chr_code c), H, chr_code. Qed.

(** [strings.IndexByte] as an option, and the last index. *)
Fixpoint index_of (c : ascii) (l : chars) : option nat :=
  match l with
  | [] => None
  | x :: l' => if Ascii.eqb x c then Some O else S <$> index_of c l'
  end.

Fixpoint last_index (c : ascii) (l : chars) : option nat :=
  match l with
  | [] => None
  | x :: l' =>
      match last_index c l' with
      | Some i => Some (S i)
      | None => if Ascii.eqb x c then Some O else None
      end
  end.

Definition has_char (c : ascii) (l : chars) : bool := existsb (Ascii.eqb c) l.

Lemma last_index_app_absent c l : has_char c l = false → last_index c l = None.
Proof.
  unfold has_char. induction l as [|x l IH]; [done|]. cbn.
  intros [H1 H2]%orb_false_iff. rewrite IH by done. by rewrite Ascii.eqb_sym, H1.
Qed.

Lemma last_index_mid c h t :
  has_char c t = false → last_index c (h ++ c :: t) = Some (length h).
Proof.
  intros Ht. induction h as [|x h IH]; cbn.
  - by rewrite last_index_app_absent, Ascii.eqb_refl.
  - by rewrite IH.
Qed.

Lemma has_char_app c l k : has_char c (l ++ k) = has_char c l || has_char c k.
Proof. apply existsb_app. Qed.

Lemma has_char_false c l : has_char c l = false ↔ c ∉ l.
Proof.
  unfold has_char. induction l as [|x l IH]; cbn; [split; [set_solver|done]|].
  rewrite orb_false_iff, IH, not_elem_of_cons.
  destruct (Ascii.eqb_spec c x); naive_solver.
Qed.

(** ** The order of strings, bytewise *)

Lemma ascii_compare_code c d : Ascii.compare c d = (code c ?= code d).
Proof. unfold Ascii.compare, code. by rewrite N2Z.inj_compare. Qed.

Lemma string_ltb_compare a b : String.ltb a b = true ↔ String.compare a b = Lt.
Proof. unfold String.ltb. by destruct (String.compare a b). Qed.

Lemma string_ltb_irrefl a : String.ltb a a = false.
Proof.
  apply not_true_iff_false. rewrite string_ltb_compare.
  induction a as [|c a IH]; cbn; [done|].
  by rewrite ascii_compare_code, Z.compare_refl.
Qed.

Lemma string_ltb_trans a b c :
  String.ltb a b = true → String.ltb b c = true → String.ltb a c = true.
Proof.
  rewrite !string_ltb_compare. revert b c.
  induction a as [|x a IH]; intros [|y b] [|z c]; cbn; try done.
  rewrite !ascii_compare_code.
  destruct (Z.compare_spec (code x) (code y)), (Z.compare_spec (code y) (code z)),
    (Z.compare_spec (code x) (code z)); intros; try done; try lia. by eapply IH.
Qed.

Lemma string_ltb_total a b : String.ltb a b = true ∨ a = b ∨ String.ltb b a = true.
Proof.
  rewrite !string_ltb_compare. revert b.
  induction a as [|x a IH]; intros [|y b]; cbn; auto.
  rewrite !ascii_compare_code.
  destruct (Z.compare_spec (code x) (code y)), (Z.compare_spec (code y) (code x));
    try lia; auto.
  destruct (IH b) as [?|[->|?]]; auto. right; left. f_equal. by apply code_inj.
Qed.

(** ** Decimal integers: [strconv.FormatInt(z, 10)] and [strconv.Atoi] *)

Definition is_digit (c : ascii) : bool := (48 <=? code c) && (code c <=? 57).

Fixpoint format_digits (fuel : nat) (n : Z) (acc : chars) : chars :=
  match fuel with
  | O => acc
  | S fuel' =>
      if n <? 10 then chr (48 + n) :: acc
      else format_digits fuel' (n / 10) (chr (48 + n mod 10) :: acc)
  end.

Definition format_nat (n : Z) : chars := format_digits (S (Z.to_nat (Z.log2 n))) n [].

Definition FormatInt (z : Z) : chars :=
  if z <? 0 then "-"%char :: format_nat (- z) else format_nat z.

Definition decimal (z : Z) : string := string_of (FormatInt z).

Definition digits_value (l : chars) : Z :=
  fold_left (λ a c, a * 10 + (code c - 48)) l 0.

Definition all_digits (l : chars) : bool :=
  match l with [] => false | _ => forallb is_digit l end.

(** The errors of [strconv]: syntax, and out of the 64-bit range. *)
Inductive num_error : Type := ErrSyntax | ErrRange.

(** The value and the error, as both are used: 0 with [ErrSyntax], the nearest
    64-bit integer with [ErrRange]. *)
Definition Atoi (l : chars) : Z * option num_error :=
  let '(neg, ds) := match l with
                    | "-"%char :: l' => (true, l')
                    | "+"%char :: l' => (false, l')
                    | _ => (false, l)
                    end in
  if all_digits ds then
    let v := if (neg : bool) then - digits_value ds else digits_value ds in
    if in_int64 v then (v, None)
    else (if neg then int64_min else int64_max, Some ErrRange)
  else (0, Some ErrSyntax).

Definition ParseInt (l : chars) : option Z :=
  match Atoi l with (v, None) => Some v | _ => None end.

(** [strconv.ParseUint(s, 10, 32)]. *)
Definition ParseUint32 (l : chars) : option Z :=
  if all_digits l then
    let v := digits_value l in if v <? 2 ^ 32 then Some v else None
  else None.

Lemma log2_div10 n : 10 ≤ n → Z.log2 (n / 10) < Z.log2 n.
Proof.
  intros. assert (1 ≤ n / 10) by (apply Z.div_le_lower_bound; lia).
  assert (n / 10 * 2 ≤ n) by (pose proof (Z.mul_div_le n 10); lia).
  assert (Z.log2 (n / 10 * 2) = Z.succ (Z.log2 (n / 10))) as Hl.
  { rewrite Z.mul_comm. apply Z.log2_double. lia. }
  pose proof (Z.log2_le_mono (n / 10 * 2) n). lia.
Qed.

Lemma is_digit_chr d : 0 ≤ d < 10 → is_digit (chr (48 + d)) = true.
Proof. intros. unfold is_digit. rewrite code_chr by lia. lia. Qed.

Lemma format_digits_spec fuel n acc :
  0 ≤ n → (Z.to_nat (Z.log2 n) < fuel)%nat →
  ∃ ds, format_digits fuel n acc = ds ++ acc ∧ all_digits ds = true ∧
    (∀ a, fold_left (λ a c, a * 10 + (code c - 48)) (ds ++ acc) a
          = fold_left (λ a c, a * 10 + (code c - 48)) acc (a * 10 ^ zlen ds + n)).
Proof.
  revert n acc. induction fuel as [|fuel IH]; intros n acc Hn Hf; [lia|]. cbn.
  destruct (Z.ltb_spec n 10).
  - exists [chr (48 + n)]. split; [done|split].
    + unfold all_digits, forallb. by rewrite is_digit_chr.
    + intros a. change (zlen [_]) with 1. cbn [app fold_left]. f_equal.
      rewrite code_chr by lia. lia.
  - pose proof (Z.mod_pos_bound n 10 ltac:(lia)).
    assert (0 ≤ n / 10) by (apply Z.div_pos; lia).
    destruct (IH (n / 10) (chr (48 + n mod 10) :: acc)) as (ds & Heq & Hd & Hv);
      [done|pose proof (log2_div10 n ltac:(lia)); pose proof (Z.log2_nonneg (n / 10)); lia|].
    exists (ds ++ [chr (48 + n mod 10)]). split_and!.
    + by rewrite Heq, <-app_assoc.
    + destruct ds; [done|]. cbn in *. rewrite forallb_app. cbn.
      rewrite is_digit_chr by done. zbool. by rewrite H2, H3.
    + intros a. rewrite <-app_assoc. cbn [app]. rewrite Hv. cbn [fold_left]. f_equal.
      rewrite code_chr by lia. rewrite zlen_app. change (zlen [_]) with 1.
      rewrite Z.pow_add_r by (pose proof (zlen_nonneg ds); lia).
      pose proof (Z.div_mod n 10). lia.
Qed.

Lemma format_nat_spec n :
  0 ≤ n → all_digits (format_nat n) = true ∧ digits_value (format_nat n) = n.
Proof.
  intros Hn. unfold format_nat, digits_value.
  destruct (format_digits_spec (S (Z.to_nat (Z.log2 n))) n []) as (ds & -> & Hd & Hv);
    [done|lia|]. rewrite Hv. cbn. rewrite app_nil_r. done.
Qed.

Lemma all_digits_head l : all_digits l = true → ∃ c l', l = c :: l' ∧ is_digit c = true.
Proof. destruct l as [|c l]; cbn; [done|]. intros ?; zbool; eauto. Qed.

Lemma ParseInt_FormatInt z : in_int64 z = true → ParseInt (FormatInt z) = Some z.
Proof.
  intros Hz. unfold ParseInt, Atoi, FormatInt. destruct (Z.ltb_spec z 0).
  - destruct (format_nat_spec (- z)) as [-> ->]; [lia|]. by rewrite Z.opp_involutive, Hz.
  - destruct (format_nat_spec z) as [Hd Hv]; [lia|].
    destruct (all_digits_head _ Hd) as (c & l' & Heq & Hc). rewrite Heq in *.
    assert (c ≠ "-"%char ∧ c ≠ "+"%char) as [??]
      by (split; intros ->; vm_compute in Hc; done).
    destruct c as [[] [] [] [] [] [] [] []]; try (by vm_compute in Hc);
      cbv beta iota; by rewrite Hd, Hv, Hz.
Qed.

Lemma ParseUint32_FormatInt z : 0 ≤ z < 2 ^ 32 → ParseUint32 (FormatInt z) = Some z.
Proof.
  intros Hz. unfold ParseUint32, FormatInt. destruct (Z.ltb_spec z 0); [lia|].
  destruct (format_nat_spec z) as [-> ->]; [lia|].
  destruct (Z.ltb_spec z (2 ^ 32)); [done|lia].
Qed.

Lemma FormatInt_inj y z : FormatInt y = FormatInt z → y = z.
Proof.
  assert (∀ n c l, 0 ≤ n → format_nat n ≠ c :: l ∨ is_digit c = true) as Hdig.
  { intros n c l Hn. destruct (format_nat_spec n Hn) as [Hd _].
    destruct (all_digits_head _ Hd) as (? & ? & -> & ?).
    destruct (decide (x = c)) as [->|]; [by right|left; congruence]. }
  unfold FormatInt. intros H.
  destruct (Z.ltb_spec y 0), (Z.ltb_spec z 0).
  - simplify_eq. destruct (format_nat_spec (- y)), (format_nat_spec (- z)); try lia.
    assert (- y = - z) by congruence. lia.
  - destruct (Hdig z "-"%char (format_nat (- y))) as [?|Hm]; [done|congruence|].
    by vm_compute in Hm.
  - destruct (Hdig y "-"%char (format_nat (- z))) as [?|Hm]; [done|congruence|].
    by vm_compute in Hm.
  - destruct (format_nat_spec y), (format_nat_spec z); try lia. congruence.
Qed.

Lemma format_digits_length fuel n acc :
  (length (format_digits fuel n acc) ≤ fuel + length acc)%nat.
Proof.
  revert n acc. induction fuel as [|fuel IH]; intros n acc; cbn; [lia|].
  destruct (n <? 10); cbn; [lia|]. specialize (IH (n / 10) (chr (48 + n mod 10) :: acc)).
  cbn in IH. lia.
Qed.

Lemma FormatInt_length z : in_int64 z = true → (length (FormatInt z) ≤ 66)%nat.
Proof.
  intros Hz%in_int64_spec.
  assert (∀ n, 0 ≤ n ≤ 2 ^ 63 → (length (format_nat n) ≤ 65)%nat) as Hn.
  { intros n Hn. unfold format_nat.
    pose proof (format_digits_length (S (Z.to_nat (Z.log2 n))) n []) as Hl.
    pose proof (Z.log2_le_mono n (2 ^ 63) ltac:(lia)) as Hm.
    rewrite Z.log2_pow2 in Hm by lia. cbn [length] in Hl. lia. }
  unfold FormatInt. destruct (Z.ltb_spec z 0); cbn [length].
  - specialize (Hn (- z)). zlia.
  - specialize (Hn z). zlia.
Qed.

(** A hexadecimal digit. *)
Definition hex_val (c : ascii) : option Z :=
  let n := code c in
  if (48 <=? n) && (n <=? 57) then Some (n - 48)
  else if (97 <=? n) && (n <=? 102) then Some (n - 87)
  else if (65 <=? n) && (n <=? 70) then Some (n - 55)
  else None.

(** ** UTF-8 *)

Definition RuneError : Z := 0xFFFD.

(** The first byte of a sequence of several bytes: its length and the range of
    the second byte. *)
Definition first_info (b : Z) : option (nat * Z * Z) :=
  if (0xC2 <=? b) && (b <=? 0xDF) then Some (2%nat, 0x80, 0xBF)
  else if b =? 0xE0 then Some (3%nat, 0xA0, 0xBF)
  else if b =? 0xED then Some (3%nat, 0x80, 0x9F)
  else if (0xE1 <=? b) && (b <=? 0xEF) then Some (3%nat, 0x80, 0xBF)
  else if b =? 0xF0 then Some (4%nat, 0x90, 0xBF)
  else if (0xF1 <=? b) && (b <=? 0xF3) then Some (4%nat, 0x80, 0xBF)
  else if b =? 0xF4 then Some (4%nat, 0x80, 0x8F)
  else None.

Definition between (lo hi : Z) (c : ascii) : bool := (lo <=? code c) && (code c <=? hi).
Definition cont_bits (c : ascii) : Z := Z.land (code c) 0x3F.

(** [utf8.DecodeRuneInString]: the rune and the number of bytes; one byte and
    [RuneError] for an invalid sequence. *)
Definition DecodeRune (l : chars) : Z * nat :=
  match l with
  | [] => (RuneError, O)
  | c0 :: t =>
      let b := code c0 in
      if b <? 0x80 then (b, 1%nat) else
      match first_info b, t with
      | Some (2%nat, lo, hi), c1 :: _ =>
          if between lo hi c1
          then (Z.lor (Z.shiftl (Z.land b 0x1F) 6) (cont_bits c1), 2%nat)
          else (RuneError, 1%nat)
      | Some (3%nat, lo, hi), c1 :: c2 :: _ =>
          if between lo hi c1 && between 0x80 0xBF c2
          then (Z.lor (Z.shiftl (Z.land b 0x0F) 12)
                  (Z.lor (Z.shiftl (cont_bits c1) 6) (cont_bits c2)), 3%nat)
          else (RuneError, 1%nat)
      | Some (4%nat, lo, hi), c1 :: c2 :: c3 :: _ =>
          if between lo hi c1 && between 0x80 0xBF c2 && between 0x80 0xBF c3
          then (Z.lor (Z.shiftl (Z.land b 0x07) 18)
                  (Z.lor (Z.shiftl (cont_bits c1) 12)
                     (Z.lor (Z.shiftl (cont_bits c2) 6) (cont_bits c3))), 4%nat)
          else (RuneError, 1%nat)
      | _, _ => (RuneError, 1%nat)
      end
  end.

(** [utf8.AppendRune]. *)
Definition EncodeRune (r : Z) : chars :=
  if (0 <=? r) && (r <? 0x80) then [chr r]
  else if (0x80 <=? r) && (r <? 0x800) then
    [chr (Z.lor 0xC0 (Z.shiftr r 6)); chr (Z.lor 0x80 (Z.land r 0x3F))]
  else if (r <? 0) || (0x10FFFF <? r) || ((0xD800 <=? r) && (r <=? 0xDFFF)) then
    [chr 0xEF; chr 0xBF; chr 0xBD]
  else if r <? 0x10000 then
    [chr (Z.lor 0xE0 (Z.shiftr r 12)); chr (Z.lor 0x80 (Z.land (Z.shiftr r 6) 0x3F));
     chr (Z.lor 0x80 (Z.land r 0x3F))]
  else
    [chr (Z.lor 0xF0 (Z.shiftr r 18)); chr (Z.lor 0x80 (Z.land (Z.shiftr r 12) 0x3F));
     chr (Z.lor 0x80 (Z.land (Z.shiftr r 6) 0x3F)); chr (Z.lor 0x80 (Z.land r 0x3F))].

(** The bytes of one rune of several bytes: [DecodeRune] reads exactly them,
    whatever follows. *)
Definition multi_rune (l : chars) (r : Z) : Prop :=
  (1 < length l)%nat ∧ (∀ c, c ∈ l → 0x80 ≤ code c) ∧
  ∀ t, DecodeRune (l ++ t) = (r, length l).

Fixpoint valid_utf8_fuel (fuel : nat) (l : chars) : bool :=
  match fuel, l with
  | _, [] => true
  | O, _ => false
  | S fuel', c :: _ =>
      let n := (DecodeRune l).2 in
      ((code c <? 0x80) || (1 <? n)%nat) && valid_utf8_fuel fuel' (drop n l)
  end.

(** [utf8.ValidString]. *)
Definition valid_utf8 (l : chars) : bool := valid_utf8_fuel (length l) l.
Definition ValidString (s : string) : bool := valid_utf8 (chars_of s).

Lemma DecodeRune_size l : l ≠ [] → (1 ≤ (DecodeRune l).2 ≤ length l)%nat.
Proof.
  intros Hl. destruct l as [|c0 t]; [done|]. unfold DecodeRune.
  repeat case_match; simpl; lia.
Qed.

Lemma between_ge lo hi c : between lo hi c = true → lo ≤ code c ≤ hi.
Proof. unfold between. intros. zbool. lia. Qed.

Lemma lor_add x k y : 0 ≤ k → 0 ≤ y < 2 ^ k → Z.lor (Z.shiftl x k) y = x * 2 ^ k + y.
Proof.
  intros Hk Hy. rewrite Z.shiftl_mul_pow2 by done. symmetry. apply Z.add_nocarry_lor.
  apply Z.bits_inj'. intros i Hi. rewrite Z.land_spec, Z.bits_0.
  destruct (Z.ltb_spec i k).
  - by rewrite Z.mul_pow2_bits_low.
  - replace y with (y mod 2 ^ k) by (by apply Z.mod_small).
    rewrite Z.mod_pow2_bits_high by lia. apply andb_false_r.
Qed.

Lemma cont_bits_range lo hi c :
  between lo hi c = true → 0x80 ≤ lo → hi ≤ 0xBF → cont_bits c = code c - 128.
Proof.
  unfold between, cont_bits. intros. zbool. change 63 with (Z.ones 6).
  rewrite Z.land_ones by lia. change (2 ^ 6) with 64.
  Z.to_euclidean_division_equations. lia.
Qed.

Lemma first_info_inv b k lo hi :
  first_info b = Some (k, lo, hi) →
  0x80 ≤ lo ∧ hi ≤ 0xBF ∧
  ((k = 2%nat ∧ 0xC2 ≤ b ≤ 0xDF) ∨ (k = 3%nat ∧ 0xE0 ≤ b ≤ 0xEF) ∨
   (k = 4%nat ∧ (0xF0 < b ≤ 0xF4 ∨ (b = 0xF0 ∧ 0x90 ≤ lo)))).
Proof. unfold first_info. repeat case_match; intros; simplify_eq; zbool; lia. Qed.

Lemma DecodeRune_multi c0 t n r :
  (1 < n)%nat → DecodeRune (c0 :: t) = (r, n) → multi_rune (take n (c0 :: t)) r.
Proof.
  intros Hn Hd. pose proof (DecodeRune_size (c0 :: t) ltac:(done)) as Hsz. rewrite Hd in Hsz.
  cbn [snd] in Hsz. unfold multi_rune. rewrite length_take.
  replace (n `min` length (c0 :: t))%nat with n by lia.
  split; [done|]. revert Hd. unfold DecodeRune.
  destruct (Z.ltb_spec (code c0) 128); [intros; simplify_eq; lia|].
  destruct (first_info (code c0)) as [[[k lo] hi]|] eqn:Hf; [|intros; simplify_eq; lia].
  pose proof (first_info_inv _ _ _ _ Hf) as (Hlo & _).
  destruct k as [|[|[|[|[|k]]]]]; try (intros; simplify_eq; lia);
    destruct t as [|c1 t]; try (intros; simplify_eq; lia);
    try (destruct t as [|c2 t]; try (intros; simplify_eq; lia));
    try (destruct t as [|c3 t]; try (intros; simplify_eq; lia));
    case_match; intros; simplify_eq; try lia.
  all: split; [cbn; zbool;
      repeat match goal with H : between _ _ _ = true |- _ => apply between_ge in H end;
      set_unfold; naive_solver lia|].
  all: intros; cbn; rewrite Hf; destruct (Z.ltb_spec (code c0) 128); [lia|]; zbool;
    repeat match goal with H : between _ _ _ = true |- _ => rewrite H end; done.
Qed.

Lemma first_info_cases b k lo hi :
  first_info b = Some (k, lo, hi) →
  (k = 2%nat ∧ 0xC2 ≤ b ≤ 0xDF ∧ lo = 0x80 ∧ hi = 0xBF) ∨
  (k = 3%nat ∧ ((b = 0xE0 ∧ lo = 0xA0 ∧ hi = 0xBF) ∨ (b = 0xED ∧ lo = 0x80 ∧ hi = 0x9F) ∨
                (0xE1 ≤ b ≤ 0xEF ∧ b ≠ 0xED ∧ lo = 0x80 ∧ hi = 0xBF))) ∨
  (k = 4%nat ∧ ((b = 0xF0 ∧ lo = 0x90 ∧ hi = 0xBF) ∨ (b = 0xF4 ∧ lo = 0x80 ∧ hi = 0x8F) ∨
                (0xF1 ≤ b ≤ 0xF3 ∧ lo = 0x80 ∧ hi = 0xBF))).
Proof. unfold first_info. repeat case_match; intros; simplify_eq; zbool; lia. Qed.

Lemma chr_eq z c : z = code c → chr z = c.
Proof. intros ->. apply chr_code. Qed.

Lemma land_3F z : Z.land z 0x3F = z mod 64.
Proof. change 0x3F with (Z.ones 6). by rewrite Z.land_ones by lia. Qed.

Lemma lor_80 z : 0 ≤ z < 64 → Z.lor 0x80 z = 128 + z.
Proof. intros. change 0x80 with (Z.shiftl 2 6). by rewrite lor_add by lia. Qed.
Lemma lor_C0 z : 0 ≤ z < 32 → Z.lor 0xC0 z = 192 + z.
Proof. intros. change 0xC0 with (Z.shiftl 6 5). by rewrite lor_add by lia. Qed.
Lemma lor_E0 z : 0 ≤ z < 16 → Z.lor 0xE0 z = 224 + z.
Proof. intros. change 0xE0 with (Z.shiftl 14 4). by rewrite lor_add by lia. Qed.
Lemma lor_F0 z : 0 ≤ z < 8 → Z.lor 0xF0 z = 240 + z.
Proof. intros. change 0xF0 with (Z.shiftl 30 3). by rewrite lor_add by lia. Qed.

(** The three multi-byte forms as polynomials of their bytes. *)
Lemma EncodeRune_2 a b :
  2 ≤ a < 32 → 0 ≤ b < 64 → EncodeRune (a * 64 + b) = [chr (192 + a); chr (128 + b)].
Proof.
  intros. unfold EncodeRune. rewrite Z.shiftr_div_pow2, land_3F by lia. change (2 ^ 6) with 64.
  replace ((a * 64 + b) / 64) with a by (Z.to_euclidean_division_equations; lia).
  replace ((a * 64 + b) mod 64) with b by (Z.to_euclidean_division_equations; lia).
  rewrite lor_C0, lor_80 by lia.
  destruct (Z.ltb_spec (a * 64 + b) 128), (Z.leb_spec 0 (a * 64 + b)),
    (Z.leb_spec 128 (a * 64 + b)), (Z.ltb_spec (a * 64 + b) 2048); try lia; done.
Qed.

Lemma EncodeRune_3 a b c :
  0 ≤ a < 16 → 0 ≤ b < 64 → 0 ≤ c < 64 → 2048 ≤ a * 4096 + b * 64 + c →
  ¬ (0xD800 ≤ a * 4096 + b * 64 + c ≤ 0xDFFF) →
  EncodeRune (a * 4096 + b * 64 + c) = [chr (224 + a); chr (128 + b); chr (128 + c)].
Proof.
  intros Ha Hb Hc Hr Hs. unfold EncodeRune. set (r := a * 4096 + b * 64 + c) in *.
  rewrite !Z.shiftr_div_pow2, !land_3F by lia. change (2 ^ 6) with 64. change (2 ^ 12) with 4096.
  replace (r / 4096) with a by (subst r; Z.to_euclidean_division_equations; lia).
  replace ((r / 64) mod 64) with b by (subst r; Z.to_euclidean_division_equations; lia).
  replace (r mod 64) with c by (subst r; Z.to_euclidean_division_equations; lia).
  rewrite lor_E0, !lor_80 by lia.
  destruct (Z.ltb_spec r 128), (Z.leb_spec 0 r), (Z.leb_spec 128 r), (Z.ltb_spec r 2048),
    (Z.ltb_spec r 0), (Z.ltb_spec 0x10FFFF r), (Z.leb_spec 0xD800 r), (Z.leb_spec r 0xDFFF),
    (Z.ltb_spec r 0x10000); try lia; done.
Qed.

Lemma EncodeRune_4 a b c d :
  0 ≤ a < 8 → 0 ≤ b < 64 → 0 ≤ c < 64 → 0 ≤ d < 64 →
  0x10000 ≤ a * 262144 + b * 4096 + c * 64 + d ≤ 0x10FFFF →
  EncodeRune (a * 262144 + b * 4096 + c * 64 + d)
  = [chr (240 + a); chr (128 + b); chr (128 + c); chr (128 + d)].
Proof.
  intros Ha Hb Hc Hd Hr. unfold EncodeRune. set (r := a * 262144 + b * 4096 + c * 64 + d) in *.
  rewrite !Z.shiftr_div_pow2, !land_3F by lia. change (2 ^ 6) with 64. change (2 ^ 12) with 4096.
  change (2 ^ 18) with 262144.
  replace (r / 262144) with a by (subst r; Z.to_euclidean_division_equations; lia).
  replace ((r / 4096) mod 64) with b by (subst r; Z.to_euclidean_division_equations; lia).
  replace ((r / 64) mod 64) with c by (subst r; Z.to_euclidean_division_equations; lia).
  replace (r mod 64) with d by (subst r; Z.to_euclidean_division_equations; lia).
  rewrite lor_F0, !lor_80 by lia.
  destruct (Z.ltb_spec r 128), (Z.leb_spec 0 r), (Z.leb_spec 128 r), (Z.ltb_spec r 2048),
    (Z.ltb_spec r 0), (Z.ltb_spec 0x10FFFF r), (Z.leb_spec 0xD800 r), (Z.leb_spec r 0xDFFF),
    (Z.ltb_spec r 0x10000); try lia; done.
Qed.

(** Writing a decoded rune gives its bytes back. *)
Lemma EncodeRune_DecodeRune c0 t r n :
  (1 < n)%nat → DecodeRune (c0 :: t) = (r, n) → EncodeRune r = take n (c0 :: t).
Proof.
  intros Hn. unfold DecodeRune. destruct (Z.ltb_spec (code c0) 128); [intros; simplify_eq; lia|].
  destruct (first_info (code c0)) as [[[k lo] hi]|] eqn:Hf; [|intros; simplify_eq; lia].
  pose proof (first_info_inv _ _ _ _ Hf) as (Hlo & Hhi & _).
  apply first_info_cases in Hf as [(-> & Hb)|[(-> & Hb)|(-> & Hb)]];
    repeat case_match; intros; simplify_eq; try lia; zbool;
    repeat match goal with
    | H : between _ _ ?c = true |- _ =>
        rewrite (cont_bits_range _ _ _ H) by lia; apply between_ge in H
    end.
  - change 31 with (Z.ones 5). rewrite Z.land_ones by lia. rewrite lor_add by lia.
    change (2 ^ 5) with 32. change (2 ^ 6) with 64.
    replace (code c0 mod 32) with (code c0 - 192) by (Z.to_euclidean_division_equations; lia).
    rewrite EncodeRune_2 by lia. cbn. by rewrite (chr_eq _ c0), (chr_eq _ a) by lia.
  - change 15 with (Z.ones 4). rewrite Z.land_ones by lia. rewrite (lor_add _ 6) by lia.
    rewrite lor_add by lia. change (2 ^ 4) with 16. change (2 ^ 6) with 64. change (2 ^ 12) with 4096.
    replace (code c0 mod 16) with (code c0 - 224) by (Z.to_euclidean_division_equations; lia).
    rewrite Z.add_assoc, EncodeRune_3 by lia.
    cbn. by rewrite (chr_eq _ c0), (chr_eq _ a), (chr_eq _ a0) by lia.
  - change 7 with (Z.ones 3). rewrite Z.land_ones by lia. rewrite (lor_add _ 6) by lia.
    rewrite (lor_add _ 12) by lia. rewrite lor_add by lia.
    change (2 ^ 3) with 8. change (2 ^ 6) with 64. change (2 ^ 12) with 4096. change (2 ^ 18) with 262144.
    replace (code c0 mod 8) with (code c0 - 240) by (Z.to_euclidean_division_equations; lia).
    rewrite !Z.add_assoc, EncodeRune_4 by lia.
    cbn. by rewrite (chr_eq _ c0), (chr_eq _ a), (chr_eq _ a0), (chr_eq _ a1) by lia.
Qed.
