(* ===== verification/Codec.v ===== *)
(** * The GSP frame codec

    internal/gsp: [protocol.go], [error.go] and [codec.go]. A frame is one type
    byte, the payload length as four little-endian bytes, and the payload. The
    reader side of a [net.Conn] is the list of bytes still to come before EOF;
    the writer side is a [Conn], which records the bytes sent and how many more
    the peer accepts before a write fails. *)

From S2P Require Import Prelude.
Local Open Scope go_scope.
Local Open Scope Z_scope.

(** internal/gsp/protocol.go:6-6 [TypeJSON] *)
Definition TypeJSON : Z := 1.
(** internal/gsp/protocol.go:7-7 [TypeFileChunk] *)
Definition TypeFileChunk : Z := 2.

(** internal/gsp/protocol.go:11-15 [Packet] *)
Record Packet : Type := mkPacket {
  Type_ : Z;
  Length : Z;
  Payload : bytes;
}.

(** The errors of the codec: those of [io.ReadFull], the two of the code that
    build a message from sizes, and [Panic] for a slice expression out of range.
    internal/gsp/error.go:5-7 [ErrInvalidType] *)
Inductive error : Type :=
| EOF
| ErrUnexpectedEOF
| ErrInvalidType
| ErrPayloadSize (dataLen capacity : Z)
| ErrFrameLimit (limit : Z)
| ErrWrite
| Panic.

#[export] Instance error_eq_dec : EqDecision error.
Proof. solve_decision. Defined.

(** ** Readers and writers of the standard library, as the codec uses them *)

(** [io.ReadFull(r, buf)] with [len(buf) = n]. *)
Definition ReadFull (n : Z) (r : bytes) : res error bytes * bytes :=
  if n <=? zlen r then (Ok (take (Z.to_nat n) r), drop (Z.to_nat n) r)
  else (Err (match r with [] => EOF | _ => ErrUnexpectedEOF end), []).

(** The slice expression [buf[:n]] of a buffer of capacity [capacity]. *)
Definition reslice (capacity n : Z) : res error unit :=
  guard_err ((n <? 0) || (capacity <? n)) Panic.

(** [binary.LittleEndian.Uint32] of a four-byte slice. *)
Definition Uint32 (b : bytes) : Z :=
  match map byte_val b with
  | [b0; b1; b2; b3] =>
      Z.lor b0 (Z.lor (Z.shiftl b1 8) (Z.lor (Z.shiftl b2 16) (Z.shiftl b3 24)))
  | _ => 0
  end.

(** [binary.LittleEndian.PutUint32]. *)
Definition PutUint32 (v : Z) : bytes :=
  [byte_of v; byte_of (Z.shiftr v 8); byte_of (Z.shiftr v 16); byte_of (Z.shiftr v 24)].

Record Conn : Type := mkConn {
  sent : bytes;
  room : option Z;
}.

Definition conn_write (c : Conn) (b : bytes) : bool * Conn :=
  match room c with
  | None => (true, mkConn (sent c ++ b) None)
  | Some k =>
      if zlen b <=? k then (true, mkConn (sent c ++ b) (Some (k - zlen b)))
      else (false, mkConn (sent c ++ take (Z.to_nat k) b) (Some 0))
  end.

(** [net.Buffers.WriteTo]: the buffers in order, up to the first failing write. *)
Fixpoint buffers_write (c : Conn) (bufs : list bytes) : bool * Conn :=
  match bufs with
  | [] => (true, c)
  | b :: bufs' =>
      let '(ok, c') := conn_write c b in
      if ok then buffers_write c' bufs' else (false, c')
  end.

(** ** The codec *)

(** The five header bytes. internal/gsp/codec.go:45-47 [Codec.EncodeTo] *)
Definition header (typ : Z) (payload : bytes) : bytes :=
  byte_of typ :: PutUint32 (uint32 (zlen payload)).

(** internal/gsp/codec.go:43-54 [Codec.EncodeTo] *)
Definition EncodeTo (conn : Conn) (typ : Z) (payload : bytes) : bool * Conn :=
  buffers_write conn [header typ payload; payload].

(** The frame a successful [EncodeTo] puts on the wire. *)
Definition frame (typ : Z) (payload : bytes) : bytes := header typ payload ++ payload.

(** internal/gsp/codec.go:23-25 [Codec.Decode] *)
Definition known_type (t : Z) : bool := (t =? TypeJSON) || (t =? TypeFileChunk).

(** internal/gsp/codec.go:16-40 [Codec.Decode] *)
Definition Decode (r : bytes) (capacity : Z) : res error Packet * bytes :=
  match ReadFull 5 r with
  | (Err e, r') => (Err e, r')
  | (Ok hd, r') =>
      let typ := byte_val (nth 0 hd Byte.x00) in
      if negb (known_type typ) then (Err ErrInvalidType, r') else
      let dataLen := Uint32 (drop 1 hd) in
      if uint32 capacity <? dataLen then (Err (ErrPayloadSize dataLen capacity), r') else
      match reslice capacity dataLen with
      | Err e => (Err e, r')
      | Ok _ =>
          match ReadFull dataLen r' with
          | (Err e, r'') => (Err e, r'')
          | (Ok payload, r'') => (Ok (mkPacket typ dataLen payload), r'')
          end
      end
  end.

(** internal/gsp/codec.go:57-78 [Codec.DecodeBounded] *)
Definition DecodeBounded (r : bytes) (capacity limit : Z) : res error Packet * bytes :=
  match ReadFull 5 r with
  | (Err e, r') => (Err e, r')
  | (Ok hd, r') =>
      let typ := byte_val (nth 0 hd Byte.x00) in
      if negb (known_type typ) then (Err ErrInvalidType, r') else
      let n := Uint32 (drop 1 hd) in
      if limit <? n then (Err (ErrFrameLimit limit), r') else
      match (if uint32 capacity <? n then Ok tt else reslice capacity n) with
      | Err e => (Err e, r')
      | Ok _ =>
          match ReadFull n r' with
          | (Err e, r'') => (Err e, r'')
          | (Ok payload, r'') => (Ok (mkPacket typ n payload), r'')
          end
      end
  end.

(** ** Lemmas *)

Lemma lor_shift_add a b k :
  0 ≤ k → 0 ≤ a < 2 ^ k → Z.lor a (b * 2 ^ k) = a + b * 2 ^ k.
Proof.
  intros Hk Ha. symmetry. apply Z.add_nocarry_lor, Z.bits_inj'. intros n Hn.
  rewrite Z.land_spec, Z.bits_0. destruct (Z_lt_dec n k) as [Hlt|Hge].
  - rewrite (Z.mul_pow2_bits_low b) by lia. apply andb_false_r.
  - rewrite <-(Z.mod_small a (2 ^ k)) by lia.
    by rewrite Z.mod_pow2_bits_high by lia.
Qed.

(** The little-endian value as a polynomial. *)
Lemma Uint32_value b0 b1 b2 b3 :
  Uint32 [b0; b1; b2; b3] =
  byte_val b0 + byte_val b1 * 2 ^ 8 + byte_val b2 * 2 ^ 16 + byte_val b3 * 2 ^ 24.
Proof.
  unfold Uint32. cbn [map].
  pose proof (byte_val_range b0). pose proof (byte_val_range b1).
  pose proof (byte_val_range b2). pose proof (byte_val_range b3).
  rewrite !Z.shiftl_mul_pow2 by lia.
  rewrite (lor_shift_add _ (byte_val b3) 24) by lia.
  replace (byte_val b2 * 2 ^ 16 + byte_val b3 * 2 ^ 24)
    with ((byte_val b2 + byte_val b3 * 2 ^ 8) * 2 ^ 16) by lia.
  rewrite (lor_shift_add (byte_val b1 * 2 ^ 8) _ 16) by lia.
  replace (byte_val b1 * 2 ^ 8 + (byte_val b2 + byte_val b3 * 2 ^ 8) * 2 ^ 16)
    with ((byte_val b1 + (byte_val b2 + byte_val b3 * 2 ^ 8) * 2 ^ 8) * 2 ^ 8) by lia.
  rewrite (lor_shift_add (byte_val b0) _ 8) by lia. lia.
Qed.

Lemma Uint32_PutUint32 v : 0 ≤ v < 2 ^ 32 → Uint32 (PutUint32 v) = v.
Proof.
  intros. unfold PutUint32. rewrite Uint32_value, !byte_val_of.
  rewrite !Z.shiftr_div_pow2 by lia.
  change (2 ^ 8) with 256. change (2 ^ 16) with 65536. change (2 ^ 24) with 16777216.
  change (2 ^ 32) with 4294967296 in *.
  Z.to_euclidean_division_equations. lia.
Qed.

Lemma byte_of_eq z b : z mod 256 = byte_val b → byte_of z = b.
Proof.
  intros H. rewrite <-(byte_of_val b), <-H. unfold byte_of. by rewrite Zmod_mod.
Qed.

Lemma PutUint32_Uint32 b0 b1 b2 b3 :
  PutUint32 (Uint32 [b0; b1; b2; b3]) = [b0; b1; b2; b3].
Proof.
  rewrite Uint32_value. unfold PutUint32.
  pose proof (byte_val_range b0). pose proof (byte_val_range b1).
  pose proof (byte_val_range b2). pose proof (byte_val_range b3).
  rewrite !Z.shiftr_div_pow2 by lia.
  change (2 ^ 8) with 256. change (2 ^ 16) with 65536. change (2 ^ 24) with 16777216.
  repeat f_equal; apply byte_of_eq; Z.to_euclidean_division_equations; lia.
Qed.

Lemma Uint32_range b : 0 ≤ Uint32 b < 2 ^ 32.
Proof.
  destruct b as [|b0 [|b1 [|b2 [|b3 [|]]]]]; try (cbn; lia).
  rewrite Uint32_value.
  pose proof (byte_val_range b0). pose proof (byte_val_range b1).
  pose proof (byte_val_range b2). pose proof (byte_val_range b3). lia.
Qed.

#[export] Hint Resolve Uint32_range : go.

Lemma ReadFull_app (a b : bytes) : ReadFull (zlen a) (a ++ b) = (Ok a, b).
Proof.
  unfold ReadFull. rewrite zlen_app. pose proof (zlen_nonneg b).
  rewrite (proj2 (Z.leb_le _ _)) by lia.
  unfold zlen. rewrite Nat2Z.id. by rewrite take_app_length, drop_app_length.
Qed.

Lemma ReadFull_Ok n r b r' :
  0 ≤ n → ReadFull n r = (Ok b, r') → r = b ++ r' ∧ zlen b = n.
Proof.
  unfold ReadFull. intros Hn H. destruct (n <=? zlen r) eqn:E; simplify_eq.
  zbool. rewrite take_drop. split; [done|]. unfold zlen in *.
  rewrite length_take. lia.
Qed.

Lemma ReadFull_Err n r e r' :
  ReadFull n r = (Err e, r') → e = EOF ∨ e = ErrUnexpectedEOF.
Proof.
  unfold ReadFull. intros H. repeat case_match; simplify_eq; auto.
Qed.

Lemma zlen_header typ p : zlen (header typ p) = 5.
Proof. done. Qed.

Lemma known_type_byte t : known_type t = true → byte_val (byte_of t) = t.
Proof.
  unfold known_type, TypeJSON, TypeFileChunk. rewrite byte_val_of.
  intros [?%Z.eqb_eq|?%Z.eqb_eq]%orb_true_iff; by subst.
Qed.

Lemma five_bytes (hd : bytes) :
  zlen hd = 5 → ∃ b t, hd = b :: t ∧ PutUint32 (Uint32 t) = t.
Proof.
  destruct hd as [|b [|b0 [|b1 [|b2 [|b3 [|]]]]]]; unfold zlen; simpl; try lia.
  intros _. exists b, [b0; b1; b2; b3]. split; [done|]. apply PutUint32_Uint32.
Qed.

Lemma uint32_le z : 0 ≤ z → uint32 z ≤ z.
Proof. intros. unfold uint32. by apply Z.mod_le. Qed.

Lemma reslice_Ok capacity n : 0 ≤ n ≤ capacity → reslice capacity n = Ok tt.
Proof.
  intros. unfold reslice, guard_err.
  by rewrite (proj2 (Z.ltb_ge _ _)), (proj2 (Z.ltb_ge _ _)) by lia.
Qed.

Lemma conn_write_true c b c' : conn_write c b = (true, c') → sent c' = sent c ++ b.
Proof. unfold conn_write. intros. repeat case_match; by simplify_eq/=. Qed.

Lemma EncodeTo_true c typ p c' :
  EncodeTo c typ p = (true, c') → sent c' = sent c ++ frame typ p.
Proof.
  unfold EncodeTo, frame. cbn [buffers_write]. intros H.
  destruct (conn_write c _) as [[] c1] eqn:E1; [|done].
  destruct (conn_write c1 _) as [[] c2] eqn:E2; simplify_eq.
  apply conn_write_true in E1, E2. by rewrite E2, E1, app_assoc.
Qed.

Lemma EncodeTo_open c typ p :
  room c = None → EncodeTo c typ p = (true, mkConn (sent c ++ frame typ p) None).
Proof.
  intros H. unfold EncodeTo, frame. cbn [buffers_write]. unfold conn_write.
  rewrite H. cbn [room sent]. by rewrite app_assoc.
Qed.

Lemma Decode_frame typ p rest capacity :
  known_type typ = true → zlen p < 2 ^ 32 → 0 ≤ capacity → zlen p ≤ uint32 capacity →
  Decode (frame typ p ++ rest) capacity = (Ok (mkPacket typ (zlen p) p), rest).
Proof.
  intros Ht Hp Hc Hcap. pose proof (zlen_nonneg p). pose proof (uint32_le _ Hc).
  unfold Decode, frame. rewrite <-app_assoc.
  rewrite <-(zlen_header typ p), ReadFull_app.
  cbn [header nth drop]. rewrite known_type_byte, Ht by done. cbn [negb].
  rewrite drop_0, (uint32_id (zlen p)), Uint32_PutUint32 by lia.
  rewrite (proj2 (Z.ltb_ge _ _)) by lia.
  rewrite reslice_Ok by lia. by rewrite ReadFull_app.
Qed.

Lemma DecodeBounded_frame typ p rest capacity limit :
  known_type typ = true → zlen p < 2 ^ 32 → 0 ≤ capacity → zlen p ≤ limit →
  DecodeBounded (frame typ p ++ rest) capacity limit
  = (Ok (mkPacket typ (zlen p) p), rest).
Proof.
  intros Ht Hp Hc Hl. pose proof (zlen_nonneg p). pose proof (uint32_le _ Hc).
  unfold DecodeBounded, frame. rewrite <-app_assoc.
  rewrite <-(zlen_header typ p), ReadFull_app.
  cbn [header nth drop]. rewrite known_type_byte, Ht by done. cbn [negb].
  rewrite drop_0, (uint32_id (zlen p)), Uint32_PutUint32 by lia.
  rewrite (proj2 (Z.ltb_ge limit _)) by lia.
  destruct (uint32 capacity <? zlen p) eqn:E; zbool.
  - by rewrite ReadFull_app.
  - rewrite reslice_Ok by lia. by rewrite ReadFull_app.
Qed.

(** Reassembling the input from the header and the payload that were read. *)
Lemma frame_of_parts (hd p r r1 r2 : bytes) n :
  ReadFull 5 r = (Ok hd, r1) → ReadFull (Uint32 (drop 1 hd)) r1 = (Ok p, r2) →
  n = Uint32 (drop 1 hd) →
  r = frame (byte_val (nth 0 hd Byte.x00)) p ++ r2 ∧ zlen p = n.
Proof.
  intros H1 H2 ->. apply ReadFull_Ok in H1 as [-> H5]; [|lia].
  pose proof (Uint32_range (drop 1 hd)).
  apply ReadFull_Ok in H2 as [-> Hp]; [|lia]. split; [|done].
  apply five_bytes in H5 as (b & t & -> & Hput).
  change (drop 1 (b :: t)) with t in *. cbn [nth].
  unfold frame, header. rewrite byte_of_val, Hp, uint32_id, Hput by lia.
  by rewrite <-app_assoc.
Qed.

(** What both decoders guarantee of a packet they return, and of an error. *)
Definition decoded (r : bytes) (bound : Z) (out : res error Packet * bytes) : Prop :=
  match out with
  | (Ok q, r') =>
      r = frame (Type_ q) (Payload q) ++ r' ∧ known_type (Type_ q) = true ∧
      zlen (Payload q) = Length q ∧ 0 ≤ Length q ≤ bound
  | (Err e, _) => e ≠ Panic
  end.

Lemma Decode_decoded r capacity : 0 ≤ capacity → decoded r capacity (Decode r capacity).
Proof.
  intros Hc. pose proof (uint32_le _ Hc). unfold Decode.
  destruct (ReadFull 5 r) as [[hd|e] r1] eqn:H1; cycle 1.
  { by apply ReadFull_Err in H1 as [-> | ->]. }
  destruct (known_type _) eqn:Ht; [|done]. cbn [negb].
  pose proof (Uint32_range (drop 1 hd)).
  destruct (_ <? _) eqn:E; [done|]. zbool. rewrite reslice_Ok by lia.
  destruct (ReadFull (Uint32 _) r1) as [[p|e] r2] eqn:H2; cycle 1.
  { by apply ReadFull_Err in H2 as [-> | ->]. }
  destruct (frame_of_parts _ _ _ _ _ _ H1 H2 eq_refl) as [-> Hp].
  simpl. repeat split; try done; lia.
Qed.

Lemma DecodeBounded_decoded r capacity limit :
  0 ≤ capacity → decoded r limit (DecodeBounded r capacity limit).
Proof.
  intros Hc. pose proof (uint32_le _ Hc). unfold DecodeBounded.
  destruct (ReadFull 5 r) as [[hd|e] r1] eqn:H1; cycle 1.
  { by apply ReadFull_Err in H1 as [-> | ->]. }
  destruct (known_type _) eqn:Ht; [|done]. cbn [negb].
  pose proof (Uint32_range (drop 1 hd)).
  destruct (limit <? _) eqn:E; [done|]. zbool.
  assert ((if uint32 capacity <? Uint32 (drop 1 hd) then Ok tt
           else reslice capacity (Uint32 (drop 1 hd))) = Ok (E := error) tt) as ->.
  { destruct (_ <? _) eqn:E'; [done|]. zbool. apply reslice_Ok. lia. }
  destruct (ReadFull (Uint32 _) r1) as [[p|e] r2] eqn:H2; cycle 1.
  { by apply ReadFull_Err in H2 as [-> | ->]. }
  destruct (frame_of_parts _ _ _ _ _ _ H1 H2 eq_refl) as [-> Hp].
  simpl. repeat split; try done; lia.
Qed.

(** ** Properties *)

(** C25. Round trip of the frame codec: after a successful [EncodeTo] on a
    connection, and whatever follows the frame on the wire, both decoders
    return exactly the packet that was written (type, length and payload) and
    leave exactly the bytes that follow, whenever the payload fits the length
    field, the buffer of [Decode] and the limit of [DecodeBounded]. *)
Theorem codec_roundtrip typ payload rest conn conn' capacity limit :
  known_type typ = true →
  zlen payload < 2 ^ 32 →
  0 ≤ capacity → zlen payload ≤ uint32 capacity →
  zlen payload ≤ limit →
  EncodeTo conn typ payload = (true, conn') →
  ∃ wire, sent conn' = sent conn ++ wire ∧
    Decode (wire ++ rest) capacity
      = (Ok (mkPacket typ (zlen payload) payload), rest) ∧
    DecodeBounded (wire ++ rest) capacity limit
      = (Ok (mkPacket typ (zlen payload) payload), rest).
Proof.
  intros Ht Hp Hc Hcap Hl Henc. exists (frame typ payload).
  split; [by apply EncodeTo_true|]. split.
  - by apply Decode_frame.
  - by apply DecodeBounded_frame.
Qed.

Lemma codec_roundtrip_witness :
  ∃ wire, wire = [Byte.x02; Byte.x02; Byte.x00; Byte.x00; Byte.x00; Byte.xaa; Byte.xbb] ∧
    Decode (wire ++ [Byte.x07]) 4096
      = (Ok (mkPacket 2 2 [Byte.xaa; Byte.xbb]), [Byte.x07]).
Proof.
  destruct (codec_roundtrip 2 [Byte.xaa; Byte.xbb] [Byte.x07] (mkConn [] None)
    (mkConn [Byte.x02; Byte.x02; Byte.x00; Byte.x00; Byte.x00; Byte.xaa; Byte.xbb] None)
    4096 8 ltac:(reflexivity) ltac:(reflexivity) ltac:(lia) ltac:(vm_compute; discriminate)
    ltac:(vm_compute; discriminate) ltac:(reflexivity)) as (wire & Hw & Hd & _).
  exists wire. split; [symmetry; exact Hw|exact Hd].
Defined.

(** C26. Inputs accepted by the decoders are exactly frames: a packet returned by
    [Decode] or [DecodeBounded] re-encodes to the very bytes consumed, its type
    is one of the two frame types, its payload has the announced length, and
    that length is at most the buffer's capacity ([Decode]) or the caller's
    limit ([DecodeBounded]); every failure is a returned error, never a slice
    expression out of range. *)
Theorem decode_sound r capacity limit :
  0 ≤ capacity →
  decoded r capacity (Decode r capacity) ∧
  decoded r limit (DecodeBounded r capacity limit).
Proof.
  intros Hc. split; [by apply Decode_decoded|by apply DecodeBounded_decoded].
Qed.

Lemma decode_sound_witness :
  decoded [Byte.x01; Byte.x09; Byte.x00; Byte.x00; Byte.x00] 4
    (Decode [Byte.x01; Byte.x09; Byte.x00; Byte.x00; Byte.x00] 4).
Proof. apply (decode_sound _ 4 4). lia. Defined.
