(* ===== verification/Mempool.v ===== *)
(** * The buffer pool

    pkg/mempool/mempool.go. Buffers are pointers to slices; since a pointer is
    shared by the pool and its borrowers, the model keeps a heap from locations
    to slice headers (length and capacity; the bytes themselves belong to the
    borrower and are not looked at by the pool). The channel is the list of
    pointers it holds, oldest first. *)

From S2P Require Import Prelude.
Local Open Scope Z_scope.

Abbreviation loc := positive.

Record slice : Type := mkSlice {
  s_len : Z;
  s_cap : Z;
}.

Abbreviation heap := (gmap loc slice).

(** pkg/mempool/mempool.go:4-7 [MemPool] *)
Record MemPool : Type := mkMemPool {
  pool_size : Z;
  ch : list loc;
}.

(** The channel's buffer size. pkg/mempool/mempool.go:9-9 [NewMemPool] *)
Definition ch_cap : nat := 16.

(** pkg/mempool/mempool.go:9-9 [NewMemPool] *)
Definition NewMemPool (size : Z) : MemPool := mkMemPool size [].

(** [*p = ( *p)[:n]]: the header changes in place. *)
Definition set_len (n : Z) (s : slice) : slice := mkSlice n (s_cap s).

(** [make([]byte, n)] behind a fresh pointer. pkg/mempool/mempool.go:22-23 [MemPool.Get] *)
Definition alloc (n : Z) (h : heap) : loc * heap :=
  let p := fresh (dom h) in (p, <[p := mkSlice n n]> h).

(** pkg/mempool/mempool.go:10-24 [MemPool.Get] *)
Definition Get (n : Z) (h : heap) (m : MemPool) : loc * heap * MemPool :=
  let n := if n <? 0 then 0 else n in
  if n =? pool_size m then
    match ch m with
    | p :: rest => (p, alter (set_len n) p h, mkMemPool (pool_size m) rest)
    | [] => (alloc n h, m)
    end
  else (alloc n h, m).

(** pkg/mempool/mempool.go:25-34 [MemPool.Put] *)
Definition Put (p : option loc) (h : heap) (m : MemPool) : heap * MemPool :=
  match p with
  | None => (h, m)
  | Some p =>
      match h !! p with
      | None => (h, m)
      | Some s =>
          if negb (s_cap s =? pool_size m) then (h, m) else
          let h' := <[p := set_len (pool_size m) s]> h in
          if (length (ch m) <? ch_cap)%nat then (h', mkMemPool (pool_size m) (ch m ++ [p]))
          else (h', m)
      end
  end.

(** ** A pool and its borrowers

    [held] are the pointers obtained from [Get] and not yet handed back. A
    borrower may reslice its buffer below the capacity; it gives back only a
    pointer it holds, once. *)
Record pool_state : Type := mkState {
  st_heap : heap;
  st_pool : MemPool;
  held : gset loc;
}.

Definition init_state (sz : Z) : pool_state := mkState ∅ (NewMemPool sz) ∅.

Inductive step : pool_state → pool_state → Prop :=
| step_get n h m B p h' m' :
    Get n h m = (p, h', m') →
    step (mkState h m B) (mkState h' m' ({[p]} ∪ B))
| step_put p h m B h' m' :
    p ∈ B → Put (Some p) h m = (h', m') →
    step (mkState h m B) (mkState h' m' (B ∖ {[p]}))
| step_reslice p n h m B :
    p ∈ B → step (mkState h m B) (mkState (alter (set_len n) p h) m B).

Definition reachable (sz : Z) (s : pool_state) : Prop := rtc step (init_state sz) s.

Record pool_inv (sz : Z) (s : pool_state) : Prop := {
  pi_size : pool_size (st_pool s) = sz;
  pi_nodup : NoDup (ch (st_pool s));
  pi_bound : (length (ch (st_pool s)) ≤ ch_cap)%nat;
  pi_cached p : p ∈ ch (st_pool s) → st_heap s !! p = Some (mkSlice sz sz);
  pi_apart p : p ∈ ch (st_pool s) → p ∉ held s;
  pi_held p : p ∈ held s → is_Some (st_heap s !! p);
}.

(** ** Lemmas *)

Lemma alloc_fresh n h p h' :
  alloc n h = (p, h') → h !! p = None ∧ h' = <[p := mkSlice n n]> h.
Proof.
  unfold alloc. intros H. simplify_eq. split; [|done].
  apply not_elem_of_dom, is_fresh.
Qed.

Lemma pool_inv_alloc sz h m B p h' n :
  pool_inv sz (mkState h m B) → alloc n h = (p, h') →
  p ∉ B ∧ pool_inv sz (mkState h' m ({[p]} ∪ B)).
Proof.
  intros [] (Hp & ->)%alloc_fresh. simpl in *.
  assert (p ∉ B) by (intros [? ?]%pi_held0; congruence).
  assert (p ∉ ch m) by (intros ?%pi_cached0; congruence).
  split; [done|]. split; simpl; try done.
  - intros q Hq. rewrite lookup_insert_ne by naive_solver. eauto.
  - set_solver.
  - intros q Hq. rewrite lookup_insert. case_decide; [by eauto|].
    apply pi_held0. set_solver.
Qed.

(** What a [Get] guarantees, and that it keeps the invariant. *)
Lemma Get_spec sz n h m B p h' m' :
  pool_inv sz (mkState h m B) → Get n h m = (p, h', m') →
  p ∉ B ∧ s_len <$> (h' !! p) = Some (Z.max 0 n) ∧
  pool_inv sz (mkState h' m' ({[p]} ∪ B)).
Proof.
  intros Hinv HG. unfold Get in HG.
  assert ((if n <? 0 then 0 else n) = Z.max 0 n) as Hn.
  { destruct (n <? 0) eqn:E; zbool; lia. }
  rewrite Hn in HG. clear Hn.
  assert (∀ p h', (alloc (Z.max 0 n) h, m) = (p, h', m') →
    p ∉ B ∧ s_len <$> (h' !! p) = Some (Z.max 0 n) ∧
    pool_inv sz (mkState h' m' ({[p]} ∪ B))) as Halloc.
  { intros q k Heq. assert (alloc (Z.max 0 n) h = (q, k) ∧ m' = m) as [Ha ->] by naive_solver.
    destruct (pool_inv_alloc _ _ _ _ _ _ _ Hinv Ha).
    apply alloc_fresh in Ha as (_ & ->). by rewrite lookup_insert_eq. }
  destruct (_ =? _) eqn:E; [|by apply Halloc].
  destruct (ch m) as [|q rest] eqn:Hch; [by apply Halloc|]. clear Halloc.
  zbool. destruct Hinv as [Hsz Hnd Hb Hc Ha Hh]. simpl in *. simplify_eq.
  rewrite Hch in *. apply NoDup_cons in Hnd as [Hq Hnd].
  assert (h !! p = Some (mkSlice (pool_size m) (pool_size m))) as Hp by (apply Hc; set_solver).
  rewrite E.
  assert (alter (set_len (pool_size m)) p h = h) as ->.
  { apply map_eq. intros j. rewrite lookup_alter. case_decide; [|done].
    subst. by rewrite Hp. }
  rewrite Hp. split; [set_solver|]. split; [done|]. split; simpl; try done.
  - simpl in Hb. lia.
  - set_solver.
  - set_solver.
  - intros j [->%elem_of_singleton|?]%elem_of_union; eauto.
Qed.

Lemma Put_inv sz h m B p h' m' :
  pool_inv sz (mkState h m B) → p ∈ B → Put (Some p) h m = (h', m') →
  pool_inv sz (mkState h' m' (B ∖ {[p]})).
Proof.
  intros [Hsz Hnd Hb Hc Ha Hh] HpB HP. simpl in *.
  destruct (Hh p HpB) as [s Hs]. rewrite Hs in HP.
  assert (p ∉ ch m) as Hpc by (intros ?; by eapply Ha).
  destruct (s_cap s =? pool_size m) eqn:E; simpl in HP; cycle 1.
  { simplify_eq. split; simpl; try done; [set_solver|]. intros q Hq. apply Hh. set_solver. }
  zbool. assert (set_len (pool_size m) s = mkSlice sz sz) as Hset.
  { unfold set_len. by rewrite E, Hsz. }
  rewrite Hset in HP.
  assert (∀ q, q ∈ ch m → <[p:=mkSlice sz sz]> h !! q = Some (mkSlice sz sz)) as Hold.
  { intros q Hq. rewrite lookup_insert. case_decide; eauto. }
  assert (∀ q, q ∈ B ∖ {[p]} → is_Some (<[p:=mkSlice sz sz]> h !! q)) as Hheld.
  { intros q Hq. rewrite lookup_insert. case_decide; [by eauto|]. apply Hh. set_solver. }
  destruct (_ <? _)%nat eqn:El; simplify_eq; split; simpl; try done.
  - apply NoDup_app. split_all; [|apply NoDup_singleton]. by intros q Hq ->%list_elem_of_singleton.
  - zbool. apply Nat.ltb_lt in El. rewrite length_app. simpl. unfold ch_cap in *. lia.
  - intros q [? | ->%list_elem_of_singleton]%elem_of_app; [by apply Hold|].
    by rewrite lookup_insert_eq.
  - intros q [Hq | ->%list_elem_of_singleton]%elem_of_app [HqB Hne]%elem_of_difference; [by apply (Ha q)|].
    by apply Hne, elem_of_singleton.
  - intros q Hq [HqB _]%elem_of_difference. by apply (Ha q).
Qed.

Lemma pool_inv_init sz : pool_inv sz (init_state sz).
Proof. split; simpl; try done; try set_solver; [constructor|unfold ch_cap; lia]. Qed.

Lemma pool_inv_step sz s s' : pool_inv sz s → step s s' → pool_inv sz s'.
Proof.
  intros Hinv Hs. revert Hinv.
  destruct Hs as [n h m B p h' m' HG|p h m B h' m' Hp HP|p n h m B Hp]; intros Hinv.
  - by apply (Get_spec _ _ _ _ _ _ _ _ Hinv) in HG as (_ & _ & ?).
  - by apply (Put_inv _ _ _ _ _ _ _ Hinv) in HP.
  - destruct Hinv as [Hsz Hnd Hb Hc Ha Hh]. split; simpl in *; try done.
    + intros q Hq. rewrite lookup_alter. case_decide; [|by auto].
      subst. exfalso. by eapply Ha.
    + intros q Hq. rewrite lookup_alter. case_decide; [|by auto].
      subst. destruct (Hh q Hq) as [v ->]. by eexists.
Qed.

Lemma pool_inv_reachable sz s : reachable sz s → pool_inv sz s.
Proof.
  unfold reachable. intros H. assert (pool_inv sz (init_state sz)) as Hi by apply pool_inv_init.
  revert Hi. generalize (init_state sz) as s0, H. clear H.
  intros s0 H. induction H; eauto using pool_inv_step.
Qed.

(** ** Properties *)

(** C39. Exclusive buffers: in every state reachable by borrowing, reslicing and
    returning buffers (each returned once by its holder), [Get(n)] hands out a
    buffer that nobody else holds, of length exactly [max(0, n)]; the pool never
    caches more than 16 buffers, caches no buffer twice, and every cached buffer
    has the pool's full length and capacity again. *)
Theorem mempool_exclusive sz s n p h' m' :
  reachable sz s →
  Get n (st_heap s) (st_pool s) = (p, h', m') →
  p ∉ held s ∧ s_len <$> (h' !! p) = Some (Z.max 0 n) ∧
  NoDup (ch m') ∧ (length (ch m') ≤ 16)%nat ∧
  (∀ q, q ∈ ch m' → q ≠ p ∧ q ∉ held s ∧ h' !! q = Some (mkSlice sz sz)).
Proof.
  intros Hr HG. apply pool_inv_reachable in Hr. destruct s as [h m B]. simpl in *.
  destruct (Get_spec _ _ _ _ _ _ _ _ Hr HG) as (Hp & Hlen & Hinv).
  destruct Hinv as [_ Hnd Hb Hc Ha _]. simpl in *.
  repeat (split; [assumption|]). intros q Hq. pose proof (Ha q Hq).
  split; [set_solver|]. split; [set_solver|by apply Hc].
Qed.

Lemma mempool_exclusive_witness :
  ∃ s p h' m', reachable 8 s ∧ held s = {[2%positive]} ∧
    Get 8 (st_heap s) (st_pool s) = (p, h', m') ∧ p ∉ held s.
Proof.
  set (h := ({[1%positive := mkSlice 8 8; 2%positive := mkSlice 8 8]} : heap)).
  set (s := mkState h (mkMemPool 8 [1%positive])
              (({[2%positive]} ∪ ({[1%positive]} ∪ ∅)) ∖ {[1%positive]})).
  assert (reachable 8 s) as Hr.
  { eapply rtc_l; [eapply (step_get 8); vm_compute; reflexivity|].
    eapply rtc_l; [eapply (step_get 8); vm_compute; reflexivity|].
    apply rtc_once. apply step_put; [set_solver|vm_compute; reflexivity]. }
  assert (Get 8 (st_heap s) (st_pool s) = (1%positive, h, mkMemPool 8 [])) as HG
    by (vm_compute; reflexivity).
  exists s, 1%positive, h, (mkMemPool 8 []).
  split; [exact Hr|]. split; [vm_compute; reflexivity|]. split; [exact HG|].
  exact (proj1 (mempool_exclusive 8 s 8 _ _ _ Hr HG)).
Defined.
