(* ===== verification/Chunk.v ===== *)
(** * Files as numbered chunks

    internal/chunk ([file.go], [read.go], [write.go]) with the constant of
    internal/const and the IEEE CRC32 of the standard library. An [*os.File] is
    a descriptor; [Files] maps the open descriptors to the file behind them, so
    that a file shared by several handles, or changed by somebody else, is one
    object. *)

From S2P Require Import Prelude.
Local Open Scope Z_scope.

(** internal/const/const.go:3-3 [ChunkSize] *)
Definition ChunkSize : Z := 4 * Z.shiftl 1 20.

(** ** CRC32 (IEEE, reflected), bit by bit: [hash/crc32.ChecksumIEEE] *)

Definition crc_poly : Z := 0xEDB88320.

Definition crc_bit (c : Z) : Z :=
  if Z.odd c then Z.lxor (Z.shiftr c 1) crc_poly else Z.shiftr c 1.

Definition crc_byte (c : Z) (b : Byte.byte) : Z :=
  Nat.iter 8 crc_bit (Z.lxor c (byte_val b)).

Definition ChecksumIEEE (data : bytes) : Z :=
  Z.lxor (fold_left crc_byte data 0xFFFFFFFF) 0xFFFFFFFF.

(** A checksum is a 32-bit word. *)
Lemma lxor_range a b k : 0 ≤ a < 2 ^ k → 0 ≤ b < 2 ^ k → 0 ≤ Z.lxor a b < 2 ^ k.
Proof.
  intros Ha Hb. assert (0 ≤ k) by (destruct (Z.neg_nonneg_cases k); [|done]; rewrite Z.pow_neg_r in Ha; lia).
  split; [apply Z.lxor_nonneg; lia|].
  destruct (Z.eq_dec (Z.lxor a b) 0) as [->|Hne]; [lia|].
  apply Z.log2_lt_pow2; [pose proof (proj2 (Z.lxor_nonneg a b)); lia|].
  pose proof (Z.log2_lxor a b ltac:(lia) ltac:(lia)).
  assert (∀ x, 0 ≤ x < 2 ^ k → Z.log2 x < k ∨ k = 0) as Hl.
  { intros x Hx. destruct (Z.eq_dec k 0); [auto|left].
    destruct (Z.eq_dec x 0) as [->|]; [cbn; lia|]. apply Z.log2_lt_pow2; lia. }
  destruct (Hl a Ha), (Hl b Hb); [lia| | |]; subst k; exfalso; apply Hne;
    replace a with 0 by lia; replace b with 0 by lia; done.
Qed.

Lemma crc_bit_range c : 0 ≤ c < 2 ^ 32 → 0 ≤ crc_bit c < 2 ^ 32.
Proof.
  intros Hc. assert (0 ≤ Z.shiftr c 1 < 2 ^ 32).
  { rewrite Z.shiftr_div_pow2 by lia. change (2 ^ 1) with 2.
    Z.to_euclidean_division_equations. lia. }
  unfold crc_bit. destruct (Z.odd c); [|done]. apply lxor_range; [done|]. unfold crc_poly. lia.
Qed.

Lemma crc_byte_range c b : 0 ≤ c < 2 ^ 32 → 0 ≤ crc_byte c b < 2 ^ 32.
Proof.
  intros Hc. unfold crc_byte. assert (0 ≤ Z.lxor c (byte_val b) < 2 ^ 32) as H0.
  { apply lxor_range; [done|]. pose proof (byte_val_range b). lia. }
  generalize 8%nat as n. intros n. induction n as [|n IH]; [done|]. rewrite Nat.iter_succ. by apply crc_bit_range.
Qed.

Lemma ChecksumIEEE_range data : 0 ≤ ChecksumIEEE data < 2 ^ 32.
Proof.
  unfold ChecksumIEEE. apply lxor_range; [|lia].
  assert (∀ c, 0 ≤ c < 2 ^ 32 → 0 ≤ fold_left crc_byte data c < 2 ^ 32) as Hf; [|apply Hf; lia].
  induction data as [|b data IH]; intros c Hc; [done|]. cbn [fold_left].
  by apply IH, crc_byte_range.
Qed.

(** ** Open files *)

Abbreviation fd := positive.

(** [os.FileInfo]: what the code looks at. [fi_id] is the identity
    [os.SameFile] compares. *)
Record FileInfo : Type := mkInfo {
  fi_name : string;
  fi_size : Z;
  fi_mtime : Z;
  fi_id : Z;
  fi_regular : bool;
}.

Record OsFile : Type := mkFile {
  f_name : string;
  f_data : bytes;
  f_mtime : Z;
  f_id : Z;
  f_regular : bool;
}.

Abbreviation Files := (gmap fd OsFile).

Definition info_of (f : OsFile) : FileInfo :=
  mkInfo (f_name f) (zlen (f_data f)) (f_mtime f) (f_id f) (f_regular f).

(** [f.Stat()]: fails on a closed file. *)
Definition Stat (fs : Files) (h : fd) : option FileInfo := info_of <$> fs !! h.

(** The file after [b] is written at offset [off], growing with zeros. *)
Definition patch (off : Z) (b : bytes) (l : bytes) : bytes :=
  let o := Z.to_nat off in
  take o (l ++ replicate (o - length l) Byte.x00) ++ b ++ drop (o + length b) l.

Definition with_data (f : OsFile) (b : bytes) : OsFile :=
  mkFile (f_name f) b (f_mtime f) (f_id f) (f_regular f).

(** Errors of this package and of the operations on files it calls. *)
Inductive error : Type :=
| ErrIndex (i : Z)
| ErrShortBuffer
| ErrLength (i want got : Z)
| ErrClosed
| ErrReadEOF
| ErrDisk
| ErrShortWrite.

(** [file.ReadAt(buf, off)] with [len(buf) = n]. *)
Definition ReadAt (fs : Files) (h : fd) (n off : Z) : res error bytes :=
  match fs !! h with
  | None => Err ErrClosed
  | Some f =>
      let got := zslice off n (f_data f) in
      if zlen got <? n then Err ErrReadEOF else Ok got
  end.

(** [file.WriteAt(data, off)]; [fail = Some k] is a disk that fails after [k]
    bytes. The result is the count and the error. *)
Definition WriteAt (fs : Files) (h : fd) (data : bytes) (off : Z) (fail : option nat)
    : Z * option error * Files :=
  match fs !! h with
  | None => (0, Some ErrClosed, fs)
  | Some f =>
      match fail with
      | None => (zlen data, None, <[h := with_data f (patch off data (f_data f))]> fs)
      | Some k =>
          let part := take k data in
          (zlen part, Some ErrDisk, <[h := with_data f (patch off part (f_data f))]> fs)
      end
  end.

(** ** The package *)

(** internal/chunk/file.go:12-17 [FileChunk] *)
Record FileChunk : Type := mkChunk {
  file : option fd;
  FileStat : option FileInfo;
  chunkSize : Z;
}.

(** The zero value [chunk.FileChunk{}]. internal/chunk/file.go:12-17 [FileChunk] *)
Definition zero_chunk : FileChunk := mkChunk None None 0.

(** internal/chunk/file.go:32-40 [NewFileChunk] *)
Definition NewFileChunk (fs : Files) (h : fd) : FileChunk :=
  mkChunk (Some h) (Stat fs h) ChunkSize.

(** internal/chunk/file.go:20-25 [FileChunk.GetChunkNum] *)
Definition GetChunkNum (ck : FileChunk) : Z :=
  match FileStat ck with
  | None => 0
  | Some st =>
      if fi_size st =? 0 then 0
      else Z.quot (int64 (fi_size st + chunkSize ck - 1)) (chunkSize ck)
  end.

(** internal/chunk/file.go:28-30 [FileChunk.GetChunkSize] *)
Definition GetChunkSize (ck : FileChunk) : Z := chunkSize ck.

(** internal/chunk/file.go:43-49 [FileChunk.Unchanged] *)
Definition Unchanged (fs : Files) (ck : FileChunk) : bool :=
  match FileStat ck, file ck with
  | Some st, Some h =>
      match Stat fs h with
      | Some now =>
          (fi_size now =? fi_size st) && (fi_mtime now =? fi_mtime st)
            && (fi_id now =? fi_id st)
      | None => false
      end
  | _, _ => false
  end.

(** The file's size as [ReadChunk] and [Save] read it: the index guard has
    already excluded a missing [FileStat]. *)
Definition stat_size (ck : FileChunk) : Z :=
  match FileStat ck with Some st => fi_size st | None => 0 end.

(** internal/chunk/read.go:10-27 [FileChunk.ReadChunk] *)
Definition ReadChunk (fs : Files) (ck : FileChunk) (index : Z) (buf_len : Z)
    : res error bytes :=
  if (GetChunkNum ck <=? index) || (index <? 0) then Err (ErrIndex index) else
  let offset := int64 (ChunkSize * index) in
  let readSize :=
    if stat_size ck <? int64 (offset + ChunkSize)
    then int64 (stat_size ck - offset) else ChunkSize in
  if buf_len <? readSize then Err ErrShortBuffer else
  match file ck with
  | None => Err ErrClosed
  | Some h => ReadAt fs h readSize offset
  end.

(** The pool's buffer is [chunkSize] bytes long, whichever buffer it is.
    internal/chunk/read.go:30-38 [FileChunk.CheckSum] *)
Definition CheckSum (fs : Files) (ck : FileChunk) (i : Z) : res error Z :=
  match ReadChunk fs ck i (chunkSize ck) with
  | Err e => Err e
  | Ok b => Ok (ChecksumIEEE b)
  end.

(** internal/chunk/write.go:8-21 [FileChunk.Save] *)
Definition Save (fs : Files) (ck : FileChunk) (index : Z) (data : bytes)
    (fail : option nat) : option error * Files :=
  if (index <? 0) || (GetChunkNum ck <=? index) then (Some (ErrIndex index), fs) else
  let want := Z.min (chunkSize ck)
                (int64 (stat_size ck - int64 (index * chunkSize ck))) in
  if negb (zlen data =? want) then (Some (ErrLength index want (zlen data)), fs) else
  match file ck with
  | None => (Some ErrClosed, fs)
  | Some h =>
      let '(n, err, fs') := WriteAt fs h data (int64 (index * chunkSize ck)) fail in
      (match err with
       | Some e => Some e
       | None => if n =? zlen data then None else Some ErrShortWrite
       end, fs')
  end.

(** ** Specification vocabulary *)

(** The bytes of chunk [i] of a file, and how many chunks a file has. *)
Definition chunk_bytes (data : bytes) (i : Z) : bytes :=
  zslice (i * ChunkSize) ChunkSize data.

Definition chunk_count (size : Z) : Z := (size + ChunkSize - 1) `div` ChunkSize.

Definition chunk_ids (ck : FileChunk) : list Z := seqZ 0 (GetChunkNum ck).

(** [ck] is a handle on an open file of unchanged size, small enough for the
    offsets to be 64-bit integers. *)
Record chunk_wf (fs : Files) (ck : FileChunk) (h : fd) (f : OsFile) : Prop := {
  wf_file : file ck = Some h;
  wf_open : fs !! h = Some f;
  wf_size : stat_size ck = zlen (f_data f);
  wf_stat : is_Some (FileStat ck);
  wf_chunk : chunkSize ck = ChunkSize;
  wf_bound : zlen (f_data f) + ChunkSize ≤ int64_max;
}.

(** ** Lemmas *)

Lemma ChunkSize_val : ChunkSize = 4194304.
Proof. done. Qed.

Lemma ChunkSize_pos : 0 < ChunkSize.
Proof. done. Qed.

(** Offsets are reasoned about symbolically: no unary four million. *)
#[global] Opaque ChunkSize.

Lemma NewFileChunk_wf fs h f :
  fs !! h = Some f → zlen (f_data f) + ChunkSize ≤ int64_max →
  chunk_wf fs (NewFileChunk fs h) h f.
Proof.
  intros Hf Hb. unfold NewFileChunk, Stat. rewrite Hf.
  by split.
Qed.

Lemma GetChunkNum_count fs ck h f :
  chunk_wf fs ck h f → GetChunkNum ck = chunk_count (zlen (f_data f)).
Proof.
  intros [Hfile Hopen Hsize [st Hst] Hc Hb]. unfold GetChunkNum, stat_size in *.
  rewrite Hst in *. rewrite Hc, Hsize. pose proof (zlen_nonneg (f_data f)).
  unfold chunk_count. pose proof ChunkSize_pos.
  destruct (_ =? 0) eqn:E; zbool.
  - rewrite E. done.
  - rewrite int64_id by zlia. apply Z.quot_div_nonneg; lia.
Qed.

Lemma chunk_count_range size i :
  0 ≤ size → (0 ≤ i < chunk_count size ↔ 0 ≤ i ∧ i * ChunkSize < size).
Proof.
  intros. unfold chunk_count. pose proof ChunkSize_pos.
  split; intros [H1 H2]; (split; [done|]); Z.to_euclidean_division_equations; nia.
Qed.

Lemma chunk_count_nonneg size : 0 ≤ size → 0 ≤ chunk_count size.
Proof. intros. unfold chunk_count. pose proof ChunkSize_pos. apply Z.div_pos; lia. Qed.

Lemma chunk_count_covers size : size ≤ chunk_count size * ChunkSize.
Proof.
  unfold chunk_count. pose proof ChunkSize_pos.
  Z.to_euclidean_division_equations. lia.
Qed.

Lemma zlen_chunk_bytes data i :
  0 ≤ i → i * ChunkSize < zlen data →
  zlen (chunk_bytes data i) = Z.min ChunkSize (zlen data - i * ChunkSize).
Proof.
  intros. unfold chunk_bytes, zslice, zlen in *. rewrite length_take, length_drop. pose proof ChunkSize_pos. lia.
Qed.

(** [ReadChunk] on every branch. *)
Lemma ReadChunk_out fs ck i n :
  i < 0 ∨ GetChunkNum ck ≤ i → ReadChunk fs ck i n = Err (ErrIndex i).
Proof.
  intros H. unfold ReadChunk.
  destruct (GetChunkNum ck <=? i) eqn:E1, (i <? 0) eqn:E2; try done. zbool. lia.
Qed.

Lemma ReadChunk_in fs ck h f i n :
  chunk_wf fs ck h f → 0 ≤ i < GetChunkNum ck →
  ReadChunk fs ck i n =
    if n <? zlen (chunk_bytes (f_data f) i) then Err ErrShortBuffer
    else Ok (chunk_bytes (f_data f) i).
Proof.
  intros Hwf Hi. pose proof (GetChunkNum_count _ _ _ _ Hwf) as Hn.
  pose proof (zlen_nonneg (f_data f)) as H0.
  rewrite Hn, chunk_count_range in Hi by done. destruct Hi as [Hi1 Hi2].
  assert (i < chunk_count (zlen (f_data f))) as Hi3.
  { apply chunk_count_range; lia. }
  unfold ReadChunk. rewrite Hn.
  rewrite (proj2 (Z.leb_gt _ _)), (proj2 (Z.ltb_ge _ _)) by lia. cbn [orb].
  destruct Hwf as [Hfile Hopen Hsize _ _ Hb]. rewrite Hsize, Hfile.
  pose proof (zlen_chunk_bytes _ _ Hi1 Hi2) as Hlen. pose proof ChunkSize_pos. rewrite (Z.mul_comm _ i).
  rewrite (int64_id (i * _)), !int64_id by zlia.
  assert ((if zlen (f_data f) <? i * ChunkSize + ChunkSize
           then zlen (f_data f) - i * ChunkSize else ChunkSize)
          = zlen (chunk_bytes (f_data f) i)) as ->.
  { rewrite Hlen. destruct (_ <? _) eqn:E; zbool; lia. }
  destruct (n <? _); [done|]. unfold ReadAt. rewrite Hopen.
  assert (zslice (i * ChunkSize) (zlen (chunk_bytes (f_data f) i)) (f_data f)
          = chunk_bytes (f_data f) i) as ->.
  { rewrite Hlen. unfold chunk_bytes, zslice. pose proof ChunkSize_pos.
    destruct (Z.min_spec ChunkSize (zlen (f_data f) - i * ChunkSize)) as [[_ ->]|[Hm ->]]; [done|].
    rewrite !take_ge; [done| |]; rewrite length_drop; unfold zlen in *; lia. }
  by rewrite Z.ltb_irrefl.
Qed.

(** ** Writing one chunk *)

Lemma patch_length off b l :
  0 ≤ off → off + zlen b ≤ zlen l → length (patch off b l) = length l.
Proof.
  unfold patch, zlen. intros. rewrite !length_app, length_take, length_app,
    length_replicate, length_drop. lia.
Qed.

Lemma patch_lookup off b l k :
  0 ≤ off → off + zlen b ≤ zlen l →
  patch off b l !! k =
    if decide (off ≤ Z.of_nat k < off + zlen b) then b !! (k - Z.to_nat off)%nat
    else l !! k.
Proof.
  unfold patch, zlen. intros Ho Hl.
  replace (Z.to_nat off - length l)%nat with 0%nat by lia. cbn [replicate].
  rewrite app_nil_r. case_decide as Hk.
  - rewrite lookup_app_r by (rewrite length_take; lia).
    rewrite length_take, lookup_app_l by lia. f_equal. lia.
  - destruct (decide (Z.of_nat k < off)).
    + rewrite lookup_app_l by (rewrite length_take; lia). by rewrite lookup_take_lt by lia.
    + rewrite lookup_app_r by (rewrite length_take; lia). rewrite length_take.
      rewrite lookup_app_r by lia. rewrite lookup_drop. f_equal. lia.
Qed.

(** Byte [k] lies in chunk [i]. *)
Definition in_chunk (i : Z) (k : nat) : Prop :=
  i * ChunkSize ≤ Z.of_nat k < (i + 1) * ChunkSize.

#[export] Instance in_chunk_dec i k : Decision (in_chunk i k).
Proof. unfold in_chunk. apply _. Defined.

Lemma chunk_bytes_lookup data i k :
  0 ≤ i → in_chunk i k →
  chunk_bytes data i !! (k - Z.to_nat (i * ChunkSize))%nat = data !! k.
Proof.
  unfold in_chunk, chunk_bytes, zslice. pose proof ChunkSize_pos. intros.
  rewrite lookup_take_lt by lia. rewrite lookup_drop. f_equal. lia.
Qed.

(** Writing chunk [i] of [src] into a file of the same length copies exactly the
    bytes of that chunk. *)
Lemma patch_chunk src tgt i k :
  0 ≤ i → i * ChunkSize < zlen src → length tgt = length src →
  patch (i * ChunkSize) (chunk_bytes src i) tgt !! k =
    if decide (in_chunk i k) then src !! k else tgt !! k.
Proof.
  intros Hi Hs Hlen. pose proof (zlen_chunk_bytes _ _ Hi Hs) as Hc. pose proof ChunkSize_pos. unfold zlen in *.
  rewrite patch_lookup by (unfold zlen; lia).
  destruct (decide (in_chunk i k)) as [Hin|Hout].
  - pose proof (chunk_bytes_lookup src i k Hi Hin) as Hb.
    unfold in_chunk in Hin. pose proof ChunkSize_pos.
    case_decide as Hd; [done|]. unfold zlen in Hd.
    rewrite !lookup_ge_None_2 by lia. done.
  - unfold in_chunk in Hout. pose proof ChunkSize_pos.
    case_decide as Hd; [|done]. unfold zlen in Hd. lia.
Qed.

(** [Save] on every branch. *)
Lemma Save_out fs ck i data fail :
  i < 0 ∨ GetChunkNum ck ≤ i → Save fs ck i data fail = (Some (ErrIndex i), fs).
Proof.
  intros H. unfold Save.
  destruct (i <? 0) eqn:E1, (GetChunkNum ck <=? i) eqn:E2; try done. zbool. lia.
Qed.

Lemma Save_in fs ck h f i data fail :
  chunk_wf fs ck h f → 0 ≤ i < GetChunkNum ck →
  Save fs ck i data fail =
    let want := Z.min ChunkSize (zlen (f_data f) - i * ChunkSize) in
    if negb (zlen data =? want) then (Some (ErrLength i want (zlen data)), fs)
    else match fail with
         | None => (None, <[h := with_data f (patch (i * ChunkSize) data (f_data f))]> fs)
         | Some k => (Some ErrDisk,
             <[h := with_data f (patch (i * ChunkSize) (take k data) (f_data f))]> fs)
         end.
Proof.
  intros Hwf Hi. pose proof (GetChunkNum_count _ _ _ _ Hwf) as Hn.
  pose proof (zlen_nonneg (f_data f)) as H0.
  assert (0 ≤ i ∧ i * ChunkSize < zlen (f_data f)) as [Hi1 Hi2].
  { apply chunk_count_range; lia. }
  unfold Save. rewrite Hn in *.
  rewrite (proj2 (Z.leb_gt _ _)), (proj2 (Z.ltb_ge _ _)) by lia. cbn [orb].
  destruct Hwf as [Hfile Hopen Hsize _ Hc Hb]. rewrite Hsize, Hfile, Hc. pose proof ChunkSize_pos.
  rewrite (int64_id (i * _)), !int64_id by zlia. cbv zeta.
  destruct (negb _); [done|]. unfold WriteAt. rewrite Hopen.
  destruct fail; [done|]. by rewrite Z.eqb_refl.
Qed.

(** A chunk handle stays valid after a [Save] through it, successful or not. *)
Lemma chunk_wf_patch fs ck h f i b :
  chunk_wf fs ck h f → 0 ≤ i → i + zlen b ≤ zlen (f_data f) →
  chunk_wf (<[h := with_data f (patch i b (f_data f))]> fs) ck h
    (with_data f (patch i b (f_data f))).
Proof.
  intros [] Hi Hb. assert (zlen (patch i b (f_data f)) = zlen (f_data f)) as Hl.
  { unfold zlen. by rewrite patch_length. }
  split; simpl; rewrite ?Hl; try done. by rewrite lookup_insert_eq.
Qed.

(** ** Reading and writing all chunks *)


(** The file seen through its handle, chunk by chunk. *)
Definition read_all (fs : Files) (ck : FileChunk) : list (res error bytes) :=
  (λ i, ReadChunk fs ck i ChunkSize) <$> chunk_ids ck.

Lemma concat_chunks data n :
  (Z.to_nat (chunk_count (zlen data)) ≤ n)%nat →
  concat (chunk_bytes data <$> seqZ 0 (Z.of_nat n)) = data.
Proof.
  intros Hn.
  assert (∀ m, concat (chunk_bytes data <$> seqZ 0 (Z.of_nat m))
               = take (Z.to_nat (Z.of_nat m * ChunkSize)) data) as Hpre.
  { induction m as [|m IH]; [done|].
    rewrite seqZ_S, fmap_app, concat_app, IH.
    cbn [fmap list_fmap concat]. rewrite app_nil_r.
    unfold chunk_bytes, zslice. pose proof ChunkSize_pos.
    replace (Z.to_nat (Z.of_nat (S m) * ChunkSize))
      with (Z.to_nat (Z.of_nat m * ChunkSize) + Z.to_nat ChunkSize)%nat by lia.
    rewrite Z.add_0_l. apply take_take_drop. }
  rewrite Hpre. apply take_ge.
  pose proof (chunk_count_covers (zlen data)). pose proof ChunkSize_pos.
  assert (chunk_count (zlen data) * ChunkSize ≤ Z.of_nat n * ChunkSize) by
    (apply Z.mul_le_mono_nonneg_r; lia).
  unfold zlen in *. lia.
Qed.

(** Saving chunks of [src], in the order given, through one handle. *)
Fixpoint save_all (fs : Files) (ck : FileChunk) (src : bytes) (order : list Z)
    : option error * Files :=
  match order with
  | [] => (None, fs)
  | i :: order' =>
      match Save fs ck i (chunk_bytes src i) None with
      | (Some e, fs') => (Some e, fs')
      | (None, fs') => save_all fs' ck src order'
      end
  end.

Lemma save_all_spec fs ck h f src order :
  chunk_wf fs ck h f → length (f_data f) = length src →
  Forall (λ i, 0 ≤ i < GetChunkNum ck) order →
  ∃ tgt, save_all fs ck src order = (None, <[h := with_data f tgt]> fs) ∧
    length tgt = length src ∧
    ∀ k, tgt !! k = if decide (Exists (λ i, in_chunk i k) order) then src !! k
                    else f_data f !! k.
Proof.
  intros Hwf Hlen Hall. revert fs f Hwf Hlen.
  induction order as [|i order IH]; intros fs f Hwf Hlen.
  { exists (f_data f). split_and!; [|done|].
    - cbn. rewrite insert_id; [done|]. rewrite (wf_open _ _ _ _ Hwf). by destruct f.
    - intros k. case_decide as Hd; [by apply Exists_nil in Hd|done]. }
  apply Forall_cons in Hall as [Hi Hall].
  pose proof (GetChunkNum_count _ _ _ _ Hwf) as Hn.
  assert (0 ≤ i ∧ i * ChunkSize < zlen src) as [Hi1 Hi2].
  { unfold zlen in *. rewrite <-Hlen. apply chunk_count_range; lia. }
  pose proof (zlen_chunk_bytes _ _ Hi1 Hi2) as Hc.
  pose proof ChunkSize_pos as Hpos.
  set (tgt1 := patch (i * ChunkSize) (chunk_bytes src i) (f_data f)).
  assert (chunk_wf (<[h := with_data f tgt1]> fs) ck h (with_data f tgt1)) as Hwf1.
  { apply (chunk_wf_patch fs); [done|nia|]. unfold zlen in *. lia. }
  assert (length tgt1 = length src) as Hlen1.
  { unfold tgt1. rewrite patch_length; [done|nia|]. unfold zlen in *. lia. }
  destruct (IH Hall _ _ Hwf1 Hlen1) as (tgt & Hsave & Hlt & Hk).
  exists tgt. split_and!; [|done|].
  - cbn [save_all]. rewrite (Save_in _ _ _ _ _ _ _ Hwf Hi). cbv zeta.
    assert (zlen (chunk_bytes src i) = Z.min ChunkSize (zlen (f_data f) - i * ChunkSize)) as ->.
    { unfold zlen in *. lia. }
    rewrite Z.eqb_refl. cbn [negb]. fold tgt1. rewrite Hsave.
    rewrite insert_insert_eq. by destruct f.
  - intros k. rewrite Hk. cbn [f_data with_data]. unfold tgt1.
    rewrite patch_chunk by done.
    destruct (decide (Exists _ order)) as [He|He];
      destruct (decide (Exists _ (i :: order))) as [He'|He'];
      destruct (decide (in_chunk i k)) as [Hin|Hin];
      rewrite Exists_cons in He'; try done; exfalso; tauto.
Qed.

(** Every byte of a file lies in one of its chunks. *)
Lemma in_some_chunk size k :
  Z.of_nat k < size → ∃ i, 0 ≤ i < chunk_count size ∧ in_chunk i k.
Proof.
  intros Hk. exists (Z.of_nat k `div` ChunkSize). pose proof ChunkSize_pos.
  rewrite chunk_count_range by lia. unfold in_chunk.
  Z.to_euclidean_division_equations. nia.
Qed.

(** ** Properties *)

(** The chunks partition the file: reading chunks [0 .. GetChunkNum-1] of an
    open, unchanged file of any size through one handle, each into a buffer of
    the chunk size, succeeds on every chunk, and the concatenation of what is
    read is the file's contents, nothing missing, overlapping or reordered;
    indexes outside that range are refused. *)
Theorem read_all_concat fs ck h f :
  chunk_wf fs ck h f →
  (∃ chunks, read_all fs ck = Ok <$> chunks ∧ concat chunks = f_data f) ∧
  (∀ i n, i < 0 ∨ GetChunkNum ck ≤ i → ReadChunk fs ck i n = Err (ErrIndex i)).
Proof.
  intros Hwf. split; [|by intros; apply ReadChunk_out].
  exists (chunk_bytes (f_data f) <$> chunk_ids ck).
  pose proof (GetChunkNum_count _ _ _ _ Hwf) as Hn.
  pose proof (chunk_count_nonneg _ (zlen_nonneg (f_data f))) as H0.
  split.
  - unfold read_all. rewrite <-list_fmap_compose. apply list_fmap_ext.
    intros j i Hj. apply lookup_seqZ in Hj as [-> Hj]. cbn [compose].
    rewrite (ReadChunk_in _ _ _ _ _ _ Hwf) by lia.
    rewrite zlen_chunk_bytes.
    + rewrite (proj2 (Z.ltb_ge _ _)) by lia. done.
    + lia.
    + eapply proj2, chunk_count_range; [apply zlen_nonneg|]. lia.
  - unfold chunk_ids. rewrite Hn.
    rewrite <-(Z2Nat.id (chunk_count _)) by done. by apply concat_chunks.
Qed.

Lemma read_all_concat_witness :
  ∃ chunks, read_all {[1%positive := mkFile "a" [Byte.x61; Byte.x62] 0 0 true]}
      (NewFileChunk {[1%positive := mkFile "a" [Byte.x61; Byte.x62] 0 0 true]} 1%positive)
      = Ok <$> chunks ∧ concat chunks = [Byte.x61; Byte.x62].
Proof.
  apply (read_all_concat _ _ 1%positive (mkFile "a" [Byte.x61; Byte.x62] 0 0 true)).
  apply NewFileChunk_wf; [reflexivity|vm_compute; discriminate].
Defined.

(** A received file is the source file: when the target has the length of
    the source, saving the source's chunks in any order, each of its indexes at
    least once (and possibly several times), reports no error, and afterwards
    the target's contents are the source's contents. *)
Theorem save_all_assembles fs ck h f src order :
  chunk_wf fs ck h f → length (f_data f) = length src →
  Forall (λ i, 0 ≤ i < GetChunkNum ck) order →
  (∀ i, 0 ≤ i < GetChunkNum ck → i ∈ order) →
  save_all fs ck src order = (None, <[h := with_data f src]> fs).
Proof.
  intros Hwf Hlen Hall Hcov.
  destruct (save_all_spec _ _ _ _ _ _ Hwf Hlen Hall) as (tgt & -> & Hlt & Hk).
  assert (tgt = src) as ->; [|done].
  apply list_eq. intros k. rewrite Hk. case_decide as Hd; [done|].
  destruct (decide (k < length src)%nat) as [Hlt'|Hge]; cycle 1.
  { rewrite !lookup_ge_None_2 by lia. done. }
  exfalso. apply Hd. destruct (in_some_chunk (zlen (f_data f)) k) as (i & Hi & Hin).
  { unfold zlen. lia. }
  apply Exists_exists. exists i. split; [|done]. apply Hcov.
  by rewrite (GetChunkNum_count _ _ _ _ Hwf).
Qed.

Lemma save_all_assembles_witness :
  let f := mkFile "t" [Byte.x00; Byte.x00] 0 0 true in
  let fs := {[1%positive := f]} : Files in
  save_all fs (NewFileChunk fs 1%positive) [Byte.x61; Byte.x62] [0; 0]
    = (None, <[1%positive := with_data f [Byte.x61; Byte.x62]]> fs).
Proof.
  apply save_all_assembles.
  - apply NewFileChunk_wf; [reflexivity|vm_compute; discriminate].
  - reflexivity.
  - repeat constructor; vm_compute; discriminate || reflexivity.
  - intros i Hi. assert (GetChunkNum (NewFileChunk
      {[1%positive := mkFile "t" [Byte.x00; Byte.x00] 0 0 true]} 1%positive) = 1) as Hn
      by (vm_compute; reflexivity).
    rewrite Hn in Hi. assert (i = 0) as -> by lia. constructor.
Defined.
