(* ===== verification/ConnPool.v ===== *)
(** * The connection pool

    pkg/conn_pool/pool.go. [GetConnContext] and [release] synchronise through a
    mutex and, per address, two channels; other goroutines run between their
    critical sections. Each stretch of code between two synchronisation points
    is one definition below; the whole functions are their compositions, and
    the concurrent behaviour is the step relation that interleaves them. *)

From S2P Require Import Prelude.
Local Open Scope Z_scope.

(** Sockets are numbered; times are nanoseconds. *)
Abbreviation conn := N.

(** pkg/conn_pool/pool.go:15-18 [idleConn] *)
Record idleConn : Type := mkIdle {
  ic_conn : conn;
  since : Z;
}.

(** The two channels of an address: the idle connections, oldest first, and the
    number of permits taken. pkg/conn_pool/pool.go:10-13 [bucket] *)
Record bucket : Type := mkBucket {
  idle : list idleConn;
  permits : nat;
}.

(** pkg/conn_pool/pool.go:21-21 [maxIdleTime] *)
Definition maxIdleTime : Z := 60 * 10 ^ 9.

(** A bucket is identified by its address: buckets are never replaced.
    [shut] collects the sockets closed so far.
    pkg/conn_pool/pool.go:24-31 [ConnPool] *)
Record ConnPool : Type := mkPool {
  buckets : gmap string bucket;
  borrowed : gmap conn string;
  maxPerConn : nat;
  closed : bool;
  shut : gset conn;
}.

(** pkg/conn_pool/pool.go:33-38 [NewConnPool] *)
Definition NewConnPool (max : Z) : ConnPool :=
  mkPool ∅ ∅ (Z.to_nat (if max <? 1 then 1 else max)) false ∅.

Inductive error : Type :=
| ErrClosed
| ErrContext
| ErrDial.

Definition set_bucket (a : string) (b : bucket) (p : ConnPool) : ConnPool :=
  mkPool (<[a := b]> (buckets p)) (borrowed p) (maxPerConn p) (closed p) (shut p).

Definition close_conn (c : conn) (p : ConnPool) : ConnPool :=
  mkPool (buckets p) (borrowed p) (maxPerConn p) (closed p) ({[c]} ∪ shut p).

Definition empty_bucket : bucket := mkBucket [] 0.
Definition bucket_of (p : ConnPool) (a : string) : bucket :=
  default empty_bucket (buckets p !! a).

(** ** The stretches of [GetConnContext] *)

(** The first critical section: find or create the bucket.
    pkg/conn_pool/pool.go:43-53 [ConnPool.GetConnContext] *)
Definition get_enter (a : string) (p : ConnPool) : res error ConnPool :=
  if closed p then Err ErrClosed
  else match buckets p !! a with
       | Some _ => Ok p
       | None => Ok (set_bucket a empty_bucket p)
       end.

(** Taking a permit; [None] while the channel is full.
    pkg/conn_pool/pool.go:54-60 [ConnPool.GetConnContext] *)
Definition take_permit (a : string) (p : ConnPool) : option ConnPool :=
  let b := bucket_of p a in
  if (permits b <? maxPerConn p)%nat
  then Some (set_bucket a (mkBucket (idle b) (S (permits b))) p) else None.

(** [<-b.permits]. *)
Definition return_permit (a : string) (p : ConnPool) : ConnPool :=
  let b := bucket_of p a in
  set_bucket a (mkBucket (idle b) (pred (permits b))) p.

(** One iteration of the idle loop: a fresh enough connection, an expired one
    that is closed, or none. pkg/conn_pool/pool.go:62-73 [ConnPool.GetConnContext] *)
Inductive idle_result : Type :=
| IdleUse (c : conn)
| IdleExpired
| IdleNone.

Definition pop_idle (a : string) (now : Z) (p : ConnPool) : idle_result * ConnPool :=
  let b := bucket_of p a in
  match idle b with
  | [] => (IdleNone, p)
  | ic :: rest =>
      let p' := set_bucket a (mkBucket rest (permits b)) p in
      if now - since ic <? maxIdleTime then (IdleUse (ic_conn ic), p')
      else (IdleExpired, close_conn (ic_conn ic) p')
  end.

(** The whole loop: at most one iteration per idle connection. *)
Fixpoint idle_loop (fuel : nat) (a : string) (now : Z) (p : ConnPool)
    : option conn * ConnPool :=
  match fuel with
  | O => (None, p)
  | S fuel' =>
      match pop_idle a now p with
      | (IdleUse c, p') => (Some c, p')
      | (IdleExpired, p') => idle_loop fuel' a now p'
      | (IdleNone, p') => (None, p')
      end
  end.

(** The last critical section. pkg/conn_pool/pool.go:83-91 [ConnPool.GetConnContext] *)
Definition get_finish (a : string) (c : conn) (p : ConnPool) : res error conn * ConnPool :=
  if closed p then (Err ErrClosed, return_permit a (close_conn c p))
  else (Ok c, mkPool (buckets p) (<[c := a]> (borrowed p)) (maxPerConn p)
                     (closed p) (shut p)).

(** The whole call, run without interference. [dial] is the outcome of
    [DialContext]; a full permit channel waits for the context to end.
    pkg/conn_pool/pool.go:42-92 [ConnPool.GetConnContext] *)
Definition GetConnContext (a : string) (now : Z) (dial : option conn) (p : ConnPool)
    : res error conn * ConnPool :=
  match get_enter a p with
  | Err e => (Err e, p)
  | Ok p =>
      match take_permit a p with
      | None => (Err ErrContext, p)
      | Some p =>
          match idle_loop (S (length (idle (bucket_of p a)))) a now p with
          | (Some c, p) => get_finish a c p
          | (None, p) =>
              match dial with
              | None => (Err ErrDial, return_permit a p)
              | Some c => get_finish a c p
              end
          end
      end
  end.

(** ** The stretches of [release] *)

(** Under the lock: forget the loan and give the permit back.
    pkg/conn_pool/pool.go:101-107 [ConnPool.release] *)
Definition release_begin (c : conn) (p : ConnPool) : option string * ConnPool :=
  match borrowed p !! c with
  | None => (None, close_conn c p)
  | Some a =>
      (Some a, return_permit a
        (mkPool (buckets p) (delete c (borrowed p)) (maxPerConn p) (closed p) (shut p)))
  end.

(** Still under the lock: keep or close the connection. [deadline_ok] is the
    outcome of [c.SetDeadline(time.Time{})].
    pkg/conn_pool/pool.go:108-120 [ConnPool.release] *)
Definition release_end (a : string) (c : conn) (reuse deadline_ok : bool) (now : Z)
    (p : ConnPool) : ConnPool :=
  if negb reuse || closed p then close_conn c p else
  if negb deadline_ok then close_conn c p else
  let b := bucket_of p a in
  if (length (idle b) <? maxPerConn p)%nat
  then set_bucket a (mkBucket (idle b ++ [mkIdle c now]) (permits b)) p
  else close_conn c p.

(** pkg/conn_pool/pool.go:95-121 [ConnPool.release] *)
Definition release (c : conn) (reuse deadline_ok : bool) (now : Z) (p : ConnPool) : ConnPool :=
  match release_begin c p with
  | (None, p') => p'
  | (Some a, p') => release_end a c reuse deadline_ok now p'
  end.

(** pkg/conn_pool/pool.go:93-93 [ConnPool.Discard] *)
Definition Discard (c : conn) (p : ConnPool) : ConnPool := release c false true 0 p.

(** pkg/conn_pool/pool.go:94-94 [ConnPool.PutConn] *)
Definition PutConn (c : conn) (deadline_ok : bool) (now : Z) (p : ConnPool) : ConnPool :=
  release c true deadline_ok now p.

Definition drain (b : bucket) : bucket := mkBucket [] (permits b).

Definition idle_conns (b : bucket) : gset conn := list_to_set (ic_conn <$> idle b).

(** The loop over the buckets closes every idle connection of each.
    pkg/conn_pool/pool.go:122-145 [ConnPool.Close] *)
Definition Close (p : ConnPool) : ConnPool :=
  if closed p then p
  else mkPool (drain <$> buckets p) (borrowed p) (maxPerConn p) true
         (map_fold (λ _ b s, idle_conns b ∪ s) (dom (borrowed p) ∪ shut p) (buckets p)).

(** ** Interleavings

    A goroutine is at one of these points. [Rel] holds the mutex, so nothing
    that needs the mutex runs while a thread is there; channel operations do. *)
Inductive phase : Type :=
| Enter (a : string)
| Wait (a : string)
| Scan (a : string)
| Dial (a : string)
| Have (a : string) (c : conn)
| Rel (a : string) (c : conn) (reuse : bool).

Record system : Type := mkSys {
  pool : ConnPool;
  threads : list phase;
  opened : gset conn;
}.

Definition is_rel (t : phase) : bool := match t with Rel _ _ _ => true | _ => false end.
Definition unlocked (ts : list phase) : Prop := Forall (λ t, is_rel t = false) ts.

Inductive step : system → system → Prop :=
| s_call a p ts op : step (mkSys p ts op) (mkSys p (Enter a :: ts) op)
| s_enter a p p' ts l op :
    ts ≡ₚ Enter a :: l → unlocked ts → get_enter a p = Ok p' →
    step (mkSys p ts op) (mkSys p' (Wait a :: l) op)
| s_enter_err a p e ts l op :
    ts ≡ₚ Enter a :: l → unlocked ts → get_enter a p = Err e →
    step (mkSys p ts op) (mkSys p l op)
| s_permit a p p' ts l op :
    ts ≡ₚ Wait a :: l → take_permit a p = Some p' →
    step (mkSys p ts op) (mkSys p' (Scan a :: l) op)
| s_give_up a p ts l op :
    ts ≡ₚ Wait a :: l → step (mkSys p ts op) (mkSys p l op)
| s_idle_use a now c p p' ts l op :
    ts ≡ₚ Scan a :: l → pop_idle a now p = (IdleUse c, p') →
    step (mkSys p ts op) (mkSys p' (Have a c :: l) op)
| s_idle_expired a now p p' ts l op :
    ts ≡ₚ Scan a :: l → pop_idle a now p = (IdleExpired, p') →
    step (mkSys p ts op) (mkSys p' (Scan a :: l) op)
| s_idle_none a now p p' ts l op :
    ts ≡ₚ Scan a :: l → pop_idle a now p = (IdleNone, p') →
    step (mkSys p ts op) (mkSys p' (Dial a :: l) op)
| s_dial a c p ts l op :
    ts ≡ₚ Dial a :: l → c ∉ op →
    step (mkSys p ts op) (mkSys p (Have a c :: l) ({[c]} ∪ op))
| s_dial_err a p ts l op :
    ts ≡ₚ Dial a :: l → step (mkSys p ts op) (mkSys (return_permit a p) l op)
| s_finish a c p r p' ts l op :
    ts ≡ₚ Have a c :: l → unlocked ts → get_finish a c p = (r, p') →
    step (mkSys p ts op) (mkSys p' l op)
| s_release a c reuse p p' ts op :
    unlocked ts → release_begin c p = (Some a, p') →
    step (mkSys p ts op) (mkSys p' (Rel a c reuse :: ts) op)
| s_release_foreign c p p' ts op :
    unlocked ts → release_begin c p = (None, p') →
    step (mkSys p ts op) (mkSys p' ts op)
| s_release_end a c reuse ok now p ts l op :
    ts ≡ₚ Rel a c reuse :: l →
    step (mkSys p ts op) (mkSys (release_end a c reuse ok now p) l op)
| s_close p ts op :
    unlocked ts → step (mkSys p ts op) (mkSys (Close p) ts op).

Definition init (max : Z) : system := mkSys (NewConnPool max) [] ∅.
Definition reachable (max : Z) (s : system) : Prop := rtc step (init max) s.

(** ** What is counted *)

(** Connections of an address that are lent out. *)
Definition loans (a : string) (m : gmap conn string) : nat :=
  length (filter (λ kv : conn * string, kv.2 = a) (map_to_list m)).

(** Goroutines that hold a permit of the address. *)
Definition holds_permit (a : string) (t : phase) : bool :=
  match t with
  | Scan b | Dial b | Have b _ => bool_decide (a = b)
  | _ => false
  end.

Definition inflight (a : string) (ts : list phase) : nat :=
  length (filter (λ t, holds_permit a t = true) ts).

(** Every connection the pool or one of its callers-in-progress knows. *)
Definition thread_conn (t : phase) : list conn :=
  match t with Have _ c | Rel _ c _ => [c] | _ => [] end.
Definition bconns (b : bucket) : list conn := ic_conn <$> idle b.
Definition idles (m : gmap string bucket) : list conn :=
  map_to_list m ≫= λ ab, bconns ab.2.
Definition owned (s : system) : list conn :=
  (threads s ≫= thread_conn) ++ (map_to_list (borrowed (pool s))).*1
    ++ idles (buckets (pool s)).

Record inv (s : system) : Prop := {
  i_idle a : (length (idle (bucket_of (pool s) a)) ≤ maxPerConn (pool s))%nat;
  i_permits a : (permits (bucket_of (pool s) a) ≤ maxPerConn (pool s))%nat;
  i_count a : permits (bucket_of (pool s) a)
                = (loans a (borrowed (pool s)) + inflight a (threads s))%nat;
  i_nodup : NoDup (owned s);
  i_opened c : c ∈ owned s → c ∈ opened s;
  i_closed : closed (pool s) = true →
    (∀ a, idle (bucket_of (pool s) a) = []) ∧
    (∀ c, c ∈ dom (borrowed (pool s)) → c ∈ shut (pool s));
}.

(** ** Lemmas *)

Lemma bucket_of_set a b p a' :
  bucket_of (set_bucket a b p) a' = if decide (a = a') then b else bucket_of p a'.
Proof.
  unfold bucket_of, set_bucket. cbn [buckets]. rewrite lookup_insert.
  by case_decide.
Qed.

Lemma idles_split a m :
  idles m ≡ₚ bconns (default empty_bucket (m !! a)) ++ idles (delete a m).
Proof.
  unfold idles. destruct (m !! a) as [b|] eqn:E; simpl.
  - rewrite <-(map_to_list_delete m a b E). done.
  - by rewrite delete_id.
Qed.

Lemma idles_insert a b m : idles (<[a := b]> m) ≡ₚ bconns b ++ idles (delete a m).
Proof.
  rewrite (idles_split a). by rewrite lookup_insert_eq, delete_insert_eq.
Qed.

Lemma loans_insert a c a' m :
  m !! c = None →
  loans a (<[c := a']> m) = ((if decide (a' = a) then 1 else 0) + loans a m)%nat.
Proof.
  intros H. unfold loans. rewrite (map_to_list_insert m c a' H), filter_cons.
  repeat case_decide; naive_solver.
Qed.

Lemma loans_delete a c a' m :
  m !! c = Some a' →
  loans a m = ((if decide (a' = a) then 1 else 0) + loans a (delete c m))%nat.
Proof.
  intros H. unfold loans. rewrite <-(map_to_list_delete m c a' H), filter_cons.
  repeat case_decide; naive_solver.
Qed.

Lemma inflight_cons a t ts :
  inflight a (t :: ts) = ((if holds_permit a t then 1 else 0) + inflight a ts)%nat.
Proof. unfold inflight. rewrite filter_cons. destruct (holds_permit a t) eqn:E; case_decide; naive_solver. Qed.

#[export] Instance inflight_proper a : Proper ((≡ₚ) ==> (=)) (inflight a).
Proof. intros l k H. unfold inflight. by rewrite H. Qed.

Definition keys (m : gmap conn string) : list conn := (map_to_list m).*1.

#[local] Arguments inflight : simpl never.
#[local] Arguments loans : simpl never.
#[local] Arguments bucket_of : simpl never.
#[local] Arguments keys : simpl never.
#[local] Arguments owned : simpl never.

(** The part of [owned] a step on address [a] can change. *)
Definition front (p : ConnPool) (ts : list phase) (a : string) : list conn :=
  (ts ≫= thread_conn) ++ keys (borrowed p) ++ bconns (bucket_of p a).

Lemma owned_front p ts op a :
  owned (mkSys p ts op) ≡ₚ front p ts a ++ idles (delete a (buckets p)).
Proof.
  unfold owned, front, keys, bucket_of. cbn [pool threads].
  rewrite (idles_split a (buckets p)). by rewrite <-!app_assoc.
Qed.

Lemma NoDup_sub (l k : list conn) : l ⊆+ k → NoDup k → NoDup l.
Proof. intros [k' ->]%submseteq_Permutation. rewrite NoDup_app. naive_solver. Qed.

Lemma keys_insert c a m : m !! c = None → keys (<[c := a]> m) ≡ₚ c :: keys m.
Proof. intros H. unfold keys. by rewrite map_to_list_insert. Qed.

Lemma keys_delete c a m : m !! c = Some a → keys m ≡ₚ c :: keys (delete c m).
Proof. intros H. unfold keys. by rewrite <-(map_to_list_delete m c a H). Qed.

Lemma elem_of_keys c m : c ∈ keys m ↔ c ∈ dom m.
Proof.
  unfold keys. rewrite elem_of_dom, list_elem_of_fmap. split.
  - intros ([c' a] & -> & H%elem_of_map_to_list). eauto.
  - intros [a H]. exists (c, a). split; [done|]. by apply elem_of_map_to_list.
Qed.

(** A step that rewrites the bucket of [a], the loans and the threads. *)
Lemma inv_update p ts op a b B sh ts' :
  inv (mkSys p ts op) →
  (length (idle b) ≤ maxPerConn p)%nat → (permits b ≤ maxPerConn p)%nat →
  permits b = (loans a B + inflight a ts')%nat →
  (∀ a', a' ≠ a →
    (loans a' B + inflight a' ts' = loans a' (borrowed p) + inflight a' ts)%nat) →
  (ts' ≫= thread_conn) ++ keys B ++ bconns b ⊆+ front p ts a →
  (closed p = true → idle b = [] ∧ dom B ⊆ sh) →
  inv (mkSys (mkPool (<[a := b]> (buckets p)) B (maxPerConn p) (closed p) sh) ts' op).
Proof.
  intros [Hi Hp Hc Hnd Hop Hcl] Hb1 Hb2 Hcnt Hoth Hsub Hclosed. cbn in *.
  assert (∀ a', bucket_of (mkPool (<[a:=b]> (buckets p)) B (maxPerConn p) (closed p) sh) a'
    = if decide (a = a') then b else bucket_of p a') as Hbo.
  { intros a'. unfold bucket_of. cbn [buckets]. rewrite lookup_insert. by case_decide. }
  assert (owned (mkSys (mkPool (<[a:=b]> (buckets p)) B (maxPerConn p) (closed p) sh) ts' op)
    ⊆+ owned (mkSys p ts op)) as Hown.
  { rewrite !(owned_front _ _ _ a). unfold front at 1. rewrite Hbo, decide_True by done.
    cbn [buckets borrowed]. rewrite delete_insert_eq. by apply submseteq_skips_r. }
  split; cbn; try setoid_rewrite Hbo.
  - intros a'. case_decide; [done|apply Hi].
  - intros a'. case_decide; [done|apply Hp].
  - intros a'. case_decide; [by subst|]. rewrite Hoth by done. apply Hc.
  - by eapply NoDup_sub.
  - intros c Hc'. apply Hop. by eapply elem_of_submseteq.
  - intros Hcp. destruct (Hclosed Hcp) as [Hbe Hds]. destruct (Hcl Hcp) as [Hie _].
    split; [|by set_solver]. intros a'. case_decide; [done|apply Hie].
Qed.

(** A step that leaves the buckets alone. *)
Lemma inv_frame p ts op B sh ts' op' :
  inv (mkSys p ts op) → op ⊆ op' →
  (∀ a, (loans a B + inflight a ts' = loans a (borrowed p) + inflight a ts)%nat) →
  (ts' ≫= thread_conn) ++ keys B ⊆+ (ts ≫= thread_conn) ++ keys (borrowed p) →
  (closed p = true → dom B ⊆ sh) →
  inv (mkSys (mkPool (buckets p) B (maxPerConn p) (closed p) sh) ts' op').
Proof.
  intros [Hi Hp Hc Hnd Hop Hcl] Hops Hcnt Hsub Hclosed. cbn in *.
  assert (owned (mkSys (mkPool (buckets p) B (maxPerConn p) (closed p) sh) ts' op')
    ⊆+ owned (mkSys p ts op)) as Hown.
  { unfold owned. cbn. rewrite !app_assoc. by apply submseteq_skips_r. }
  split; cbn; unfold bucket_of; cbn; try done.
  - intros a. rewrite Hcnt. apply Hc.
  - by eapply NoDup_sub.
  - intros c Hc'. apply Hops, Hop. by eapply elem_of_submseteq.
  - intros Hcp. split; [by apply Hcl|]. intros c. by apply Hclosed.
Qed.

(** The same, when the pool does not change at all. *)
Lemma inv_threads p ts op ts' :
  inv (mkSys p ts op) →
  (∀ a, inflight a ts' = inflight a ts) →
  (ts' ≫= thread_conn) ⊆+ (ts ≫= thread_conn) →
  inv (mkSys p ts' op).
Proof.
  intros Hinv Hcnt Hsub. destruct p as [bs B mx cl sh].
  apply (inv_frame (mkPool bs B mx cl sh) ts op); try done.
  - intros a. by rewrite Hcnt.
  - by apply submseteq_skips_r.
  - intros Hcl c Hc. destruct (i_closed _ Hinv Hcl) as [_ Hs]. by apply Hs.
Qed.

Lemma inv_perm p ts ts' op : ts ≡ₚ ts' → inv (mkSys p ts op) → inv (mkSys p ts' op).
Proof.
  intros Hp Hinv. apply (inv_threads p ts op); [done| |].
  - intros a. by rewrite Hp.
  - by rewrite Hp.
Qed.

(** The steps, one group at a time, with the moving thread first. *)
Lemma inv_permit p p' a l op :
  inv (mkSys p (Wait a :: l) op) → take_permit a p = Some p' →
  inv (mkSys p' (Scan a :: l) op).
Proof.
  unfold take_permit. intros Hinv H. case_match eqn:E; simplify_eq.
  apply Nat.ltb_lt in E. pose proof (i_count _ Hinv a) as Hc. cbn in Hc.
  rewrite inflight_cons in Hc. cbn in Hc.
  apply (inv_update p (Wait a :: l) op a); try done; cbn.
  - apply (i_idle _ Hinv).
  - rewrite inflight_cons. cbn. rewrite bool_decide_true by done. cbn. lia.
  - intros a' Ha. rewrite !inflight_cons. cbn. by rewrite bool_decide_false.
  - intros Hcl. destruct (i_closed _ Hinv Hcl) as [H1 H2]. split; [apply H1|].
    intros c Hcd. by apply H2.
Qed.

Lemma inv_pop p p' a now r l op :
  inv (mkSys p (Scan a :: l) op) → pop_idle a now p = (r, p') →
  inv (mkSys p' (match r with
                 | IdleUse c => Have a c | IdleExpired => Scan a | IdleNone => Dial a
                 end :: l) op).
Proof.
  unfold pop_idle. intros Hinv H.
  pose proof (i_idle _ Hinv a) as Hb. pose proof (i_permits _ Hinv a) as Hp.
  pose proof (i_count _ Hinv a) as Hc. cbn in Hb, Hp, Hc.
  rewrite inflight_cons in Hc. cbn in Hc. rewrite bool_decide_true in Hc by done.
  destruct (idle (bucket_of p a)) as [|ic rest] eqn:Hid.
  { simplify_eq. apply (inv_threads _ (Scan a :: l) op); [done| |done].
    intros a'. by rewrite !inflight_cons. }
  assert (closed p = false) as Hcl.
  { destruct (closed p) eqn:E; [|done]. destruct (i_closed _ Hinv E) as [H1 _].
    specialize (H1 a). cbn in H1. congruence. }
  cbn in Hb.
  assert (∀ t (sh' : gset conn),
    holds_permit a t = true → (∀ a', a' ≠ a → holds_permit a' t = false) →
    thread_conn t ⊆+ [ic_conn ic] → 
    inv (mkSys (mkPool (<[a := mkBucket rest (permits (bucket_of p a))]> (buckets p))
       (borrowed p) (maxPerConn p) (closed p) sh') (t :: l) op)) as Hgen.
  { intros t sh' Ht Ht' Hsub. apply (inv_update p (Scan a :: l) op a); try done; cbn.
    - lia.
    - rewrite inflight_cons, Ht. lia.
    - intros a' Ha. rewrite !inflight_cons, Ht' by done. cbn. by rewrite bool_decide_false.
    - unfold front, bconns. rewrite Hid. cbn. rewrite <-!app_assoc.
      etrans; [apply submseteq_app; [exact Hsub|reflexivity]|]. cbn. solve_submseteq.
    - by rewrite Hcl. }
  case_match; simplify_eq; apply Hgen; cbn; try done;
    first [by rewrite bool_decide_true|by intros; rewrite bool_decide_false|apply submseteq_nil_l].
Qed.

Lemma inv_return_permit p a l op :
  inv (mkSys p (Dial a :: l) op) → inv (mkSys (return_permit a p) l op).
Proof.
  intros Hinv. unfold return_permit.
  pose proof (i_count _ Hinv a) as Hc. cbn in Hc. rewrite inflight_cons in Hc.
  cbn in Hc. rewrite bool_decide_true in Hc by done.
  pose proof (i_permits _ Hinv a) as Hp. cbn in Hp.
  apply (inv_update p (Dial a :: l) op a); try done; cbn; try lia.
  - apply (i_idle _ Hinv).
  - intros a' Ha. rewrite inflight_cons. cbn. by rewrite bool_decide_false.
  - intros Hcl. destruct (i_closed _ Hinv Hcl) as [H1 H2]. split; [apply H1|].
    intros c Hcd. by apply H2.
Qed.

Lemma inv_get_finish p p' a c r l op :
  inv (mkSys p (Have a c :: l) op) → get_finish a c p = (r, p') → inv (mkSys p' l op).
Proof.
  unfold get_finish. intros Hinv H.
  pose proof (i_count _ Hinv a) as Hc. cbn in Hc. rewrite inflight_cons in Hc.
  cbn in Hc. rewrite bool_decide_true in Hc by done.
  pose proof (i_permits _ Hinv a) as Hp. cbn in Hp.
  assert (∀ a', a' ≠ a → inflight a' (Have a c :: l) = inflight a' l) as Hoth.
  { intros a' Ha. rewrite inflight_cons. cbn. by rewrite bool_decide_false. }
  destruct (closed p) eqn:Hcl; simplify_eq.
  - destruct (i_closed _ Hinv Hcl) as [H1 H2]. unfold return_permit.
    apply (inv_update p (Have a c :: l) op a); try done; cbn.
    + apply (i_idle _ Hinv).
    + unfold bucket_of in *. cbn. lia.
    + unfold bucket_of in *. cbn in *. lia.
    + intros a' Ha. by rewrite Hoth.
    + solve_submseteq.
    + intros _. split; [apply H1|]. intros d Hd. set_solver.
  - assert (borrowed p !! c = None) as Hfresh.
    { apply not_elem_of_dom. rewrite <-elem_of_keys. intros Hk.
      pose proof (i_nodup _ Hinv) as Hnd. unfold owned in Hnd. cbn in Hnd.
      apply NoDup_cons in Hnd as [Hnot _]. apply Hnot. rewrite !elem_of_app. auto. }
    destruct p as [bs B mx cl sh]. cbn in *. subst cl.
    apply (inv_frame (mkPool bs B mx false sh) (Have a c :: l) op); try done; cbn.
    + intros a'. rewrite loans_insert by done. rewrite inflight_cons. cbn.
      case_decide; [rewrite bool_decide_true by done|rewrite bool_decide_false by done]; lia.
    + rewrite keys_insert by done. solve_submseteq.
Qed.

Lemma inv_release_begin p p' a c reuse ts op :
  inv (mkSys p ts op) → release_begin c p = (Some a, p') →
  inv (mkSys p' (Rel a c reuse :: ts) op).
Proof.
  unfold release_begin. intros Hinv H. destruct (borrowed p !! c) as [a'|] eqn:E; simplify_eq.
  pose proof (i_count _ Hinv a) as Hc. cbn in Hc.
  rewrite (loans_delete a c a (borrowed p)) in Hc by done. rewrite decide_True in Hc by done.
  pose proof (i_permits _ Hinv a) as Hp. cbn in Hp.
  unfold return_permit. cbn.
  apply (inv_update p ts op a); try done; cbn.
  - apply (i_idle _ Hinv).
  - unfold bucket_of in *. cbn. lia.
  - rewrite inflight_cons. cbn. unfold bucket_of in *. cbn in *. lia.
  - intros a' Ha. rewrite inflight_cons. cbn. rewrite (loans_delete a' c a (borrowed p)) by done.
    by rewrite decide_False.
  - unfold front. rewrite (keys_delete c a (borrowed p)) by done. cbn. solve_submseteq.
  - intros Hcl. destruct (i_closed _ Hinv Hcl) as [H1 H2]. cbn in *. split; [apply H1|].
    set_solver.
Qed.

Lemma inv_release_end p a c reuse ok now l op :
  inv (mkSys p (Rel a c reuse :: l) op) → inv (mkSys (release_end a c reuse ok now p) l op).
Proof.
  intros Hinv.
  assert (inv (mkSys (close_conn c p) l op)) as Hclose.
  { apply (inv_frame p (Rel a c reuse :: l) op); try done.
    - cbn. solve_submseteq.
    - intros Hcl. destruct (i_closed _ Hinv Hcl) as [H1 H2]. cbn in *. set_solver. }
  unfold release_end. destruct (negb reuse || closed p) eqn:E; [done|].
  apply orb_false_iff in E as [_ Hcl]. destruct (negb ok); [done|].
  cbv zeta. destruct (_ <? _)%nat eqn:El; [|done]. apply Nat.ltb_lt in El.
  pose proof (i_count _ Hinv a) as Hc. cbn in Hc. rewrite inflight_cons in Hc.
  apply (inv_update p (Rel a c reuse :: l) op a); try done; cbn.
  - rewrite length_app. cbn. lia.
  - apply (i_permits _ Hinv).
  - unfold front, bconns. cbn. rewrite fmap_app. cbn. solve_submseteq.
  - by rewrite Hcl.
Qed.

Lemma inv_close p ts op : inv (mkSys p ts op) → inv (mkSys (Close p) ts op).
Proof.
  intros Hinv. unfold Close. destruct (closed p) eqn:E; [done|].
  destruct Hinv as [Hi Hp Hc Hnd Hop Hcl]. cbn in *.
  set (p' := mkPool _ _ _ _ _).
  assert (∀ a, bucket_of p' a = drain (bucket_of p a)) as Hbo.
  { intros a. unfold bucket_of, p'. cbn. rewrite lookup_fmap. by destruct (buckets p !! a). }
  assert (idles (drain <$> buckets p) = []) as Hid.
  { unfold idles. rewrite map_to_list_fmap. induction (map_to_list (buckets p)); [done|].
    cbn. done. }
  assert (owned (mkSys p' ts op) ⊆+ owned (mkSys p ts op)) as Hown.
  { unfold owned, p'. cbn. rewrite Hid. solve_submseteq. }
  assert (∀ (m : gmap string bucket) s0, s0 ⊆
    map_fold (λ _ b s, idle_conns b ∪ s) s0 m) as Hfold.
  { intros m s0. apply (map_fold_weak_ind (λ r _, s0 ⊆ r)); set_solver. }
  split; cbn; try setoid_rewrite Hbo; cbn; try done.
  - intros _. lia.
  - by eapply NoDup_sub.
  - intros c Hc'. apply Hop. by eapply elem_of_submseteq.
  - intros _. split; [done|]. intros c Hcd. apply Hfold. set_solver.
Qed.

Lemma inv_init max : inv (init max).
Proof.
  assert (∀ a, bucket_of (NewConnPool max) a = empty_bucket) as Hb by done.
  split; cbn [pool init threads]; try setoid_rewrite Hb; cbn; try done; try (intros; lia).
  - constructor.
  - set_solver.
Qed.

Lemma inv_new_bucket p a l op :
  inv (mkSys p (Enter a :: l) op) → closed p = false → buckets p !! a = None →
  inv (mkSys (set_bucket a empty_bucket p) (Wait a :: l) op).
Proof.
  intros Hinv Hcl E.
  assert (bucket_of p a = empty_bucket) as Hb by (unfold bucket_of; by rewrite E).
  pose proof (i_count _ Hinv a) as Hc. cbn in Hc. rewrite Hb, inflight_cons in Hc. cbn in Hc.
  apply (inv_update p (Enter a :: l) op a); try done; cbn; try lia.
  - unfold front. rewrite Hb. cbn. solve_submseteq.
  - by rewrite Hcl.
Qed.

Lemma inv_dial p a c l op :
  inv (mkSys p (Dial a :: l) op) → c ∉ op → inv (mkSys p (Have a c :: l) ({[c]} ∪ op)).
Proof.
  intros [Hi Hp Hc Hnd Hop Hcl] Hfresh. cbn in *.
  assert (owned (mkSys p (Have a c :: l) ({[c]} ∪ op))
          = c :: owned (mkSys p (Dial a :: l) op)) as Hown by done.
  split; cbn; try done.
  - intros a'. rewrite Hc, !inflight_cons. done.
  - rewrite Hown. constructor; [|done]. intros H. by apply Hfresh, Hop.
  - intros d. rewrite Hown, elem_of_cons. intros [->|Hd]; [set_solver|].
    apply elem_of_union_r, Hop, Hd.
Qed.

Lemma inv_step s s' : inv s → step s s' → inv s'.
Proof.
  intros Hinv Hs. revert Hinv. destruct Hs; intros Hinv;
    try match goal with H : _ ≡ₚ _ |- _ => apply (inv_perm _ _ _ _ H) in Hinv end.
  - by apply (inv_threads p ts op).
  - unfold get_enter in *. repeat case_match; simplify_eq.
    + apply (inv_threads _ (Enter a :: l) op); [done| |done]. intros. by rewrite !inflight_cons.
    + by apply inv_new_bucket.
  - by apply (inv_threads _ (Enter a :: l) op).
  - by eapply inv_permit.
  - by apply (inv_threads _ (Wait a :: l) op).
  - by eapply (inv_pop _ _ _ _ (IdleUse c) _ _ Hinv).
  - by eapply (inv_pop _ _ _ _ IdleExpired _ _ Hinv).
  - by eapply (inv_pop _ _ _ _ IdleNone _ _ Hinv).
  - by apply inv_dial.
  - by apply inv_return_permit.
  - by eapply inv_get_finish.
  - by eapply inv_release_begin.
  - unfold release_begin in *. case_match; simplify_eq.
    apply (inv_frame p ts op); try done. intros Hcl.
    destruct (i_closed _ Hinv Hcl) as [_ Hsh]. cbn in *. set_solver.
  - by eapply inv_release_end.
  - by apply inv_close.
Qed.

Lemma inv_reachable max s : reachable max s → inv s.
Proof.
  unfold reachable. intros H. pose proof (inv_init max) as Hi.
  induction H; eauto using inv_step.
Qed.

Lemma max_step s s' : step s s' → maxPerConn (pool s') = maxPerConn (pool s).
Proof.
  destruct 1; cbn; try done;
    unfold get_enter, take_permit, pop_idle, return_permit, get_finish, release_begin,
      release_end, Close, close_conn, set_bucket in *; repeat case_match; by simplify_eq/=.
Qed.

Lemma max_reachable max s :
  reachable max s → maxPerConn (pool s) = Z.to_nat (Z.max 1 max).
Proof.
  intros H. assert (maxPerConn (pool s) = maxPerConn (pool (init max))) as ->.
  { induction H; [done|]. by rewrite IHrtc, (max_step x y). }
  cbn. destruct (max <? 1) eqn:E; zbool; lia.
Qed.

(** Reachability, read from the end. *)
Lemma reachable_step max s s' : reachable max s → step s s' → reachable max s'.
Proof. apply rtc_r. Qed.

(** ** Concrete runs *)

(** One connection of address "a" lent out, in a pool of maximum 1. *)
Definition one_loan : system :=
  mkSys (mkPool {["a"%string := mkBucket [] 1]} {[0%N := "a"%string]} 1 false ∅)
    [] {[0%N]}.

(** The same after [Close]. *)
Definition one_loan_closed : system :=
  mkSys (mkPool {["a"%string := mkBucket [] 1]} {[0%N := "a"%string]} 1 true {[0%N]})
    [] {[0%N]}.

(** A connection lent out and another one idle, in a pool of maximum 1. *)
Definition over_limit : system :=
  mkSys (mkPool {["a"%string := mkBucket [mkIdle 0 0] 1]} {[1%N := "a"%string]} 1 false ∅)
    [] {[0%N; 1%N]}.

(** Discharge the side conditions of a step of a concrete run. *)
Ltac side := first [reflexivity|apply Permutation_swap|solve [repeat constructor]|set_solver].
Ltac run_step c := eapply rtc_l; [eapply c; side|].

Lemma rtc_eq (x y : system) : x = y → rtc step x y.
Proof. intros ->. apply rtc_refl. Qed.

Lemma one_loan_reachable : reachable 1 one_loan.
Proof.
  unfold reachable.
  run_step (s_call "a"). run_step (s_enter "a"). run_step (s_permit "a").
  run_step (s_idle_none "a" 0). run_step (s_dial "a" 0%N). run_step (s_finish "a" 0%N).
  apply rtc_eq. vm_compute. reflexivity.
Qed.

Lemma one_loan_closed_reachable : reachable 1 one_loan_closed.
Proof.
  eapply reachable_step; [apply one_loan_reachable|].
  replace one_loan_closed with (mkSys (Close (pool one_loan)) [] (opened one_loan))
    by (vm_compute; reflexivity).
  apply s_close. repeat constructor.
Qed.

(** ** Properties *)

(** C40. The pool's bounds under every interleaving of callers, releases (of
    connections the caller may or may not own), dial failures, cancellations
    and [Close]: for every address, the connections lent out together with the
    calls in progress that hold a permit never exceed the configured maximum
    (1 when configured below 1), nor do the idle connections; the taken permits
    are exactly those loans and calls, so none leaks; no connection is lent
    twice, idle twice, or lent while idle. *)
Theorem pool_bounds max s a :
  reachable max s →
  (loans a (borrowed (pool s)) + inflight a (threads s) ≤ Z.to_nat (Z.max 1 max))%nat ∧
  (length (idle (bucket_of (pool s) a)) ≤ Z.to_nat (Z.max 1 max))%nat ∧
  permits (bucket_of (pool s) a)
    = (loans a (borrowed (pool s)) + inflight a (threads s))%nat ∧
  NoDup (owned s).
Proof.
  intros H. rewrite <-(max_reachable _ _ H). apply inv_reachable in H as [Hi Hp Hc Hnd _ _].
  split; [|auto]. rewrite <-Hc. apply Hp.
Qed.

Lemma pool_bounds_witness :
  (loans "a" (borrowed (pool one_loan)) + inflight "a" (threads one_loan) ≤ 1)%nat ∧
  loans "a" (borrowed (pool one_loan)) = 1%nat.
Proof.
  split; [|vm_compute; reflexivity].
  exact (proj1 (pool_bounds 1 one_loan "a" one_loan_reachable)).
Defined.

(** Closing: once [Close] has run, in every later state no connection is
    idle in any bucket, every connection still lent out has had its socket
    closed, new calls are refused with [net.ErrClosed], and a call that was
    already past that check gets [net.ErrClosed] with its socket closed and its
    permit returned. *)
Theorem pool_closed max s a c :
  reachable max s → closed (pool s) = true →
  idle (bucket_of (pool s) a) = [] ∧
  (c ∈ dom (borrowed (pool s)) → c ∈ shut (pool s)) ∧
  get_enter a (pool s) = Err ErrClosed ∧
  get_finish a c (pool s) = (Err ErrClosed, return_permit a (close_conn c (pool s))).
Proof.
  intros H Hcl. apply inv_reachable in H as [_ _ _ _ _ Hc].
  destruct (Hc Hcl) as [H1 H2]. unfold get_enter, get_finish. rewrite Hcl. auto.
Qed.

Lemma pool_closed_witness :
  closed (pool one_loan_closed) = true ∧
  get_enter "a" (pool one_loan_closed) = Err ErrClosed ∧
  (0%N ∈ dom (borrowed (pool one_loan_closed)) → 0%N ∈ shut (pool one_loan_closed)).
Proof.
  split; [reflexivity|].
  destruct (pool_closed 1 one_loan_closed "a" 0%N one_loan_closed_reachable eq_refl)
    as (_ & H & He & _).
  split; [exact He|exact H].
Defined.

(** The maximum does not bound borrowed and idle connections together: with
    maximum 1, a pool can reach a state with one connection lent out and a
    different one idle for the same address. The run is the one where the
    releasing goroutine has given its permit back but not yet stored its
    connection, and a waiting caller takes that permit, finds no idle
    connection and dials. *)
Theorem pool_total_exceeds_max :
  reachable 1 over_limit ∧
  loans "a" (borrowed (pool over_limit)) = 1%nat ∧
  length (idle (bucket_of (pool over_limit) "a")) = 1%nat ∧
  threads over_limit = [].
Proof.
  split; [|vm_compute; split_and!; reflexivity]. unfold reachable.
  run_step (s_call "a"). run_step (s_enter "a"). run_step (s_permit "a").
  run_step (s_idle_none "a" 0). run_step (s_dial "a" 0%N). run_step (s_finish "a" 0%N).
  run_step (s_call "a"). run_step (s_enter "a"). run_step (s_release "a" 0%N true).
  run_step (s_permit "a"). run_step (s_idle_none "a" 0).
  run_step (s_release_end "a" 0%N true true 0).
  run_step (s_dial "a" 1%N). run_step (s_finish "a" 1%N).
  apply rtc_eq. vm_compute. reflexivity.
Qed.
