(* ===== verification/Float64.v ===== *)
(** * float64

    IEEE 754 binary64 as the executable specification floats of the Standard
    Library (precision 53, exponent bound 1024, round to nearest even). A
    product-sum is rounded twice, as on targets without fused multiply-add. *)

From S2P Require Import Prelude.
From Stdlib Require Export Floats.SpecFloat.
Local Open Scope Z_scope.

Abbreviation float64 := spec_float.

Definition fprec : Z := 53.
Definition femax : Z := 1024.

Definition f_of_Z (z : Z) : float64 := binary_normalize fprec femax z 0 false.
Definition f_zero : float64 := S754_zero false.
Definition f_add (x y : float64) : float64 := SFadd fprec femax x y.
Definition f_mul (x y : float64) : float64 := SFmul fprec femax x y.
Definition f_div (x y : float64) : float64 := SFdiv fprec femax x y.
Definition f_ltb (x y : float64) : bool := SFltb x y.
Definition f_leb (x y : float64) : bool := SFleb x y.
Definition f_eqb (x y : float64) : bool := SFeqb x y.

(** A decimal literal [num / den]: both are exact, so the quotient is the
    correctly rounded literal. *)
Definition f_lit (num den : Z) : float64 := f_div (f_of_Z num) (f_of_Z den).

Definition is_nan (x : float64) : bool :=
  match x with S754_nan => true | _ => false end.

#[export] Instance float64_eq_dec : EqDecision float64.
Proof. solve_decision. Defined.

(** [d.Seconds()] of a duration in nanoseconds. *)
Definition Seconds (d : Z) : float64 :=
  f_add (f_of_Z (Z.quot d (10 ^ 9))) (f_div (f_of_Z (Z.rem d (10 ^ 9))) (f_of_Z (10 ^ 9))).

(** ** The order of the floats that are not NaN

    [SFcompare] is lexicographic on sign, exponent and mantissa, so it is a
    total preorder on the non-NaN floats whatever their rounding. *)

(** Each float as (class, exponent, mantissa), negated for negative floats. *)
Definition f_key (x : float64) : Z * Z * Z :=
  match x with
  | S754_nan => (0, 0, 0)
  | S754_zero _ => (0, 0, 0)
  | S754_infinity s => (if s then -2 else 2, 0, 0)
  | S754_finite s m e => if s then (-1, -e, Z.neg m) else (1, e, Z.pos m)
  end.

Definition key_cmp (a b : Z * Z * Z) : comparison :=
  let '(a1, a2, a3) := a in
  let '(b1, b2, b3) := b in
  match a1 ?= b1 with
  | Eq => match a2 ?= b2 with Eq => a3 ?= b3 | c => c end
  | c => c
  end.

Definition key_lt (a b : Z * Z * Z) : Prop :=
  let '(a1, a2, a3) := a in
  let '(b1, b2, b3) := b in
  a1 < b1 ∨ (a1 = b1 ∧ (a2 < b2 ∨ (a2 = b2 ∧ a3 < b3))).

Lemma SFcompare_key x y :
  is_nan x = false → is_nan y = false →
  SFcompare x y = Some (key_cmp (f_key x) (f_key y)).
Proof.
  destruct x as [[]|[]| |[] mx ex], y as [[]|[]| |[] my ey]; cbn; intros; try done.
  f_equal. rewrite Z.compare_opp, (Z.compare_antisym ex ey).
  by destruct (ex ?= ey).
Qed.

Lemma key_cmp_Lt a b : key_cmp a b = Lt ↔ key_lt a b.
Proof.
  destruct a as [[a1 a2] a3], b as [[b1 b2] b3]. cbn.
  destruct (Z.compare_spec a1 b1), (Z.compare_spec a2 b2), (Z.compare_spec a3 b3);
    split; intros; try done; lia.
Qed.

Lemma key_cmp_Eq a b : key_cmp a b = Eq ↔ a = b.
Proof.
  destruct a as [[a1 a2] a3], b as [[b1 b2] b3]. cbn.
  destruct (Z.compare_spec a1 b1), (Z.compare_spec a2 b2), (Z.compare_spec a3 b3);
    split; intros; simplify_eq; try done; lia.
Qed.

Lemma key_lt_trans a b c : key_lt a b → key_lt b c → key_lt a c.
Proof. destruct a as [[??]?], b as [[??]?], c as [[??]?]. cbn. lia. Qed.

Lemma key_lt_irrefl a : ¬ key_lt a a.
Proof. destruct a as [[??]?]. cbn. lia. Qed.

Lemma key_lt_total a b : key_lt a b ∨ a = b ∨ key_lt b a.
Proof.
  destruct (key_cmp a b) eqn:E; [apply key_cmp_Eq in E; auto|apply key_cmp_Lt in E; auto|].
  destruct a as [[a1 a2] a3], b as [[b1 b2] b3]. cbn in *.
  destruct (Z.compare_spec a1 b1), (Z.compare_spec a2 b2), (Z.compare_spec a3 b3);
    simplify_eq; lia.
Qed.

Lemma f_ltb_key x y :
  is_nan x = false → is_nan y = false → f_ltb x y = true ↔ key_lt (f_key x) (f_key y).
Proof.
  intros. unfold f_ltb, SFltb. rewrite SFcompare_key by done.
  rewrite <-key_cmp_Lt. by destruct (key_cmp _ _).
Qed.

Lemma f_eqb_key x y :
  is_nan x = false → is_nan y = false → f_eqb x y = true ↔ f_key x = f_key y.
Proof.
  intros. unfold f_eqb, SFeqb. rewrite SFcompare_key by done.
  rewrite <-key_cmp_Eq. by destruct (key_cmp _ _).
Qed.
