(* ===== verification/Net.v ===== *)
(** * Host, port and address text

    The functions of the standard package [net] that the sources call on
    addresses: [SplitHostPort], [JoinHostPort], [ParseIP], [IP.To4] and
    [IP.IsLoopback]. An IP is its sixteen bytes. *)

From S2P Require Import Prelude Text.
Local Open Scope Z_scope.

(** [net.SplitHostPort]: host and port, or an error. *)
Definition SplitHostPort (hostport : string) : option (string * string) :=
  let l := chars_of hostport in
  match last_index ":" l with
  | None => None
  | Some i =>
      let finish (host : chars) (j k : nat) :=
        if has_char "[" (drop j l) then None
        else if has_char "]" (drop k l) then None
        else Some (string_of host, string_of (drop (S i) l)) in
      match l with
      | "["%char :: _ =>
          match index_of "]" l with
          | None => None
          | Some e =>
              if (S e =? length l)%nat then None
              else if (S e =? i)%nat then finish (take (e - 1) (drop 1 l)) 1%nat (S e)
              else None
          end
      | _ =>
          let host := take i l in
          if has_char ":" host then None else finish host 0%nat 0%nat
      end
  end.

(** [net.JoinHostPort]. *)
Definition JoinHostPort (host port : string) : string :=
  if has_char ":" (chars_of host) then ("[" +:+ host +:+ "]:" +:+ port)%string
  else (host +:+ ":" +:+ port)%string.

(** ** IP addresses *)

(** The four fields of a dotted quad: [fields] so far, the value and the number
    of digits of the current one, and whether the previous byte was a dot (or
    there was none). *)
Fixpoint ipv4_fields (l : chars) (fields : list Z) (val : Z) (digits : nat)
    (after_dot : bool) : option (list Z) :=
  match l with
  | [] => if (length fields <? 3)%nat then None else Some (fields ++ [val])
  | c :: l' =>
      if is_digit c then
        if ((digits =? 1)%nat && (val =? 0))%bool then None else
        let val' := val * 10 + (code c - 48) in
        if 255 <? val' then None
        else ipv4_fields l' fields val' (S digits) false
      else if Ascii.eqb c "." then
        if (after_dot || match l' with [] => true | _ => false end)%bool then None
        else if (length fields =? 3)%nat then None
        else ipv4_fields l' (fields ++ [val]) 0 0 true
      else None
  end.

Definition parse_ipv4 (l : chars) : option (list Z) := ipv4_fields l [] 0 0 true.

(** The hexadecimal number at the head: its value, its digits, the rest. *)
Fixpoint hex_group (l : chars) (acc : Z) (off : nat) : option (Z * nat * chars) :=
  match l with
  | [] => Some (acc, off, [])
  | c :: l' =>
      match hex_val c with
      | None => Some (acc, off, l)
      | Some d =>
          if (3 <? off)%nat then None else hex_group l' (acc * 16 + d) (S off)
      end
  end.

(** The loop over the groups; [ip] holds the bytes parsed, [ell] the position of
    the ellipsis. At most eight groups are read. *)
Fixpoint ipv6_loop (fuel : nat) (s : chars) (ip : list Z) (ell : option nat)
    : option (list Z * option nat * chars) :=
  match fuel with
  | O => Some (ip, ell, s)
  | S fuel' =>
      match hex_group s 0 0 with
      | None => None
      | Some (acc, off, rest) =>
          if (off =? 0)%nat then None else
          match rest with
          | "."%char :: _ =>
              if (match ell with None => negb (length ip =? 12)%nat | Some _ => false end
                  || (16 <? length ip + 4)%nat)%bool then None
              else match parse_ipv4 s with
                   | None => None
                   | Some q => Some (ip ++ q, ell, [])
                   end
          | _ =>
              let ip' := ip ++ [acc / 256; acc mod 256] in
              match rest with
              | [] => Some (ip', ell, [])
              | c :: rest1 =>
                  if negb (Ascii.eqb c ":") then None else
                  match rest1 with
                  | [] => None
                  | ":"%char :: rest2 =>
                      match ell with
                      | Some _ => None
                      | None =>
                          match rest2 with
                          | [] => Some (ip', Some (length ip'), [])
                          | _ => ipv6_loop fuel' rest2 ip' (Some (length ip'))
                          end
                      end
                  | _ => ipv6_loop fuel' rest1 ip' ell
                  end
              end
          end
      end
  end.

Definition parse_ipv6 (s : chars) : option (list Z) :=
  let '(s1, ell) := match s with
                    | ":"%char :: ":"%char :: s' => (s', Some O)
                    | _ => (s, None)
                    end in
  match s1, ell with
  | [], Some _ => Some (replicate 16 0)
  | _, _ =>
      match ipv6_loop 8 s1 [] ell with
      | Some (ip, ell, []) =>
          if (length ip <? 16)%nat then
            match ell with
            | None => None
            | Some e => Some (take e ip ++ replicate (16 - length ip) 0 ++ drop e ip)
            end
          else match ell with Some _ => None | None => Some ip end
      | _ => None
      end
  end.

(** [net.ParseIP]: the first of '.', ':' and '%' decides the form; an address
    with a zone is refused. *)
Definition first_mark (l : chars) : option ascii :=
  head (filter (λ c, (Ascii.eqb c "." || Ascii.eqb c ":" || Ascii.eqb c "%") = true) l).

Definition ParseIP (s : string) : option (list Z) :=
  let l := chars_of s in
  match first_mark l with
  | Some "."%char => (λ q, replicate 10 0 ++ [255; 255] ++ q) <$> parse_ipv4 l
  | Some ":"%char => if has_char "%" l then None else parse_ipv6 l
  | _ => None
  end.

(** [ip.To4()]. *)
Definition To4 (ip : list Z) : option (list Z) :=
  if bool_decide (take 12 ip = replicate 10 0 ++ [255; 255]) then Some (drop 12 ip) else None.

(** [ip.IsLoopback()]. *)
Definition IsLoopback (ip : list Z) : bool :=
  match To4 ip with
  | Some v4 => nth 0 v4 0 =? 127
  | None => bool_decide (ip = replicate 15 0 ++ [1])
  end.

Example parse_examples :
  ParseIP "192.168.1.10" = Some (replicate 10 0 ++ [255; 255; 192; 168; 1; 10]) ∧
  ParseIP "01.2.3.4" = None ∧ ParseIP "1.2.3" = None ∧ ParseIP "256.1.1.1" = None ∧
  ParseIP "::1" = Some (replicate 15 0 ++ [1]) ∧
  ParseIP "2001:db8::ff:1.2.3.4"
    = Some [32; 1; 13; 184; 0; 0; 0; 0; 0; 0; 0; 255; 1; 2; 3; 4] ∧
  ParseIP "fe80::1%eth0" = None ∧ ParseIP "1:2:3:4:5:6:7:8::" = None ∧
  ParseIP "localhost" = None.
Proof. vm_compute. split_and!; reflexivity. Qed.

Example split_examples :
  SplitHostPort "127.0.0.1:80" = Some ("127.0.0.1", "80")%string ∧
  SplitHostPort "[::1]:80" = Some ("::1", "80")%string ∧
  SplitHostPort "::1:80" = None ∧ SplitHostPort "[::1]" = None ∧
  SplitHostPort "host" = None ∧ SplitHostPort ":0" = Some ("", "0")%string.
Proof. vm_compute. split_and!; reflexivity. Qed.
