(* ===== verification/Json.v ===== *)
(** * JSON: the part of [encoding/json] the messages use

    A value is a tree whose numbers keep their literal. [print_json] is the
    text [json.Marshal] writes for a tree, [ParseJson] the tree of a text;
    [decode_struct] fills a struct from an object the way [json.Unmarshal]
    does (members in order, keys compared with case folding, unknown keys and
    [null] ignored, a value of the wrong type an error). The nesting limit of
    the scanner (10000) is not modelled: the messages and the key of a probe nest at most five deep. *)

From S2P Require Import Prelude Text.
Local Open Scope Z_scope.

Inductive json : Type :=
| JNull
| JBool (b : bool)
| JNum (lit : chars)
| JStr (s : string)
| JArr (l : list json)
| JObj (members : list (string * json)).

Definition quote_char : ascii := chr 34.
Definition backslash : ascii := chr 92.

(** ** Printing *)

Definition hex_digit (d : Z) : ascii := if d <? 10 then chr (48 + d) else chr (87 + d).

(** One ASCII character inside a string, with the HTML escapes of [Marshal]. *)
Definition escape_ascii (c : ascii) : chars :=
  let n := code c in
  if n =? 34 then [backslash; quote_char]
  else if n =? 92 then [backslash; backslash]
  else if n =? 8 then [backslash; "b"%char]
  else if n =? 12 then [backslash; "f"%char]
  else if n =? 10 then [backslash; "n"%char]
  else if n =? 13 then [backslash; "r"%char]
  else if n =? 9 then [backslash; "t"%char]
  else if (n <? 32) || (n =? 60) || (n =? 62) || (n =? 38) then
    [backslash; "u"%char; "0"%char; "0"%char; hex_digit (n / 16); hex_digit (n mod 16)]
  else [c].

(** One rune of several bytes, or one invalid byte. *)
Definition escape_rune (r : Z) (seq : chars) : chars :=
  if (length seq =? 1)%nat then backslash :: chars_of "ufffd"
  else if (r =? 0x2028) || (r =? 0x2029) then
    backslash :: chars_of "u202" ++ [hex_digit (r mod 16)]
  else seq.

Fixpoint escape (fuel : nat) (l : chars) : chars :=
  match fuel, l with
  | S fuel', c :: t =>
      if code c <? 128 then escape_ascii c ++ escape fuel' t
      else
        let '(r, n) := DecodeRune l in
        escape_rune r (take n l) ++ escape fuel' (drop n l)
  | _, _ => []
  end.

Definition print_string (s : string) : chars :=
  quote_char :: escape (length (chars_of s)) (chars_of s) ++ [quote_char].

Fixpoint join_with (sep : ascii) (ls : list chars) : chars :=
  match ls with
  | [] => []
  | [l] => l
  | l :: ls' => l ++ sep :: join_with sep ls'
  end.

Fixpoint print_json (j : json) : chars :=
  match j with
  | JNull => chars_of "null"
  | JBool true => chars_of "true"
  | JBool false => chars_of "false"
  | JNum lit => lit
  | JStr s => print_string s
  | JArr l => "["%char :: join_with "," (List.map print_json l) ++ ["]"%char]
  | JObj ms =>
      "{"%char :: join_with ","
        (List.map (λ m, print_string m.1 ++ ":"%char :: print_json m.2) ms) ++ ["}"%char]
  end.

(** ** Parsing *)

Definition is_space (c : ascii) : bool :=
  let n := code c in (n =? 32) || (n =? 9) || (n =? 10) || (n =? 13).

Fixpoint skip_ws (l : chars) : chars :=
  match l with c :: t => if is_space c then skip_ws t else l | [] => [] end.

Definition hex4 (l : chars) : option (Z * chars) :=
  match l with
  | a :: b :: c :: d :: t =>
      match hex_val a, hex_val b, hex_val c, hex_val d with
      | Some a, Some b, Some c, Some d => Some (((a * 16 + b) * 16 + c) * 16 + d, t)
      | _, _, _, _ => None
      end
  | _ => None
  end.

Definition simple_escape (c : ascii) : option ascii :=
  let n := code c in
  if (n =? 34) || (n =? 92) || (n =? 47) then Some c
  else if n =? 98 then Some (chr 8)
  else if n =? 102 then Some (chr 12)
  else if n =? 110 then Some (chr 10)
  else if n =? 114 then Some (chr 13)
  else if n =? 116 then Some (chr 9)
  else None.

Definition is_surrogate (r : Z) : bool := (0xD800 <=? r) && (r <=? 0xDFFF).

(** After [\u] and the first code unit [r]: the rune and the rest. *)
Definition surrogate_pair (r : Z) (t : chars) : Z * chars :=
  if negb (is_surrogate r) then (r, t) else
  match t with
  | b :: u :: t1 =>
      if (code b =? 92) && (code u =? 117) then
        match hex4 t1 with
        | Some (r2, t2) =>
            if (r <=? 0xDBFF) && (0xDC00 <=? r2) && (r2 <=? 0xDFFF)
            then ((r - 0xD800) * 0x400 + (r2 - 0xDC00) + 0x10000, t2)
            else (RuneError, t)
        | None => (RuneError, t)
        end
      else (RuneError, t)
  | _ => (RuneError, t)
  end.

(** The content up to the closing quote, and what follows it. *)
Fixpoint unquote (fuel : nat) (l : chars) : option (chars * chars) :=
  match fuel, l with
  | S fuel', c :: t =>
      let emit (x : chars) (rest : chars) := prod_map (app x) id <$> unquote fuel' rest in
      if code c =? 34 then Some ([], t)
      else if code c =? 92 then
        match t with
        | [] => None
        | e :: t' =>
            if code e =? 117 then
              match hex4 t' with
              | None => None
              | Some (r, t2) =>
                  let '(r', t3) := surrogate_pair r t2 in emit (EncodeRune r') t3
              end
            else match simple_escape e with Some x => emit [x] t' | None => None end
        end
      else if code c <? 32 then None
      else if code c <? 128 then emit [c] t
      else
        let n := (DecodeRune l).2 in
        emit (if (n =? 1)%nat then EncodeRune RuneError else take n l) (drop n l)
  | _, _ => None
  end.

Definition parse_string (t : chars) : option (string * chars) :=
  prod_map string_of id <$> unquote (length t) t.

Fixpoint span_digits (l : chars) : chars * chars :=
  match l with
  | c :: t => if is_digit c then let '(a, b) := span_digits t in (c :: a, b) else ([], l)
  | [] => ([], [])
  end.

Definition scan_int (l : chars) : option (chars * chars) :=
  match l with
  | c :: t =>
      if code c =? 48 then Some ([c], t)
      else if is_digit c then Some (span_digits l)
      else None
  | [] => None
  end.

Definition scan_frac (l : chars) : option (chars * chars) :=
  match l with
  | "."%char :: t =>
      match span_digits t with ([], _) => None | (d, r) => Some ("."%char :: d, r) end
  | _ => Some ([], l)
  end.

Definition scan_exp (l : chars) : option (chars * chars) :=
  match l with
  | e :: t =>
      if (code e =? 101) || (code e =? 69) then
        let '(sg, t1) := match t with
                         | "-"%char :: t' => (["-"%char], t')
                         | "+"%char :: t' => (["+"%char], t')
                         | _ => ([], t)
                         end in
        match span_digits t1 with ([], _) => None | (d, r) => Some (e :: sg ++ d, r) end
      else Some ([], l)
  | [] => Some ([], [])
  end.

Definition scan_number (l : chars) : option (chars * chars) :=
  let '(sg, l1) := match l with "-"%char :: t => (["-"%char], t) | _ => ([], l) end in
  match scan_int l1 with
  | None => None
  | Some (a, l2) =>
      match scan_frac l2 with
      | None => None
      | Some (b, l3) =>
          match scan_exp l3 with
          | None => None
          | Some (c, l4) => Some (sg ++ a ++ b ++ c, l4)
          end
      end
  end.

Definition expect (word : string) (j : json) (l : chars) : option (json * chars) :=
  let w := chars_of word in
  if decide (take (length w) l = w) then Some (j, drop (length w) l) else None.

(** A value; the elements of an array after its first bracket; the members of
    an object after its first brace. *)
Fixpoint parse_value (fuel : nat) (l : chars) : option (json * chars) :=
  match fuel, skip_ws l with
  | S fuel', c :: t =>
      if code c =? 34 then prod_map JStr id <$> parse_string t
      else if Ascii.eqb c "[" then
        match skip_ws t with
        | "]"%char :: r => Some (JArr [], r)
        | _ => prod_map JArr id <$> parse_elems fuel' t
        end
      else if Ascii.eqb c "{" then
        match skip_ws t with
        | "}"%char :: r => Some (JObj [], r)
        | _ => prod_map JObj id <$> parse_members fuel' t
        end
      else if Ascii.eqb c "n" then expect "null" JNull (c :: t)
      else if Ascii.eqb c "t" then expect "true" (JBool true) (c :: t)
      else if Ascii.eqb c "f" then expect "false" (JBool false) (c :: t)
      else prod_map JNum id <$> scan_number (c :: t)
  | _, _ => None
  end
with parse_elems (fuel : nat) (l : chars) : option (list json * chars) :=
  match fuel with
  | O => None
  | S fuel' =>
      match parse_value fuel' l with
      | None => None
      | Some (x, r) =>
          match skip_ws r with
          | ","%char :: r' => prod_map (cons x) id <$> parse_elems fuel' r'
          | "]"%char :: r' => Some ([x], r')
          | _ => None
          end
      end
  end
with parse_members (fuel : nat) (l : chars) : option (list (string * json) * chars) :=
  match fuel, skip_ws l with
  | S fuel', c :: t =>
      if negb (code c =? 34) then None else
      match parse_string t with
      | None => None
      | Some (k, r) =>
          match skip_ws r with
          | ":"%char :: r1 =>
              match parse_value fuel' r1 with
              | None => None
              | Some (v, r2) =>
                  match skip_ws r2 with
                  | ","%char :: r3 => prod_map (cons (k, v)) id <$> parse_members fuel' r3
                  | "}"%char :: r3 => Some ([(k, v)], r3)
                  | _ => None
                  end
              end
          | _ => None
          end
      end
  | _, _ => None
  end.

(** One value and nothing else but white space. *)
Definition ParseJson (l : chars) : option json :=
  match parse_value (2 * length l + 2) l with
  | Some (j, r) => match skip_ws r with [] => Some j | _ => None end
  | None => None
  end.

Example parse_json_examples :
  ParseJson (chars_of " {} ") = Some (JObj []) ∧
  ParseJson (chars_of "[1, -2.5e3 ,true,null]")
    = Some (JArr [JNum (chars_of "1"); JNum (chars_of "-2.5e3"); JBool true; JNull]) ∧
  ParseJson (chars_of "[01]") = None ∧ ParseJson (chars_of "1 2") = None ∧
  ParseJson (print_json (JObj [("a<b"%string, JStr "x")]))
    = Some (JObj [("a<b"%string, JStr "x")]).
Proof. vm_compute. split_and!; reflexivity. Qed.

(** ** Strings survive printing and parsing *)

Lemma unquote_escape_ascii c fuel t :
  code c < 128 →
  unquote (S fuel) (escape_ascii c ++ t) = prod_map (app [c]) id <$> unquote fuel t.
Proof.
  intros Hc. destruct c as [[] [] [] [] [] [] [] []]; try reflexivity;
    exfalso; vm_compute in Hc; done.
Qed.

Lemma valid_utf8_step n c t :
  valid_utf8_fuel (S n) (c :: t) = true → 128 ≤ code c →
  let sz := (DecodeRune (c :: t)).2 in
  multi_rune (take sz (c :: t)) (DecodeRune (c :: t)).1 ∧ (1 < sz ≤ length (c :: t))%nat ∧
  valid_utf8_fuel n (drop sz (c :: t)) = true.
Proof.
  intros Hv Hc sz. cbn [valid_utf8_fuel] in Hv. fold sz in Hv. zbool.
  apply orb_true_iff in H as [H|H]; [zbool; lia|]. apply Nat.ltb_lt in H.
  subst sz. destruct (DecodeRune (c :: t)) as [r sz] eqn:Hd. cbn [fst snd] in *.
  split; [by eapply DecodeRune_multi|]. split; [|done]. split; [done|].
  pose proof (DecodeRune_size (c :: t) ltac:(done)) as Hs. rewrite Hd in Hs. apply Hs.
Qed.

Lemma escape_length n l : (length l ≤ n)%nat → valid_utf8_fuel n l = true →
  (length l ≤ length (escape n l))%nat.
Proof.
  revert l. induction n as [|n IH]; intros [|c t] Hn Hv; cbn in Hn; try (cbn; lia).
  cbn [escape]. destruct (Z.ltb_spec (code c) 128) as [Hc|Hc].
  - cbn [valid_utf8_fuel] in Hv. unfold DecodeRune in Hv.
    destruct (Z.ltb_spec (code c) 128); [|lia]. cbn in Hv.
    rewrite length_app. specialize (IH t ltac:(lia) Hv). cbn.
    assert (1 ≤ length (escape_ascii c))%nat; [|lia].
    unfold escape_ascii. repeat case_match; cbn; lia.
  - destruct (valid_utf8_step _ _ _ Hv Hc) as (_ & Hsz & Hv').
    destruct (DecodeRune (c :: t)) as [r sz] eqn:Hd. cbn [snd] in *.
    specialize (IH (drop sz (c :: t))). rewrite length_drop in IH.
    rewrite length_app. cbn [length] in *. specialize (IH ltac:(lia) Hv').
    assert (sz ≤ length (escape_rune r (take sz (c :: t))))%nat; [|lia].
    unfold escape_rune. rewrite length_take. cbn [length].
    destruct (Nat.eqb_spec (sz `min` S (length t)) 1); [lia|].
    destruct (_ || _) eqn:Hr; [|rewrite length_take; cbn; lia].
    unfold DecodeRune in Hd. cbn. revert Hd. repeat case_match; intros; simplify_eq; lia.
Qed.

Lemma unquote_multi fuel seq r t :
  multi_rune seq r →
  unquote (S fuel) (seq ++ t) = prod_map (app seq) id <$> unquote fuel t.
Proof.
  intros (Hlen & Hhi & Hd). specialize (Hd t). destruct seq as [|c seq]; [cbn in Hlen; lia|].
  assert (0x80 ≤ code c) by (apply Hhi; left). cbn [app unquote] in *. rewrite Hd. cbn [snd].
  destruct (Z.eqb_spec (code c) 34); [lia|]. destruct (Z.eqb_spec (code c) 92); [lia|].
  destruct (Z.ltb_spec (code c) 32); [lia|]. destruct (Z.ltb_spec (code c) 128); [lia|].
  destruct (Nat.eqb_spec (length (c :: seq)) 1); [lia|].
  change (c :: seq ++ t) with ((c :: seq) ++ t). by rewrite take_app_length, drop_app_length.
Qed.

Lemma unquote_separator r fuel t :
  r = 0x2028 ∨ r = 0x2029 →
  unquote (S fuel) ((backslash :: chars_of "u202" ++ [hex_digit (r mod 16)]) ++ t)
    = prod_map (app (EncodeRune r)) id <$> unquote fuel t.
Proof. by intros [-> | ->]. Qed.

Lemma unquote_escape n l rest fuel :
  (length l ≤ n)%nat → valid_utf8_fuel n l = true → (length l < fuel)%nat →
  unquote fuel (escape n l ++ quote_char :: rest) = Some (l, rest).
Proof.
  revert l fuel. induction n as [|n IH]; intros [|c t] fuel Hn Hv Hf;
    (destruct fuel as [|fuel]; [lia|]); cbn [length] in Hn, Hf; try done; try lia.
  cbn [escape]. destruct (Z.ltb_spec (code c) 128) as [Hc|Hc].
  - cbn [valid_utf8_fuel] in Hv. unfold DecodeRune in Hv.
    destruct (Z.ltb_spec (code c) 128); [|lia]. cbn in Hv.
    rewrite <-app_assoc, unquote_escape_ascii by done. by rewrite IH by (done || lia).
  - destruct (valid_utf8_step _ _ _ Hv Hc) as (Hrb & Hsz & Hv').
    destruct (DecodeRune (c :: t)) as [r sz] eqn:Hd. cbn [snd] in *.
    assert (Hseq : length (take sz (c :: t)) = sz) by (rewrite length_take; lia).
    specialize (IH (drop sz (c :: t)) fuel). rewrite length_drop in IH. cbn [length] in *.
    rewrite <-app_assoc. unfold escape_rune. rewrite Hseq.
    destruct (Nat.eqb_spec sz 1); [lia|].
    destruct (_ || _) eqn:Hr.
    + assert (Hr' : r = 0x2028 ∨ r = 0x2029) by (apply orb_true_iff in Hr as [?|?]; zbool; auto).
      rewrite <-(take_drop sz (c :: t)) at 2.
      rewrite <-(EncodeRune_DecodeRune _ _ _ _ (proj1 Hsz) Hd).
      rewrite unquote_separator by done. by rewrite IH by (done || lia).
    + rewrite (unquote_multi _ _ _ _ Hrb). rewrite IH by (done || lia). cbn.
      by rewrite take_drop.
Qed.

Lemma parse_print_string s rest :
  ValidString s = true →
  parse_string (escape (length (chars_of s)) (chars_of s) ++ quote_char :: rest)
    = Some (s, rest).
Proof.
  intros Hv. unfold parse_string. rewrite unquote_escape; [|done|done|].
  - cbn. by rewrite string_of_chars.
  - pose proof (escape_length _ _ (le_n _) Hv). rewrite length_app. cbn [length]. lia.
Qed.

(** ** Values survive printing and parsing *)

(** What may follow a value inside a printed text. *)
Definition delim (l : chars) : Prop :=
  match l with [] => True | c :: _ => c = ","%char ∨ c = "]"%char ∨ c = "}"%char end.

(** The trees [Marshal] produces for the messages: valid text, integers. *)
Inductive json_ok : json → Prop :=
| ok_null : json_ok JNull
| ok_bool b : json_ok (JBool b)
| ok_int z : json_ok (JNum (FormatInt z))
| ok_str s : ValidString s = true → json_ok (JStr s)
| ok_arr l : (∀ j, j ∈ l → json_ok j) → json_ok (JArr l)
| ok_obj ms : (∀ k j, (k, j) ∈ ms → ValidString k = true ∧ json_ok j) → json_ok (JObj ms).
#[export] Hint Constructors json_ok : go.

Lemma span_digits_app ds rest :
  forallb is_digit ds = true → delim rest → span_digits (ds ++ rest) = (ds, rest).
Proof.
  intros Hd Hr. induction ds as [|c ds IH]; cbn in *.
  - destruct rest as [|c rest]; [done|]. cbn. cbn in Hr.
    by destruct Hr as [-> |[-> | ->]].
  - zbool. by rewrite H, IH.
Qed.

Lemma format_digits_head fuel n acc :
  0 < n → (Z.to_nat (Z.log2 n) < fuel)%nat →
  ∃ c ds, format_digits fuel n acc = c :: ds ∧ code c ≠ 48.
Proof.
  revert n acc. induction fuel as [|fuel IH]; intros n acc Hn Hf; [lia|]. cbn.
  destruct (Z.ltb_spec n 10).
  - do 2 eexists. split; [done|]. rewrite code_chr by lia. lia.
  - apply IH; [apply Z.div_str_pos; lia|].
    pose proof (log2_div10 n ltac:(lia)). pose proof (Z.log2_nonneg (n / 10)). lia.
Qed.

Lemma scan_int_format n rest :
  0 ≤ n → delim rest → scan_int (format_nat n ++ rest) = Some (format_nat n, rest).
Proof.
  intros Hn Hr. destruct (decide (n = 0)) as [-> |]; [done|].
  destruct (format_nat_spec n Hn) as [Hd _].
  destruct (format_digits_head (S (Z.to_nat (Z.log2 n))) n []) as (c & ds & Heq & Hc);
    [lia|lia|]. fold (format_nat n) in Heq. rewrite Heq in *. cbn [app scan_int].
  destruct (Z.eqb_spec (code c) 48); [done|]. unfold all_digits in Hd.
  assert (is_digit c = true) as -> by (cbn in Hd; by zbool).
  by rewrite (app_comm_cons ds rest c), span_digits_app.
Qed.

Lemma scan_tail rest :
  delim rest → scan_frac rest = Some ([], rest) ∧ scan_exp rest = Some ([], rest).
Proof.
  destruct rest as [|c rest]; [done|]. cbn [delim]. intros Hr.
  by destruct Hr as [-> |[-> | ->]].
Qed.

Lemma scan_number_format z rest :
  delim rest → scan_number (FormatInt z ++ rest) = Some (FormatInt z, rest).
Proof.
  intros Hr. destruct (scan_tail rest Hr) as [Hf He]. unfold scan_number, FormatInt.
  destruct (Z.ltb_spec z 0).
  - cbn [app]. rewrite scan_int_format by (done || lia). rewrite Hf, He. by rewrite app_nil_r.
  - destruct (format_nat_spec z) as [Hd _]; [lia|].
    destruct (all_digits_head _ Hd) as (c & ds & Heq & Hc).
    transitivity (match scan_int (format_nat z ++ rest) with
                  | Some (a, l2) => match scan_frac l2 with
                      | Some (b, l3) => match scan_exp l3 with
                          | Some (c, l4) => Some (a ++ b ++ c, l4) | None => None end
                      | None => None end
                  | None => None end).
    + rewrite Heq. cbn [app]. destruct (Ascii.eqb_spec c "-") as [-> |]; [done|].
      destruct c as [[] [] [] [] [] [] [] []]; try done; reflexivity.
    + rewrite scan_int_format by (done || lia). rewrite Hf, He. by rewrite app_nil_r.
Qed.

Lemma parse_value_num fuel z rest :
  delim rest →
  parse_value (S fuel) (FormatInt z ++ rest) = Some (JNum (FormatInt z), rest).
Proof.
  intros Hr. pose proof (scan_number_format z rest Hr) as Hs.
  assert (∃ c t, FormatInt z ++ rest = c :: t ∧ (c = "-"%char ∨ is_digit c = true))
    as (c & t & Heq & Hc).
  { unfold FormatInt. destruct (Z.ltb_spec z 0); [cbn; eauto|].
    destruct (format_nat_spec z) as [Hd _]; [lia|].
    destruct (all_digits_head _ Hd) as (c & ds & -> & Hc). cbn. eauto. }
  rewrite Heq in *.
  assert (parse_value (S fuel) (c :: t) = prod_map JNum id <$> scan_number (c :: t)) as ->.
  { clear -Hc. destruct Hc as [-> |Hc]; [reflexivity|].
    destruct c as [[] [] [] [] [] [] [] []]; try (by vm_compute in Hc); reflexivity. }
  by rewrite Hs.
Qed.

Definition print_member (m : string * json) : chars :=
  print_string m.1 ++ ":"%char :: print_json m.2.

Lemma print_head j :
  json_ok j → ∃ c t, print_json j = c :: t ∧ is_space c = false ∧ c ≠ "]"%char.
Proof.
  destruct 1 as [|[]|z| | |]; cbn; try (do 2 eexists; split_and!; done).
  unfold FormatInt. destruct (Z.ltb_spec z 0); [do 2 eexists; split_and!; done|].
  destruct (format_nat_spec z) as [Hd _]; [lia|].
  destruct (all_digits_head _ Hd) as (c & ds & -> & Hc). do 2 eexists; split_and!; [done| |].
  - unfold is_digit in Hc. unfold is_space. zbool. lia.
  - intros ->. by vm_compute in Hc.
Qed.

Lemma skip_ws_head c t : is_space c = false → skip_ws (c :: t) = c :: t.
Proof. cbn. by intros ->. Qed.

Lemma join_cons sep x l : l ≠ [] → join_with sep (x :: l) = x ++ sep :: join_with sep l.
Proof. by destruct l. Qed.

(** What the three functions do with enough fuel. *)
Definition values_parse (fuel : nat) : Prop := ∀ j rest,
  json_ok j → delim rest → (2 * length (print_json j) ≤ fuel)%nat →
  parse_value fuel (print_json j ++ rest) = Some (j, rest).
Definition elems_parse (fuel : nat) : Prop := ∀ l rest,
  l ≠ [] → (∀ j, j ∈ l → json_ok j) →
  (2 * length (join_with "," (List.map print_json l)) + 1 ≤ fuel)%nat →
  parse_elems fuel (join_with "," (List.map print_json l) ++ "]"%char :: rest)
    = Some (l, rest).
Definition members_parse (fuel : nat) : Prop := ∀ ms rest,
  ms ≠ [] → (∀ k j, (k, j) ∈ ms → ValidString k = true ∧ json_ok j) →
  (2 * length (join_with "," (List.map print_member ms)) + 1 ≤ fuel)%nat →
  parse_members fuel (join_with "," (List.map print_member ms) ++ "}"%char :: rest)
    = Some (ms, rest).

Lemma elems_parse_step fuel :
  values_parse fuel → elems_parse fuel → elems_parse (S fuel).
Proof.
  intros IHv IHe [|x l] rest Hl Hok Hf; [done|]. cbn [List.map] in *.
  assert (json_ok x) by (apply Hok; left).
  destruct (decide (l = [])) as [-> |Hne].
  - cbn [List.map join_with parse_elems] in *. rewrite IHv; [|done|cbn; auto|lia].
    by rewrite skip_ws_head.
  - rewrite join_cons in * by (by destruct l). rewrite length_app in Hf. cbn [length] in Hf.
    rewrite <-app_assoc. cbn [parse_elems app]. rewrite IHv; [|done|cbn; auto|lia].
    rewrite skip_ws_head by done. cbn. rewrite IHe; [done|done| |lia].
    intros j Hj. apply Hok. by right.
Qed.

Lemma members_parse_step fuel :
  values_parse fuel → members_parse fuel → members_parse (S fuel).
Proof.
  intros IHv IHm [|[k x] l] rest Hl Hok Hf; [done|]. cbn [List.map] in *.
  destruct (Hok k x) as [Hk Hx]; [left|].
  assert (∀ r, delim r → (2 * length (print_json x) ≤ fuel)%nat →
    parse_members (S fuel) (print_member (k, x) ++ r)
    = match skip_ws r with
      | ","%char :: r3 => prod_map (cons (k, x)) id <$> parse_members fuel r3
      | "}"%char :: r3 => Some ([(k, x)], r3)
      | _ => None
      end) as Hone.
  { intros r Hr Hfx. unfold print_member, print_string. cbn [fst snd app].
    rewrite <-!app_assoc. cbn [parse_members app]. rewrite skip_ws_head by done.
    change (negb (code quote_char =? 34)) with false. cbv iota.
    rewrite parse_print_string by done. rewrite skip_ws_head by done.
    cbv iota beta. by rewrite IHv. }
  assert (length (print_member (k, x)) > length (print_json x))%nat as Hlen.
  { unfold print_member. rewrite length_app. cbn. lia. }
  destruct (decide (l = [])) as [-> |Hne].
  - cbn [List.map join_with] in *. rewrite Hone; [by rewrite skip_ws_head|cbn; auto|lia].
  - rewrite join_cons in * by (by destruct l). rewrite length_app in Hf. cbn [length] in Hf.
    rewrite <-app_assoc. cbn [app]. rewrite Hone; [|cbn; auto|lia].
    rewrite skip_ws_head by done. cbv iota beta. rewrite IHm; [done|done| |lia].
    intros k' j Hj. apply Hok. by right.
Qed.

Lemma parse_value_array fuel t :
  parse_value (S fuel) ("["%char :: t)
  = match skip_ws t with
    | "]"%char :: r => Some (JArr [], r)
    | _ => prod_map JArr id <$> parse_elems fuel t
    end.
Proof. reflexivity. Qed.

Lemma values_parse_step fuel :
  elems_parse fuel → members_parse fuel → values_parse (S fuel).
Proof.
  intros IHe IHm j rest Hok Hr Hf. destruct Hok as [|[]|z|s Hs|l Hl|ms Hms].
  - done.
  - done.
  - done.
  - by apply parse_value_num.
  - cbn [print_json]. unfold print_string. cbn [app]. rewrite <-app_assoc. cbn [parse_value].
    rewrite skip_ws_head by done. change (code quote_char =? 34) with true. cbv iota.
    cbn [app]. by rewrite parse_print_string.
  - cbn [print_json app]. destruct (decide (l = [])) as [-> |Hne]; [done|].
    rewrite <-app_assoc. cbn [app].
    transitivity (prod_map JArr id <$>
      parse_elems fuel (join_with "," (List.map print_json l) ++ "]"%char :: rest)).
    + destruct l as [|x l]; [done|]. destruct (print_head x) as (c & t & Heq & Hsp & Hc);
        [apply Hl; left|].
      assert (∃ t', join_with "," (List.map print_json (x :: l)) ++ "]"%char :: rest = c :: t')
        as [t' ->].
      { cbn [List.map]. destruct l; cbn [List.map join_with]; rewrite Heq; cbn; eauto. }
      rewrite parse_value_array, skip_ws_head by done.
      destruct c as [[] [] [] [] [] [] [] []]; try done; reflexivity.
    + rewrite IHe; [done|done|done|]. cbn in Hf. rewrite length_app in Hf. cbn in Hf. lia.
  - cbn [print_json app]. fold print_member. destruct (decide (ms = [])) as [-> |Hne]; [done|].
    rewrite <-app_assoc. cbn [app].
    transitivity (prod_map JObj id <$>
      parse_members fuel (join_with "," (List.map print_member ms) ++ "}"%char :: rest)).
    + destruct ms as [|x l]; [done|].
      assert (∃ t', join_with "," (List.map print_member (x :: l)) ++ "}"%char :: rest
                    = quote_char :: t') as [t' ->].
      { cbn [List.map]. destruct l; cbn [List.map join_with]; cbn; eauto. }
      reflexivity.
    + rewrite IHm; [done|done|done|]. cbn [print_json] in Hf. fold print_member in Hf.
      cbn in Hf. rewrite length_app in Hf. cbn in Hf. lia.
Qed.

Lemma parse_fuel fuel : values_parse fuel ∧ elems_parse fuel ∧ members_parse fuel.
Proof.
  induction fuel as [|fuel (IHv & IHe & IHm)].
  - split_and!.
    + intros j rest Hok _ Hf. destruct (print_head j Hok) as (c & t & Heq & _).
      rewrite Heq in Hf. cbn in Hf. lia.
    + intros l rest _ _ Hf. lia.
    + intros l rest _ _ Hf. lia.
  - split_and!; [by apply values_parse_step|by apply elems_parse_step|
                 by apply members_parse_step].
Qed.

Lemma ParseJson_print j : json_ok j → ParseJson (print_json j) = Some j.
Proof.
  intros Hok. unfold ParseJson. destruct (parse_fuel (2 * length (print_json j) + 2)) as [Hv _].
  specialize (Hv j [] Hok I). rewrite app_nil_r in Hv. rewrite Hv by lia. done.
Qed.

(** ** Structs: [json.Marshal] and [json.Unmarshal] *)

(** Member names are compared after simple case folding; besides the ASCII
    letters, U+017F folds to S and U+212A to K. *)
Definition fold_rune (r : Z) : Z :=
  if (97 <=? r) && (r <=? 122) then r - 32
  else if r =? 0x17F then 83 else if r =? 0x212A then 75 else r.

Fixpoint fold_name (fuel : nat) (l : chars) : list Z :=
  match fuel, l with
  | S fuel', _ :: _ =>
      let '(r, n) := DecodeRune l in fold_rune r :: fold_name fuel' (drop n l)
  | _, _ => []
  end.

Definition same_name (k name : string) : bool :=
  let f s := fold_name (length (chars_of s)) (chars_of s) in bool_decide (f k = f name).

(** The field [name] of a struct: its last member that is not [null], the zero
    value if there is none; an error if a member has the wrong type. *)
Definition field {A} (dec : json → option A) (name : string) (zero : A) (j : json)
    : option A :=
  match j with
  | JNull => Some zero
  | JObj ms =>
      fold_left (λ acc m,
        match acc with
        | None => None
        | Some _ =>
            if same_name m.1 name
            then match m.2 with JNull => acc | v => dec v end
            else acc
        end) ms (Some zero)
  | _ => None
  end.

(** A field of raw JSON: [null] is a value like any other. *)
Definition field_raw (name : string) (j : json) : option (option json) :=
  match j with
  | JNull => Some None
  | JObj ms =>
      Some (fold_left (λ acc m, if same_name m.1 name then Some m.2 else acc) ms None)
  | _ => None
  end.

Definition dec_string (j : json) : option string :=
  match j with JStr s => Some s | _ => None end.
Definition dec_bool (j : json) : option bool :=
  match j with JBool b => Some b | _ => None end.
Definition dec_int (j : json) : option Z :=
  match j with JNum lit => ParseInt lit | _ => None end.
Definition dec_uint32 (j : json) : option Z :=
  match j with JNum lit => ParseUint32 lit | _ => None end.
Definition dec_slice {A} (dec : json → option A) (j : json) : option (list A) :=
  match j with JArr l => mapM dec l | _ => None end.

Definition jint (z : Z) : json := JNum (FormatInt z).

(** A member with [omitempty]. *)
Definition omit_if (empty : bool) (m : string * json) : list (string * json) :=
  if empty then [] else [m].

(** A message type: its encoding as a tree, its decoder, the values that
    survive (integers of the field's width, valid text), and the laws. *)
Class Message (A : Type) := {
  encode : A → json;
  decode : json → option A;
  msg_ok : A → Prop;
  decode_encode a : msg_ok a → decode (encode a) = Some a;
  encode_ok a : msg_ok a → json_ok (encode a);
}.

Definition to_bytes (l : chars) : bytes := List.map byte_of_ascii l.
Definition of_bytes (b : bytes) : chars := List.map ascii_of_byte b.

Definition Marshal `{Message A} (a : A) : bytes := to_bytes (print_json (encode a)).

(** [json.Unmarshal(data, &a)] into a zero [a]; [None] is an error. *)
Definition Unmarshal (A : Type) `{Message A} (data : bytes) : option A :=
  ParseJson (of_bytes data) ≫= decode.

Lemma of_to_bytes l : of_bytes (to_bytes l) = l.
Proof.
  unfold of_bytes, to_bytes. rewrite List.map_map. rewrite <-(List.map_id l) at 2.
  apply List.map_ext. intros. apply ascii_of_byte_of_ascii.
Qed.
#[export] Hint Rewrite of_to_bytes : go.
