(* ===== verification/Model.v ===== *)
(** * Messages

    internal/gsp_sdk/model: one record per JSON structure of the protocol,
    with its encoding ([omitempty] included) and decoding. *)

From S2P Require Import Prelude Text Json.
Local Open Scope string_scope.
Local Open Scope Z_scope.

(** internal/gsp_sdk/model/type.go:8-10 [BaseJson] *)
Record BaseJson : Type := mkBaseJson { bj_Operate : string }.

(** internal/gsp_sdk/model/type.go:12-15 [GetChunkReq] *)
Record GetChunkReq : Type := mkGetChunkReq { gq_Operate : string; gq_Index : Z }.

(** internal/gsp_sdk/model/type.go:17-22 [GetChunkResp] *)
Record GetChunkResp : Type := mkGetChunkResp {
  gr_Error : string; gr_Index : Z; gr_Status : bool; gr_CheckSum : Z;
}.

(** internal/gsp_sdk/model/type.go:24-30 [GetFileStatusResp] *)
Record GetFileStatusResp : Type := mkGetFileStatusResp {
  fs_Error : string; fs_FileName : string; fs_FileSize : Z; fs_ChunkSize : Z; fs_ChunkNum : Z;
}.

(** internal/gsp_sdk/model/type.go:32-38 [WantChunkReq] *)
Record WantChunkReq : Type := mkWantChunkReq {
  wq_Zone : string; wq_Want : Z; wq_UUID : string; wq_Operate : string; wq_Index : Z;
}.

(** internal/gsp_sdk/model/type.go:60-63 [SourceCandidate] *)
Record SourceCandidate : Type := mkSourceCandidate { sc_Addr : string; sc_UUID : string }.

(** internal/gsp_sdk/model/type.go:40-46 [WantChunkResp] *)
Record WantChunkResp : Type := mkWantChunkResp {
  wr_Sources : list SourceCandidate; wr_Index : Z; wr_Addr : string; wr_CheckSum : Z;
  wr_UUID : string;
}.

(** internal/gsp_sdk/model/type.go:47-51 [ReportChunkReq] *)
Record ReportChunkReq : Type := mkReportChunkReq {
  rq_Operate : string; rq_Index : Z; rq_UUID : string;
}.

(** internal/gsp_sdk/model/type.go:53-58 [PeerRegReq] *)
Record PeerRegReq : Type := mkPeerRegReq {
  pr_Zone : string; pr_Operate : string; pr_Port : string; pr_UUID : string;
}.

(** internal/gsp_sdk/model/type.go:65-69 [ControlMsg] *)
Record ControlMsg : Type := mkControlMsg { cm_Cmd : string; cm_Index : Z; cm_Until : Z }.

(** internal/gsp_sdk/model/type.go:71-77 [PushStart] *)
Record PushStart : Type := mkPushStart {
  ps_ChunkSize : Z; ps_Operate : string; ps_FileName : string; ps_FileSize : Z;
  ps_ChunkNum : Z;
}.

(** internal/gsp_sdk/model/type.go:91-98 [PeerReportReq] *)
Record PeerReportReq : Type := mkPeerReportReq {
  pp_Operate : string; pp_UUID : string; pp_ProviderUUID : string; pp_Status : string;
  pp_Speed : Z; pp_Index : Z;
}.

(** internal/gsp_sdk/model/type.go:113-117 [NodeStatus] *)
Record NodeStatusMsg : Type := mkNodeStatus {
  ns_UUID : string; ns_Sender : bool; ns_HasFile : bool;
}.

(** [Value] is any JSON value, nil when there is none.
    internal/gsp_sdk/model/type.go:107-110 [ControlResponse] *)
Record ControlResponse : Type := mkControlResponse { cr_Value : option json; cr_Error : string }.

#[export] Instance SourceCandidate_eq_dec : EqDecision SourceCandidate.
Proof. solve_decision. Defined.
#[export] Instance ControlMsg_eq_dec : EqDecision ControlMsg.
Proof. solve_decision. Defined.

(** Fields of the types the messages use. *)
Definition text := field dec_string.
Definition num := field dec_int.
Definition crc := field dec_uint32.
Definition flag := field dec_bool.

Definition str_ok (s : string) : Prop := ValidString s = true.
Definition int_ok (z : Z) : Prop := in_int64 z = true.
Definition crc_ok (z : Z) : Prop := 0 ≤ z < 2 ^ 32.

Definition is_empty (s : string) : bool := match s with EmptyString => true | _ => false end.

Lemma is_empty_true x : is_empty x = true ↔ x = "".
Proof. by destruct x. Qed.

Lemma is_empty_false x : is_empty x = false ↔ x ≠ "".
Proof. by destruct x. Qed.

(** The laws of an instance. Which members are written depends on the fields
    that are omitted when empty; each field is then read back. *)
Ltac eval_names :=
  repeat match goal with
  | |- context [same_name ?a ?b] =>
      let v := eval vm_compute in (same_name a b) in
      replace (same_name a b) with v by (vm_compute; reflexivity)
  end.

Ltac split_omitted :=
  repeat match goal with
  | |- context [is_empty ?s] => is_var s; destruct s
  | |- context [?z =? 0] => is_var z; destruct (Z.eqb_spec z 0) as [-> |]
  end.

Ltac decode_fields :=
  unfold text, num, crc, flag, field, jint; cbn; split_omitted; unfold omit_if; cbn;
  rewrite ?Z.eqb_refl;
  repeat match goal with
  | H : ?z ≠ 0 |- _ => rewrite (proj2 (Z.eqb_neq z 0) H) in *; clear H
  end;
  cbn; eval_names; cbn;
  rewrite ?ParseInt_FormatInt, ?ParseUint32_FormatInt by done; cbn;
  rewrite ?ParseInt_FormatInt, ?ParseUint32_FormatInt by done; cbn; try done.

Ltac members_ok Hin :=
  repeat (apply elem_of_cons in Hin as [Hin|Hin];
          [simplify_eq; split; [reflexivity|by constructor]|]);
  by apply elem_of_nil in Hin.

Ltac encode_members :=
  unfold jint; cbn; split_omitted; unfold omit_if; cbn; constructor; intros ? ? Hin;
  members_ok Hin.

Ltac open_message :=
  let m := fresh "m" in
  let Hok := fresh "Hok" in
  intros m Hok; destruct m; hnf in Hok; cbn in Hok; destruct_and? Hok.

Arguments FormatInt : simpl never.
Arguments ParseInt : simpl never.
Arguments ParseUint32 : simpl never.
Arguments same_name : simpl never.
Arguments Z.eqb : simpl never.
Arguments omit_if : simpl never.

(** internal/gsp_sdk/model/type.go:8-10 [BaseJson] *)
Definition encode_BaseJson (m : BaseJson) : json :=
  JObj ([("operate", JStr (bj_Operate m))]).

(** internal/gsp_sdk/model/type.go:8-10 [BaseJson] *)
Definition decode_BaseJson (j : json) : option BaseJson :=
  operate ← text "operate" "" j;
  Some (mkBaseJson operate).

Definition BaseJson_ok (m : BaseJson) : Prop :=
  str_ok (bj_Operate m).

#[export, refine] Instance BaseJson_message : Message BaseJson := {|
  encode := encode_BaseJson; decode := decode_BaseJson; msg_ok := BaseJson_ok;
|}.
Proof.
  - open_message. unfold encode_BaseJson, decode_BaseJson.
    decode_fields.
  - open_message. unfold encode_BaseJson. encode_members.
Defined.

(** internal/gsp_sdk/model/type.go:12-15 [GetChunkReq] *)
Definition encode_GetChunkReq (m : GetChunkReq) : json :=
  JObj ([("operate", JStr (gq_Operate m))]
    ++ [("index", jint (gq_Index m))]).

(** internal/gsp_sdk/model/type.go:12-15 [GetChunkReq] *)
Definition decode_GetChunkReq (j : json) : option GetChunkReq :=
  operate ← text "operate" "" j;
  index ← num "index" 0 j;
  Some (mkGetChunkReq operate index).

Definition GetChunkReq_ok (m : GetChunkReq) : Prop :=
  str_ok (gq_Operate m) ∧ int_ok (gq_Index m).

#[export, refine] Instance GetChunkReq_message : Message GetChunkReq := {|
  encode := encode_GetChunkReq; decode := decode_GetChunkReq; msg_ok := GetChunkReq_ok;
|}.
Proof.
  - open_message. unfold encode_GetChunkReq, decode_GetChunkReq.
    decode_fields.
  - open_message. unfold encode_GetChunkReq. encode_members.
Defined.

(** internal/gsp_sdk/model/type.go:17-22 [GetChunkResp] *)
Definition encode_GetChunkResp (m : GetChunkResp) : json :=
  JObj (omit_if (is_empty (gr_Error m)) ("error", JStr (gr_Error m))
    ++ [("index", jint (gr_Index m))]
    ++ [("status", JBool (gr_Status m))]
    ++ [("checkSum", jint (gr_CheckSum m))]).

(** internal/gsp_sdk/model/type.go:17-22 [GetChunkResp] *)
Definition decode_GetChunkResp (j : json) : option GetChunkResp :=
  error ← text "error" "" j;
  index ← num "index" 0 j;
  status ← flag "status" false j;
  checkSum ← crc "checkSum" 0 j;
  Some (mkGetChunkResp error index status checkSum).

Definition GetChunkResp_ok (m : GetChunkResp) : Prop :=
  str_ok (gr_Error m) ∧ int_ok (gr_Index m) ∧ crc_ok (gr_CheckSum m).

#[export, refine] Instance GetChunkResp_message : Message GetChunkResp := {|
  encode := encode_GetChunkResp; decode := decode_GetChunkResp; msg_ok := GetChunkResp_ok;
|}.
Proof.
  - open_message. unfold encode_GetChunkResp, decode_GetChunkResp.
    decode_fields.
  - open_message. unfold encode_GetChunkResp. encode_members.
Defined.

(** internal/gsp_sdk/model/type.go:24-30 [GetFileStatusResp] *)
Definition encode_GetFileStatusResp (m : GetFileStatusResp) : json :=
  JObj (omit_if (is_empty (fs_Error m)) ("error", JStr (fs_Error m))
    ++ [("fileName", JStr (fs_FileName m))]
    ++ [("fileSize", jint (fs_FileSize m))]
    ++ [("chunkSize", jint (fs_ChunkSize m))]
    ++ [("chunkNum", jint (fs_ChunkNum m))]).

(** internal/gsp_sdk/model/type.go:24-30 [GetFileStatusResp] *)
Definition decode_GetFileStatusResp (j : json) : option GetFileStatusResp :=
  error ← text "error" "" j;
  fileName ← text "fileName" "" j;
  fileSize ← num "fileSize" 0 j;
  chunkSize ← num "chunkSize" 0 j;
  chunkNum ← num "chunkNum" 0 j;
  Some (mkGetFileStatusResp error fileName fileSize chunkSize chunkNum).

Definition GetFileStatusResp_ok (m : GetFileStatusResp) : Prop :=
  str_ok (fs_Error m) ∧ str_ok (fs_FileName m) ∧ int_ok (fs_FileSize m) ∧ int_ok (fs_ChunkSize m) ∧ int_ok (fs_ChunkNum m).

#[export, refine] Instance GetFileStatusResp_message : Message GetFileStatusResp := {|
  encode := encode_GetFileStatusResp; decode := decode_GetFileStatusResp; msg_ok := GetFileStatusResp_ok;
|}.
Proof.
  - open_message. unfold encode_GetFileStatusResp, decode_GetFileStatusResp.
    decode_fields.
  - open_message. unfold encode_GetFileStatusResp. encode_members.
Defined.

(** internal/gsp_sdk/model/type.go:32-38 [WantChunkReq] *)
Definition encode_WantChunkReq (m : WantChunkReq) : json :=
  JObj (omit_if (is_empty (wq_Zone m)) ("zone", JStr (wq_Zone m))
    ++ omit_if (wq_Want m =? 0) ("want", jint (wq_Want m))
    ++ [("uuid", JStr (wq_UUID m))]
    ++ [("operate", JStr (wq_Operate m))]
    ++ [("index", jint (wq_Index m))]).

(** internal/gsp_sdk/model/type.go:32-38 [WantChunkReq] *)
Definition decode_WantChunkReq (j : json) : option WantChunkReq :=
  zone ← text "zone" "" j;
  want ← num "want" 0 j;
  uuid ← text "uuid" "" j;
  operate ← text "operate" "" j;
  index ← num "index" 0 j;
  Some (mkWantChunkReq zone want uuid operate index).

Definition WantChunkReq_ok (m : WantChunkReq) : Prop :=
  str_ok (wq_Zone m) ∧ int_ok (wq_Want m) ∧ str_ok (wq_UUID m) ∧ str_ok (wq_Operate m) ∧ int_ok (wq_Index m).

#[export, refine] Instance WantChunkReq_message : Message WantChunkReq := {|
  encode := encode_WantChunkReq; decode := decode_WantChunkReq; msg_ok := WantChunkReq_ok;
|}.
Proof.
  - open_message. unfold encode_WantChunkReq, decode_WantChunkReq.
    decode_fields.
  - open_message. unfold encode_WantChunkReq. encode_members.
Defined.

(** internal/gsp_sdk/model/type.go:60-63 [SourceCandidate] *)
Definition encode_SourceCandidate (m : SourceCandidate) : json :=
  JObj ([("addr", JStr (sc_Addr m))]
    ++ [("uuid", JStr (sc_UUID m))]).

(** internal/gsp_sdk/model/type.go:60-63 [SourceCandidate] *)
Definition decode_SourceCandidate (j : json) : option SourceCandidate :=
  addr ← text "addr" "" j;
  uuid ← text "uuid" "" j;
  Some (mkSourceCandidate addr uuid).

Definition SourceCandidate_ok (m : SourceCandidate) : Prop :=
  str_ok (sc_Addr m) ∧ str_ok (sc_UUID m).

#[export, refine] Instance SourceCandidate_message : Message SourceCandidate := {|
  encode := encode_SourceCandidate; decode := decode_SourceCandidate; msg_ok := SourceCandidate_ok;
|}.
Proof.
  - open_message. unfold encode_SourceCandidate, decode_SourceCandidate.
    decode_fields.
  - open_message. unfold encode_SourceCandidate. encode_members.
Defined.

(** internal/gsp_sdk/model/type.go:40-46 [WantChunkResp] *)
Definition encode_WantChunkResp (m : WantChunkResp) : json :=
  JObj (omit_if (bool_decide (wr_Sources m = [])) ("sources", JArr (List.map encode_SourceCandidate (wr_Sources m)))
    ++ [("index", jint (wr_Index m))]
    ++ [("addr", JStr (wr_Addr m))]
    ++ [("checkSum", jint (wr_CheckSum m))]
    ++ [("uuid", JStr (wr_UUID m))]).

(** internal/gsp_sdk/model/type.go:40-46 [WantChunkResp] *)
Definition decode_WantChunkResp (j : json) : option WantChunkResp :=
  sources ← field (dec_slice decode_SourceCandidate) "sources" [] j;
  index ← num "index" 0 j;
  addr ← text "addr" "" j;
  checkSum ← crc "checkSum" 0 j;
  uuid ← text "uuid" "" j;
  Some (mkWantChunkResp sources index addr checkSum uuid).

Definition WantChunkResp_ok (m : WantChunkResp) : Prop :=
  Forall SourceCandidate_ok (wr_Sources m) ∧ int_ok (wr_Index m) ∧ str_ok (wr_Addr m) ∧ crc_ok (wr_CheckSum m) ∧ str_ok (wr_UUID m).

(** The list of sources is written and read back element by element. *)
Lemma decode_sources l :
  Forall SourceCandidate_ok l →
  dec_slice decode_SourceCandidate (JArr (List.map encode_SourceCandidate l)) = Some l.
Proof.
  cbn. induction 1 as [|x l Hx Hl IH]; [done|]. cbn [List.map].
  pose proof (decode_encode x Hx) as Hd. cbn in Hd. cbn. rewrite Hd. cbn.
  by rewrite IH.
Qed.

#[export, refine] Instance WantChunkResp_message : Message WantChunkResp := {|
  encode := encode_WantChunkResp; decode := decode_WantChunkResp; msg_ok := WantChunkResp_ok;
|}.
Proof.
  - open_message. unfold encode_WantChunkResp, decode_WantChunkResp.
    pose proof (decode_sources _ H) as Hs. revert Hs.
    generalize (dec_slice decode_SourceCandidate). intros dec Hs.
    cbn. destruct (bool_decide_reflect (wr_Sources0 = [])) as [-> |]; decode_fields.
    by rewrite Hs.
  - open_message. unfold encode_WantChunkResp. cbn.
    destruct (bool_decide_reflect (wr_Sources0 = [])) as [-> |]; [encode_members|].
    unfold omit_if, jint. cbn. constructor. intros k j Hin.
    apply elem_of_cons in Hin as [Hin|Hin].
    + simplify_eq. split; [reflexivity|]. constructor. intros j Hj.
      apply list_elem_of_In, List.in_map_iff in Hj as (x & <- & Hx%list_elem_of_In).
      rewrite Forall_forall in H. exact (encode_ok x (H x Hx)).
    + members_ok Hin.
Defined.

(** internal/gsp_sdk/model/type.go:47-51 [ReportChunkReq] *)
Definition encode_ReportChunkReq (m : ReportChunkReq) : json :=
  JObj ([("operate", JStr (rq_Operate m))]
    ++ [("index", jint (rq_Index m))]
    ++ [("uuid", JStr (rq_UUID m))]).

(** internal/gsp_sdk/model/type.go:47-51 [ReportChunkReq] *)
Definition decode_ReportChunkReq (j : json) : option ReportChunkReq :=
  operate ← text "operate" "" j;
  index ← num "index" 0 j;
  uuid ← text "uuid" "" j;
  Some (mkReportChunkReq operate index uuid).

Definition ReportChunkReq_ok (m : ReportChunkReq) : Prop :=
  str_ok (rq_Operate m) ∧ int_ok (rq_Index m) ∧ str_ok (rq_UUID m).

#[export, refine] Instance ReportChunkReq_message : Message ReportChunkReq := {|
  encode := encode_ReportChunkReq; decode := decode_ReportChunkReq; msg_ok := ReportChunkReq_ok;
|}.
Proof.
  - open_message. unfold encode_ReportChunkReq, decode_ReportChunkReq.
    decode_fields.
  - open_message. unfold encode_ReportChunkReq. encode_members.
Defined.

(** internal/gsp_sdk/model/type.go:53-58 [PeerRegReq] *)
Definition encode_PeerRegReq (m : PeerRegReq) : json :=
  JObj (omit_if (is_empty (pr_Zone m)) ("zone", JStr (pr_Zone m))
    ++ [("operate", JStr (pr_Operate m))]
    ++ [("port", JStr (pr_Port m))]
    ++ [("uuid", JStr (pr_UUID m))]).

(** internal/gsp_sdk/model/type.go:53-58 [PeerRegReq] *)
Definition decode_PeerRegReq (j : json) : option PeerRegReq :=
  zone ← text "zone" "" j;
  operate ← text "operate" "" j;
  port ← text "port" "" j;
  uuid ← text "uuid" "" j;
  Some (mkPeerRegReq zone operate port uuid).

Definition PeerRegReq_ok (m : PeerRegReq) : Prop :=
  str_ok (pr_Zone m) ∧ str_ok (pr_Operate m) ∧ str_ok (pr_Port m) ∧ str_ok (pr_UUID m).

#[export, refine] Instance PeerRegReq_message : Message PeerRegReq := {|
  encode := encode_PeerRegReq; decode := decode_PeerRegReq; msg_ok := PeerRegReq_ok;
|}.
Proof.
  - open_message. unfold encode_PeerRegReq, decode_PeerRegReq.
    decode_fields.
  - open_message. unfold encode_PeerRegReq. encode_members.
Defined.

(** internal/gsp_sdk/model/type.go:65-69 [ControlMsg] *)
Definition encode_ControlMsg (m : ControlMsg) : json :=
  JObj ([("cmd", JStr (cm_Cmd m))]
    ++ omit_if (cm_Index m =? 0) ("index", jint (cm_Index m))
    ++ omit_if (cm_Until m =? 0) ("until", jint (cm_Until m))).

(** internal/gsp_sdk/model/type.go:65-69 [ControlMsg] *)
Definition decode_ControlMsg (j : json) : option ControlMsg :=
  cmd ← text "cmd" "" j;
  index ← num "index" 0 j;
  until ← num "until" 0 j;
  Some (mkControlMsg cmd index until).

Definition ControlMsg_ok (m : ControlMsg) : Prop :=
  str_ok (cm_Cmd m) ∧ int_ok (cm_Index m) ∧ int_ok (cm_Until m).

#[export, refine] Instance ControlMsg_message : Message ControlMsg := {|
  encode := encode_ControlMsg; decode := decode_ControlMsg; msg_ok := ControlMsg_ok;
|}.
Proof.
  - open_message. unfold encode_ControlMsg, decode_ControlMsg.
    decode_fields.
  - open_message. unfold encode_ControlMsg. encode_members.
Defined.

(** internal/gsp_sdk/model/type.go:71-77 [PushStart] *)
Definition encode_PushStart (m : PushStart) : json :=
  JObj ([("chunkSize", jint (ps_ChunkSize m))]
    ++ [("operate", JStr (ps_Operate m))]
    ++ [("fileName", JStr (ps_FileName m))]
    ++ [("fileSize", jint (ps_FileSize m))]
    ++ [("chunkNum", jint (ps_ChunkNum m))]).

(** internal/gsp_sdk/model/type.go:71-77 [PushStart] *)
Definition decode_PushStart (j : json) : option PushStart :=
  chunkSize ← num "chunkSize" 0 j;
  operate ← text "operate" "" j;
  fileName ← text "fileName" "" j;
  fileSize ← num "fileSize" 0 j;
  chunkNum ← num "chunkNum" 0 j;
  Some (mkPushStart chunkSize operate fileName fileSize chunkNum).

Definition PushStart_ok (m : PushStart) : Prop :=
  int_ok (ps_ChunkSize m) ∧ str_ok (ps_Operate m) ∧ str_ok (ps_FileName m) ∧ int_ok (ps_FileSize m) ∧ int_ok (ps_ChunkNum m).

#[export, refine] Instance PushStart_message : Message PushStart := {|
  encode := encode_PushStart; decode := decode_PushStart; msg_ok := PushStart_ok;
|}.
Proof.
  - open_message. unfold encode_PushStart, decode_PushStart.
    decode_fields.
  - open_message. unfold encode_PushStart. encode_members.
Defined.

(** internal/gsp_sdk/model/type.go:91-98 [PeerReportReq] *)
Definition encode_PeerReportReq (m : PeerReportReq) : json :=
  JObj ([("operate", JStr (pp_Operate m))]
    ++ [("uuid", JStr (pp_UUID m))]
    ++ [("providerUuid", JStr (pp_ProviderUUID m))]
    ++ [("status", JStr (pp_Status m))]
    ++ [("speed", jint (pp_Speed m))]
    ++ [("index", jint (pp_Index m))]).

(** internal/gsp_sdk/model/type.go:91-98 [PeerReportReq] *)
Definition decode_PeerReportReq (j : json) : option PeerReportReq :=
  operate ← text "operate" "" j;
  uuid ← text "uuid" "" j;
  providerUuid ← text "providerUuid" "" j;
  status ← text "status" "" j;
  speed ← num "speed" 0 j;
  index ← num "index" 0 j;
  Some (mkPeerReportReq operate uuid providerUuid status speed index).

Definition PeerReportReq_ok (m : PeerReportReq) : Prop :=
  str_ok (pp_Operate m) ∧ str_ok (pp_UUID m) ∧ str_ok (pp_ProviderUUID m) ∧ str_ok (pp_Status m) ∧ int_ok (pp_Speed m) ∧ int_ok (pp_Index m).

#[export, refine] Instance PeerReportReq_message : Message PeerReportReq := {|
  encode := encode_PeerReportReq; decode := decode_PeerReportReq; msg_ok := PeerReportReq_ok;
|}.
Proof.
  - open_message. unfold encode_PeerReportReq, decode_PeerReportReq.
    decode_fields.
  - open_message. unfold encode_PeerReportReq. encode_members.
Defined.

(** internal/gsp_sdk/model/type.go:113-117 [NodeStatus] *)
Definition encode_NodeStatusMsg (m : NodeStatusMsg) : json :=
  JObj ([("uuid", JStr (ns_UUID m))]
    ++ [("sender", JBool (ns_Sender m))]
    ++ [("hasFile", JBool (ns_HasFile m))]).

(** internal/gsp_sdk/model/type.go:113-117 [NodeStatus] *)
Definition decode_NodeStatusMsg (j : json) : option NodeStatusMsg :=
  uuid ← text "uuid" "" j;
  sender ← flag "sender" false j;
  hasFile ← flag "hasFile" false j;
  Some (mkNodeStatus uuid sender hasFile).

Definition NodeStatusMsg_ok (m : NodeStatusMsg) : Prop :=
  str_ok (ns_UUID m).

#[export, refine] Instance NodeStatusMsg_message : Message NodeStatusMsg := {|
  encode := encode_NodeStatusMsg; decode := decode_NodeStatusMsg; msg_ok := NodeStatusMsg_ok;
|}.
Proof.
  - open_message. unfold encode_NodeStatusMsg, decode_NodeStatusMsg.
    decode_fields.
  - open_message. unfold encode_NodeStatusMsg. encode_members.
Defined.


(** internal/gsp_sdk/model/type.go:107-110 [ControlResponse] *)
Definition encode_ControlResponse (m : ControlResponse) : json :=
  JObj (match cr_Value m with Some v => [("value", v)] | None => [] end
    ++ omit_if (is_empty (cr_Error m)) ("error", JStr (cr_Error m))).

(** [Payload] is raw JSON, kept as a tree.
    internal/gsp_sdk/model/type.go:101-106 [ControlRequest] *)
Record ControlRequest : Type := mkControlRequest {
  cq_Operate : string; cq_Method : string; cq_Token : string; cq_Payload : json;
}.

(** internal/gsp_sdk/model/type.go:101-106 [ControlRequest] *)
Definition encode_ControlRequest (m : ControlRequest) : json :=
  JObj [("operate", JStr (cq_Operate m)); ("method", JStr (cq_Method m));
        ("token", JStr (cq_Token m)); ("payload", cq_Payload m)].

Lemma Unmarshal_of_Marshal `{Message A} (a : A) :
  msg_ok a → Unmarshal A (Marshal a) = Some a.
Proof.
  intros Hok. unfold Unmarshal, Marshal. rewrite of_to_bytes.
  rewrite ParseJson_print by by apply encode_ok. cbn. by apply decode_encode.
Qed.

(** Every message a node sends is read back as it was: for each message type
    of internal/gsp_sdk/model, whatever the omitted fields, [Unmarshal] of the
    bytes [Marshal] writes is the message, provided its integers have the width
    of their fields and its text is valid UTF-8. *)
Theorem Unmarshal_Marshal (A : Type) (M : Message A) (a : A) :
  msg_ok a → Unmarshal A (Marshal a) = Some a.
Proof. apply Unmarshal_of_Marshal. Qed.

Lemma Unmarshal_Marshal_witness :
  let m := mkWantChunkResp [mkSourceCandidate "10.0.0.1:80" "a"; mkSourceCandidate "" "<b>"]
             7 "10.0.0.1:80" 4294967295 "a" in
  msg_ok m ∧ Unmarshal WantChunkResp (Marshal m) = Some m.
Proof.
  assert (msg_ok (mkWantChunkResp [mkSourceCandidate "10.0.0.1:80" "a"; mkSourceCandidate "" "<b>"]
             7 "10.0.0.1:80" 4294967295 "a")) as Hok.
  { split; [repeat constructor|]. repeat split; vm_compute; congruence. }
  split; [exact Hok|]. exact (Unmarshal_Marshal _ _ _ Hok).
Defined.

Example Unmarshal_examples :
  let data s := to_bytes (chars_of s) in
  Unmarshal BaseJson (data "null") = Some (mkBaseJson "") ∧
  Unmarshal BaseJson (data "[]") = None ∧
  Unmarshal GetChunkReq (data "{}") = Some (mkGetChunkReq "" 0).
Proof. vm_compute. split_and!; reflexivity. Qed.
