(* ===== verification/Queue.v ===== *)
(** * The download queue that is not used

    internal/queue/queue.go: what is left of a first design. Nobody constructs it; the
    queue in use is the scheduler (file Scheduler). It answers a request for a block with
    the index alone, and its [send] does nothing. *)

From S2P Require Import Prelude Text Codec Json Model.
Local Open Scope string_scope.
Local Open Scope Z_scope.

(** The connection and whether it is closed. internal/queue/queue.go:38-43 [downloadQueue.Want] *)
Definition Want (i : Z) (conn : Conn) : Conn * bool :=
  let '(ok, conn) := EncodeTo conn TypeJSON (Marshal (mkWantChunkResp [] i "" 0 "")) in (conn, negb ok).

(** internal/queue/queue.go:50-52 [downloadQueue.send] *)
Definition send (i : Z) (receiver : Conn) (address : string) : Conn := receiver.

(** Whoever asks is told the index and no source, so a client of this queue would find nobody
    to fetch from. *)
Lemma Want_no_source i conn conn' closed :
  in_int64 i = true → room conn = None → Want i conn = (conn', closed) →
  closed = false ∧ ∃ payload m, sent conn' = (sent conn ++ frame TypeJSON payload)%list ∧
    Unmarshal WantChunkResp payload = Some m ∧ wr_Index m = i ∧ wr_Sources m = [] ∧ wr_Addr m = "".
Proof.
  intros Hi Hr Hw. unfold Want in Hw. rewrite EncodeTo_open in Hw by done. injection Hw as <- <-.
  split; [done|]. eexists _, (mkWantChunkResp [] i "" 0 ""). split; [reflexivity|]. split_and!; try done.
  apply Unmarshal_of_Marshal. split_and!; [constructor|done|reflexivity|by split|reflexivity].
Qed.
