(* ===== verification/Discovery.v ===== *)
(** * Finding a sender

    pkg/discovery/discovery.go: announcements over UDP multicast, their JSON, what a
    listener keeps of the datagrams it hears. internal/discover/mdns.go: the entries an
    mDNS query returns, grouped by instance, and the one instance that answers. The
    sockets, the clock and the library mdns are the inputs: the interfaces, the datagrams,
    the entries and who answers. *)

From S2P Require Import Prelude Text Net Json Model.
Local Open Scope string_scope.
Local Open Scope Z_scope.
Local Open Scope list_scope.


(** [ip.String()] of four bytes. *)
Definition ipv4_string (ip : list Z) : string :=
  match ip with
  | [a; b; c; d] => decimal a +:+ "." +:+ decimal b +:+ "." +:+ decimal c +:+ "." +:+ decimal d
  | _ => ""
  end.

(** ** Announcements *)

(** pkg/discovery/discovery.go:19-19 [Magic] *)
Definition Magic : string := "gsp-discovery/1".

(** pkg/discovery/discovery.go:35-42 [AnnounceInfo] *)
Record AnnounceInfo : Type := mkAnnounce {
  an_Magic : string; an_Port : Z; an_FileName : string; an_FileSize : Z; an_SaveDir : string;
  an_Token : string;
}.

(** pkg/discovery/discovery.go:35-42 [AnnounceInfo] *)
Definition encode_AnnounceInfo (a : AnnounceInfo) : json :=
  JObj ([("magic", JStr (an_Magic a))]
    ++ [("port", jint (an_Port a))]
    ++ [("fileName", JStr (an_FileName a))]
    ++ [("fileSize", jint (an_FileSize a))]
    ++ [("saveDir", JStr (an_SaveDir a))]
    ++ [("token", JStr (an_Token a))]).

(** pkg/discovery/discovery.go:35-42 [AnnounceInfo] *)
Definition decode_AnnounceInfo (j : json) : option AnnounceInfo :=
  magic ← text "magic" "" j;
  port ← num "port" 0 j;
  fileName ← text "fileName" "" j;
  fileSize ← num "fileSize" 0 j;
  saveDir ← text "saveDir" "" j;
  token ← text "token" "" j;
  Some (mkAnnounce magic port fileName fileSize saveDir token).

Definition AnnounceInfo_ok (a : AnnounceInfo) : Prop :=
  str_ok (an_Magic a) ∧ int_ok (an_Port a) ∧ str_ok (an_FileName a) ∧ int_ok (an_FileSize a) ∧
  str_ok (an_SaveDir a) ∧ str_ok (an_Token a).

#[export, refine] Instance AnnounceInfo_message : Message AnnounceInfo := {|
  encode := encode_AnnounceInfo; decode := decode_AnnounceInfo; msg_ok := AnnounceInfo_ok;
|}.
Proof.
  - open_message. unfold encode_AnnounceInfo, decode_AnnounceInfo. decode_fields.
  - open_message. unfold encode_AnnounceInfo. encode_members.
Defined.

(** [src]: the address of a UDP socket, [None] when it has none.
    pkg/discovery/discovery.go:46-52 [SenderAddr] *)
Definition SenderAddr (a : AnnounceInfo) (src : option (list Z)) : string :=
  let host := match src with Some ip => ipv4_string ip | None => "" end in
  JoinHostPort host (decimal (an_Port a)).

(** An interface: whether it is up and supports multicast, and its addresses, [None] for
    an address that is not an IP. *)
Record Interface : Type := mkInterface {
  if_Up : bool; if_Multicast : bool; if_Loopback : bool; if_Addrs : list (option (list Z));
}.

(** pkg/discovery/discovery.go:55-70 [validIPv4] *)
Fixpoint validIPv4 (addrs : list (option (list Z))) : option (list Z) :=
  match addrs with
  | [] => None
  | Some ip :: addrs =>
      match To4 ip with
      | Some v4 => if IsLoopback ip then validIPv4 addrs else Some v4
      | None => validIPv4 addrs
      end
  | None :: addrs => validIPv4 addrs
  end.

(** pkg/discovery/discovery.go:73-89 [getMulticastInterfaces] *)
Definition getMulticastInterfaces (ifaces : option (list Interface)) : list Interface :=
  match ifaces with
  | None => []
  | Some l =>
      List.filter (λ i, if_Up i && if_Multicast i && bool_decide (is_Some (validIPv4 (if_Addrs i)))) l
  end.

(** What is sent, and on the sockets of which local addresses; [None] for the default
    route. [dial] says which sockets open.
    pkg/discovery/discovery.go:93-125 [Announce] *)
Definition Announce (info : AnnounceInfo) (ifaces : option (list Interface))
    (dial : option (list Z) → bool) : option (bytes * list (option (list Z))) :=
  let info := mkAnnounce Magic (an_Port info) (an_FileName info) (an_FileSize info) (an_SaveDir info)
                (an_Token info) in
  let payload := Marshal info in
  let conns := List.filter dial
    (omap (λ i, Some <$> validIPv4 (if_Addrs i)) (getMulticastInterfaces ifaces)) in
  match conns with
  | [] => if dial None then Some (payload, [None]) else None
  | _ => Some (payload, conns)
  end.

(** What the handler gets of a datagram, of which 2048 bytes are read.
    pkg/discovery/discovery.go:208-212 [listenOnInterface] *)
Definition receive (datagram : bytes) (src : option (list Z)) : option (AnnounceInfo * option (list Z)) :=
  match Unmarshal AnnounceInfo (take 2048 datagram) with
  | Some info => if String.eqb (an_Magic info) Magic then Some (info, src) else None
  | None => None
  end.

(** A read of the socket. *)
Inductive read : Type :=
| ReadTimeout
| ReadError
| Datagram (data : bytes) (src : option (list Z)).

(** What the handler is called with; each round sees whether it was told to stop, then
    one read. pkg/discovery/discovery.go:178-216 [listenOnInterface] *)
Fixpoint listenOnInterface (rounds : list (bool * read)) : list (AnnounceInfo * option (list Z)) :=
  match rounds with
  | [] => []
  | (true, _) :: _ => []
  | (false, Datagram data src) :: rest =>
      match receive data src with
      | Some call => call :: listenOnInterface rest
      | None => listenOnInterface rest
      end
  | (false, _) :: rest => listenOnInterface rest
  end.

(** What is written on the sockets: at once, and at every tick until it is told to stop.
    pkg/discovery/discovery.go:128-149 [Announce] *)
Definition announced {C} (payload : bytes) (conns : list C) (ticks : nat) : list (C * bytes) :=
  concat (replicate (S ticks) (List.map (λ c, (c, payload)) conns)).

(** The interfaces it listens on, [None] for the default; [listen] says on which it can.
    The result is [None] when it can on none.
    pkg/discovery/discovery.go:156-176 [Listen] *)
Definition Listen (ifaces : option (list Interface)) (listen : option Interface → bool)
    : option (list (option Interface)) :=
  let fallback := if listen None then Some [None] else None in
  match getMulticastInterfaces ifaces with
  | [] => fallback
  | l =>
      match List.filter listen (List.map Some l) with
      | [] => fallback
      | up => Some up
      end
  end.

(** ** mDNS *)

(** An entry of the library, as it is once the query has returned. *)
Record ServiceEntry : Type := mkServiceEntry {
  se_AddrV4 : option (list Z); se_Port : Z; se_InfoFields : list string;
}.

(** The part of [f] from byte [n] on. *)
Definition after (n : nat) (f : string) : string := string_of (drop n (chars_of f)).
Definition before (n : nat) (f : string) : string := string_of (take n (chars_of f)).

(** The name of the instance. internal/discover/mdns.go:27-27 [Publish] *)
Definition instance_name (id : string) : string :=
  "gosilver-" +:+ before (Nat.min 8 (String.length id)) id.

(** internal/discover/mdns.go:27-27 [Publish] *)
Definition info_field (id : string) : string := "id=" +:+ id.

(** internal/discover/mdns.go:97-104 [entryID] *)
Fixpoint entryID (fields : list string) : string :=
  match fields with
  | [] => ""
  | f :: fields =>
      if (3 <? String.length f)%nat && String.eqb (before 3 f) "id=" then after 3 f else entryID fields
  end.

(** internal/discover/mdns.go:47-56 [LookupSender] *)
Definition collect (selfID : string) (found : gmap string (gset string)) (e : ServiceEntry)
    : gmap string (gset string) :=
  let id := entryID (se_InfoFields e) in
  match se_AddrV4 e with
  | None => found
  | Some ip =>
      if (se_Port e =? 0) || String.eqb id "" || (negb (String.eqb selfID "") && String.eqb id selfID)
      then found
      else <[id := {[JoinHostPort (ipv4_string ip) (decimal (se_Port e))]} ∪ default ∅ (found !! id)]> found
  end.

Inductive lookup_error : Type := NotFound | QueryFailed | Several (n : Z) | Offline.

(** [answered]: the instances and addresses that answered in time, in that order.
    internal/discover/mdns.go:128-166 [liveSender] *)
Definition liveSender (answered : list (string * string)) : lookup_error + string :=
  let live := foldl (λ m '(id, addr),
    if String.eqb (default "" (m !! id)) "" then <[id := addr]> m else m) (∅ : gmap string string) answered in
  match map_to_list live with
  | [] => inl Offline
  | [(_, addr)] => inr addr
  | _ => inl (Several (Z.of_nat (size live)))
  end.

(** [alive]: which of the addresses of an instance answer, in order.
    internal/discover/mdns.go:34-90 [LookupSender] *)
Definition LookupSender (selfID : string) (entries : list ServiceEntry) (failed : bool)
    (alive : gmap string (gset string) → list (string * string)) : lookup_error + string :=
  let found := foldl (collect selfID) ∅ entries in
  if bool_decide (found = ∅) then inl (if failed then QueryFailed else NotFound)
  else liveSender (alive found).

(** internal/discover/mdns.go:92-95 [HasSender] *)
Definition HasSender (r : lookup_error + string) : string * bool :=
  match r with inr addr => (addr, negb (String.eqb addr "")) | inl _ => ("", false) end.

(** [ip.IsPrivate()] of an address that has four bytes. *)
Definition IsPrivate (ip : list Z) : bool :=
  match To4 ip with
  | Some (a :: b :: _) =>
      (a =? 10) || ((a =? 172) && (Z.land b 0xf0 =? 16)) || ((a =? 192) && (b =? 168))
  | _ => false
  end.

(** The first private IPv4 address of an interface that is up and not the loopback.
    internal/discover/mdns.go:106-124 [outboundIP] *)
Definition outboundIP (ifaces : option (list Interface)) : option (list Z) :=
  l ← ifaces;
  head (i ← List.filter (λ i, if_Up i && negb (if_Loopback i)) l;
        omap (λ a, ip ← a; if bool_decide (is_Some (To4 ip)) && IsPrivate ip then Some ip else None)
          (if_Addrs i)).

(** ** What a listener hears *)

(** Every announcement is heard as it was made. *)
Lemma receive_announced info ifaces dial payload conns src :
  Announce info ifaces dial = Some (payload, conns) → msg_ok info → (length payload ≤ 2048)%nat →
  receive payload src =
    Some (mkAnnounce Magic (an_Port info) (an_FileName info) (an_FileSize info) (an_SaveDir info)
            (an_Token info), src).
Proof.
  unfold Announce. set (info' := mkAnnounce _ _ _ _ _ _). intros Ha (H1 & H2 & H3 & H4 & H5 & H6) Hlen.
  assert (payload = Marshal info') as ->.
  { destruct (List.filter dial _); [destruct (dial None)|]; congruence. }
  assert (msg_ok info') as Hok by done.
  unfold receive. rewrite take_ge by lia. rewrite (Unmarshal_of_Marshal info' Hok). done.
Qed.

(** Nothing else is. *)
Lemma receive_magic datagram src info src' :
  receive datagram src = Some (info, src') → an_Magic info = Magic ∧ src' = src.
Proof.
  unfold receive. destruct (Unmarshal AnnounceInfo _) as [i|]; [|done].
  destruct (String.eqb_spec (an_Magic i) Magic); [|done]. by intros [= <- <-].
Qed.

(** A listener calls its handler only with announcements, of the datagrams it read. *)
Lemma listen_heard rounds info src :
  (info, src) ∈ listenOnInterface rounds →
  an_Magic info = Magic ∧ ∃ data, (false, Datagram data src) ∈ rounds ∧ receive data src = Some (info, src).
Proof.
  induction rounds as [|[stop r] rounds IH]; cbn; [by intros ?%elem_of_nil|].
  destruct stop; [by intros ?%elem_of_nil|].
  destruct r as [| |data s]; try (intros Hin; destruct (IH Hin) as (? & d & ? & ?); split; [done|];
    exists d; split; [by right|done]).
  destruct (receive data s) as [[i x]|] eqn:E.
  - destruct (receive_magic _ _ _ _ E) as [Hm ->]. intros [[= -> ->]|Hin]%elem_of_cons.
    + split; [done|]. exists data. split; [by left|done].
    + destruct (IH Hin) as (? & d & ? & ?). split; [done|]. exists d. split; [by right|done].
  - intros Hin. destruct (IH Hin) as (? & d & ? & ?). split; [done|]. exists d. split; [by right|done].
Qed.

(** ** Which sender is found *)

(** [e] advertises instance [id], which is not this one, at [addr]. *)
Definition advertises (selfID : string) (e : ServiceEntry) (id addr : string) : Prop :=
  id ≠ "" ∧ (selfID = "" ∨ id ≠ selfID) ∧ entryID (se_InfoFields e) = id ∧ se_Port e ≠ 0 ∧
  ∃ ip, se_AddrV4 e = Some ip ∧ addr = JoinHostPort (ipv4_string ip) (decimal (se_Port e)).

Definition found_in (found : gmap string (gset string)) (id addr : string) : Prop :=
  ∃ s, found !! id = Some s ∧ addr ∈ s.

Lemma collect_spec selfID found e id addr :
  found_in (collect selfID found e) id addr ↔ found_in found id addr ∨ advertises selfID e id addr.
Proof.
  unfold collect, advertises. destruct (se_AddrV4 e) as [ip|]; [|naive_solver].
  destruct (Z.eqb_spec (se_Port e) 0) as [E1|E1]; [naive_solver|].
  destruct (String.eqb_spec (entryID (se_InfoFields e)) "") as [E2|E2]; [naive_solver|].
  destruct (negb (String.eqb selfID "") && String.eqb (entryID (se_InfoFields e)) selfID) eqn:E3; cbn [orb].
  { apply andb_true_iff in E3 as [E3 E4]. apply negb_true_iff, String.eqb_neq in E3.
    apply String.eqb_eq in E4. naive_solver. }
  assert (selfID = "" ∨ entryID (se_InfoFields e) ≠ selfID) as Hself.
  { apply andb_false_iff in E3 as [E3|E3].
    - apply negb_false_iff, String.eqb_eq in E3. by left.
    - apply String.eqb_neq in E3. by right. }
  set (a := JoinHostPort _ _). unfold found_in.
  destruct (decide (entryID (se_InfoFields e) = id)) as [<-|Hne].
  - rewrite lookup_insert_eq. split.
    + intros (s & [= <-] & Hin). apply elem_of_union in Hin as [Hin|Hin].
      * apply elem_of_singleton in Hin as ->. right. split_and!; try done. by exists ip.
      * left. destruct (found !! _) as [s|]; [by exists s|]. by apply not_elem_of_empty in Hin.
    + intros [(s & -> & Hin)|(_ & _ & _ & _ & ip' & [= <-] & ->)].
      * eexists. split; [done|]. cbn. set_solver.
      * eexists. split; [done|]. set_solver.
  - rewrite lookup_insert_ne by done. naive_solver.
Qed.

Lemma collect_all selfID entries found id addr :
  found_in (foldl (collect selfID) found entries) id addr ↔
  found_in found id addr ∨ ∃ e, e ∈ entries ∧ advertises selfID e id addr.
Proof.
  revert found. induction entries as [|e entries IH]; intros found; cbn [foldl].
  - split; [by left|]. intros [?|(e & He & _)]; [done|]. by apply elem_of_nil in He.
  - rewrite IH, collect_spec. setoid_rewrite elem_of_cons. naive_solver.
Qed.

Definition live_of (answered : list (string * string)) : gmap string string :=
  foldl (λ m '(id, addr),
    if String.eqb (default "" (m !! id)) "" then <[id := addr]> m else m) ∅ answered.

(** The first answer of each instance counts. *)
Lemma live_spec answered :
  (∀ id addr, (id, addr) ∈ answered → addr ≠ "") →
  ∀ id, live_of answered !! id = snd <$> head (List.filter (λ '(i, _), String.eqb i id) answered).
Proof.
  unfold live_of. induction answered as [|[i a] l IH] using rev_ind; intros Ha id; [done|].
  rewrite foldl_app, List.filter_app. cbn [foldl].
  assert (∀ id addr, (id, addr) ∈ l → addr ≠ "") as Hl by (intros; eapply Ha, elem_of_app; left; eauto).
  specialize (IH Hl id). set (m := foldl _ ∅ l) in *.
  assert (a ≠ "") as Hne by (eapply Ha, elem_of_app; right; by apply list_elem_of_singleton).
  assert (∀ x, m !! id = Some x → x ≠ "") as Hm.
  { rewrite IH. destruct (List.filter (λ '(j, _), String.eqb j id) l) as [|[j b] r] eqn:E; [done|].
    cbn. intros x [= <-]. apply (Hl j). apply list_elem_of_In.
    assert (In (j, b) (List.filter (λ '(j, _), String.eqb j id) l)) as Hin by (rewrite E; by left).
    by apply List.filter_In in Hin as [Hin _]. }
  destruct (decide (i = id)) as [-> |Hi].
  - destruct (m !! id) as [x|] eqn:E.
    + assert (String.eqb (default "" (Some x)) "" = false) as -> by (by apply String.eqb_neq, Hm).
      rewrite E. destruct (List.filter (λ '(j, _), String.eqb j id) l) as [|[j b] r]; [discriminate IH|exact IH].
    + cbn [default String.eqb]. rewrite lookup_insert_eq.
      destruct (List.filter (λ '(j, _), String.eqb j id) l) as [|[j b] r] eqn:Ef; [|done].
      cbn. by rewrite String.eqb_refl.
  - assert (List.filter (λ '(j, _), String.eqb j id) [(i, a)] = []) as ->.
    { cbn. by rewrite (proj2 (String.eqb_neq i id)). }
    rewrite app_nil_r, <-IH. destruct (String.eqb _ ""); [|done]. by rewrite lookup_insert_ne.
Qed.

Lemma JoinHostPort_nonempty h p : JoinHostPort h p ≠ "".
Proof. unfold JoinHostPort. destruct (has_char _ _); [done|]. by destruct h. Qed.

Lemma live_answered answered :
  (∀ id addr, (id, addr) ∈ answered → addr ≠ "") →
  (∀ id, is_Some (live_of answered !! id) ↔ ∃ addr, (id, addr) ∈ answered) ∧
  (∀ id addr, live_of answered !! id = Some addr → (id, addr) ∈ answered).
Proof.
  intros Hne. pose proof (live_spec _ Hne) as Hlive.
  assert (∀ id j a r, List.filter (λ '(i, _), String.eqb i id) answered = (j, a) :: r → (id, a) ∈ answered) as Hf.
  { intros id j a r E.
    assert (In (j, a) (List.filter (λ '(i, _), String.eqb i id) answered)) as Hin by (rewrite E; by left).
    apply List.filter_In in Hin as [Hin Hj]. apply String.eqb_eq in Hj as ->. by apply list_elem_of_In. }
  split.
  - intros id. rewrite Hlive. split.
    + destruct (List.filter _ _) as [|[j a] r] eqn:E; [by intros [? ?]|]. intros _. exists a. by eapply Hf.
    + intros [a Hin]. assert (In (id, a) (List.filter (λ '(i, _), String.eqb i id) answered)) as Hx.
      { apply List.filter_In. split; [by apply list_elem_of_In|apply String.eqb_refl]. }
      destruct (List.filter _ _); [done|]. by eexists.
  - intros id addr. rewrite Hlive. destruct (List.filter _ _) as [|[j a] r] eqn:E; [done|].
    cbn. intros [= <-]. by eapply Hf.
Qed.

(** An address comes back when one instance is left. *)
Lemma liveSender_spec answered addr :
  liveSender answered = inr addr ↔ ∃ id, live_of answered = {[id := addr]}.
Proof.
  unfold liveSender. fold (live_of answered).
  destruct (map_to_list (live_of answered)) as [|[i a] [|y l]] eqn:El.
  - apply map_to_list_empty_iff in El. rewrite El. split; [done|]. intros [id Hm].
    assert ((∅ : gmap string string) !! id = Some addr) as Hx by (rewrite Hm; apply lookup_singleton_eq).
    by rewrite lookup_empty in Hx.
  - assert (live_of answered = {[i := a]}) as ->.
    { apply map_to_list_inj. by rewrite El, map_to_list_singleton. }
    split; [intros [= ->]; by eexists|]. intros [id Hm].
    assert (({[i := a]} : gmap string string) !! id = Some addr) as Hx by (rewrite Hm; apply lookup_singleton_eq).
    by apply lookup_singleton_Some in Hx as [_ ->].
  - split; [done|]. intros [id Hm]. apply (f_equal size) in Hm. rewrite map_size_singleton in Hm.
    by rewrite <-length_map_to_list, El in Hm.
Qed.

(** A sender is found only when there is exactly one: [LookupSender] gives an
    address when, and only when, some advertised instance answers in time and all that
    answer are that one instance, other than this node; the address is then one the
    instance was advertised at and answered from. *)
Theorem LookupSender_unique selfID entries failed alive :
  (∀ found id addr, (id, addr) ∈ alive found → found_in found id addr) →
  let answered := alive (foldl (collect selfID) ∅ entries) in
  (∀ addr, LookupSender selfID entries failed alive = inr addr →
    ∃ id e, (id, addr) ∈ answered ∧ e ∈ entries ∧ advertises selfID e id addr) ∧
  ((∃ addr, LookupSender selfID entries failed alive = inr addr) ↔
   ∃ id, (∃ addr, (id, addr) ∈ answered) ∧ ∀ id' addr, (id', addr) ∈ answered → id' = id).
Proof.
  intros Halive. set (found := foldl (collect selfID) ∅ entries). cbn zeta.
  assert (∀ id addr, (id, addr) ∈ alive found → ∃ e, e ∈ entries ∧ advertises selfID e id addr) as Hadv.
  { intros id addr Hin. apply Halive, collect_all in Hin as [(s & Hs & _)|Hin]; [|done].
    by rewrite lookup_empty in Hs. }
  destruct (live_answered (alive found)) as [Hdom Hin].
  { intros id addr Hin. destruct (Hadv _ _ Hin) as (e & _ & _ & _ & _ & _ & ip & _ & ->).
    apply JoinHostPort_nonempty. }
  assert (∀ addr, LookupSender selfID entries failed alive = inr addr ↔
    ∃ id, live_of (alive found) = {[id := addr]}) as Hres.
  { intros addr. unfold LookupSender. fold found. rewrite <-liveSender_spec.
    destruct (bool_decide_reflect (found = ∅)) as [E|E]; [|done]. split; [done|].
    intros [id Hm]%liveSender_spec. assert (is_Some (live_of (alive found) !! id)) as Hs
      by (rewrite Hm, lookup_singleton_eq; by eexists).
    apply Hdom in Hs as [a Ha]. apply Halive in Ha as (s & Hs & _). by rewrite E, lookup_empty in Hs. }
  split.
  - intros addr [id Hm]%Hres. assert ((id, addr) ∈ alive found) as Hx.
    { apply Hin. rewrite Hm. apply lookup_singleton_eq. }
    destruct (Hadv _ _ Hx) as (e & He & Ha). by exists id, e.
  - split.
    + intros [addr Hr]. apply Hres in Hr as [id Hm]. exists id. split.
      * exists addr. apply Hin. rewrite Hm. apply lookup_singleton_eq.
      * intros id' a Ha. assert (is_Some (live_of (alive found) !! id')) as Hs by (apply Hdom; by eexists).
        rewrite Hm in Hs. destruct Hs as [x Hx]. by apply lookup_singleton_Some in Hx as [-> _].
    + intros (id & Hsome & Hall). destruct (proj2 (Hdom id) Hsome) as [addr Ha]. exists addr. apply Hres.
      exists id. apply map_eq. intros j. destruct (decide (j = id)) as [-> |Hj].
      * by rewrite Ha, lookup_singleton_eq.
      * rewrite lookup_singleton_ne by done. destruct (live_of (alive found) !! j) as [x|] eqn:E; [|done].
        exfalso. apply Hj. eapply Hall, Hin, E.
Qed.

Definition demo_entries : list ServiceEntry :=
  [mkServiceEntry (Some [10; 0; 0; 2]) 7000 ["v=1"; "id=a"]; mkServiceEntry None 1 ["id=b"];
   mkServiceEntry (Some [10; 0; 0; 3]) 7000 ["id=a"]; mkServiceEntry (Some [10; 0; 0; 4]) 1 ["id=c"]].

(** Every address of instance a answers. *)
Definition demo_alive (found : gmap string (gset string)) : list (string * string) :=
  List.map (pair "a") (elements (default ∅ (found !! "a"))).

Lemma LookupSender_unique_witness :
  (∀ found id addr, (id, addr) ∈ demo_alive found → found_in found id addr) ∧
  ∃ addr, LookupSender "c" demo_entries false demo_alive = inr addr.
Proof.
  assert (∀ found id addr, (id, addr) ∈ demo_alive found → found_in found id addr) as Hd.
  { intros found id addr Hin. unfold demo_alive in Hin.
    apply list_elem_of_In, List.in_map_iff in Hin as (x & [= <- <-] & Hx%list_elem_of_In%elem_of_elements).
    destruct (found !! "a") as [s|] eqn:E; [by exists s|]. by apply not_elem_of_empty in Hx. }
  assert (demo_alive (foldl (collect "c") ∅ demo_entries) = [("a", "10.0.0.3:7000"); ("a", "10.0.0.2:7000")])
    as Hans by (vm_compute; reflexivity).
  split; [exact Hd|]. apply (LookupSender_unique "c" demo_entries false demo_alive Hd). rewrite Hans.
  exists "a". split; [exists "10.0.0.3:7000"; by left|].
  intros id addr Hin. apply elem_of_cons in Hin as [[= -> _]|Hin]; [done|].
  by apply list_elem_of_singleton in Hin as [= -> _].
Defined.

Example receive_examples :
  let info := mkAnnounce "" 48080 "f" 3 "" "t" in
  Announce info (Some []) (λ _, true) = Some (Marshal (mkAnnounce Magic 48080 "f" 3 "" "t"), [None]) ∧
  receive (Marshal info) None = None ∧ SenderAddr info (Some [10; 0; 0; 2]) = "10.0.0.2:48080".
Proof. vm_compute. split_and!; reflexivity. Qed.
