(* ===== verification/Session.v ===== *)
(** * The session of a node

    internal/gsp_sdk/server: [session.go], [peer.go] and [tool.go]. A method that
    takes [s.mu] is one function on the [Session]: the mutex makes it one step.
    The instants a method reads from the clock, the outcomes of the calls it
    makes to the network and the files it reads are arguments. A connection is
    its identity; a lock, the wait group and the memory pool (see Mempool.v) do
    not appear in the state. *)

From S2P Require Import Prelude Text Chunk Float64 Net Model.
Local Open Scope string_scope.
Local Open Scope Z_scope.

(** ** Instants and durations, in nanoseconds *)

Definition Second : Z := 10 ^ 9.

(** [time.Time{}]: the first instant of year 1; instants count from 1970. *)
Definition unixToInternal : Z := 62135596800.
Definition zero_time : Z := - unixToInternal * Second.

(** [time.Unix(sec, 0)]: the seconds since year 1 are a 64-bit integer. *)
Definition time_Unix (sec : Z) : Z := (int64 (sec + unixToInternal) - unixToInternal) * Second.

(** [t.Sub(u)] saturates. *)
Definition time_Sub (t u : Z) : Z := Z.max int64_min (Z.min int64_max (t - u)).

(** ** State *)

Abbreviation conn_id := positive.

(** The counters [connNum] and [failStreak] grow by one per request, far from
    the width of [int]. A nil [leases] is [None].
    internal/gsp_sdk/server/session.go:22-33 [Peer] *)
Record Peer : Type := mkPeer {
  connAddr : string;
  conn : option conn_id;
  connNum : Z;
  speedEwma : float64;
  zone : string;
  lastFailure : Z;
  failStreak : Z;
  cooldownTil : Z;
  leases : option (gmap string Z);
}.

(** [control] and [prefetch]: whether a handler is set. [uploadSem] is the number
    of slots taken of the channel; [done] says the channel is closed.
    internal/gsp_sdk/server/session.go:37-60 [Session] *)
Record Session : Type := mkSession {
  connections : gset conn_id;
  files : list fd;
  control : bool;
  lis : bool;
  UUID : string;
  addr : string;
  Peers : gmap string Peer;
  ChunkOwners : gmap Z (gset string);
  PeerOwners : gmap string (gset Z);
  chunkHash : gmap Z Z;
  chunkProvider : FileChunk;
  isMain : bool;
  done : bool;
  uploadSem : Z;
  coordinating : bool;
  prefetch : bool;
  uploadLimit : Z;
  backoffUntil : Z;
}.

(** Assignments to the fields. *)
Definition set_connAddr (v : string) (x : Peer) : Peer :=
  mkPeer v (conn x) (connNum x) (speedEwma x) (zone x) (lastFailure x) (failStreak x)
    (cooldownTil x) (leases x).
Definition set_conn (v : option conn_id) (x : Peer) : Peer :=
  mkPeer (connAddr x) v (connNum x) (speedEwma x) (zone x) (lastFailure x) (failStreak x)
    (cooldownTil x) (leases x).
Definition set_connNum (v : Z) (x : Peer) : Peer :=
  mkPeer (connAddr x) (conn x) v (speedEwma x) (zone x) (lastFailure x) (failStreak x)
    (cooldownTil x) (leases x).
Definition set_speedEwma (v : float64) (x : Peer) : Peer :=
  mkPeer (connAddr x) (conn x) (connNum x) v (zone x) (lastFailure x) (failStreak x)
    (cooldownTil x) (leases x).
Definition set_zone (v : string) (x : Peer) : Peer :=
  mkPeer (connAddr x) (conn x) (connNum x) (speedEwma x) v (lastFailure x) (failStreak x)
    (cooldownTil x) (leases x).
Definition set_lastFailure (v : Z) (x : Peer) : Peer :=
  mkPeer (connAddr x) (conn x) (connNum x) (speedEwma x) (zone x) v (failStreak x)
    (cooldownTil x) (leases x).
Definition set_failStreak (v : Z) (x : Peer) : Peer :=
  mkPeer (connAddr x) (conn x) (connNum x) (speedEwma x) (zone x) (lastFailure x) v
    (cooldownTil x) (leases x).
Definition set_cooldownTil (v : Z) (x : Peer) : Peer :=
  mkPeer (connAddr x) (conn x) (connNum x) (speedEwma x) (zone x) (lastFailure x)
    (failStreak x) v (leases x).
Definition set_leases (v : option (gmap string Z)) (x : Peer) : Peer :=
  mkPeer (connAddr x) (conn x) (connNum x) (speedEwma x) (zone x) (lastFailure x)
    (failStreak x) (cooldownTil x) v.
Definition set_connections (v : gset conn_id) (x : Session) : Session :=
  mkSession v (files x) (control x) (lis x) (UUID x) (addr x) (Peers x) (ChunkOwners x)
    (PeerOwners x) (chunkHash x) (chunkProvider x) (isMain x) (done x) (uploadSem x)
    (coordinating x) (prefetch x) (uploadLimit x) (backoffUntil x).
Definition set_files (v : list fd) (x : Session) : Session :=
  mkSession (connections x) v (control x) (lis x) (UUID x) (addr x) (Peers x)
    (ChunkOwners x) (PeerOwners x) (chunkHash x) (chunkProvider x) (isMain x) (done x)
    (uploadSem x) (coordinating x) (prefetch x) (uploadLimit x) (backoffUntil x).
Definition set_control (v : bool) (x : Session) : Session :=
  mkSession (connections x) (files x) v (lis x) (UUID x) (addr x) (Peers x) (ChunkOwners x)
    (PeerOwners x) (chunkHash x) (chunkProvider x) (isMain x) (done x) (uploadSem x)
    (coordinating x) (prefetch x) (uploadLimit x) (backoffUntil x).
Definition set_lis (v : bool) (x : Session) : Session :=
  mkSession (connections x) (files x) (control x) v (UUID x) (addr x) (Peers x)
    (ChunkOwners x) (PeerOwners x) (chunkHash x) (chunkProvider x) (isMain x) (done x)
    (uploadSem x) (coordinating x) (prefetch x) (uploadLimit x) (backoffUntil x).
Definition set_UUID (v : string) (x : Session) : Session :=
  mkSession (connections x) (files x) (control x) (lis x) v (addr x) (Peers x)
    (ChunkOwners x) (PeerOwners x) (chunkHash x) (chunkProvider x) (isMain x) (done x)
    (uploadSem x) (coordinating x) (prefetch x) (uploadLimit x) (backoffUntil x).
Definition set_addr (v : string) (x : Session) : Session :=
  mkSession (connections x) (files x) (control x) (lis x) (UUID x) v (Peers x)
    (ChunkOwners x) (PeerOwners x) (chunkHash x) (chunkProvider x) (isMain x) (done x)
    (uploadSem x) (coordinating x) (prefetch x) (uploadLimit x) (backoffUntil x).
Definition set_Peers (v : gmap string Peer) (x : Session) : Session :=
  mkSession (connections x) (files x) (control x) (lis x) (UUID x) (addr x) v
    (ChunkOwners x) (PeerOwners x) (chunkHash x) (chunkProvider x) (isMain x) (done x)
    (uploadSem x) (coordinating x) (prefetch x) (uploadLimit x) (backoffUntil x).
Definition set_ChunkOwners (v : gmap Z (gset string)) (x : Session) : Session :=
  mkSession (connections x) (files x) (control x) (lis x) (UUID x) (addr x) (Peers x) v
    (PeerOwners x) (chunkHash x) (chunkProvider x) (isMain x) (done x) (uploadSem x)
    (coordinating x) (prefetch x) (uploadLimit x) (backoffUntil x).
Definition set_PeerOwners (v : gmap string (gset Z)) (x : Session) : Session :=
  mkSession (connections x) (files x) (control x) (lis x) (UUID x) (addr x) (Peers x)
    (ChunkOwners x) v (chunkHash x) (chunkProvider x) (isMain x) (done x) (uploadSem x)
    (coordinating x) (prefetch x) (uploadLimit x) (backoffUntil x).
Definition set_chunkHash (v : gmap Z Z) (x : Session) : Session :=
  mkSession (connections x) (files x) (control x) (lis x) (UUID x) (addr x) (Peers x)
    (ChunkOwners x) (PeerOwners x) v (chunkProvider x) (isMain x) (done x) (uploadSem x)
    (coordinating x) (prefetch x) (uploadLimit x) (backoffUntil x).
Definition set_chunkProvider (v : FileChunk) (x : Session) : Session :=
  mkSession (connections x) (files x) (control x) (lis x) (UUID x) (addr x) (Peers x)
    (ChunkOwners x) (PeerOwners x) (chunkHash x) v (isMain x) (done x) (uploadSem x)
    (coordinating x) (prefetch x) (uploadLimit x) (backoffUntil x).
Definition set_isMain (v : bool) (x : Session) : Session :=
  mkSession (connections x) (files x) (control x) (lis x) (UUID x) (addr x) (Peers x)
    (ChunkOwners x) (PeerOwners x) (chunkHash x) (chunkProvider x) v (done x) (uploadSem x)
    (coordinating x) (prefetch x) (uploadLimit x) (backoffUntil x).
Definition set_done (v : bool) (x : Session) : Session :=
  mkSession (connections x) (files x) (control x) (lis x) (UUID x) (addr x) (Peers x)
    (ChunkOwners x) (PeerOwners x) (chunkHash x) (chunkProvider x) (isMain x) v
    (uploadSem x) (coordinating x) (prefetch x) (uploadLimit x) (backoffUntil x).
Definition set_uploadSem (v : Z) (x : Session) : Session :=
  mkSession (connections x) (files x) (control x) (lis x) (UUID x) (addr x) (Peers x)
    (ChunkOwners x) (PeerOwners x) (chunkHash x) (chunkProvider x) (isMain x) (done x) v
    (coordinating x) (prefetch x) (uploadLimit x) (backoffUntil x).
Definition set_coordinating (v : bool) (x : Session) : Session :=
  mkSession (connections x) (files x) (control x) (lis x) (UUID x) (addr x) (Peers x)
    (ChunkOwners x) (PeerOwners x) (chunkHash x) (chunkProvider x) (isMain x) (done x)
    (uploadSem x) v (prefetch x) (uploadLimit x) (backoffUntil x).
Definition set_prefetch (v : bool) (x : Session) : Session :=
  mkSession (connections x) (files x) (control x) (lis x) (UUID x) (addr x) (Peers x)
    (ChunkOwners x) (PeerOwners x) (chunkHash x) (chunkProvider x) (isMain x) (done x)
    (uploadSem x) (coordinating x) v (uploadLimit x) (backoffUntil x).
Definition set_uploadLimit (v : Z) (x : Session) : Session :=
  mkSession (connections x) (files x) (control x) (lis x) (UUID x) (addr x) (Peers x)
    (ChunkOwners x) (PeerOwners x) (chunkHash x) (chunkProvider x) (isMain x) (done x)
    (uploadSem x) (coordinating x) (prefetch x) v (backoffUntil x).
Definition set_backoffUntil (v : Z) (x : Session) : Session :=
  mkSession (connections x) (files x) (control x) (lis x) (UUID x) (addr x) (Peers x)
    (ChunkOwners x) (PeerOwners x) (chunkHash x) (chunkProvider x) (isMain x) (done x)
    (uploadSem x) (coordinating x) (prefetch x) (uploadLimit x) v.

(** The capacity of [uploadSem]. internal/gsp_sdk/server/session.go:73-73 [NewGspSession] *)
Definition upload_cap : Z := 8.

(** internal/const/const.go:24-24 [UploadConcurrencyHDD] *)
Definition UploadConcurrencyHDD : Z := 2.

(** A fresh session; [id] is the UUID drawn for it.
    internal/gsp_sdk/server/session.go:62-76 [NewGspSession] *)
Definition NewGspSession (address id : string) : Session :=
  mkSession ∅ [] false false id address ∅ ∅ ∅ ∅ zero_chunk false false 0 false false 0
    zero_time.

(** [&Peer{connAddr, conn, leases: map[string]time.Time{}}]. *)
Definition new_peer (a : string) (c : option conn_id) : Peer :=
  mkPeer a c 0 f_zero "" zero_time 0 zero_time (Some ∅).

Inductive sess_error : Type :=
| ErrNetClosed
| ErrAlreadyStarted
| ErrListen
| ErrStat
| ErrNotRegular
| ErrSourceChanged
| ErrChunk (e : Chunk.error)
| ErrStopped
| ErrSlotTimeout.

(** ** Listening *)

(** [listen] is the outcome of [net.Listen]: the address bound, or failure.
    internal/gsp_sdk/server/session.go:79-123 [Session.Start] *)
Definition Start (listen : option string) (s : Session) : option sess_error * Session :=
  if done s then (Some ErrNetClosed, s)
  else if lis s then (Some ErrAlreadyStarted, s)
  else match listen with
       | None => (Some ErrListen, s)
       | Some a => (None, set_addr a (set_lis true s))
       end.

(** What becomes of an accepted connection. *)
Inductive accepted : Type := AcceptStop | AcceptRefused | AcceptServed.

(** One turn of the accept loop.
    internal/gsp_sdk/server/session.go:103-119 [Session.Start] *)
Definition accept (c : conn_id) (s : Session) : accepted * Session :=
  if done s then (AcceptStop, s)
  else if 512 <=? Z.of_nat (size (connections s)) then (AcceptRefused, s)
  else (AcceptServed, set_connections ({[c]} ∪ connections s) s).

(** internal/gsp_sdk/server/session.go:196-205 [Session.Port] *)
Definition Port (s : Session) : Z :=
  match SplitHostPort (addr s) with
  | None => 0
  | Some (_, port) => (Atoi (chars_of port)).1
  end.

(** The first critical section of [Stop]: the connections to close. [None] when
    the session is already stopped.
    internal/gsp_sdk/server/session.go:209-225 [Session.Stop] *)
Definition Stop (s : Session) : option (gset conn_id) * Session :=
  if done s then (None, s)
  else (Some (connections s), set_lis false (set_done true s)).

Definition close_files (l : list fd) (fs : Files) : Files := foldr delete fs l.

(** The last critical section, after every goroutine has ended.
    internal/gsp_sdk/server/session.go:227-232 [Session.Stop] *)
Definition Stop_files (fs : Files) (s : Session) : Files * Session :=
  (close_files (files s) fs, set_files [] s).

(** internal/gsp_sdk/server/session.go:236-240 [Session.RetainFile] *)
Definition RetainFile (f : fd) (s : Session) : Session := set_files (files s ++ [f]) s.

(** internal/gsp_sdk/server/session.go:241-245 [Session.SetControlHandler] *)
Definition SetControlHandler (s : Session) : Session := set_control true s.

(** internal/gsp_sdk/server/session.go:361-366 [Session.CloseConn] *)
Definition CloseConn (c : conn_id) (s : Session) : Session :=
  set_connections (connections s ∖ {[c]}) s.

(** ** Content *)

(** [for i := int64(0); i < nums; i++]: the session's node owns every chunk. *)
Definition own_all (id : string) (nums : Z) (co : gmap Z (gset string))
    : gmap Z (gset string) :=
  foldl (λ m i, <[i := {[id]} ∪ default ∅ (m !! i)]> m) co (seqZ 0 nums).

(** The part of [StartCoordinator] that changes the state: whether the goroutine
    is started. internal/gsp_sdk/server/control.go:64-92 [Session.StartCoordinator] *)
Definition StartCoordinator (s : Session) : bool * Session :=
  if done s then (false, s)
  else if coordinating s then (false, s)
  else (true, set_coordinating true s).

(** The checks before the lock. *)
Definition source_check (fs : Files) (f : fd) : option sess_error :=
  match Stat fs f with
  | None => Some ErrStat
  | Some info => if negb (fi_regular info) then Some ErrNotRegular else None
  end.

(** The critical section of [BeSendMain].
    internal/gsp_sdk/server/session.go:288-304 [Session.BeSendMain] *)
Definition BeSendMain_locked (ck : FileChunk) (s : Session) : Session :=
  let nums := GetChunkNum ck in
  let s1 := set_isMain true (set_chunkProvider ck s) in
  let s2 := set_Peers (<[UUID s := new_peer "" None]> (Peers s1)) s1 in
  set_ChunkOwners (own_all (UUID s) nums (ChunkOwners s2)) s2.

(** internal/gsp_sdk/server/session.go:280-307 [Session.BeSendMain] *)
Definition BeSendMain (fs : Files) (f : fd) (s : Session) : option sess_error * Session :=
  match source_check fs f with
  | Some e => (Some e, s)
  | None => (None, (StartCoordinator (BeSendMain_locked (NewFileChunk fs f) s)).2)
  end.

(** internal/gsp_sdk/server/session.go:310-321 [Session.BeSendSub] *)
Definition BeSendSub (fs : Files) (f : fd) (s : Session) : Files * Session :=
  let fs' := close_files (files s) fs in
  (fs', set_chunkProvider (NewFileChunk fs' f) (set_files [] (set_chunkHash ∅ s))).

(** internal/gsp_sdk/server/session.go:368-373 [Session.ClearChunks] *)
Definition ClearChunks (s : Session) : Session :=
  set_chunkProvider zero_chunk (set_chunkHash ∅ s).

(** internal/gsp_sdk/server/session.go:375-382 [Session.MarkSender] *)
Definition MarkSender (s : Session) : Session :=
  let s1 := set_isMain true s in
  match Peers s1 !! UUID s1 with
  | None => set_Peers (<[UUID s1 := new_peer "" None]> (Peers s1)) s1
  | Some _ => s1
  end.

(** internal/gsp_sdk/server/session.go:383-387 [Session.NodeStatus] *)
Definition NodeStatus (s : Session) : NodeStatusMsg :=
  mkNodeStatus (UUID s) (isMain s) (bool_decide (is_Some (FileStat (chunkProvider s)))).

(** internal/gsp_sdk/server/session.go:390-401 [Session.ClearContent] *)
Definition ClearContent (s : Session) : Session :=
  let s1 := set_chunkHash ∅ (set_chunkProvider zero_chunk s) in
  let s2 := set_PeerOwners ∅ (set_ChunkOwners ∅ s1) in
  set_Peers ((λ p, set_connNum 0 (set_leases (Some ∅) p)) <$> Peers s2) s2.

(** ** What is shown to the user and pushed to the peers *)

(** internal/gsp_sdk/model/type.go:79-89 [PeerInfo] *)
Record PeerInfo : Type := mkPeerInfo {
  pi_UUID : string; pi_Addr : string; pi_Chunks : Z; pi_Total : Z; pi_Speed : float64;
  pi_Inflight : Z; pi_Failed : Z; pi_Self : bool; pi_Online : bool;
}.

Definition map_len {K A} `{Countable K} (m : gmap K A) : Z := Z.of_nat (size m).
Definition set_len {A} `{Countable A} (x : gset A) : Z := Z.of_nat (size x).

(** One row per peer, in the order the map is traversed in.
    internal/gsp_sdk/server/session.go:125-153 [Session.Snapshot] *)
Definition Snapshot (s : Session) (order : list string) : list PeerInfo :=
  let total := map_len (ChunkOwners s) in
  omap (λ id,
    p ← Peers s !! id;
    let chunks := match PeerOwners s !! id with
                  | Some owned => set_len owned
                  | None => if decide (id = UUID s) then total else 0
                  end in
    Some (mkPeerInfo id (connAddr p) chunks total (speedEwma p) (connNum p) (failStreak p)
      (bool_decide (id = UUID s))
      (bool_decide (id = UUID s) || bool_decide (is_Some (conn p))))) order.

(** The message pushed and the connections it is written to; each write succeeds
    or not on its own. internal/gsp_sdk/server/session.go:155-194 [Session.BroadcastStart] *)
Definition BroadcastStart (s : Session) (order : list string)
    : option (PushStart * list conn_id) :=
  let ck := chunkProvider s in
  match FileStat ck with
  | None => None
  | Some st =>
      Some (mkPushStart (GetChunkSize ck) "pushStart" (fi_name st) (fi_size st)
              (GetChunkNum ck),
            omap (λ id, p ← Peers s !! id;
                        if decide (id = UUID s) then None else conn p) order)
  end.

(** ** Peers and the blocks they own *)

(** internal/gsp_sdk/server/peer.go:9-25 [Session.AddPeer] *)
Definition AddPeer (id a : string) (c : option conn_id) (s : Session) : Session :=
  match Peers s !! id with
  | Some p =>
      let p1 := set_conn c (set_connAddr a p) in
      let p2 := match leases p1 with None => set_leases (Some ∅) p1 | Some _ => p1 end in
      set_Peers (<[id := p2]> (Peers s)) s
  | None => set_Peers (<[id := new_peer a c]> (Peers s)) s
  end.

(** [delete(s.ChunkOwners[i], id)] *)
Definition disown (id : string) (co : gmap Z (gset string)) (i : Z) : gmap Z (gset string) :=
  alter (λ o, o ∖ {[id]}) i co.

(** internal/gsp_sdk/server/peer.go:28-40 [Session.RemovePeer] *)
Definition RemovePeer (id : string) (s : Session) : Session :=
  let co := match PeerOwners s !! id with
            | Some cks => foldl (disown id) (ChunkOwners s) (elements cks)
            | None => ChunkOwners s
            end in
  set_Peers (delete id (Peers s))
    (set_PeerOwners (delete id (PeerOwners s)) (set_ChunkOwners co s)).

(** [m[k][x] = struct{}{}], making the inner set if there is none. *)
Definition add_to {K A} `{Countable K, Countable A} (k : K) (x : A) (m : gmap K (gset A))
    : gmap K (gset A) :=
  <[k := {[x]} ∪ default ∅ (m !! k)]> m.

(** internal/gsp_sdk/server/peer.go:43-57 [Session.AddBlockOwner] *)
Definition AddBlockOwner (i : Z) (id : string) (s : Session) : Session :=
  if bool_decide (FileStat (chunkProvider s) = None) || (i <? 0)
     || (GetChunkNum (chunkProvider s) <=? i) || bool_decide (Peers s !! id = None)
  then s
  else set_PeerOwners (add_to id i (PeerOwners s))
         (set_ChunkOwners (add_to i id (ChunkOwners s)) s).

(** internal/gsp_sdk/server/queue.go:215-217 [leaseKey] *)
Definition leaseKey (requester : string) (index : Z) : string :=
  requester +:+ ":" +:+ string_of (FormatInt index).

(** [if p.connNum > 0 { p.connNum-- }] *)
Definition dec_conn (n : Z) : Z := if 0 <? n then n - 1 else n.

(** Give a lease back, if the peer holds it: the common part of [UpdatePeer] and
    [queue2.release]. internal/gsp_sdk/server/queue.go:157-172 [queue2.release] *)
Definition drop_lease (key : string) (p : Peer) : Peer :=
  match leases p with
  | Some m =>
      match m !! key with
      | Some _ => set_connNum (dec_conn (connNum p)) (set_leases (Some (delete key m)) p)
      | None => p
      end
  | None => p
  end.

(** [time.Duration(1<<min(failStreak, 4)) * time.Second] *)
Definition backoff_of (streak : Z) : Z := Z.shiftl 1 (Z.min streak 4) * Second.

(** [now1] and [now2] are the two instants read on the failure path.
    internal/gsp_sdk/server/tool.go:87-122 [Session.UpdatePeer] *)
Definition UpdatePeer (now1 now2 : Z) (provider : string) (speed : Z) (status : string)
    (index : Z) (requester : string) (s : Session) : Session :=
  match Peers s !! provider with
  | None => s
  | Some peer =>
      let p := drop_lease (leaseKey requester index) peer in
      if decide (status = "failed") then
        let s1 :=
          if decide (provider = UUID s) then s
          else set_PeerOwners (alter (λ o, o ∖ {[index]}) provider (PeerOwners s))
                 (set_ChunkOwners (disown provider (ChunkOwners s) index) s) in
        let streak := failStreak p + 1 in
        let p1 := set_cooldownTil (now2 + backoff_of streak)
                    (set_lastFailure now1 (set_failStreak streak p)) in
        let p2 := set_speedEwma (f_mul (speedEwma p1) (f_lit 5 10)) p1 in
        set_Peers (<[provider := p2]> (Peers s1)) s1
      else
        let p1 := set_cooldownTil zero_time (set_failStreak 0 p) in
        let ewma :=
          if f_leb (speedEwma p1) f_zero then f_of_Z speed
          else f_add (f_mul (speedEwma p1) (f_lit 7 10)) (f_mul (f_of_Z speed) (f_lit 3 10)) in
        set_Peers (<[provider := set_speedEwma ewma p1]> (Peers s)) s
  end.

(** internal/gsp_sdk/server/control.go:27-33 [Session.SetControlConn] *)
Definition SetControlConn (id : string) (c : option conn_id) (s : Session) : Session :=
  set_Peers (alter (set_conn c) id (Peers s)) s.

(** ** Chunks *)

(** internal/gsp_sdk/server/tool.go:19-23 [Session.GetChunk] *)
Definition GetChunk (s : Session) : FileChunk := chunkProvider s.

(** The file is looked at three times: [fs1] before, [fs2] during and [fs3] after
    the read. internal/gsp_sdk/server/tool.go:26-38 [Session.ReadChunk] *)
Definition ReadChunk (fs1 fs2 fs3 : Files) (s : Session) (i buf_len : Z)
    : res sess_error bytes :=
  let ck := chunkProvider s in
  if isMain s && negb (Unchanged fs1 ck) then Err ErrSourceChanged else
  match Chunk.ReadChunk fs2 ck i buf_len with
  | Err e => Err (ErrChunk e)
  | Ok b => if isMain s && negb (Unchanged fs3 ck) then Err ErrSourceChanged else Ok b
  end.

(** The first part of [IndexValid]: the answer, or the file to read the chunk from.
    internal/gsp_sdk/server/tool.go:53-64 [Session.IndexValid] *)
Definition IndexValid_lookup (s : Session) (i : Z) : (bool * Z) + FileChunk :=
  match chunkHash s !! i with
  | Some v => inl (true, v)
  | None =>
      let ck := GetChunk s in
      if bool_decide (FileStat ck = None) || (i <? 0) || (GetChunkNum ck <=? i)
         || negb (isMain s)
      then inl (false, 0) else inr ck
  end.

(** The second part; other calls may run in between.
    internal/gsp_sdk/server/tool.go:65-75 [Session.IndexValid] *)
Definition IndexValid_read (fs : Files) (ck : FileChunk) (i : Z) (s : Session)
    : (bool * Z) * Session :=
  match Chunk.ReadChunk fs ck i ChunkSize with
  | Err _ => ((false, 0), s)
  | Ok b =>
      if zlen b <=? 0 then ((false, 0), s)
      else let cm := ChecksumIEEE b in
           ((true, cm), set_chunkHash (<[i := cm]> (chunkHash s)) s)
  end.

(** internal/gsp_sdk/server/tool.go:52-75 [Session.IndexValid] *)
Definition IndexValid (fs : Files) (i : Z) (s : Session) : (bool * Z) * Session :=
  match IndexValid_lookup s i with
  | inl r => (r, s)
  | inr ck => IndexValid_read fs ck i s
  end.

(** internal/gsp_sdk/server/tool.go:78-84 [Session.AddChunk] *)
Definition AddChunk (i checksum : Z) (s : Session) : Session :=
  match chunkHash s !! i with
  | Some _ => s
  | None => set_chunkHash (<[i := checksum]> (chunkHash s)) s
  end.

(** internal/gsp_sdk/server/tool.go:190-201 [Session.HasChunk] *)
Definition HasChunk (s : Session) (i : Z) : bool :=
  let ck := chunkProvider s in
  if bool_decide (FileStat ck = None) || (i <? 0) || (GetChunkNum ck <=? i) then false
  else if isMain s then true
  else bool_decide (is_Some (chunkHash s !! i)).

(** ** Upload slots *)

(** internal/gsp_sdk/server/tool.go:140-146 [Session.acquireUpload] *)
Definition upload_limit (now : Z) (s : Session) : Z :=
  let limit := if (uploadLimit s <=? 0) || (upload_cap <? uploadLimit s)
               then upload_cap else uploadLimit s in
  if now <? backoffUntil s then Z.min limit UploadConcurrencyHDD else limit.

Inductive attempt : Type := Acquired | NotAcquired | SessionStopped.

(** One turn of the loop under the lock.
    internal/gsp_sdk/server/tool.go:139-160 [Session.acquireUpload] *)
Definition try_acquire (now : Z) (s : Session) : attempt * Session :=
  if done s then (SessionStopped, s)
  else if uploadSem s <? upload_limit now s then
    if uploadSem s <? upload_cap then (Acquired, set_uploadSem (uploadSem s + 1) s)
    else (NotAcquired, s)
  else (NotAcquired, s).

(** What ends the wait between two turns. *)
Inductive wake : Type := WakeDone | WakeTimer | WakeRetry.

(** The loop: for every turn, the instant, what the other callers do to the
    session before the wait ends, and what ends it. [None]: still waiting.
    internal/gsp_sdk/server/tool.go:133-173 [Session.acquireUpload] *)
Fixpoint acquireUpload (turns : list (Z * (Session → Session) * wake)) (s : Session)
    : option (option sess_error * Session) :=
  match turns with
  | [] => None
  | (now, others, w) :: turns' =>
      match try_acquire now s with
      | (SessionStopped, s1) => Some (Some ErrStopped, s1)
      | (Acquired, s1) => Some (None, s1)
      | (NotAcquired, s1) =>
          match w with
          | WakeDone => Some (Some ErrStopped, others s1)
          | WakeTimer => Some (Some ErrSlotTimeout, others s1)
          | WakeRetry => acquireUpload turns' (others s1)
          end
      end
  end.

(** internal/gsp_sdk/server/tool.go:183-188 [Session.ReleaseUploadSlot] *)
Definition ReleaseUploadSlot (s : Session) : Session :=
  if 0 <? uploadSem s then set_uploadSem (uploadSem s - 1) s else s.

(** internal/gsp_sdk/server/tool.go:176-180 [Session.SetUploadMax] *)
Definition SetUploadMax (n : Z) (s : Session) : Session :=
  set_uploadLimit (Z.max 1 (Z.min n upload_cap)) s.
