(* ===== verification/Scheduler.v ===== *)
(** * The dispatch centre: choosing sources and lending leases

    internal/gsp_sdk/server/queue.go and the zones of control.go. Every request
    for a chunk is answered with candidate sources ordered by a score, and the
    first of them is lent to the requester until it reports back or the lease
    expires. A traversal of a Go map visits its keys in an arbitrary order,
    which is an argument ([order]) of the functions that traverse one. *)

From S2P Require Import Prelude Text Chunk Float64 Net Model Session.
Local Open Scope string_scope.
Local Open Scope Z_scope.

(** ** Constants *)

(** internal/gsp_sdk/server/queue.go:17-17 [leaseTTL] *)
Definition leaseTTL : Z := 45 * Second.
(** internal/gsp_sdk/server/queue.go:18-18 [maxInflight] *)
Definition maxInflight : Z := 2.
(** internal/const/const.go:10-10 [SchedColdStartMbps] *)
Definition SchedColdStartMbps : float64 := f_of_Z 1000.
(** internal/const/const.go:12-12 [SchedCrossZoneFactor] *)
Definition SchedCrossZoneFactor : float64 := f_lit 15 100.
(** internal/const/const.go:14-14 [SchedFailHalfLifeSec] *)
Definition SchedFailHalfLifeSec : float64 := f_of_Z 30.
(** internal/const/const.go:18-18 [SchedMaxSourcesPerWant] *)
Definition SchedMaxSourcesPerWant : Z := 3.
(** internal/gsp_sdk/server/control.go:171-171 [zoneOfCentral] *)
Definition zoneOfCentral : string := "*".

(** ** Zones *)

Definition fmt_d (z : Z) : string := string_of (FormatInt z).

(** [%x] of the two bytes [b1 b2]: four lower-case digits. *)
Definition fmt_x2 (b1 b2 : Z) : string :=
  let hex d := if d <? 10 then chr (48 + d) else chr (87 + d) in
  string_of [hex (b1 / 16); hex (b1 mod 16); hex (b2 / 16); hex (b2 mod 16)].

(** internal/gsp_sdk/server/control.go:173-190 [zoneOf] *)
Definition zoneOf (ipPort explicit : string) : string :=
  if negb (is_empty explicit) then explicit else
  let host := match SplitHostPort ipPort with Some (h, _) => h | None => ipPort end in
  match ParseIP host with
  | None => ""
  | Some ip =>
      match To4 ip with
      | Some v4 =>
          fmt_d (nth 0 v4 0) +:+ "." +:+ fmt_d (nth 1 v4 0) +:+ "." +:+ fmt_d (nth 2 v4 0)
            +:+ ".0/" +:+ fmt_d 24
      | None =>
          fmt_x2 (nth 0 ip 0) (nth 1 ip 0) +:+ ":" +:+ fmt_x2 (nth 2 ip 0) (nth 3 ip 0)
            +:+ ":" +:+ fmt_x2 (nth 4 ip 0) (nth 5 ip 0) +:+ "::/48"
      end
  end.

(** internal/gsp_sdk/server/control.go:191-197 [Session.SetPeerZone] *)
Definition SetPeerZone (id z : string) (s : Session) : Session :=
  set_Peers (alter (λ p, set_zone (zoneOf (connAddr p) z) p) id (Peers s)) s.

(** ** Leases *)

(** The leases of one peer at [now]: the expired ones go, each taking one from
    the connection count. internal/gsp_sdk/server/queue.go:174-188 [Session.expireLeasesLocked] *)
Definition expire_peer (now : Z) (p : Peer) : Peer :=
  match leases p with
  | None => p
  | Some m =>
      let expired := filter (λ kv, kv.2 < now) m in
      set_connNum (Nat.iter (size expired) dec_conn (connNum p))
        (set_leases (Some (filter (λ kv, ¬ kv.2 < now) m)) p)
  end.

(** internal/gsp_sdk/server/queue.go:174-188 [Session.expireLeasesLocked] *)
Definition expireLeasesLocked (now : Z) (s : Session) : Session :=
  set_Peers (expire_peer now <$> Peers s) s.

(** [now] is the instant the deadline is computed from.
    internal/gsp_sdk/server/queue.go:130-144 [queue2.leaseLocked] *)
Definition leaseLocked (now : Z) (id : string) (index : Z) (requester : string)
    (s : Session) : Session :=
  let p := match Peers s !! id with
           | None => new_peer "" None
           | Some p => match leases p with None => set_leases (Some ∅) p | Some _ => p end
           end in
  let m := default ∅ (leases p) in
  let key := leaseKey requester index in
  let p1 := match m !! key with Some _ => p | None => set_connNum (connNum p + 1) p end in
  set_Peers (<[id := set_leases (Some (<[key := now + leaseTTL]> m)) p1]> (Peers s)) s.

(** internal/gsp_sdk/server/queue.go:157-172 [queue2.release] *)
Definition release (id : string) (index : Z) (requester : string) (s : Session) : Session :=
  match Peers s !! id with
  | None => s
  | Some p => set_Peers (<[id := drop_lease (leaseKey requester index) p]> (Peers s)) s
  end.

(** ** Candidates *)

(** internal/gsp_sdk/server/queue.go:56-59 [scoredCandidate] *)
Record scoredCandidate : Type := mkCandidate {
  sc_uuid : string; sc_addr : string; sc_score : float64;
}.

(** internal/gsp_sdk/server/queue.go:64-69 [localityFactor] *)
Definition localityFactor (source requester : string) : float64 :=
  if bool_decide (source = zoneOfCentral) || is_empty requester
     || bool_decide (source = requester)
  then f_of_Z 1 else SchedCrossZoneFactor.

(** internal/gsp_sdk/server/queue.go:122-127 [queue2.candidatesLocked] *)
Definition candidate_less (a b : scoredCandidate) : bool :=
  if f_eqb (sc_score a) (sc_score b)
  then String.ltb (sc_uuid a) (sc_uuid b)
  else f_ltb (sc_score b) (sc_score a).

(** [math.Pow(0.5, y)], whose rounding the documentation leaves open: its value at
    zero, and that it is a number, at most 1, for a number that is not negative. *)
Class HalfPow : Type := {
  Pow_half : float64 → float64;
  Pow_half_zero b : Pow_half (S754_zero b) = f_of_Z 1;
  Pow_half_range y : f_leb f_zero y = true →
    f_leb f_zero (Pow_half y) = true ∧ f_leb (Pow_half y) (f_of_Z 1) = true;
}.

Section candidates.
Context `{HalfPow}.

(** internal/gsp_sdk/server/queue.go:61-63 [scoreSource] *)
Definition scoreSource (up : float64) (connections : Z) (locality failures : float64)
    : float64 :=
  f_mul (f_mul (f_div up (f_of_Z (connections + 1))) locality) (Pow_half failures).

(** The zone of a requester: as it says, as it registered, or from its address.
    internal/gsp_sdk/server/queue.go:73-81 [queue2.candidatesLocked] *)
Definition request_zone (s : Session) (req : WantChunkReq) (remote : option string)
    : string :=
  let z1 := wq_Zone req in
  let z2 := if is_empty z1 then
              match Peers s !! wq_UUID req with Some p => zone p | None => z1 end
            else z1 in
  if is_empty z2 then match remote with Some a => zoneOf a "" | None => z2 end else z2.

(** The candidate an owner gives, if it may be asked.
    internal/gsp_sdk/server/queue.go:84-107 [queue2.candidatesLocked] *)
Definition owner_candidate (now : Z) (s : Session) (z requester id : string)
    : option scoredCandidate :=
  if decide (id = requester) then None else
  p ← Peers s !! id;
  if decide (id = UUID s) then None else
  if (now <? cooldownTil p) || (maxInflight <=? connNum p) then None else
  let failures :=
    let f := f_of_Z (failStreak p) in
    if lastFailure p =? zero_time then f
    else f_mul f (Pow_half (f_div (Seconds (time_Sub now (lastFailure p)))
                              SchedFailHalfLifeSec)) in
  let speed := if f_leb (speedEwma p) f_zero then SchedColdStartMbps else speedEwma p in
  Some (mkCandidate id (connAddr p)
    (scoreSource speed (connNum p) (localityFactor (zone p) z) failures)).

(** internal/gsp_sdk/server/queue.go:92-94 [queue2.candidatesLocked] *)
Definition is_local_owner (s : Session) (z requester id : string) : bool :=
  negb (bool_decide (id = requester)) && negb (bool_decide (id = UUID s)) &&
  match Peers s !! id with Some p => bool_decide (zone p = z) | None => false end.

(** internal/gsp_sdk/server/queue.go:108-121 [queue2.candidatesLocked] *)
Definition central_candidate (s : Session) (z : string) (localOwners : nat)
    : scoredCandidate :=
  let '(speed, connections) :=
    match Peers s !! UUID s with
    | Some c => (if f_ltb f_zero (speedEwma c) then speedEwma c else SchedColdStartMbps,
                 connNum c)
    | None => (SchedColdStartMbps, 0)
    end in
  let score := scoreSource speed connections (f_of_Z 1) f_zero in
  mkCandidate (UUID s) ""
    (if (localOwners =? 0)%nat && negb (is_empty z) then f_mul score (f_of_Z (10 ^ 9))
     else score).

Definition owners (s : Session) (i : Z) : gset string := default ∅ (ChunkOwners s !! i).

(** The candidates before they are sorted. *)
Definition unsorted_candidates (now : Z) (req : WantChunkReq) (remote : option string)
    (order : list string) (s : Session) : list scoredCandidate :=
  let z := request_zone s req remote in
  let local := length (filter (λ id, is_local_owner s z (wq_UUID req) id = true) order) in
  omap (owner_candidate now s z (wq_UUID req)) order ++ [central_candidate s z local].

(** [order] is the traversal of the owners of the chunk; [remote] the address of
    the connection, [None] for a nil one.
    internal/gsp_sdk/server/queue.go:70-129 [queue2.candidatesLocked] *)
Definition candidatesLocked (now : Z) (req : WantChunkReq) (remote : option string)
    (order : list string) (s : Session) : list scoredCandidate * Session :=
  let s1 := expireLeasesLocked now s in
  (sort_slice candidate_less (unsorted_candidates now req remote order s1), s1).

(** How many sources are sent. internal/gsp_sdk/server/queue.go:36-40 [queue2.WantRequest] *)
Definition sources_count (want : Z) (candidates : nat) : nat :=
  let n := if want <=? 0 then 1 else want in
  Z.to_nat (Z.min (Z.min n SchedMaxSourcesPerWant) (Z.of_nat candidates)).

(** The critical section of [WantRequest]: the answer, and the session with the
    lease. [now2] is the instant of the lease. There is always a first candidate;
    [None] stands for the panic of [candidates[0]].
    internal/gsp_sdk/server/queue.go:33-49 [queue2.WantRequest] *)
Definition WantRequest_locked (now now2 : Z) (req : WantChunkReq) (remote : option string)
    (order : list string) (s : Session) : option (WantChunkResp * Session) :=
  let '(candidates, s1) := candidatesLocked now req remote order s in
  let n := sources_count (wq_Want req) (length candidates) in
  let sources := List.map (λ c, mkSourceCandidate (sc_addr c) (sc_uuid c))
                   (take n candidates) in
  match candidates with
  | [] => None
  | first :: _ =>
      let s2 := leaseLocked now2 (sc_uuid first) (wq_Index req) (wq_UUID req) s1 in
      let checksum := default 0 (chunkHash s2 !! wq_Index req) in
      Some (mkWantChunkResp sources (wq_Index req) (sc_addr first) checksum (sc_uuid first),
            s2)
  end.

(** [sent]: whether the response could be written; [others] is what the other
    callers do while it is being written.
    internal/gsp_sdk/server/queue.go:33-54 [queue2.WantRequest] *)
Definition WantRequest (now now2 : Z) (req : WantChunkReq) (remote : option string)
    (order : list string) (sent : bool) (others : Session → Session) (s : Session)
    : option (WantChunkResp * Session) :=
  match WantRequest_locked now now2 req remote order s with
  | None => None
  | Some (resp, s1) =>
      let s2 := others s1 in
      Some (resp, if sent then s2
                  else release (wr_UUID resp) (wq_Index req) (wq_UUID req) s2)
  end.

(** The peers at the host of the connection, in the order of [order]; two of them
    are none. internal/gsp_sdk/server/queue.go:190-213 [Session.peerByConn] *)
Definition peerByConn (s : Session) (remote : option string) (order : list string)
    : string :=
  match remote ≫= SplitHostPort with
  | None => ""
  | Some (host, _) =>
      (fix go (l : list string) (found : string) : string :=
         match l with
         | [] => found
         | uid :: l' =>
             match Peers s !! uid with
             | None => go l' found
             | Some p =>
                 if is_empty (connAddr p) then go l' found else
                 match SplitHostPort (connAddr p) with
                 | None => go l' found
                 | Some (ph, _) =>
                     if negb (bool_decide (ph = host)) then go l' found
                     else if negb (is_empty found) then ""
                     else go l' uid
                 end
             end
         end) order ""
  end.

(** internal/gsp_sdk/server/queue.go:146-155 [queue2.pickFor] *)
Definition pickFor (now now2 : Z) (i : Z) (remote : option string) (requester : string)
    (peers_order order : list string) (s : Session)
    : option (string * string * Session) :=
  let requester := if is_empty requester then peerByConn s remote peers_order
                   else requester in
  let '(candidates, s1) :=
    candidatesLocked now (mkWantChunkReq "" 0 requester "" i) remote order s in
  match candidates with
  | [] => None
  | c :: _ => Some (sc_uuid c, sc_addr c, leaseLocked now2 (sc_uuid c) i requester s1)
  end.

End candidates.

(** ** Lemmas on leases *)

Lemma FormatInt_no_colon z : ":"%char ∉ FormatInt z.
Proof.
  assert (∀ n, 0 ≤ n → ":"%char ∉ format_nat n) as Hn.
  { intros n Hn Hin. destruct (format_nat_spec n Hn) as [Hd _].
    assert (forallb is_digit (format_nat n) = true) as Hf by (by destruct (format_nat n)).
    rewrite forallb_forall in Hf. apply list_elem_of_In, Hf in Hin. by vm_compute in Hin. }
  unfold FormatInt. destruct (Z.ltb_spec z 0); [|by apply Hn].
  rewrite not_elem_of_cons. split; [done|]. apply Hn. lia.
Qed.

(** The last colon separates the requester from the index. *)
Lemma leaseKey_inj r i r' i' : leaseKey r i = leaseKey r' i' → r = r' ∧ i = i'.
Proof.
  intros H. apply (f_equal chars_of) in H. unfold leaseKey in H.
  rewrite !chars_of_app, !chars_of_string in H.
  change (chars_of ":") with [":"%char] in H. cbn [app] in H.
  assert (∀ z, has_char ":" (FormatInt z) = false) as Hno.
  { intros z. apply has_char_false, FormatInt_no_colon. }
  pose proof (last_index_mid ":" (chars_of r) _ (Hno i)) as Hi.
  pose proof (last_index_mid ":" (chars_of r') _ (Hno i')) as Hi'.
  rewrite H, Hi' in Hi. injection Hi as Hlen.
  apply app_inj_1 in H as [Hr Hf]; [|done]. split; [by apply chars_of_inj|].
  apply FormatInt_inj. congruence.
Qed.

(** The leases a peer has given. *)
Definition lease_map (p : Peer) : gmap string Z := default ∅ (leases p).

Definition leased (s : Session) (id requester : string) (i : Z) : Prop :=
  ∃ p, Peers s !! id = Some p ∧ is_Some (lease_map p !! leaseKey requester i).

(** The count a peer keeps is the number of its leases. *)
Definition lease_count (p : Peer) : Prop := connNum p = map_len (lease_map p).

Lemma dec_conn_iter k n : 0 ≤ n → Z.of_nat k ≤ n → Nat.iter k dec_conn n = n - Z.of_nat k.
Proof.
  intros Hn. induction k as [|k IH]; intros Hk; [cbn; lia|].
  rewrite Nat.iter_succ, IH by lia. unfold dec_conn. destruct (Z.ltb_spec 0 (n - Z.of_nat k)); lia.
Qed.

Lemma drop_lease_count key p : lease_count p → lease_count (drop_lease key p).
Proof.
  unfold lease_count, drop_lease, lease_map, map_len.
  destruct (leases p) as [m|] eqn:Hl; cbn; [|by rewrite Hl].
  destruct (m !! key) eqn:Hk; cbn; [|by rewrite Hl]. intros ->.
  rewrite map_size_delete, Hk. cbn.
  assert (size m ≠ 0)%nat by (rewrite map_size_non_empty_iff; intros ->; done).
  unfold dec_conn. destruct (Z.ltb_spec 0 (Z.of_nat (size m))); lia.
Qed.

Lemma expire_peer_count now p : lease_count p → lease_count (expire_peer now p).
Proof.
  unfold lease_count, expire_peer, lease_map, map_len.
  destruct (leases p) as [m|] eqn:Hl; cbn; [|by rewrite Hl]. intros ->.
  assert (size m = size (filter (λ kv : string * Z, (kv.2 < now)%Z) m)
                   + size (filter (λ kv : string * Z, ¬ (kv.2 < now)%Z) m))%nat as Hs.
  { rewrite <-map_size_disj_union by apply map_disjoint_filter_complement.
    by rewrite map_filter_union_complement. }
  rewrite dec_conn_iter; lia.
Qed.

Lemma new_peer_count a c : lease_count (new_peer a c).
Proof. done. Qed.

(** Every peer of a session after one of them is replaced. *)
Lemma peers_insert_all (Q : Peer → Prop) (m : gmap string Peer) id p :
  Q p → (∀ i q, m !! i = Some q → Q q) → ∀ i q, <[id := p]> m !! i = Some q → Q q.
Proof. intros Hp Hm i q [[<- <-]|[? ?]]%lookup_insert_Some; eauto. Qed.

Definition peers_all (Q : Peer → Prop) (s : Session) : Prop :=
  ∀ id p, Peers s !! id = Some p → Q p.

Lemma leaseLocked_count now id i r s :
  peers_all lease_count s → peers_all lease_count (leaseLocked now id i r s).
Proof.
  intros Hs. unfold leaseLocked, peers_all. cbn. apply peers_insert_all; [|exact Hs].
  set (p := match Peers s !! id with Some _ => _ | None => _ end).
  assert (lease_count p) as Hp.
  { subst p. destruct (Peers s !! id) as [p|] eqn:Hp; [|done].
    apply Hs in Hp. unfold lease_count, lease_map in *.
    by destruct (leases p) eqn:Hl; rewrite ?Hl in *. }
  clearbody p. unfold lease_count, lease_map, map_len in *. cbn.
  rewrite map_size_insert. destruct (default ∅ (leases p) !! leaseKey r i); cbn; lia.
Qed.

Lemma release_count id i r s :
  peers_all lease_count s → peers_all lease_count (release id i r s).
Proof.
  intros Hs. unfold release. destruct (Peers s !! id) as [p|] eqn:Hp; [|done].
  unfold peers_all. cbn. apply peers_insert_all; [|exact Hs]. eauto using drop_lease_count.
Qed.

Lemma expire_count now s :
  peers_all lease_count s → peers_all lease_count (expireLeasesLocked now s).
Proof.
  intros Hs id p. unfold expireLeasesLocked. cbn. rewrite lookup_fmap_Some.
  intros (q & <- & Hq). eauto using expire_peer_count.
Qed.

Lemma leaseLocked_leased now id i r s : leased (leaseLocked now id i r s) id r i.
Proof.
  unfold leased, leaseLocked. cbn. rewrite lookup_insert_eq. eexists; split; [done|].
  cbn. rewrite lookup_insert_eq. by eexists.
Qed.

Lemma leaseLocked_UUID now id i r s : UUID (leaseLocked now id i r s) = UUID s.
Proof. done. Qed.

(** ** Lemmas on candidates *)

Section candidate_facts.
Context `{HalfPow}.

(** A source other than the centre that may be asked for chunk [i] at [now]. *)
Record eligible (now : Z) (s : Session) (requester : string) (i : Z) (id a : string)
    : Prop := {
  el_owner : id ∈ owners s i;
  el_other : id ≠ requester;
  el_peer : id ≠ UUID s;
  el_ready : ∃ p, Peers s !! id = Some p ∧ connAddr p = a ∧ cooldownTil p ≤ now
                  ∧ connNum p < maxInflight;
}.

Lemma owner_candidate_Some now s z requester id c :
  owner_candidate now s z requester id = Some c →
  sc_uuid c = id ∧ id ≠ requester ∧ id ≠ UUID s ∧
  ∃ p, Peers s !! id = Some p ∧ connAddr p = sc_addr c ∧ cooldownTil p ≤ now
       ∧ connNum p < maxInflight.
Proof.
  unfold owner_candidate. destruct (decide (id = requester)); [done|].
  destruct (Peers s !! id) as [p|] eqn:Hp; cbn; [|done].
  destruct (decide (id = UUID s)); [done|].
  destruct (_ || _) eqn:Hg; [done|]. zbool. intros ?; simplify_eq. cbn.
  split_and!; eauto.
Qed.

Lemma owner_candidate_None now s z requester i id a :
  eligible now s requester i id a →
  ∃ c, owner_candidate now s z requester id = Some c ∧ sc_uuid c = id ∧ sc_addr c = a.
Proof.
  intros [_ Hr Hs (p & Hp & Ha & Hc & Hn)]. unfold owner_candidate.
  destruct (decide (id = requester)); [done|]. rewrite Hp. cbn.
  destruct (decide (id = UUID s)); [done|].
  rewrite (proj2 (Z.ltb_ge _ _)), (proj2 (Z.leb_gt _ _)) by lia. cbn. eauto.
Qed.

Lemma central_uuid s z n : sc_uuid (central_candidate s z n) = UUID s.
Proof. unfold central_candidate. by destruct (Peers s !! UUID s). Qed.

Lemma central_addr s z n : sc_addr (central_candidate s z n) = "".
Proof. unfold central_candidate. by destruct (Peers s !! UUID s). Qed.

Lemma unsorted_in now req remote order s c :
  c ∈ unsorted_candidates now req remote order s ↔
  (∃ id, id ∈ order ∧
     owner_candidate now s (request_zone s req remote) (wq_UUID req) id = Some c) ∨
  c = central_candidate s (request_zone s req remote)
        (length (filter (λ id, is_local_owner s (request_zone s req remote)
                                 (wq_UUID req) id = true) order)).
Proof.
  unfold unsorted_candidates. rewrite elem_of_app, list_elem_of_singleton, list_elem_of_omap.
  done.
Qed.

Lemma omap_uuids now s z requester order :
  NoDup order → NoDup (sc_uuid <$> omap (owner_candidate now s z requester) order).
Proof.
  induction 1 as [|id order Hid _ IH]; cbn; [constructor|].
  destruct (owner_candidate now s z requester id) as [c|] eqn:Hc; [|done].
  cbn. constructor; [|done]. apply owner_candidate_Some in Hc as [-> _].
  intros (c' & Hc' & (id' & Hin & Ho)%list_elem_of_omap)%list_elem_of_fmap.
  apply owner_candidate_Some in Ho as [Ho _]. congruence.
Qed.

(** No source is named twice. *)
Lemma unsorted_uuids now req remote order s :
  NoDup order → NoDup (sc_uuid <$> unsorted_candidates now req remote order s).
Proof.
  intros Hnd. unfold unsorted_candidates. rewrite fmap_app. apply NoDup_app.
  split; [by apply omap_uuids|]. split; [|apply NoDup_singleton].
  intros u (c & -> & (id & _ & Ho)%list_elem_of_omap)%list_elem_of_fmap.
  apply owner_candidate_Some in Ho as (-> & _ & Hne & _).
  cbn. rewrite list_elem_of_singleton, central_uuid. done.
Qed.

Lemma unsorted_perm now req remote order order' s :
  order ≡ₚ order' →
  unsorted_candidates now req remote order s ≡ₚ unsorted_candidates now req remote order' s.
Proof.
  intros Hp. unfold unsorted_candidates.
  assert (length (filter (λ id, is_local_owner s (request_zone s req remote)
            (wq_UUID req) id = true) order)
          = length (filter (λ id, is_local_owner s (request_zone s req remote)
            (wq_UUID req) id = true) order')) as -> by by rewrite Hp.
  by rewrite Hp.
Qed.

(** The order of the candidates is total where scores are numbers. *)
Lemma candidate_less_total (l : list scoredCandidate) :
  NoDup (sc_uuid <$> l) → (∀ c, c ∈ l → is_nan (sc_score c) = false) →
  strict_total candidate_less l.
Proof.
  intros Hnd Hnan. assert (∀ x y, x ∈ l → y ∈ l → candidate_less x y = true ↔
    key_lt (f_key (sc_score y)) (f_key (sc_score x)) ∨
    (f_key (sc_score x) = f_key (sc_score y) ∧ String.ltb (sc_uuid x) (sc_uuid y) = true))
    as Hless.
  { intros x y Hx Hy. unfold candidate_less.
    pose proof (f_eqb_key _ _ (Hnan x Hx) (Hnan y Hy)) as He.
    pose proof (f_ltb_key _ _ (Hnan y Hy) (Hnan x Hx)) as Hl.
    destruct (f_eqb (sc_score x) (sc_score y)).
    - assert (f_key (sc_score x) = f_key (sc_score y)) as Hk by by apply He.
      rewrite Hk. split; [auto|]. intros [Hlt|[_ ?]]; [by apply key_lt_irrefl in Hlt|done].
    - rewrite Hl. split; [auto|]. intros [?|[Hk _]]; [done|]. apply He in Hk. done. }
  split.
  - intros x Hx. apply not_true_iff_false. rewrite Hless by done.
    intros [Hlt|[_ Hlt]]; [by apply key_lt_irrefl in Hlt|by rewrite string_ltb_irrefl in Hlt].
  - intros x y z Hx Hy Hz. rewrite !Hless by done.
    intros [H1|[H1 H1']] [H2|[H2 H2']].
    + left. by eapply key_lt_trans.
    + left. by rewrite <-H2.
    + left. by rewrite H1.
    + right. split; [congruence|]. by eapply string_ltb_trans.
  - intros x y Hx Hy Hxy Hyx. apply not_true_iff_false in Hxy, Hyx.
    rewrite Hless in Hxy, Hyx by done.
    destruct (key_lt_total (f_key (sc_score x)) (f_key (sc_score y))) as [?|[Hk|?]];
      [tauto| |tauto].
    assert (sc_uuid x = sc_uuid y) as Hu.
    { destruct (string_ltb_total (sc_uuid x) (sc_uuid y)) as [?|[?|?]]; [|done|];
        exfalso; [apply Hxy|apply Hyx]; auto. }
    exact (NoDup_fmap_elem sc_uuid l x y Hnd Hx Hy Hu).
Qed.

Lemma candidates_perm now req remote order s cs s1 :
  candidatesLocked now req remote order s = (cs, s1) →
  s1 = expireLeasesLocked now s ∧ cs ≡ₚ unsorted_candidates now req remote order s1.
Proof.
  unfold candidatesLocked. intros ?; simplify_eq. split; [done|]. apply sort_slice_perm.
Qed.

Lemma candidate_in now req remote order s cs s1 c :
  candidatesLocked now req remote order s = (cs, s1) →
  order ≡ₚ elements (owners s (wq_Index req)) → c ∈ cs →
  (sc_uuid c = UUID s ∧ sc_addr c = "") ∨
  eligible now s1 (wq_UUID req) (wq_Index req) (sc_uuid c) (sc_addr c).
Proof.
  intros [-> Hp]%candidates_perm Ho. rewrite Hp, unsorted_in.
  intros [(id & Hid & Hc)| ->]; [right|left].
  - apply owner_candidate_Some in Hc as (-> & Hr & Hs & Hready).
    rewrite Ho, elem_of_elements in Hid. by split.
  - by rewrite central_uuid, central_addr.
Qed.

Lemma candidates_central now req remote order s cs s1 :
  candidatesLocked now req remote order s = (cs, s1) →
  ∃ c, c ∈ cs ∧ sc_uuid c = UUID s ∧ sc_addr c = "".
Proof.
  intros [-> Hp]%candidates_perm. eexists. rewrite Hp, unsorted_in.
  split; [by right|]. by rewrite central_uuid, central_addr.
Qed.

Lemma candidates_complete now req remote order s cs s1 id a :
  candidatesLocked now req remote order s = (cs, s1) →
  order ≡ₚ elements (owners s (wq_Index req)) →
  eligible now s1 (wq_UUID req) (wq_Index req) id a →
  ∃ c, c ∈ cs ∧ sc_uuid c = id ∧ sc_addr c = a.
Proof.
  intros [-> Hp]%candidates_perm Ho Hel.
  destruct (owner_candidate_None _ _ (request_zone (expireLeasesLocked now s) req remote)
              _ _ _ _ Hel) as (c & Hc & Hu & Ha).
  exists c. rewrite Hp, unsorted_in. split; [left|done]. exists id. split; [|done].
  rewrite Ho, elem_of_elements. apply (el_owner _ _ _ _ _ _ Hel).
Qed.

Definition source_of (c : scoredCandidate) : SourceCandidate :=
  mkSourceCandidate (sc_addr c) (sc_uuid c).

Lemma sources_count_spec want k :
  (0 < k)%nat →
  let n := sources_count want k in
  (1 ≤ n ≤ k)%nat ∧ (n ≤ 3)%nat ∧ Z.of_nat n ≤ Z.max 1 want ∧
  ((n < 3)%nat → Z.of_nat n < want → n = k).
Proof.
  intros Hk. unfold sources_count, SchedMaxSourcesPerWant. cbn zeta.
  destruct (Z.leb_spec want 0); lia.
Qed.

(** The answer in terms of the sorted candidates. *)
Lemma WantRequest_eq now now2 req remote order s cs s1 :
  candidatesLocked now req remote order s = (cs, s1) →
  ∃ first rest n,
    cs = first :: rest ∧ n = sources_count (wq_Want req) (length cs) ∧
    take n (source_of <$> cs) = source_of first :: take (n - 1) (source_of <$> rest) ∧
    WantRequest_locked now now2 req remote order s =
      Some (mkWantChunkResp (take n (source_of <$> cs)) (wq_Index req) (sc_addr first)
              (default 0 (chunkHash s1 !! wq_Index req)) (sc_uuid first),
            leaseLocked now2 (sc_uuid first) (wq_Index req) (wq_UUID req) s1).
Proof.
  intros Hc. destruct (candidates_central _ _ _ _ _ _ _ Hc) as (c & Hin & _).
  destruct cs as [|first rest]; [by apply elem_of_nil in Hin|].
  destruct (sources_count_spec (wq_Want req) (length (first :: rest)))
    as [[Hn _] _]; [cbn; lia|].
  exists first, rest, (sources_count (wq_Want req) (length (first :: rest))).
  split; [done|]. split; [done|]. split.
  - destruct (sources_count _ _) as [|n]; [lia|]. cbn. by rewrite Nat.sub_0_r.
  - unfold WantRequest_locked. rewrite Hc. do 2 f_equal. f_equal.
    change (List.map (λ c, mkSourceCandidate (sc_addr c) (sc_uuid c))) with (fmap (M:=list) source_of).
    apply fmap_take.
Qed.

(** What a peer granted to [requester] for chunk [i] at [now]. *)
Definition lent (now : Z) (s : Session) (id requester : string) (i : Z) : Prop :=
  ∃ p, Peers s !! id = Some p ∧
       lease_map p !! leaseKey requester i = Some (now + leaseTTL).

Lemma leaseLocked_lent now id i r s : lent now (leaseLocked now id i r s) id r i.
Proof.
  unfold lent, leaseLocked. cbn. rewrite lookup_insert_eq. eexists; split; [done|].
  cbn. by rewrite lookup_insert_eq.
Qed.

(** C7. A request for a chunk is always answered, never with the panic of
    [candidates[0]]: between one and three sources, no more than were wanted, none
    twice, each of them the centre (whose address is empty) or a registered peer,
    with its own address, that owns the chunk, is not the requester, is not cooling
    down and serves fewer than two others. The first source is the one lent to the
    requester until [leaseTTL] later. When fewer than three are sent although more
    were wanted, no eligible owner and no centre was left out. *)
Theorem WantRequest_sound (now now2 : Z) (req : WantChunkReq) (remote : option string)
    (order : list string) (s : Session) :
  order ≡ₚ elements (owners s (wq_Index req)) →
  let s1 := expireLeasesLocked now s in
  let allowed src :=
    (sc_UUID src = UUID s ∧ sc_Addr src = "") ∨
    eligible now s1 (wq_UUID req) (wq_Index req) (sc_UUID src) (sc_Addr src) in
  ∃ resp s2 src rest,
    WantRequest_locked now now2 req remote order s = Some (resp, s2) ∧
    wr_Sources resp = src :: rest ∧ wr_Index resp = wq_Index req ∧
    wr_UUID resp = sc_UUID src ∧ wr_Addr resp = sc_Addr src ∧
    (length (wr_Sources resp) ≤ 3)%nat ∧
    Z.of_nat (length (wr_Sources resp)) ≤ Z.max 1 (wq_Want req) ∧
    NoDup (sc_UUID <$> wr_Sources resp) ∧
    Forall allowed (wr_Sources resp) ∧
    lent now2 s2 (wr_UUID resp) (wq_UUID req) (wq_Index req) ∧
    ((length (wr_Sources resp) < 3)%nat →
     Z.of_nat (length (wr_Sources resp)) < wq_Want req →
     ∀ src', allowed src' → src' ∈ wr_Sources resp).
Proof.
  intros Ho s1 allowed. destruct (candidatesLocked now req remote order s) as [cs s1'] eqn:Hc.
  pose proof (candidates_perm _ _ _ _ _ _ _ Hc) as [-> Hp].
  destruct (WantRequest_eq _ now2 _ _ _ _ _ _ Hc) as (first & rest & n & Hcs & Hn & Ht & ->).
  destruct (sources_count_spec (wq_Want req) (length cs)) as (Hn1 & Hn2 & Hn3 & Hn4);
    [rewrite Hcs; cbn; lia|]. rewrite <-Hn in *.
  assert (∀ c, c ∈ cs → allowed (source_of c)) as Hall.
  { intros c Hin. by apply (candidate_in _ _ _ _ _ _ _ _ Hc Ho). }
  do 4 eexists. split; [done|]. cbn [wr_Sources wr_Index wr_UUID wr_Addr].
  assert (length (take n (source_of <$> cs)) = n) as Hlen.
  { rewrite length_take, length_fmap. lia. }
  rewrite Hlen. split; [exact Ht|]. split_and!; try done.
  - rewrite fmap_take. eapply sublist_NoDup; [|apply sublist_take].
    rewrite <-list_fmap_compose. change (sc_UUID ∘ source_of) with sc_uuid. rewrite Hp.
    apply unsorted_uuids. rewrite Ho. apply NoDup_elements.
  - apply Forall_take, Forall_fmap, Forall_forall. exact Hall.
  - apply leaseLocked_lent.
  - intros H1 H2 src' Hal. rewrite (Hn4 H1 H2), <-length_fmap with (f := source_of).
    rewrite firstn_all. destruct src' as [a u]. destruct Hal as [[Hu Ha]|Hel]; cbn in *.
    + destruct (candidates_central _ _ _ _ _ _ _ Hc) as (c & Hin & Hcu & Hca).
      apply list_elem_of_fmap. exists c. split; [|done]. unfold source_of. congruence.
    + destruct (candidates_complete _ _ _ _ _ _ _ _ _ Hc Ho Hel) as (c & Hin & Hcu & Hca).
      apply list_elem_of_fmap. exists c. split; [|done]. unfold source_of. congruence.
Qed.

(** C9. The answer does not depend on the order in which Go visits the owners of
    the chunk, as long as every score is a number: the sort is by score, then by
    UUID, and no UUID occurs twice. *)
Theorem candidates_deterministic (now : Z) (req : WantChunkReq) (remote : option string)
    (order order' : list string) (s : Session) :
  order ≡ₚ elements (owners s (wq_Index req)) →
  order' ≡ₚ elements (owners s (wq_Index req)) →
  (∀ c, c ∈ unsorted_candidates now req remote order (expireLeasesLocked now s) →
        is_nan (sc_score c) = false) →
  candidatesLocked now req remote order s = candidatesLocked now req remote order' s.
Proof.
  intros Ho Ho' Hnan. unfold candidatesLocked. f_equal.
  apply sort_slice_unique.
  - apply candidate_less_total; [|done]. apply unsorted_uuids. rewrite Ho. apply NoDup_elements.
  - apply unsorted_perm. by rewrite Ho, Ho'.
Qed.
End candidate_facts.

(** ** Concrete runs: queue_test.go and control_test.go *)

(** A power function within the documented behaviour, to evaluate with. *)
Definition coarse_half_pow : HalfPow.
Proof.
  refine {| Pow_half y := match y with S754_zero _ => f_of_Z 1 | _ => f_lit 5 10 end |}.
  - done.
  - intros y. destruct y as [[]|[]| |[] m e]; intros _; split; vm_compute; reflexivity.
Defined.

Definition test_peer (a z : string) (speed : Z) : Peer :=
  set_speedEwma (f_of_Z speed) (set_zone z (set_connAddr a (new_peer "" None))).

(** The session of [TestZoneLocalityAndCandidateLeases]. *)
Definition test_session : Session :=
  set_ChunkOwners {[0 := {["local"; "remote"]}]}
    (set_Peers {["me" := test_peer "" "" 1;
                 "local" := test_peer "127.0.0.1:1" "a" 100;
                 "remote" := test_peer "127.0.0.1:2" "b" 200]}
       (NewGspSession "127.0.0.1:0" "me")).

Example zone_locality :
  let cands z := sc_uuid <$>
    (candidatesLocked (H := coarse_half_pow) 0 (mkWantChunkReq z 0 "receiver" "" 0) None
       ["local"; "remote"] test_session).1 in
  cands "a" = ["local"; "remote"; "me"] ∧ cands "c" = ["me"; "remote"; "local"].
Proof. vm_compute. split; reflexivity. Qed.

Example zone_examples :
  zoneOf "192.168.7.9:1234" "" = "192.168.7.0/24" ∧ zoneOf "x" "rack" = "rack" ∧
  zoneOf "[2001:db8:1::5]:80" "" = "2001:0db8:0001::/48" ∧ zoneOf "localhost:80" "" = "".
Proof. vm_compute. split_and!; reflexivity. Qed.

Definition test_request : WantChunkReq := mkWantChunkReq "a" 3 "receiver" "wantChunk" 0.

Lemma test_order : ["remote"; "local"] ≡ₚ elements (owners test_session 0).
Proof. by vm_compute. Qed.

Lemma WantRequest_sound_witness :
  ∃ resp s2, WantRequest_locked (H := coarse_half_pow) 0 0 test_request None
               ["remote"; "local"] test_session = Some (resp, s2)
             ∧ lent 0 s2 (wr_UUID resp) "receiver" 0.
Proof.
  destruct (WantRequest_sound (H := coarse_half_pow) 0 0 test_request None
              ["remote"; "local"] test_session test_order)
    as (resp & s2 & src & rest & Heq & _ & _ & _ & _ & _ & _ & _ & _ & Hl & _).
  exists resp, s2. split; [exact Heq|exact Hl].
Defined.

Lemma candidates_deterministic_witness :
  candidatesLocked (H := coarse_half_pow) 0 test_request None ["remote"; "local"] test_session
  = candidatesLocked (H := coarse_half_pow) 0 test_request None ["local"; "remote"]
      test_session.
Proof.
  apply (candidates_deterministic (H := coarse_half_pow)).
  - exact test_order.
  - rewrite <-test_order. apply Permutation_swap.
  - intros c Hc. apply (proj1 (Forall_forall (λ c, is_nan (sc_score c) = false)
      (unsorted_candidates (H := coarse_half_pow) 0 test_request None ["remote"; "local"]
         (expireLeasesLocked 0 test_session)))); [|exact Hc].
    vm_compute. repeat constructor.
Defined.
