(* ===== verification/Control.v ===== *)
(** * The coordinator

    internal/gsp_sdk/server/control.go: the periodic scan that keeps a complete
    copy of the file in every zone, the overload commands, and what a node does
    with the commands it receives. *)

From S2P Require Import Prelude Text Chunk Float64 Net Json Model Session Scheduler.
Local Open Scope string_scope.
Local Open Scope Z_scope.

(** internal/gsp_sdk/server/control.go:20-20 [maxPrefetchPerZonePerTick] *)
Definition maxPrefetchPerZonePerTick : Z := 4.
(** internal/gsp_sdk/server/control.go:21-21 [backoffSlowMbps] *)
Definition backoffSlowMbps : float64 := f_of_Z 250.
(** internal/gsp_sdk/server/control.go:22-22 [backoffOverloadConn] *)
Definition backoffOverloadConn : Z := 4.
(** internal/gsp_sdk/server/control.go:23-23 [backoffSeconds] *)
Definition backoffSeconds : Z := 15.

(** internal/gsp_sdk/server/control.go:107-111 [zoneInfo] *)
Record zoneInfo : Type := mkZone { owned : gset Z; bestUUID : string; bestOwned : Z }.

Definition owned_by (s : Session) (uid : string) : gset Z := default ∅ (PeerOwners s !! uid).

(** One peer of the scan. internal/gsp_sdk/server/control.go:114-131 [Session.coordinateOnce] *)
Definition scan_peer (s : Session) (zones : gmap string zoneInfo) (uid : string)
    : gmap string zoneInfo :=
  match Peers s !! uid with
  | None => zones
  | Some p =>
      if bool_decide (uid = UUID s) || is_empty (zone p) then zones else
      let zi := default (mkZone ∅ "" 0) (zones !! zone p) in
      let ownedCnt := set_len (owned_by s uid) in
      let own := owned zi ∪ owned_by s uid in
      let better := is_empty (bestUUID zi) || (bestOwned zi <? ownedCnt) in
      <[zone p := mkZone own (if better then uid else bestUUID zi)
                    (if better then ownedCnt else bestOwned zi)]> zones
  end.

(** internal/gsp_sdk/server/control.go:113-131 [Session.coordinateOnce] *)
Definition scan_zones (s : Session) (order : list string) : gmap string zoneInfo :=
  foldl (scan_peer s) ∅ order.

(** What the loop below computes: the first chunks a zone lacks, at most four. *)
Definition missing_chunks (total : Z) (own : gset Z) : list Z :=
  take (Z.to_nat maxPrefetchPerZonePerTick) (filter (λ c, c ∉ own) (seqZ 0 total)).

(** The loop over [c] and [sent].
    internal/gsp_sdk/server/control.go:144-151 [Session.coordinateOnce] *)
Fixpoint missing_loop (fuel : nat) (total : Z) (own : gset Z) (c sent : Z) : list Z :=
  match fuel with
  | O => []
  | S fuel' =>
      if (c <? total) && (sent <? maxPrefetchPerZonePerTick) then
        if decide (c ∈ own) then missing_loop fuel' total own (c + 1) sent
        else c :: missing_loop fuel' total own (c + 1) (sent + 1)
      else []
  end.

Abbreviation outCmd := (string * ControlMsg)%type.

(** internal/gsp_sdk/server/control.go:140-152 [Session.coordinateOnce] *)
Definition prefetch_cmds (total : Z) (zi : zoneInfo) : list outCmd :=
  if is_empty (bestUUID zi) then []
  else List.map (λ c, (bestUUID zi, mkControlMsg "prefetch" c 0))
         (missing_loop (Z.to_nat total) total (owned zi) 0 0).

(** [t.Unix()]: the whole seconds since 1970, rounded down. *)
Definition time_to_Unix (t : Z) : Z := t / Second.

(** internal/gsp_sdk/server/control.go:154-163 [Session.coordinateOnce] *)
Definition backoff_cmd (until : Z) (s : Session) (uid : string) : option outCmd :=
  p ← Peers s !! uid;
  if decide (uid = UUID s) then None else
  if f_ltb f_zero (speedEwma p) && f_ltb (speedEwma p) backoffSlowMbps
     && (backoffOverloadConn <? connNum p)
  then Some (uid, mkControlMsg "backoff" 0 until) else None.

(** The commands of one scan. [order], [zorder] and [order2] are the traversals of
    the peers, of the zones and of the peers again.
    internal/gsp_sdk/server/control.go:95-164 [Session.coordinateOnce] *)
Definition coordinate_cmds (now : Z) (order zorder order2 : list string) (s : Session)
    : list outCmd :=
  if bool_decide (FileStat (chunkProvider s) = None) then [] else
  let total := GetChunkNum (chunkProvider s) in
  if total <=? 0 then [] else
  let zones := scan_zones s order in
  let until := time_to_Unix (now + backoffSeconds * Second) in
  (z ← zorder; match zones !! z with Some zi => prefetch_cmds total zi | None => [] end)
    ++ omap (backoff_cmd until s) order2.

(** The connection a command is written to, if the peer has one.
    internal/gsp_sdk/server/control.go:36-61 [Session.sendControl] *)
Definition sendControl (s : Session) (cmd : outCmd) : option (conn_id * bytes) :=
  p ← Peers s !! cmd.1;
  c ← conn p;
  Some (c, Marshal cmd.2).

(** internal/gsp_sdk/server/control.go:95-169 [Session.coordinateOnce] *)
Definition coordinateOnce (now : Z) (order zorder order2 : list string) (s : Session)
    : list (conn_id * bytes) :=
  omap (sendControl s) (coordinate_cmds now order zorder order2 s).

(** internal/gsp_sdk/server/control.go:201-201 [Session.SetPrefetchHandler] *)
Definition SetPrefetchHandler (b : bool) (s : Session) : Session := set_prefetch b s.

(** The session, and the chunk handed to the prefetch handler, if any.
    internal/gsp_sdk/server/control.go:202-215 [Session.ApplyControl] *)
Definition ApplyControl (msg : ControlMsg) (s : Session) : option Z * Session :=
  let s1 :=
    if decide (cm_Cmd msg = "backoff") then
      let until := time_Unix (cm_Until msg) in
      if backoffUntil s <? until then set_backoffUntil until s else s
    else s in
  (if bool_decide (cm_Cmd msg = "prefetch") && prefetch s then Some (cm_Index msg) else None,
   s1).

(** ** The loop over the missing chunks *)

Lemma missing_loop_eq fuel total own c sent :
  0 ≤ sent → (Z.to_nat (total - c) ≤ fuel)%nat →
  missing_loop fuel total own c sent
  = take (Z.to_nat (maxPrefetchPerZonePerTick - sent))
      (filter (λ x, x ∉ own) (seqZ c (total - c))).
Proof.
  unfold maxPrefetchPerZonePerTick. revert c sent.
  induction fuel as [|fuel IH]; intros c sent Hs Hf.
  { rewrite seqZ_nil by lia. by rewrite filter_nil, take_nil. }
  cbn [missing_loop]. destruct (Z.ltb_spec c total).
  - rewrite (seqZ_cons c) by lia. rewrite filter_cons.
    replace (Z.succ c) with (c + 1) by lia. replace (Z.pred (total - c)) with (total - (c + 1)) by lia.
    destruct (Z.ltb_spec sent maxPrefetchPerZonePerTick) as [Hlt|Hge];
      unfold maxPrefetchPerZonePerTick in *; cbn [andb].
    + destruct (decide (c ∈ own)).
      * rewrite decide_False by tauto. apply IH; lia.
      * rewrite decide_True by done. rewrite IH by lia.
        replace (Z.to_nat (4 - sent)) with (S (Z.to_nat (4 - (sent + 1)))) by lia. done.
    + by replace (Z.to_nat (4 - sent)) with O by lia.
  - cbn [andb]. rewrite seqZ_nil by lia. by rewrite filter_nil, take_nil.
Qed.

Lemma missing_loop_spec total own :
  0 ≤ total → missing_loop (Z.to_nat total) total own 0 0 = missing_chunks total own.
Proof. intros. rewrite missing_loop_eq by lia. unfold missing_chunks. by rewrite !Z.sub_0_r. Qed.

Lemma missing_chunks_sound total own i :
  i ∈ missing_chunks total own → 0 ≤ i < total ∧ i ∉ own.
Proof.
  unfold missing_chunks. intros Hin%elem_of_take.
  destruct Hin as (k & Hin%list_elem_of_lookup_2 & _). rewrite list_elem_of_filter, elem_of_seqZ in Hin. destruct Hin as [? ?]. split; [lia|done].
Qed.

Lemma missing_chunks_reach total own i :
  0 ≤ i < total → i ∉ own → ∃ j, j ∈ missing_chunks total own ∧ j ≤ i.
Proof.
  intros Hi Hn. unfold missing_chunks.
  replace total with ((i + 1) + (total - (i + 1))) by lia.
  rewrite seqZ_app by lia. rewrite filter_app.
  assert (i ∈ filter (λ c, c ∉ own) (seqZ 0 (i + 1))) as Hin.
  { apply list_elem_of_filter. split; [done|]. apply elem_of_seqZ. lia. }
  destruct (filter (λ c, c ∉ own) (seqZ 0 (i + 1))) as [|j l] eqn:E; [by apply elem_of_nil in Hin|].
  assert (j ∈ filter (λ c, c ∉ own) (seqZ 0 (i + 1))) as Hj by (rewrite E; left).
  exists j. split; [left|]. apply list_elem_of_filter in Hj as [_ Hj].
  apply elem_of_seqZ in Hj. lia.
Qed.

Lemma missing_chunks_length total own : (length (missing_chunks total own) ≤ 4)%nat.
Proof. unfold missing_chunks, maxPrefetchPerZonePerTick. rewrite length_take. lia. Qed.

(** ** The scan of the zones *)

Definition in_zone (s : Session) (z uid : string) : Prop :=
  uid ≠ UUID s ∧ z ≠ "" ∧ ∃ p, Peers s !! uid = Some p ∧ zone p = z.

(** What the scan knows of zone [z] after the peers [l]. *)
Definition zone_spec (s : Session) (l : list string) (z : string) (o : option zoneInfo)
    : Prop :=
  match o with
  | None => ∀ uid, uid ∈ l → ¬ in_zone s z uid
  | Some zi =>
      in_zone s z (bestUUID zi) ∧ bestOwned zi = set_len (owned_by s (bestUUID zi)) ∧
      (∀ uid, uid ∈ l → in_zone s z uid → set_len (owned_by s uid) ≤ bestOwned zi) ∧
      (∀ c, c ∈ owned zi ↔ ∃ uid, uid ∈ l ∧ in_zone s z uid ∧ c ∈ owned_by s uid)
  end.

Lemma zone_spec_skip s l uid z o :
  ¬ in_zone s z uid → zone_spec s l z o → zone_spec s (l ++ [uid]) z o.
Proof.
  intros Hz. destruct o as [zi|]; cbn.
  - intros (Hb & Ho & Hm & Hc). split_and!; try done.
    + intros u [?| ->%list_elem_of_singleton]%elem_of_app ?; [eauto|done].
    + intros c. rewrite Hc. split; intros (u & Hu & Hin & ?).
      * exists u. rewrite elem_of_app. auto.
      * apply elem_of_app in Hu as [?| ->%list_elem_of_singleton]; [eauto|done].
  - intros Hn u [?| ->%list_elem_of_singleton]%elem_of_app; [eauto|done].
Qed.

Lemma in_zone_unique s z z' uid : in_zone s z uid → in_zone s z' uid → z = z'.
Proof. intros (_ & _ & p & Hp & <-) (_ & _ & q & Hq & <-). congruence. Qed.

Lemma zone_spec_add s l uid z o :
  Peers s !! "" = None → in_zone s z uid → zone_spec s l z o →
  let zi := default (mkZone ∅ "" 0) o in
  let better := is_empty (bestUUID zi) || (bestOwned zi <? set_len (owned_by s uid)) in
  zone_spec s (l ++ [uid]) z (Some
    (mkZone (owned zi ∪ owned_by s uid) (if better then uid else bestUUID zi)
       (if better then set_len (owned_by s uid) else bestOwned zi))).
Proof.
  intros Hempty Hz Ho zi better.
  assert (∀ c, c ∈ owned zi ↔ ∃ u, u ∈ l ∧ in_zone s z u ∧ c ∈ owned_by s u) as Hown.
  { subst zi. destruct o as [zi|]; cbn in *; [apply Ho|]. intros c. split; [set_solver|].
    intros (u & Hu & Hzu & _). by destruct (Ho u). }
  assert (∀ c, c ∈ owned zi ∪ owned_by s uid ↔
    ∃ u, u ∈ (l ++ [uid])%list ∧ in_zone s z u ∧ c ∈ owned_by s u) as Hown'.
  { intros c. rewrite elem_of_union, Hown. split.
    - intros [(u & Hu & ?)|?]; [exists u|exists uid]; rewrite elem_of_app, list_elem_of_singleton; auto.
    - intros (u & [Hu| ->%list_elem_of_singleton]%elem_of_app & ? & ?); [left; eauto|auto]. }
  destruct better eqn:Hb; subst better; cbn; (split_and!; [| | |exact Hown']); try done.
  - intros u [Hu| ->%list_elem_of_singleton]%elem_of_app Hzu; [|lia].
    subst zi. destruct o as [zi|]; cbn in *; [|by destruct (Ho u)].
    destruct Ho as (Hbest & _ & Hm & _). specialize (Hm u Hu Hzu).
    apply orb_true_iff in Hb as [Hb%is_empty_true|Hb]; [|zbool; lia].
    destruct Hbest as (_ & _ & p & Hp & _). rewrite Hb in Hp. congruence.
  - subst zi. destruct o as [zi|]; cbn in *; [apply Ho|done].
  - subst zi. destruct o as [zi|]; cbn in *; [apply Ho|done].
  - intros u [Hu| ->%list_elem_of_singleton]%elem_of_app Hzu; [|zbool; lia].
    subst zi. destruct o as [zi|]; cbn in *; [|done]. by apply Ho.
Qed.

Lemma scan_zones_spec s l z :
  Peers s !! "" = None → zone_spec s l z (scan_zones s l !! z).
Proof.
  intros Hempty. revert z. unfold scan_zones. induction l as [|uid l IH] using rev_ind; intros z.
  { cbn. rewrite lookup_empty. intros uid Hin. by apply elem_of_nil in Hin. }
  rewrite foldl_app. cbn [foldl]. set (m := foldl (scan_peer s) ∅ l) in *. unfold scan_peer at 1.
  destruct (Peers s !! uid) as [p|] eqn:Hp.
  2: { apply zone_spec_skip; [|apply IH]. intros (_ & _ & p & Hp' & _). congruence. }
  destruct (_ || _) eqn:Hg.
  { apply zone_spec_skip; [|apply IH]. intros (Hu & Hz & q & Hq & Hqz).
    apply orb_true_iff in Hg as [Hg|Hg%is_empty_true]; [zbool; done|congruence]. }
  zbool. apply is_empty_false in H0. destruct (decide (zone p = z)) as [Hz|Hz].
  - rewrite Hz in *. rewrite lookup_insert_eq. apply zone_spec_add; [done| |apply IH].
    split_and!; [done|done|eauto].
  - rewrite lookup_insert_ne by done. apply zone_spec_skip; [|apply IH].
    intros (_ & _ & q & Hq & <-). congruence.
Qed.

(** ** The commands of a scan *)

Lemma bind_count {A B} `{EqDecision A} (P : B → Prop) `{∀ x, Decision (P x)} (f : A → list B) (x0 : A) n l :
  NoDup l → (length (filter P (f x0)) ≤ n)%nat → (∀ x, x ≠ x0 → filter P (f x) = []) →
  (length (filter P (l ≫= f)) ≤ n)%nat.
Proof.
  intros Hnd Hn Hne. induction Hnd as [|x l Hx _ IH]; [cbn; lia|].
  change ((x :: l) ≫= f) with (f x ++ (l ≫= f))%list. rewrite filter_app, length_app.
  assert (x0 ∉ l → filter P (l ≫= f) = []) as Hl.
  { clear IH Hx. induction l as [|y l IH]; [done|]. intros [Hy Hl]%not_elem_of_cons.
    change ((y :: l) ≫= f) with (f y ++ (l ≫= f))%list. by rewrite filter_app, Hne, IH. }
  destruct (decide (x = x0)) as [->|Hxe].
  - rewrite (Hl Hx). cbn. lia.
  - rewrite Hne by done. cbn. lia.
Qed.

Section scan.
Context (s : Session) (order zorder order2 : list string) (now : Z).

Definition scan_ready : Prop :=
  is_Some (FileStat (chunkProvider s)) ∧ Peers s !! "" = None ∧
  order ≡ₚ (map_to_list (Peers s)).*1 ∧
  zorder ≡ₚ (map_to_list (scan_zones s order)).*1.

Definition zone_cmds (z : string) : list outCmd :=
  match scan_zones s order !! z with
  | Some zi => prefetch_cmds (GetChunkNum (chunkProvider s)) zi
  | None => []
  end.

Lemma coordinate_cmds_eq :
  scan_ready → 0 < GetChunkNum (chunkProvider s) →
  coordinate_cmds now order zorder order2 s
  = ((zorder ≫= zone_cmds) ++
     omap (backoff_cmd (time_to_Unix (now + backoffSeconds * Second)) s) order2)%list.
Proof.
  intros ([st Hst] & _) Hn. unfold coordinate_cmds. rewrite bool_decide_false by congruence.
  by destruct (Z.leb_spec (GetChunkNum (chunkProvider s)) 0); [lia|].
Qed.

Lemma zone_cmds_in z c :
  Peers s !! "" = None → 0 ≤ GetChunkNum (chunkProvider s) →
  c ∈ zone_cmds z ↔ ∃ zi i, scan_zones s order !! z = Some zi ∧ c = (bestUUID zi, mkControlMsg "prefetch" i 0)
                   ∧ i ∈ missing_chunks (GetChunkNum (chunkProvider s)) (owned zi).
Proof.
  intros He Hn. unfold zone_cmds. pose proof (scan_zones_spec s order z He) as Hs.
  destruct (scan_zones s order !! z) as [zi|]; cbn in Hs.
  2: { split; [by intros ?%elem_of_nil|naive_solver]. }
  destruct Hs as ((_ & _ & p & Hp & _) & _). unfold prefetch_cmds.
  assert (is_empty (bestUUID zi) = false) as -> by (apply is_empty_false; congruence).
  rewrite missing_loop_spec by done. rewrite list_elem_of_In, List.in_map_iff.
  split.
  - intros (i & <- & Hi%list_elem_of_In). eauto.
  - intros (? & i & ? & -> & Hi). simplify_eq. exists i. by rewrite <-list_elem_of_In.
Qed.

Lemma order_member uid : scan_ready → is_Some (Peers s !! uid) → uid ∈ order.
Proof.
  intros (_ & _ & Ho & _) [p Hp]. rewrite Ho. apply list_elem_of_fmap.
  exists (uid, p). by rewrite elem_of_map_to_list.
Qed.

Lemma zorder_member z zi : scan_ready → scan_zones s order !! z = Some zi → z ∈ zorder.
Proof.
  intros (_ & _ & _ & Hz) Hzi. rewrite Hz. apply list_elem_of_fmap.
  exists (z, zi). by rewrite elem_of_map_to_list.
Qed.

Lemma prefetch_not_backoff until uid c : backoff_cmd until s uid = Some c → cm_Cmd c.2 = "backoff".
Proof.
  unfold backoff_cmd. destruct (Peers s !! uid); cbn; [|done].
  destruct (decide _); [done|]. destruct (_ && _); [|done]. by intros ?; simplify_eq.
Qed.

(** A scan keeps one copy of the file per zone: what it commands, that it commands
    something wherever a chunk is missing, and that it does not flood. *)
Record scan_correct : Prop := {
  sc_sound uid i until :
    (uid, mkControlMsg "prefetch" i until) ∈ coordinate_cmds now order zorder order2 s →
    0 ≤ i < GetChunkNum (chunkProvider s) ∧
    ∃ z, in_zone s z uid ∧ ∀ other, in_zone s z other →
      i ∉ owned_by s other ∧ set_len (owned_by s other) ≤ set_len (owned_by s uid);
  sc_complete z uid i :
    in_zone s z uid → 0 ≤ i < GetChunkNum (chunkProvider s) →
    (∀ other, in_zone s z other → i ∉ owned_by s other) →
    ∃ best j, in_zone s z best ∧ j ≤ i ∧
      (best, mkControlMsg "prefetch" j 0) ∈ coordinate_cmds now order zorder order2 s;
  sc_throttled uid :
    (length (filter (λ c : outCmd, c.1 = uid ∧ cm_Cmd c.2 = "prefetch")
               (coordinate_cmds now order zorder order2 s)) ≤ 4)%nat;
}.

Lemma scan_sound uid i until :
  scan_ready → 0 < GetChunkNum (chunkProvider s) →
  (uid, mkControlMsg "prefetch" i until) ∈ coordinate_cmds now order zorder order2 s →
  0 ≤ i < GetChunkNum (chunkProvider s) ∧
  ∃ z, in_zone s z uid ∧ ∀ other, in_zone s z other →
    i ∉ owned_by s other ∧ set_len (owned_by s other) ≤ set_len (owned_by s uid).
Proof.
  intros Hr Hn. pose proof Hr as (_ & He & _). rewrite coordinate_cmds_eq by done.
  intros [Hin|(u & _ & Hb%prefetch_not_backoff)%list_elem_of_omap]%elem_of_app; [|done].
  apply list_elem_of_bind in Hin as (z & Hc & _).
  apply zone_cmds_in in Hc as (zi & j & Hzi & ? & Hj); [|done|lia]. simplify_eq.
  pose proof (scan_zones_spec s order z He) as Hs. rewrite Hzi in Hs.
  destruct Hs as (Hb & Ho & Hm & Hown). apply missing_chunks_sound in Hj as [Hj Hno].
  split; [done|]. exists z. split; [done|]. intros other Hz.
  assert (other ∈ order) as Hin by (destruct Hz as (_ & _ & p & Hp & _); apply order_member; eauto).
  split; [|rewrite <-Ho; by apply Hm]. intros Hi. apply Hno, Hown. eauto.
Qed.

Lemma scan_complete z uid i :
  scan_ready → in_zone s z uid → 0 ≤ i < GetChunkNum (chunkProvider s) →
  (∀ other, in_zone s z other → i ∉ owned_by s other) →
  ∃ best j, in_zone s z best ∧ j ≤ i ∧
    (best, mkControlMsg "prefetch" j 0) ∈ coordinate_cmds now order zorder order2 s.
Proof.
  intros Hr Hz Hi Hno. pose proof Hr as (_ & He & _). rewrite coordinate_cmds_eq by (done || lia).
  pose proof (scan_zones_spec s order z He) as Hs.
  assert (uid ∈ order) as Hin by (destruct Hz as (_ & _ & p & Hp & _); apply order_member; eauto).
  destruct (scan_zones s order !! z) as [zi|] eqn:Hzi; cbn in Hs; [|by destruct (Hs uid)].
  destruct Hs as (Hb & Ho & Hm & Hown).
  destruct (missing_chunks_reach (GetChunkNum (chunkProvider s)) (owned zi) i) as (j & Hj & Hle);
    [done|intros (u & _ & Hu & ?)%Hown; by eapply Hno|].
  exists (bestUUID zi), j. split; [done|]. split; [done|]. apply elem_of_app. left.
  apply list_elem_of_bind. exists z. split; [|by eapply zorder_member].
  apply zone_cmds_in; [done|lia|]. eauto 10.
Qed.

Lemma scan_throttled uid :
  scan_ready → 0 < GetChunkNum (chunkProvider s) →
  (length (filter (λ c : outCmd, c.1 = uid ∧ cm_Cmd c.2 = "prefetch")
             (coordinate_cmds now order zorder order2 s)) ≤ 4)%nat.
Proof.
  intros Hr Hn. pose proof Hr as (_ & He & _ & Hzo). rewrite coordinate_cmds_eq by done.
  rewrite filter_app, length_app.
  assert (filter (λ c : outCmd, c.1 = uid ∧ cm_Cmd c.2 = "prefetch")
    (omap (backoff_cmd (time_to_Unix (now + backoffSeconds * Second)) s) order2) = []) as ->.
  { induction order2 as [|u l IH]; [done|]. cbn.
    destruct (backoff_cmd _ s u) as [c|] eqn:Hb; [|done]. rewrite filter_cons_False; [done|].
    apply prefetch_not_backoff in Hb. rewrite Hb. by intros [_ ?]. }
  rewrite Nat.add_0_r.
  apply (bind_count _ _ (match Peers s !! uid with Some p => zone p | None => "" end)).
  - rewrite Hzo. apply NoDup_fst_map_to_list.
  - unfold zone_cmds. destruct (scan_zones _ _ !! _) as [zi|]; [|cbn; lia].
    etransitivity; [apply length_filter|]. unfold prefetch_cmds. destruct (is_empty _); [cbn; lia|].
    rewrite List.length_map, missing_loop_spec by lia. apply missing_chunks_length.
  - intros z Hz. apply elem_of_nil_inv. intros c [[Hc1 _] Hc]%list_elem_of_filter.
    apply zone_cmds_in in Hc as (zi & j & Hzi & -> & _); [|done|lia]. cbn in Hc1.
    pose proof (scan_zones_spec s order z He) as Hs. rewrite Hzi in Hs.
    destruct Hs as ((_ & _ & p & Hp & Hzp) & _). rewrite Hc1 in Hp. rewrite Hp in Hz. done.
Qed.
End scan.

(** C10. Each scan of the coordinator works toward one complete copy of the file in
    every zone, in whatever order Go visits the peers and the zones. A prefetch
    command names a chunk of the file that nobody in its zone owns and goes to a
    peer of that zone that owns the most, never to the centre; a zone that lacks a
    chunk is told to fetch that chunk or an earlier one; no peer is told to fetch
    more than [maxPrefetchPerZonePerTick] chunks per scan. *)
Theorem coordinator_completes_zones (s : Session) (order zorder order2 : list string) (now : Z) :
  scan_ready s order zorder → 0 < GetChunkNum (chunkProvider s) →
  scan_correct s order zorder order2 now.
Proof.
  intros Hr Hn. split; intros; [by eapply scan_sound|by eapply scan_complete|by apply scan_throttled].
Qed.

(** Two peers in zone a, of which one owns chunk 0 of three, and one in zone b. *)
Definition scan_peer_in (z : string) : Peer := set_zone z (new_peer "10.0.0.1:9" None).

Definition scan_session : Session :=
  set_PeerOwners {["p" := {[0]}]}
    (set_Peers {["me" := new_peer "" None; "p" := scan_peer_in "a"; "q" := scan_peer_in "a";
                 "r" := scan_peer_in "b"]}
       (set_chunkProvider
          (mkChunk (Some 1%positive) (Some (mkInfo "a.bin" (3 * ChunkSize) 0 0 true)) ChunkSize)
          (NewGspSession "" "me"))).

Definition scan_order : list string := (map_to_list (Peers scan_session)).*1.
Definition scan_zorder : list string := (map_to_list (scan_zones scan_session scan_order)).*1.

Lemma coordinator_completes_zones_witness :
  scan_correct scan_session scan_order scan_zorder scan_order 0 ∧
  ("p", mkControlMsg "prefetch" 1 0)
    ∈ coordinate_cmds 0 scan_order scan_zorder scan_order scan_session.
Proof.
  split.
  - apply (coordinator_completes_zones scan_session scan_order scan_zorder scan_order 0).
    + split; [eexists; reflexivity|]. split; [by vm_compute|]. split; reflexivity.
    + by vm_compute.
  - apply (bool_decide_unpack _). vm_compute. exact I.
Defined.
