(* ===== verification/SessionInv.v ===== *)
(** * What holds of a session at every moment

    The critical sections of the session, the scheduler and the coordinator are
    the steps of a relation: whatever order the connections, the coordinator and
    the user interface run them in, each one is atomic under [s.mu]. The
    invariants are proved by induction on the steps. *)

From S2P Require Import Prelude Text Chunk Float64 Net Json Model Session Scheduler Control.
Local Open Scope string_scope.
Local Open Scope Z_scope.

Section reachable.
Context `{HalfPow}.

(** One critical section. The scheduler's sections pick the traversal of the
    owners; [AddPeer] is called by [handle.PeerReg] with a non-empty UUID. *)
Inductive step (s : Session) : Session → Prop :=
| st_start l : step s (Start l s).2
| st_accept c : step s (accept c s).2
| st_close c : step s (CloseConn c s)
| st_stop : step s (Stop s).2
| st_stop_files fs : step s (Stop_files fs s).2
| st_retain f : step s (RetainFile f s)
| st_set_control : step s (SetControlHandler s)
| st_send_main ck : step s (BeSendMain_locked ck s)
| st_coordinator : step s (StartCoordinator s).2
| st_send_sub fs f : step s (BeSendSub fs f s).2
| st_clear_chunks : step s (ClearChunks s)
| st_mark_sender : step s (MarkSender s)
| st_clear_content : step s (ClearContent s)
| st_add_peer id a c : id ≠ "" → step s (AddPeer id a c s)
| st_remove_peer id : step s (RemovePeer id s)
| st_add_owner i id : step s (AddBlockOwner i id s)
| st_set_zone id z : step s (SetPeerZone id z s)
| st_set_conn id c : step s (SetControlConn id c s)
| st_update now1 now2 prov speed status i r :
    step s (UpdatePeer now1 now2 prov speed status i r s)
| st_index_valid fs ck i : step s (IndexValid_read fs ck i s).2
| st_add_chunk i sum : step s (AddChunk i sum s)
| st_try_acquire now : step s (try_acquire now s).2
| st_release_slot : step s (ReleaseUploadSlot s)
| st_set_max n : step s (SetUploadMax n s)
| st_want now now2 req remote order resp s' :
    order ≡ₚ elements (owners s (wq_Index req)) →
    WantRequest_locked now now2 req remote order s = Some (resp, s') → step s s'
| st_pick now now2 i remote r porder order u a s' :
    order ≡ₚ elements (owners s i) →
    pickFor now now2 i remote r porder order s = Some (u, a, s') → step s s'
| st_release id i r : step s (release id i r s)
| st_prefetch b : step s (SetPrefetchHandler b s)
| st_apply msg : step s (ApplyControl msg s).2.

(** The states a session created by [NewGspSession] can be in. *)
Definition reachable (s : Session) : Prop :=
  ∃ a id, id ≠ "" ∧ rtc step (NewGspSession a id) s.

(** ** Peers: leases and load *)

(** Depends on the UUID and the peers only. *)
Record peers_ok (id0 : string) (m : gmap string Peer) : Prop := {
  po_count id p : m !! id = Some p → lease_count p;
  po_load id p : m !! id = Some p → id ≠ id0 → connNum p ≤ maxInflight;
  po_named : id0 ≠ "" ∧ m !! "" = None;
}.

Lemma lease_count_nonneg p : lease_count p → 0 ≤ connNum p.
Proof. unfold lease_count, map_len. lia. Qed.

Lemma peers_ok_insert id0 m id p :
  peers_ok id0 m → lease_count p → (id ≠ id0 → connNum p ≤ maxInflight) → id ≠ "" →
  peers_ok id0 (<[id := p]> m).
Proof.
  intros [Hc Hl [Hn0 Hn]] Hp Hload Hid. split.
  - by apply peers_insert_all.
  - intros i q [[<- <-]|[? ?]]%lookup_insert_Some; eauto.
  - by rewrite lookup_insert_ne.
Qed.

Lemma peers_ok_map id0 m m' :
  peers_ok id0 m →
  (∀ id p', m' !! id = Some p' → ∃ p, m !! id = Some p ∧
     (lease_count p → lease_count p' ∧ connNum p' ≤ connNum p)) →
  peers_ok id0 m'.
Proof.
  intros [Hc Hl [Hn0 Hn]] Hm. split.
  - intros id p' (p & Hp & Hq)%Hm. apply Hq. eauto.
  - intros id p' (p & Hp & Hq)%Hm Hid. destruct Hq; [eauto|]. pose proof (Hl _ _ Hp Hid). lia.
  - split; [done|]. destruct (m' !! "") as [p'|] eqn:E; [|done].
    apply Hm in E as (p & Hp & _). congruence.
Qed.

(** The peer one operation replaces keeps its count and does not gain load. *)
Definition no_more_load (p p' : Peer) : Prop :=
  lease_count p → lease_count p' ∧ connNum p' ≤ connNum p.

Lemma no_more_load_refl p : no_more_load p p.
Proof. intros ?. split; [done|lia]. Qed.

Lemma same_lease_fields p p' :
  connNum p' = connNum p → lease_map p' = lease_map p → no_more_load p p'.
Proof. unfold no_more_load, lease_count. intros -> ->. intros ->. lia. Qed.

Lemma dec_conn_le n : dec_conn n ≤ n.
Proof. unfold dec_conn. destruct (0 <? n); lia. Qed.

Lemma drop_lease_load key p : no_more_load p (drop_lease key p).
Proof.
  intros Hc. split; [by apply drop_lease_count|]. unfold drop_lease.
  destruct (leases p) as [m|]; [|lia]. destruct (m !! key); [|lia]. cbn. apply dec_conn_le.
Qed.

Lemma expire_peer_load now p : no_more_load p (expire_peer now p).
Proof.
  intros Hc. split; [by apply expire_peer_count|]. unfold expire_peer.
  destruct (leases p) as [m|]; [|lia]. cbn.
  induction (size _) as [|k IH]; [cbn; lia|]. rewrite Nat.iter_succ.
  pose proof (dec_conn_le (Nat.iter k dec_conn (connNum p))). lia.
Qed.

Lemma peers_ok_replace id0 m id p p' :
  peers_ok id0 m → m !! id = Some p → no_more_load p p' → peers_ok id0 (<[id := p']> m).
Proof.
  intros Hok Hp Hl. apply (peers_ok_map id0 m); [done|].
  intros i q [[<- <-]|[? ?]]%lookup_insert_Some; [eauto|]. exists q. split; [done|]. apply no_more_load_refl.
Qed.

Lemma peers_ok_alter id0 m id f :
  peers_ok id0 m → (∀ p, no_more_load p (f p)) → peers_ok id0 (alter f id m).
Proof.
  intros Hok Hf. apply (peers_ok_map id0 m); [done|].
  intros i q Hq. rewrite lookup_alter_Some in Hq. destruct Hq as [(-> & p & ? & ->)|[? ?]].
  - exists p. split; [done|]. apply Hf.
  - exists q. split; [done|]. apply no_more_load_refl.
Qed.

Lemma peers_ok_delete id0 m id : peers_ok id0 m → peers_ok id0 (delete id m).
Proof.
  intros Hok. apply (peers_ok_map id0 m); [done|].
  intros i q [? ?]%lookup_delete_Some. exists q. split; [done|]. apply no_more_load_refl.
Qed.

Lemma peers_ok_expire id0 m now : peers_ok id0 m → peers_ok id0 (expire_peer now <$> m).
Proof.
  intros Hok. apply (peers_ok_map id0 m); [done|].
  intros i q (p & <- & Hp)%lookup_fmap_Some. exists p. split; [done|]. apply expire_peer_load.
Qed.

Lemma peers_ok_UpdatePeer now1 now2 prov speed status i r s :
  peers_ok (UUID s) (Peers s) →
  peers_ok (UUID s) (Peers (UpdatePeer now1 now2 prov speed status i r s)).
Proof.
  intros Hok. unfold UpdatePeer. destruct (Peers s !! prov) as [p|] eqn:Hp; [|done].
  pose proof (drop_lease_load (leaseKey r i) p) as Hl.
  destruct (decide (status = "failed")); cbn.
  - destruct (decide (prov = UUID s)); cbn; eapply peers_ok_replace; eauto.
  - eapply peers_ok_replace; eauto.
Qed.

(** A lease goes to the centre, or to a peer that still has room for one. *)
Lemma peers_ok_lease now id i r s :
  peers_ok (UUID s) (Peers s) →
  (id = UUID s ∨ ∃ p, Peers s !! id = Some p ∧ connNum p < maxInflight) →
  peers_ok (UUID s) (Peers (leaseLocked now id i r s)).
Proof.
  intros Hok Hid. pose proof Hok as [Hc Hl [Hn0 Hn]].
  pose proof (leaseLocked_count now id i r s Hc) as Hc'.
  unfold leaseLocked in Hc' |- *. cbn in Hc' |- *. apply peers_ok_insert; [done| | |].
  - eapply Hc'. apply lookup_insert_eq.
  - intros Hne. destruct Hid as [->|(p & Hp & Hroom)]; [done|]. rewrite Hp.
    clear Hc' Hc. repeat case_match; cbn; lia.
  - destruct Hid as [->|(p & Hp & _)]; [done|]. intros ->. congruence.
Qed.

Lemma first_has_room now req remote order s first rest s1 :
  candidatesLocked now req remote order s = (first :: rest, s1) →
  order ≡ₚ elements (owners s (wq_Index req)) →
  sc_uuid first = UUID s1 ∨
  ∃ p, Peers s1 !! sc_uuid first = Some p ∧ connNum p < maxInflight.
Proof.
  intros Hc Ho. pose proof (candidates_perm _ _ _ _ _ _ _ Hc) as [Hs1 _].
  destruct (candidate_in _ _ _ _ _ _ _ first Hc Ho) as [[-> _]|Hel]; [left|left|right].
  - by rewrite Hs1.
  - destruct (el_ready _ _ _ _ _ _ Hel) as (p & ? & _ & _ & ?). eauto.
Qed.

Lemma peers_ok_want now now2 req remote order s resp s' :
  peers_ok (UUID s) (Peers s) → order ≡ₚ elements (owners s (wq_Index req)) →
  WantRequest_locked now now2 req remote order s = Some (resp, s') →
  peers_ok (UUID s) (Peers s').
Proof.
  intros Hok Ho Hw. destruct (candidatesLocked now req remote order s) as [cs s1] eqn:Hc.
  destruct (WantRequest_eq _ now2 _ _ _ _ _ _ Hc) as (first & rest & n & -> & _ & _ & Heq).
  rewrite Heq in Hw. simplify_eq. pose proof (first_has_room _ _ _ _ _ _ _ _ Hc Ho) as Hroom.
  apply candidates_perm in Hc as [-> _].
  apply (peers_ok_lease _ _ _ _ (expireLeasesLocked now s)); [|done].
  by apply peers_ok_expire.
Qed.

Lemma peers_ok_pick now now2 i remote r porder order s u a s' :
  peers_ok (UUID s) (Peers s) → order ≡ₚ elements (owners s i) →
  pickFor now now2 i remote r porder order s = Some (u, a, s') →
  peers_ok (UUID s) (Peers s').
Proof.
  intros Hok Ho. unfold pickFor.
  set (r' := if is_empty r then _ else _). clearbody r'.
  destruct (candidatesLocked _ _ _ _ _) as [cs s1] eqn:Hc.
  destruct cs as [|first rest]; [done|]. intros ?; simplify_eq.
  pose proof (first_has_room _ _ _ _ _ _ _ _ Hc Ho) as Hroom.
  apply candidates_perm in Hc as [-> _].
  apply (peers_ok_lease _ _ _ _ (expireLeasesLocked now s)); [|done].
  by apply peers_ok_expire.
Qed.

(** ** Who owns which chunk *)

Definition co_of (co : gmap Z (gset string)) (i : Z) : gset string := default ∅ (co !! i).
Definition po_of (po : gmap string (gset Z)) (id : string) : gset Z := default ∅ (po !! id).

(** The two ownership maps say the same of every peer but the centre, and name
    registered peers only. *)
Record owners_ok (s : Session) : Prop := {
  oo_dual i id : id ≠ UUID s → id ∈ owners s i ↔ i ∈ owned_by s id;
  oo_registered i id : id ≠ UUID s → id ∈ owners s i → is_Some (Peers s !! id);
}.

Lemma elem_add_to {K A} `{Countable K, Countable A} (k k' : K) (x y : A) m :
  y ∈ (default ∅ (add_to k x m !! k') : gset A) ↔ y ∈ (default ∅ (m !! k') : gset A) ∨ (k' = k ∧ y = x).
Proof.
  unfold add_to. destruct (decide (k = k')) as [->|Hne].
  - rewrite lookup_insert_eq. cbn. set_solver.
  - rewrite lookup_insert_ne by done. naive_solver.
Qed.

Lemma elem_disown id id' co i j :
  id' ∈ co_of (disown id co i) j ↔ id' ∈ co_of co j ∧ ¬ (id' = id ∧ j = i).
Proof.
  unfold co_of, disown. destruct (decide (i = j)) as [->|Hne].
  - rewrite lookup_alter_eq. destruct (co !! j); cbn; set_solver.
  - rewrite lookup_alter_ne by done. naive_solver.
Qed.

Lemma elem_disown_all id id' co l j :
  id' ∈ co_of (foldl (disown id) co l) j ↔ id' ∈ co_of co j ∧ ¬ (id' = id ∧ j ∈ l).
Proof.
  revert co. induction l as [|i l IH]; intros co; cbn; [set_solver|].
  rewrite IH, elem_disown. set_solver.
Qed.

Lemma elem_own_all id id' n co j :
  id' ≠ id → id' ∈ co_of (own_all id n co) j ↔ id' ∈ co_of co j.
Proof.
  intros Hne. unfold own_all. revert co.
  induction (seqZ 0 n) as [|i l IH]; intros co; cbn; [done|]. rewrite IH.
  unfold co_of. destruct (decide (i = j)) as [->|]; [|by rewrite lookup_insert_ne].
  rewrite lookup_insert_eq. cbn. set_solver.
Qed.

Lemma owners_ok_frame s s' :
  owners_ok s → UUID s' = UUID s → ChunkOwners s' = ChunkOwners s →
  PeerOwners s' = PeerOwners s →
  (∀ id, is_Some (Peers s !! id) → is_Some (Peers s' !! id)) → owners_ok s'.
Proof.
  intros [Hd Hr] Hu Hc Hp Hdom.
  split; unfold owners, owned_by in *; rewrite ?Hu, ?Hc, ?Hp; eauto.
Qed.

Lemma owners_ok_RemovePeer id s : owners_ok s → owners_ok (RemovePeer id s).
Proof.
  intros [Hd Hr].
  assert (∀ i id', id' ≠ UUID s →
    id' ∈ owners (RemovePeer id s) i ↔ id' ∈ owners s i ∧ id' ≠ id) as Hown.
  { intros i id' Hne. unfold RemovePeer, owners. cbn.
    specialize (Hd i id' Hne). unfold owners, owned_by in Hd.
    destruct (PeerOwners s !! id) as [cks|] eqn:Hcks.
    - etransitivity; [apply elem_disown_all|]. unfold co_of. rewrite elem_of_elements.
      split; [|naive_solver]. intros [Hin Hn]. split; [done|]. intros ->. apply Hn.
      split; [done|]. rewrite Hcks in Hd. by apply Hd.
    - split; [|by intros [? _]]. intros Hin. split; [done|]. intros ->.
      rewrite Hd, Hcks in Hin. by apply elem_of_empty in Hin. }
  split.
  - intros i id' Hne. change (UUID (RemovePeer id s)) with (UUID s) in Hne.
    rewrite Hown by done. unfold owned_by, RemovePeer. cbn.
    destruct (decide (id' = id)) as [->|Hid].
    + rewrite lookup_delete_eq. cbn. set_solver.
    + rewrite lookup_delete_ne by done. rewrite Hd by done. unfold owned_by. naive_solver.
  - intros i id' Hne. change (UUID (RemovePeer id s)) with (UUID s) in Hne.
    rewrite Hown by done. intros [Hin Hid]. cbn. rewrite lookup_delete_ne by done. eauto.
Qed.

Lemma owners_ok_AddBlockOwner i id s : owners_ok s → owners_ok (AddBlockOwner i id s).
Proof.
  intros [Hd Hr]. unfold AddBlockOwner. destruct (_ || _) eqn:Hg; [done|]. zbool.
  split; unfold owners, owned_by in *; cbn; intros j id' Hne.
  - rewrite !elem_add_to, Hd by done. naive_solver.
  - rewrite elem_add_to. intros [Hin|[-> ->]]; [by eapply Hr|]. by apply not_eq_None_Some.
Qed.

Lemma owners_ok_BeSendMain ck s : owners_ok s → owners_ok (BeSendMain_locked ck s).
Proof.
  intros [Hd Hr]. split; unfold owners, owned_by in *; cbn; intros j id' Hne.
  - rewrite <-Hd by done. by apply elem_own_all.
  - intros Hin%elem_own_all; [|done]. rewrite lookup_insert_ne by done. by eapply Hr.
Qed.

Lemma owners_ok_UpdatePeer now1 now2 prov speed status i r s :
  owners_ok s → owners_ok (UpdatePeer now1 now2 prov speed status i r s).
Proof.
  intros Hok. unfold UpdatePeer. destruct (Peers s !! prov) as [p|] eqn:Hp; [|done].
  assert (∀ q id, is_Some (Peers s !! id) → is_Some (<[prov := q]> (Peers s) !! id)) as Hdom.
  { intros q id ?. rewrite lookup_insert_is_Some'. auto. }
  destruct (decide (status = "failed")); [|apply (owners_ok_frame s); try done; intros ??; by apply Hdom].
  destruct (decide (prov = UUID s)) as [->|Hne]; [apply (owners_ok_frame s); try done; intros ??; by apply Hdom|].
  destruct Hok as [Hd Hr]. split; unfold owners, owned_by in *; cbn; intros j id' Hid.
  - etransitivity; [apply elem_disown|]. unfold co_of. rewrite Hd by done.
    destruct (decide (id' = prov)) as [->|].
    + rewrite lookup_alter_eq. destruct (PeerOwners s !! prov); cbn; set_solver.
    + rewrite lookup_alter_ne by done. naive_solver.
  - intros [Hin _]%elem_disown. apply Hdom. by eapply Hr.
Qed.

(** ** Limits *)

Record limits_ok (s : Session) : Prop := {
  lo_slots : 0 ≤ uploadSem s ≤ upload_cap;
  lo_limit : 0 ≤ uploadLimit s ≤ upload_cap;
  lo_conns : Z.of_nat (size (connections s)) ≤ 512;
}.

Lemma limits_accept c s : limits_ok s → limits_ok (accept c s).2.
Proof.
  intros [Hs Hl Hc]. unfold accept. destruct (done s); [done|].
  destruct (512 <=? _) eqn:E; [done|]. zbool. split; cbn; [done|done|].
  assert (size (connections s ∖ {[c]}) ≤ size (connections s))%nat
    by (apply subseteq_size; set_solver).
  rewrite size_union_alt, size_singleton. lia.
Qed.

Lemma limits_try_acquire now s : limits_ok s → limits_ok (try_acquire now s).2.
Proof.
  intros [Hs Hl Hc]. unfold try_acquire. repeat case_match; cbn; try done. zbool.
  split; cbn; try done. lia.
Qed.

Lemma limits_release s : limits_ok s → limits_ok (ReleaseUploadSlot s).
Proof.
  intros [Hs Hl Hc]. unfold ReleaseUploadSlot. case_match; [|done]. zbool. split; cbn; lia.
Qed.

Lemma limits_set_max n s : limits_ok s → limits_ok (SetUploadMax n s).
Proof.
  intros [Hs Hl Hc]. split; [exact Hs| |exact Hc].
  change (0 ≤ Z.max 1 (Z.min n 8) ≤ 8). lia.
Qed.

Lemma limits_close c s : limits_ok s → limits_ok (CloseConn c s).
Proof.
  intros [Hs Hl Hc]. split; cbn; [done|done|].
  assert (size (connections s ∖ {[c]}) ≤ size (connections s))%nat; [|lia].
  apply subseteq_size. set_solver.
Qed.

(** ** Every step keeps the invariants *)

Record session_inv (s : Session) : Prop := {
  si_peers : peers_ok (UUID s) (Peers s);
  si_owners : owners_ok s;
  si_limits : limits_ok s;
}.

(** The fields the invariants read, for the steps that leave them alone. *)
Definition same_core (s s' : Session) : Prop :=
  UUID s' = UUID s ∧ Peers s' = Peers s ∧ ChunkOwners s' = ChunkOwners s
  ∧ PeerOwners s' = PeerOwners s ∧ uploadSem s' = uploadSem s
  ∧ uploadLimit s' = uploadLimit s ∧ connections s' = connections s.

Lemma same_core_inv s s' : same_core s s' → session_inv s → session_inv s'.
Proof.
  intros (Hu & Hp & Hc & Ho & Hs & Hl & Hn) [Hpe Hoe [H1 H2 H3]]. split.
  - by rewrite Hu, Hp.
  - apply (owners_ok_frame s); try done. by rewrite Hp.
  - split; by rewrite ?Hs, ?Hl, ?Hn.
Qed.

(** The steps that move the limits only. *)
Lemma limits_step_inv s s' :
  session_inv s → limits_ok s' → UUID s' = UUID s → Peers s' = Peers s →
  ChunkOwners s' = ChunkOwners s → PeerOwners s' = PeerOwners s → session_inv s'.
Proof.
  intros [Hp Ho _] Hl Hu Hpe Hc Hpo. split; [by rewrite Hu, Hpe| |done].
  apply (owners_ok_frame s); try done. by rewrite Hpe.
Qed.

(** The steps that change the peers' records but no ownership and no limit. *)
Lemma peers_step_inv s m :
  session_inv s → peers_ok (UUID s) m →
  (∀ id, is_Some (Peers s !! id) → is_Some (m !! id)) → session_inv (set_Peers m s).
Proof.
  intros [Hp Ho [H1 H2 H3]] Hm Hdom. split; [done| |done].
  by apply (owners_ok_frame s).
Qed.

Lemma is_Some_insert_dom (m : gmap string Peer) id p :
  ∀ i, is_Some (m !! i) → is_Some (<[id := p]> m !! i).
Proof. intros i ?. rewrite lookup_insert_is_Some'. auto. Qed.

Lemma is_Some_alter_dom (m : gmap string Peer) id f :
  ∀ i, is_Some (m !! i) → is_Some (alter f id m !! i).
Proof. intros i ?. by rewrite lookup_alter_is_Some. Qed.

Lemma inv_add_peer id a c s : id ≠ "" → session_inv s → session_inv (AddPeer id a c s).
Proof.
  intros Hid Hi. unfold AddPeer. destruct (Peers s !! id) as [p|] eqn:Hp.
  - apply peers_step_inv; [done| |apply is_Some_insert_dom].
    eapply peers_ok_replace; [apply Hi|done|].
    apply same_lease_fields; unfold lease_map; cbn;
      destruct (leases p) eqn:E; cbn; rewrite ?E; done.
  - apply peers_step_inv; [done| |apply is_Some_insert_dom].
    apply peers_ok_insert; [apply Hi|done|cbn; unfold maxInflight; lia|done].
Qed.

Lemma inv_lease now id i r s :
  session_inv s → (id = UUID s ∨ ∃ p, Peers s !! id = Some p ∧ connNum p < maxInflight) →
  session_inv (leaseLocked now id i r s).
Proof.
  intros Hi Hid. unfold leaseLocked. apply peers_step_inv; [done| |apply is_Some_insert_dom].
  apply (peers_ok_lease now id i r s); [apply Hi|done].
Qed.

Lemma inv_expire now s : session_inv s → session_inv (expireLeasesLocked now s).
Proof.
  intros Hi. apply peers_step_inv; [done|apply peers_ok_expire, Hi|].
  intros id ?. rewrite lookup_fmap. by apply fmap_is_Some.
Qed.

Lemma inv_want now now2 req remote order s resp s' :
  session_inv s → order ≡ₚ elements (owners s (wq_Index req)) →
  WantRequest_locked now now2 req remote order s = Some (resp, s') → session_inv s'.
Proof.
  intros Hi Ho Hw. destruct (candidatesLocked now req remote order s) as [cs s1] eqn:Hc.
  destruct (WantRequest_eq _ now2 _ _ _ _ _ _ Hc) as (first & rest & n & -> & _ & _ & Heq).
  rewrite Heq in Hw. simplify_eq. pose proof (first_has_room _ _ _ _ _ _ _ _ Hc Ho) as Hroom.
  apply candidates_perm in Hc as [-> _]. apply inv_lease; [by apply inv_expire|done].
Qed.

Lemma inv_pick now now2 i remote r porder order s u a s' :
  session_inv s → order ≡ₚ elements (owners s i) →
  pickFor now now2 i remote r porder order s = Some (u, a, s') → session_inv s'.
Proof.
  intros Hi Ho. unfold pickFor. set (r' := if is_empty r then _ else _). clearbody r'.
  destruct (candidatesLocked _ _ _ _ _) as [cs s1] eqn:Hc.
  destruct cs as [|first rest]; [done|]. intros ?; simplify_eq.
  pose proof (first_has_room _ _ _ _ _ _ _ _ Hc Ho) as Hroom.
  apply candidates_perm in Hc as [-> _]. apply inv_lease; [by apply inv_expire|done].
Qed.

Lemma inv_release id i r s : session_inv s → session_inv (release id i r s).
Proof.
  intros Hi. unfold release. destruct (Peers s !! id) as [p|] eqn:Hp; [|done].
  apply peers_step_inv; [done| |apply is_Some_insert_dom].
  eapply peers_ok_replace; [apply Hi|done|apply drop_lease_load].
Qed.

Lemma inv_report now1 now2 prov speed status i r s :
  session_inv s → session_inv (UpdatePeer now1 now2 prov speed status i r s).
Proof.
  intros [Hp Ho [H1 H2 H3]]. split.
  - pose proof (peers_ok_UpdatePeer now1 now2 prov speed status i r s Hp) as Hu.
    replace (UUID (UpdatePeer now1 now2 prov speed status i r s)) with (UUID s); [done|].
    unfold UpdatePeer. repeat case_match; done.
  - by apply owners_ok_UpdatePeer.
  - unfold UpdatePeer. repeat case_match; by split.
Qed.

Lemma inv_clear_content s : session_inv s → session_inv (ClearContent s).
Proof.
  intros [Hp Ho [H1 H2 H3]]. split; [| |done].
  - apply (peers_ok_map _ (Peers s)); [done|]. unfold ClearContent. cbn.
    intros id p' (p & <- & Hid)%lookup_fmap_Some. exists p. split; [done|].
    intros Hc. split; [done|]. cbn. by apply lease_count_nonneg.
  - split; unfold owners, owned_by; cbn; intros j id Hne; rewrite lookup_empty; cbn; set_solver.
Qed.

Lemma inv_mark_sender s : session_inv s → session_inv (MarkSender s).
Proof.
  intros Hi. unfold MarkSender. cbn. destruct (Peers s !! UUID s) eqn:E.
  - by apply (same_core_inv s).
  - apply (peers_step_inv (set_isMain true s)); [by apply (same_core_inv s)| |
      apply is_Some_insert_dom].
    cbn. destruct (po_named _ _ (si_peers _ Hi)) as [Hn _].
    by apply peers_ok_insert; [apply Hi| | |].
Qed.

Lemma inv_send_main ck s : session_inv s → session_inv (BeSendMain_locked ck s).
Proof.
  intros [Hp Ho [H1 H2 H3]]. split; [|by apply owners_ok_BeSendMain|done].
  cbn. destruct (po_named _ _ Hp) as [Hn _]. by apply peers_ok_insert.
Qed.

Lemma step_inv s s' : step s s' → session_inv s → session_inv s'.
Proof.
  intros Hst Hi. destruct Hst.
  - apply (same_core_inv s); [|done]. unfold Start. repeat case_match; done.
  - apply (limits_step_inv s); [done|apply limits_accept, Hi|..];
      unfold accept; repeat case_match; done.
  - by apply (limits_step_inv s); [|apply limits_close, Hi|..].
  - apply (same_core_inv s); [|done]. unfold Stop. repeat case_match; done.
  - by apply (same_core_inv s).
  - by apply (same_core_inv s).
  - by apply (same_core_inv s).
  - by apply inv_send_main.
  - apply (same_core_inv s); [|done]. unfold StartCoordinator. repeat case_match; done.
  - by apply (same_core_inv s).
  - by apply (same_core_inv s).
  - by apply inv_mark_sender.
  - by apply inv_clear_content.
  - by apply inv_add_peer.
  - pose proof Hi as [Hp Ho Hl]. split; [|by apply owners_ok_RemovePeer|by destruct Hl].
    by apply peers_ok_delete.
  - pose proof Hi as [Hp Ho Hl]. split; [|by apply owners_ok_AddBlockOwner|].
    + unfold AddBlockOwner. case_match; done.
    + unfold AddBlockOwner. case_match; by destruct Hl.
  - apply peers_step_inv; [done| |apply is_Some_alter_dom].
    apply peers_ok_alter; [apply Hi|]. intros p. by apply same_lease_fields.
  - apply peers_step_inv; [done| |apply is_Some_alter_dom].
    apply peers_ok_alter; [apply Hi|]. intros p. by apply same_lease_fields.
  - by apply inv_report.
  - apply (same_core_inv s); [|done]. unfold IndexValid_read. repeat case_match; done.
  - apply (same_core_inv s); [|done]. unfold AddChunk. repeat case_match; done.
  - apply (limits_step_inv s); [done|apply limits_try_acquire, Hi|..];
      unfold try_acquire; repeat case_match; done.
  - apply (limits_step_inv s); [done|apply limits_release, Hi|..];
      unfold ReleaseUploadSlot; case_match; done.
  - by apply (limits_step_inv s); [|apply limits_set_max, Hi|..].
  - by eapply inv_want.
  - by eapply inv_pick.
  - by apply inv_release.
  - by apply (same_core_inv s).
  - apply (same_core_inv s); [|done]. unfold ApplyControl. cbn. repeat case_match; done.
Qed.

Lemma init_inv a id : id ≠ "" → session_inv (NewGspSession a id).
Proof.
  intros Hid. split.
  - split; [done|done|]. by split.
  - split; [done|]. intros i u _ Hin. by apply elem_of_empty in Hin.
  - split; cbn -[Z.le]; rewrite ?size_empty; unfold upload_cap; lia.
Qed.

Lemma reachable_inv s : reachable s → session_inv s.
Proof.
  intros (a & id & Hid & Hr). apply init_inv with (a := a) in Hid.
  induction Hr as [s|s1 s2 s3 Hst _ IH]; [done|]. apply IH. by eapply step_inv.
Qed.

(** ** Properties of every reachable session *)

(** C8. The connection count the scheduler reads is exact: it is the number of
    leases the peer holds, in every reachable state, whatever the interleaving of
    requests, reports, registrations, removals and expirations; and no peer but the
    centre ever serves more than [maxInflight] leases. *)
Theorem leases_counted (s : Session) (id : string) (p : Peer) :
  reachable s → Peers s !! id = Some p →
  connNum p = map_len (lease_map p) ∧ (id ≠ UUID s → connNum p ≤ maxInflight).
Proof.
  intros Hr Hp. destruct (si_peers _ (reachable_inv _ Hr)) as [Hc Hl _].
  split; [by apply (Hc id)|]. by apply Hl.
Qed.

(** C12. The two ownership maps agree in every reachable state: a peer other than
    the centre is an owner of a chunk in [ChunkOwners] exactly when the chunk is in
    its row of [PeerOwners], and only registered peers own chunks, so the
    scheduler's lookups of owners never miss. *)
Theorem ownership_consistent (s : Session) (i : Z) (id : string) :
  reachable s → id ≠ UUID s →
  (id ∈ owners s i ↔ i ∈ owned_by s id) ∧ (id ∈ owners s i → is_Some (Peers s !! id)).
Proof.
  intros Hr Hid. destruct (si_owners _ (reachable_inv _ Hr)) as [Hd Hreg]. eauto.
Qed.

(** C30. The resources of a session are bounded in every reachable state: at most
    eight uploads and 512 connections, and a slot is only granted while the session
    runs, below the configured maximum, and, during a backoff, below
    [UploadConcurrencyHDD]. *)
Theorem session_bounded (s : Session) :
  reachable s →
  0 ≤ uploadSem s ≤ upload_cap ∧ Z.of_nat (size (connections s)) ≤ 512 ∧
  ∀ now s', try_acquire now s = (Acquired, s') →
    done s = false ∧ uploadSem s' = uploadSem s + 1 ∧
    (0 < uploadLimit s → uploadSem s' ≤ uploadLimit s) ∧
    (now < backoffUntil s → uploadSem s' ≤ UploadConcurrencyHDD).
Proof.
  intros Hr. destruct (si_limits _ (reachable_inv _ Hr)) as [Hs Hl Hc].
  split; [done|]. split; [done|]. intros now s'. unfold try_acquire.
  destruct (done s); [done|].
  destruct (uploadSem s <? upload_limit now s) eqn:E1; [|done].
  destruct (uploadSem s <? upload_cap) eqn:E2; [|done]. intros ?; simplify_eq. cbn.
  split; [done|]. split; [done|]. zbool. unfold upload_limit in E1.
  destruct (Z.ltb_spec now (backoffUntil s)), (Z.leb_spec (uploadLimit s) 0),
    (Z.ltb_spec upload_cap (uploadLimit s)); cbn in E1; lia.
Qed.

Lemma done_step s s' : step s s' → done s = true → done s' = true.
Proof.
  intros Hst Hd. destruct Hst; try done.
  - unfold Start. repeat case_match; done.
  - unfold accept. repeat case_match; done.
  - unfold Stop. by rewrite Hd.
  - unfold StartCoordinator. by rewrite Hd.
  - unfold MarkSender. cbn. repeat case_match; done.
  - unfold AddPeer. repeat case_match; done.
  - unfold AddBlockOwner. repeat case_match; done.
  - unfold UpdatePeer. repeat case_match; done.
  - unfold IndexValid_read. repeat case_match; done.
  - unfold AddChunk. repeat case_match; done.
  - unfold try_acquire. by rewrite Hd.
  - unfold ReleaseUploadSlot. repeat case_match; done.
  - destruct (candidatesLocked now req remote order s) as [cs s1] eqn:Hc.
    destruct (WantRequest_eq _ now2 _ _ _ _ _ _ Hc) as (first & rest & n & _ & _ & _ & Heq).
    apply candidates_perm in Hc as [-> _]. rewrite Heq in H1. by simplify_eq.
  - unfold pickFor in H1. destruct (candidatesLocked _ _ _ _ _) as [cs s1] eqn:Hc.
    apply candidates_perm in Hc as [-> _]. destruct cs; by simplify_eq.
  - unfold release. repeat case_match; done.
  - unfold ApplyControl. cbn. repeat case_match; done.
Qed.

(** C31. [Stop] is final: once a session is stopped it stays stopped whatever is
    called on it, and a stopped session serves no accepted connection, grants no
    upload slot, and starts neither its listener nor the coordinator again. *)
Theorem stop_final (s s' : Session) :
  rtc step (Stop s).2 s' →
  done s' = true ∧ (∀ c, accept c s' = (AcceptStop, s')) ∧
  (∀ now, try_acquire now s' = (SessionStopped, s')) ∧
  (∀ l, Start l s' = (Some ErrNetClosed, s')) ∧ StartCoordinator s' = (false, s').
Proof.
  intros Hr. assert (done s' = true) as Hd.
  { assert (done (Stop s).2 = true) as H0 by (unfold Stop; by destruct (done s) eqn:?).
    induction Hr as [|s1 s2 s3 Hst _ IH]; [done|]. eapply IH, done_step; eauto. }
  unfold accept, try_acquire, Start, StartCoordinator. by rewrite Hd.
Qed.

Lemma backoff_cmd_load until s uid c :
  backoff_cmd until s uid = Some c →
  uid ≠ UUID s ∧ ∃ p, Peers s !! uid = Some p ∧ backoffOverloadConn < connNum p.
Proof.
  unfold backoff_cmd. destruct (Peers s !! uid) as [p|]; cbn; [|done].
  destruct (decide (uid = UUID s)); [done|]. destruct (_ && _) eqn:E; [|done]. zbool. eauto.
Qed.

(** C11. The coordinator never sends a [backoff]: the command asks for more than
    [backoffOverloadConn] = 4 leases on a peer that is not the centre, and the
    scheduler never lends such a peer more than [maxInflight] = 2. In every
    reachable state, every command of a scan is a [prefetch]. *)
Theorem backoff_never_sent (s : Session) (now : Z) (order zorder order2 : list string)
    (uid : string) (msg : ControlMsg) :
  reachable s → (uid, msg) ∈ coordinate_cmds now order zorder order2 s →
  cm_Cmd msg = "prefetch".
Proof.
  intros Hr. unfold coordinate_cmds. destruct (bool_decide _); [by intros ?%elem_of_nil|].
  destruct (_ <=? 0); [by intros ?%elem_of_nil|]. rewrite elem_of_app. intros [Hin|Hin].
  - apply list_elem_of_bind in Hin as (z & Hin & _).
    destruct (scan_zones s order !! z) as [zi|]; [|by apply elem_of_nil in Hin].
    unfold prefetch_cmds in Hin. destruct (is_empty _); [by apply elem_of_nil in Hin|].
    apply list_elem_of_In, List.in_map_iff in Hin as (c & ? & _). by simplify_eq.
  - apply list_elem_of_omap in Hin as (u & _ & Hb).
    apply backoff_cmd_load in Hb as (Hu & p & Hp & Hload).
    destruct (si_peers _ (reachable_inv _ Hr)) as [_ Hl _]. specialize (Hl u p Hp Hu).
    unfold backoffOverloadConn, maxInflight in *. lia.
Qed.
End reachable.

(** Reports are exact: a report returns the lease of its own requester and
    chunk at the reported provider, and every other lease of every peer stays as it
    is, even another requester's lease of the same chunk or the same requester's of
    another chunk (a lease's key determines both). *)
Theorem report_returns_one_lease (now1 now2 : Z) (prov : string) (speed : Z)
    (status : string) (i : Z) (r : string) (s : Session) :
  ¬ leased (UpdatePeer now1 now2 prov speed status i r s) prov r i ∧
  ∀ id r' i', (id, r', i') ≠ (prov, r, i) →
    leased (UpdatePeer now1 now2 prov speed status i r s) id r' i' ↔ leased s id r' i'.
Proof.
  set (s' := UpdatePeer _ _ _ _ _ _ _ _). assert (∀ id, lease_map <$> Peers s' !! id =
    if decide (id = prov) then delete (leaseKey r i) <$> (lease_map <$> Peers s !! id)
    else lease_map <$> Peers s !! id) as Hm.
  { intros id. subst s'. unfold UpdatePeer.
    assert (∀ p, lease_map (drop_lease (leaseKey r i) p) = delete (leaseKey r i) (lease_map p)) as Hd.
    { intros p. unfold drop_lease, lease_map. destruct (leases p) as [m|] eqn:Hl; cbn.
      - destruct (m !! leaseKey r i) eqn:Hk; cbn; [done|]. by rewrite Hl, delete_id.
      - by rewrite Hl, delete_empty. }
    destruct (Peers s !! prov) as [p|] eqn:Hp; [|destruct (decide (id = prov)) as [->|]; by rewrite ?Hp].
    specialize (Hd p).
    destruct (decide (status = "failed")) as [_|_]; [destruct (decide (prov = UUID s)) as [_|_]|];
      cbn; (destruct (decide (id = prov)) as [->|];
        [rewrite lookup_insert_eq, Hp; cbn; f_equal; exact Hd|by rewrite lookup_insert_ne]). }
  assert (∀ x id r' i', leased x id r' i' ↔
    ∃ m, lease_map <$> Peers x !! id = Some m ∧ is_Some (m !! leaseKey r' i')) as Hleased.
  { intros x id r' i'. unfold leased. destruct (Peers x !! id) as [p|]; cbn; naive_solver. }
  split.
  - rewrite Hleased, Hm, decide_True by done. intros (m & Hd & Hs).
    apply fmap_Some in Hd as (m0 & _ & ->). rewrite lookup_delete_eq in Hs. by destruct Hs.
  - intros id r' i' Hne. rewrite !Hleased, Hm. destruct (decide (id = prov)) as [->|]; [|done].
    assert (leaseKey r i ≠ leaseKey r' i') by (intros [-> ->]%leaseKey_inj; done).
    destruct (lease_map <$> Peers s !! prov) as [m|]; cbn; [|done].
    split; intros (m' & ? & Hs); simplify_eq; eexists; (split; [done|]).
    + by rewrite lookup_delete_ne in Hs.
    + by rewrite lookup_delete_ne.
Qed.

(** ** A run *)

Definition run_file : OsFile := mkFile "a.bin" [Byte.x01] 0 0 true.
Definition run_chunk : FileChunk := NewFileChunk {[1%positive := run_file]} 1%positive.

(** A sender with one receiver registered that owns the only chunk, and a second
    receiver asking for it. *)
Definition run_state0 : Session :=
  AddBlockOwner 0 "a" (SetPeerZone "a" "z" (AddPeer "a" "10.0.0.1:9" (Some 5%positive)
    (BeSendMain_locked run_chunk (NewGspSession "0.0.0.0:1" "me")))).

Definition run_req : WantChunkReq := mkWantChunkReq "z" 1 "b" "wantChunk" 0.

Definition run_state : Session :=
  match WantRequest_locked (H := coarse_half_pow) 7 8 run_req None ["me"; "a"] run_state0 with
  | Some (_, s) => s
  | None => run_state0
  end.

Lemma run_reachable0 : rtc (step (H := coarse_half_pow)) (NewGspSession "0.0.0.0:1" "me") run_state0.
Proof.
  assert ("a" ≠ "") as Hne by done.
  eapply rtc_l; [exact (st_send_main _ run_chunk)|].
  eapply rtc_l; [exact (st_add_peer _ "a" "10.0.0.1:9" (Some 5%positive) Hne)|].
  eapply rtc_l; [exact (st_set_zone _ "a" "z")|].
  apply rtc_once. exact (st_add_owner _ 0 "a").
Qed.

Lemma run_owners : ["me"; "a"] ≡ₚ elements (owners run_state0 0).
Proof. by vm_compute. Qed.

Lemma run_reachable : reachable (H := coarse_half_pow) run_state.
Proof.
  exists "0.0.0.0:1", "me". split; [done|]. unfold run_state.
  pose proof run_reachable0 as Hr. pose proof run_owners as Ho. revert Hr Ho.
  generalize run_state0. intros s0 Hr Ho.
  destruct (WantRequest_locked (H := coarse_half_pow) 7 8 run_req None ["me"; "a"] s0)
    as [[resp s']|] eqn:E; [|exact Hr].
  eapply rtc_r; [exact Hr|]. by eapply (st_want _ 7 8 run_req None ["me"; "a"]).
Qed.

Lemma leases_counted_witness :
  ∃ p, Peers run_state !! "a" = Some p ∧ connNum p = 1 ∧ connNum p = map_len (lease_map p).
Proof.
  destruct (Peers run_state !! "a") as [p|] eqn:Hp; [|exfalso; vm_compute in Hp; done].
  exists p. split; [done|]. split; [|exact (proj1 (leases_counted _ _ _ run_reachable Hp))].
  vm_compute in Hp. by simplify_eq.
Defined.

Lemma ownership_consistent_witness :
  "a" ∈ owners run_state 0 ∧ is_Some (Peers run_state !! "a").
Proof.
  assert ("a" ∈ owners run_state 0) as Hin by (by vm_compute).
  split; [exact Hin|]. refine (proj2 (ownership_consistent _ 0 "a" run_reachable _) Hin).
  by vm_compute.
Defined.

Lemma session_bounded_witness :
  let s' := (try_acquire 0 run_state).2 in
  try_acquire 0 run_state = (Acquired, s') ∧ uploadSem s' = 1.
Proof.
  assert (try_acquire 0 run_state = (Acquired, (try_acquire 0 run_state).2)) as Ha
    by (by vm_compute).
  split; [exact Ha|].
  destruct (proj2 (proj2 (session_bounded _ run_reachable)) _ _ Ha) as (_ & Hn & _).
  rewrite Hn. by vm_compute.
Defined.

Lemma stop_final_witness :
  accept 1%positive (AddPeer "c" "" None (Stop run_state).2)
  = (AcceptStop, AddPeer "c" "" None (Stop run_state).2).
Proof.
  refine (proj1 (proj2 (stop_final (H := coarse_half_pow) run_state _ _)) 1%positive).
  apply rtc_once. by apply st_add_peer.
Defined.

(** The same receiver's zone lacks nothing; another zone's receiver is told to
    fetch the chunk. *)
Definition run_state2 : Session :=
  SetPeerZone "c" "y" (AddPeer "c" "10.0.1.1:9" (Some 6%positive) run_state).

Lemma backoff_never_sent_witness :
  coordinate_cmds 0 ["a"; "c"] ["y"; "z"] ["a"; "c"] run_state2
    = [("c", mkControlMsg "prefetch" 0 0)] ∧ cm_Cmd (mkControlMsg "prefetch" 0 0) = "prefetch".
Proof.
  assert (coordinate_cmds 0 ["a"; "c"] ["y"; "z"] ["a"; "c"] run_state2
    = [("c", mkControlMsg "prefetch" 0 0)]) as Hc by (by vm_compute).
  split; [exact Hc|].
  refine (backoff_never_sent (H := coarse_half_pow) run_state2 0 ["a"; "c"] ["y"; "z"]
    ["a"; "c"] "c" _ _ _).
  - destruct run_reachable as (a & id & Hid & Hr). exists a, id. split; [done|].
    eapply rtc_r; [eapply rtc_r; [exact Hr|by apply (st_add_peer _ "c" "10.0.1.1:9" (Some 6%positive))]|].
    apply (st_set_zone _ "c" "y").
  - rewrite Hc. left.
Defined.
