(* ===== verification/Handle.v ===== *)
(** * The request handlers of a node

    internal/gsp_sdk/server/handle and [operation.go]: what a node does with one
    request of a connection, and the loop of session.go that reads the requests.
    The reading side of the connection is the bytes still to come; the writing
    side a [Link]. What a handler finds in its environment while it runs (the
    clock, the disk, the traversal of a map, what the other connections do to the
    session while it waits) is the record [Env]. *)

From S2P Require Import Prelude Text Codec Chunk Float64 Net Json Model Session Scheduler.
Local Open Scope string_scope.
Local Open Scope Z_scope.

(** The writing side of a connection, which [CloseConn] closes. *)
Record Link : Type := mkLink { wire : Codec.Conn; closed : bool }.

Definition send (l : Link) (typ : Z) (payload : bytes) : bool * Link :=
  if closed l then (false, l)
  else let '(ok, w) := EncodeTo (wire l) typ payload in (ok, mkLink w false).

Definition close_link (l : Link) : Link := mkLink (wire l) true.

(** internal/gsp_sdk/server/handle/handle.go:176-183 [sendJSON] *)
Definition sendJSON `{Message A} (l : Link) (value : A) : Link :=
  (send l TypeJSON (Marshal value)).2.

(** The texts of [err.Error()]; those of the operating system are an argument. *)
Definition err_text (os : Chunk.error → string) (e : sess_error) : string :=
  match e with
  | ErrStopped => "session stopped"
  | ErrSlotTimeout => "upload slot timeout"
  | ErrSourceChanged => "source file changed during transfer"
  | ErrChunk (ErrIndex _) => "目前分块数不合法"
  | ErrChunk ErrShortBuffer => "short buffer"
  | ErrChunk c => os c
  | ErrNetClosed => "use of closed network connection"
  | ErrAlreadyStarted => "session already started"
  | ErrNotRegular => "source must be a regular file"
  | ErrListen | ErrStat => os ErrClosed
  end.

Record Env : Type := mkEnv {
  e_conn : conn_id;
  e_remote : string;
  e_now : Z;
  e_now2 : Z;
  e_order : list string;
  e_fs : Files * Files * Files;
  e_turns : list (Z * (Session → Session) * wake);
  e_others : Session → Session;
  e_os : Chunk.error → string;
  e_control : res string (option json);
}.

Section handlers.
Context `{HalfPow}.

(** internal/gsp_sdk/server/handle/handle.go:39-57 [GetFileStatus] *)
Definition GetFileStatus (env : Env) (l : Link) (s : Session) : Link :=
  let ck := GetChunk s in
  match FileStat ck with
  | None => sendJSON l (mkGetFileStatusResp "发送端文件尚未就绪，请重新准备发送服务" "" 0 0 0)
  | Some st =>
      if isMain s && negb (Unchanged (e_fs env).1.1 ck) then
        sendJSON l (mkGetFileStatusResp "源文件在准备后已变化，请停止并重新准备发送服务" "" 0 0 0)
      else
        sendJSON l (mkGetFileStatusResp "" (fi_name st) (fi_size st) (GetChunkSize ck)
                      (GetChunkNum ck))
  end.

(** The queue is always the scheduler ([queue2]), whose [WantRequest] is called.
    internal/gsp_sdk/server/handle/handle.go:60-77 [WantChunk] *)
Definition WantChunk (env : Env) (data : bytes) (l : Link) (s : Session)
    : option (Link * Session) :=
  match Unmarshal WantChunkReq data with
  | None => Some (close_link l, CloseConn (e_conn env) s)
  | Some wc =>
      match WantRequest_locked (e_now env) (e_now2 env) wc (Some (e_remote env))
              (e_order env) s with
      | None => None
      | Some (resp, s1) =>
          let '(ok, l1) := send l TypeJSON (Marshal resp) in
          let s2 := e_others env s1 in
          Some (l1, if ok then s2
                    else release (wr_UUID resp) (wq_Index wc) (wq_UUID wc) s2)
      end
  end.

(** internal/gsp_sdk/server/handle/handle.go:80-88 [ReportChunk] *)
Definition ReportChunk (env : Env) (data : bytes) (l : Link) (s : Session)
    : Link * Session :=
  match Unmarshal ReportChunkReq data with
  | None => (close_link l, CloseConn (e_conn env) s)
  | Some wc => (l, AddBlockOwner (rq_Index wc) (rq_UUID wc) s)
  end.

(** The part after the slot is granted: read, answer, release.
    internal/gsp_sdk/server/handle/handle.go:108-124 [GetChunk] *)
Definition GetChunk_upload (env : Env) (ck : FileChunk) (i : Z) (l : Link) (s : Session)
    : Link * Session :=
  let '(fs1, fs2, fs3) := e_fs env in
  match ReadChunk fs1 fs2 fs3 s i (GetChunkSize ck) with
  | Err e =>
      (sendJSON l (mkGetChunkResp (err_text (e_os env) e) i false 0),
       ReleaseUploadSlot (e_others env s))
  | Ok b =>
      let '(ok1, l1) := send l TypeJSON (Marshal (mkGetChunkResp "" i true (ChecksumIEEE b))) in
      let '(ok2, l2) := if ok1 then send l1 TypeFileChunk b else (false, l1) in
      let s1 := e_others env s in
      if ok2 then (l2, ReleaseUploadSlot s1)
      else (close_link l2, ReleaseUploadSlot (CloseConn (e_conn env) s1))
  end.

(** [None]: still waiting for a slot.
    internal/gsp_sdk/server/handle/handle.go:92-124 [GetChunk] *)
Definition GetChunk_handler (env : Env) (data : bytes) (l : Link) (s : Session)
    : option (Link * Session) :=
  let ck := GetChunk s in
  match Unmarshal GetChunkReq data with
  | None => Some (close_link l, CloseConn (e_conn env) s)
  | Some gc =>
      let i := gq_Index gc in
      if negb (HasChunk s i) then Some (sendJSON l (mkGetChunkResp "对端没有该分块" i false 0), s)
      else match acquireUpload (e_turns env) s with
           | None => None
           | Some (Some e, s1) =>
               Some (sendJSON l (mkGetChunkResp (err_text (e_os env) e) i false 0), s1)
           | Some (None, s1) => Some (GetChunk_upload env ck i l s1)
           end
  end.

(** [{"ready":true}] *)
Definition ready_ack : bytes := to_bytes (print_json (JObj [("ready", JBool true)])).

(** Registration, up to the wait for the connection to end: the UUID registered. [AddPeer] and
    [SetPeerZone] are taken together, though other handlers may come between.
    internal/gsp_sdk/server/handle/handle.go:127-153 [PeerReg] *)
Definition PeerReg_register (env : Env) (data : bytes) (l : Link) (s : Session)
    : option string * Link * Session :=
  let refuse l' := (None, close_link l', CloseConn (e_conn env) s) in
  match Unmarshal PeerRegReq data with
  | None => refuse l
  | Some wc =>
      let '(port, e) := Atoi (chars_of (pr_Port wc)) in
      if bool_decide (is_Some e) || (port <? 1) || (65535 <? port) || is_empty (pr_UUID wc)
      then refuse l else
      match SplitHostPort (e_remote env) with
      | None => refuse l
      | Some (host, _) =>
          let '(ok, l1) := send l TypeJSON ready_ack in
          if negb ok then refuse l1 else
          let s1 := AddPeer (pr_UUID wc) (JoinHostPort host (pr_Port wc))
                      (Some (e_conn env)) s in
          let s2 := SetPeerZone (pr_UUID wc) (pr_Zone wc) s1 in
          (Some (pr_UUID wc), l1, s2)
      end
  end.

(** What happens when the registered connection ends: closed, then the deferred
    removal. internal/gsp_sdk/server/handle/handle.go:154-160 [PeerReg] *)
Definition PeerReg_leave (env : Env) (id : string) (l : Link) (s : Session)
    : Link * Session :=
  (close_link l, RemovePeer id (CloseConn (e_conn env) s)).

(** internal/gsp_sdk/server/handle/handle.go:163-174 [PeerReport] *)
Definition PeerReport (env : Env) (data : bytes) (l : Link) (s : Session)
    : Link * Session :=
  match Unmarshal PeerReportReq data with
  | None => (close_link l, CloseConn (e_conn env) s)
  | Some wc =>
      (l, if is_empty (pp_ProviderUUID wc) then s
          else UpdatePeer (e_now env) (e_now2 env) (pp_ProviderUUID wc) (pp_Speed wc)
                 (pp_Status wc) (pp_Index wc) (pp_UUID wc) s)
  end.

(** The handler of the application answers a control request.
    internal/gsp_sdk/server/session.go:246-277 [Session.Control] *)
Definition Control (env : Env) (l : Link) (s : Session) : Link :=
  let resp := if control s then
                match e_control env with
                | Ok v => mkControlResponse v ""
                | Err e => mkControlResponse None e
                end
              else mkControlResponse None "receiver control unavailable" in
  (send l TypeJSON (to_bytes (print_json (encode_ControlResponse resp)))).2.

(** ** Dispatch *)

(** How a request ends: answered; the connection now watched as the registration
    of a peer; refused (the loop closes the connection); or still waiting. *)
Inductive served : Type :=
| Served (l : Link) (s : Session)
| Watching (id : string) (l : Link) (s : Session)
| Refused
| Waiting.

Definition served_of (r : option (Link * Session)) : served :=
  match r with Some (l, s) => Served l s | None => Waiting end.

(** internal/gsp_sdk/server/operation.go:14-21 [Mux] *)
Definition Mux (op : string) : option (Env → bytes → Link → Session → served) :=
  if decide (op = "getChunk") then
    Some (λ env d l s, served_of (GetChunk_handler env d l s))
  else if decide (op = "getFileStatus") then
    Some (λ env d l s, Served (GetFileStatus env l s) s)
  else if decide (op = "wantChunk") then
    Some (λ env d l s, served_of (WantChunk env d l s))
  else if decide (op = "reportChunk") then
    Some (λ env d l s, served_of (Some (ReportChunk env d l s)))
  else if decide (op = "peerReg") then
    Some (λ env d l s, match PeerReg_register env d l s with
                       | (Some id, l', s') => Watching id l' s'
                       | (None, l', s') => Served l' s'
                       end)
  else if decide (op = "reportPeer") then
    Some (λ env d l s, served_of (Some (PeerReport env d l s)))
  else None.

(** internal/gsp_sdk/server/operation.go:23-43 [Session.SenderOperation] *)
Definition SenderOperation (env : Env) (payload : bytes) (l : Link) (s : Session) : served :=
  match Unmarshal BaseJson payload with
  | None => Refused
  | Some b =>
      if decide (bj_Operate b = "getNodeStatus") then
        let '(ok, l1) := send l TypeJSON (Marshal (NodeStatus s)) in
        if (ok : bool) then Served l1 s else Refused
      else if decide (bj_Operate b = "control") then Served (Control env l s) s
      else match Mux (bj_Operate b) with
           | Some handler => handler env payload l s
           | None => Refused
           end
  end.

(** internal/gsp_sdk/server/session.go:350-358 [Session.parsePacket] *)
Definition parsePacket (env : Env) (p : Packet) (l : Link) (s : Session) : served :=
  if negb (Type_ p =? TypeJSON) then Refused
  else SenderOperation env (Payload p) l s.

(** The loop of a connection: one environment per request. It ends with the
    connection closed, watched, or with a request that is still waiting.
    internal/gsp_sdk/server/session.go:324-347 [Session.handle] *)
Fixpoint handle (envs : list Env) (r : bytes) (l : Link) (s : Session) : served :=
  match envs with
  | [] => Waiting
  | env :: envs' =>
      if closed l then Served l (CloseConn (e_conn env) s) else
      match DecodeBounded r (64 * 1024) (4 * 1024 * 1024) with
      | (Err _, _) => Served (close_link l) (CloseConn (e_conn env) s)
      | (Ok p, r') =>
          match parsePacket env p l s with
          | Refused => Served (close_link l) (CloseConn (e_conn env) s)
          | Served l' s' => handle envs' r' l' s'
          | w => w
          end
      end
  end.
End handlers.

(** ** Registration *)

Section registration.
Context `{HalfPow}.

Definition peer_as_registered (env : Env) (wc : PeerRegReq) (host : string) (p : Peer) : Prop :=
  connAddr p = JoinHostPort host (pr_Port wc) ∧ conn p = Some (e_conn env) ∧
  zone p = zoneOf (JoinHostPort host (pr_Port wc)) (pr_Zone wc) ∧ is_Some (leases p).

Lemma send_open l typ payload :
  closed l = false → room (wire l) = None →
  send l typ payload
  = (true, mkLink (mkConn (sent (wire l) ++ frame typ payload) None) false).
Proof. intros Hc Hr. unfold send. by rewrite Hc, EncodeTo_open. Qed.

Lemma send_true l typ payload l' :
  send l typ payload = (true, l') →
  closed l' = false ∧ sent (wire l') = (sent (wire l) ++ frame typ payload)%list.
Proof.
  unfold send. destruct (closed l); [done|].
  destruct (EncodeTo _ _ _) as [ok w] eqn:He. intros ?; simplify_eq.
  apply EncodeTo_true in He. done.
Qed.

Lemma AddPeer_lookup id a c s :
  ∃ p, Peers (AddPeer id a c s) !! id = Some p ∧ connAddr p = a ∧ conn p = c ∧ is_Some (leases p).
Proof.
  unfold AddPeer. destruct (Peers s !! id) as [p|]; cbn; rewrite lookup_insert_eq;
    (eexists; split; [done|]); [|naive_solver].
  destruct (leases p) eqn:E; cbn; rewrite ?E; eauto.
Qed.

Lemma AddPeer_other id a c s i : i ≠ id → Peers (AddPeer id a c s) !! i = Peers s !! i.
Proof. intros Hi. unfold AddPeer. destruct (Peers s !! id); cbn; by rewrite lookup_insert_ne. Qed.

(** C28. A registration is all or nothing. Either it is refused, and then all that
    happens to the session is that the connection is forgotten, while the
    connection is closed; or the request named a UUID and a port between 1 and
    65535, the acknowledgement went out on the registering connection, and the
    peer is known under its UUID with the connection's host and the port it named,
    that connection for the commands, and its zone. No other peer changes. *)
Theorem PeerReg_all_or_nothing (env : Env) (data : bytes) (l l' : Link) (s s' : Session)
    (r : option string) :
  PeerReg_register env data l s = (r, l', s') →
  match r with
  | None => closed l' = true ∧ s' = CloseConn (e_conn env) s
  | Some id =>
      ∃ wc host rport, Unmarshal PeerRegReq data = Some wc ∧ pr_UUID wc = id ∧ id ≠ "" ∧
        1 ≤ (Atoi (chars_of (pr_Port wc))).1 ≤ 65535 ∧
        SplitHostPort (e_remote env) = Some (host, rport) ∧
        sent (wire l') = (sent (wire l) ++ frame TypeJSON ready_ack)%list ∧
        (∃ p, Peers s' !! id = Some p ∧ peer_as_registered env wc host p) ∧
        (∀ other, other ≠ id → Peers s' !! other = Peers s !! other)
  end.
Proof.
  unfold PeerReg_register. destruct (Unmarshal PeerRegReq data) as [wc|] eqn:Hu;
    [|by intros ?; simplify_eq].
  destruct (Atoi (chars_of (pr_Port wc))) as [port e] eqn:Ha.
  destruct (_ || _) eqn:Hg; [by intros ?; simplify_eq|].
  destruct (SplitHostPort (e_remote env)) as [[host rport]|] eqn:Hs; [|by intros ?; simplify_eq].
  destruct (send l TypeJSON ready_ack) as [[] l1] eqn:Hl; cbn [negb];
    [|by intros ?; simplify_eq].
  cbn [negb]. intros ?; simplify_eq. zbool.
  exists wc, host, rport. rewrite Ha. apply send_true in Hl as [_ Hw].
  split; [done|]. split; [done|]. split; [by destruct (pr_UUID wc)|]. split; [cbn; lia|].
  split; [done|]. split; [done|]. split.
  - destruct (AddPeer_lookup (pr_UUID wc) (JoinHostPort host (pr_Port wc)) (Some (e_conn env)) s)
      as (p & Hp & Hpa & Hpc & Hpl).
    eexists. unfold SetPeerZone. cbn. rewrite lookup_alter_eq, Hp. split; [done|].
    unfold peer_as_registered. cbn. by rewrite Hpa.
  - intros other Hne. unfold SetPeerZone. cbn. rewrite lookup_alter_ne by done.
    by apply AddPeer_other.
Qed.

(** C29. What the deferred [RemovePeer] does to a peer that reconnects: when a UUID
    registers again on a new connection while the old one is still open, the end of
    the old connection removes the peer, although the new registration was
    acknowledged and is still watched. (client.PeerReg closes the old connection
    only after the new one is acknowledged, so this is the usual order.) *)
Theorem stale_leave_unregisters (env1 env2 : Env) (d1 d2 : bytes) (l1 l1' l2 l2' : Link)
    (s s1 s2 : Session) (id : string) :
  PeerReg_register env1 d1 l1 s = (Some id, l1', s1) →
  PeerReg_register env2 d2 l2 s1 = (Some id, l2', s2) →
  is_Some (Peers s2 !! id) ∧ Peers (PeerReg_leave env1 id l1' s2).2 !! id = None.
Proof.
  intros _ H2. split; [|apply lookup_delete_eq].
  unfold PeerReg_register in H2. repeat case_match; simplify_eq.
  unfold SetPeerZone. cbn. rewrite lookup_alter_eq.
  edestruct AddPeer_lookup as (q & -> & _). by eexists.
Qed.
End registration.

Definition reg_env (c : conn_id) (remote : string) : Env :=
  mkEnv c remote 0 0 [] (∅, ∅, ∅) [] id (λ _, "") (Ok None).

Definition reg_data : bytes := Marshal (mkPeerRegReq "" "peerReg" "9000" "peer-a").

Definition fresh_link : Link := mkLink (mkConn [] None) false.

Lemma PeerReg_all_or_nothing_witness :
  let r := PeerReg_register (reg_env 1 "10.0.0.1:5555") reg_data fresh_link
             (NewGspSession "" "me") in
  r.1.1 = Some "peer-a" ∧ ∃ p, Peers r.2 !! "peer-a" = Some p ∧ connAddr p = "10.0.0.1:9000".
Proof.
  assert (∃ l' s', PeerReg_register (reg_env 1 "10.0.0.1:5555") reg_data fresh_link
             (NewGspSession "" "me") = (Some "peer-a", l', s')) as (l' & s' & Heq).
  { do 2 eexists. vm_compute. reflexivity. }
  cbv zeta. rewrite Heq. split; [done|].
  destruct (PeerReg_all_or_nothing _ _ _ _ _ _ _ Heq)
    as (wc & host & rport & Hu & _ & _ & _ & Hs & _ & (p & Hp & Ha & _) & _).
  exists p. split; [done|]. rewrite Ha.
  vm_compute in Hu, Hs. simplify_eq. by vm_compute.
Defined.

Lemma stale_leave_unregisters_witness :
  ∃ l1 s1 l2 s2,
    PeerReg_register (reg_env 1 "10.0.0.1:5555") reg_data fresh_link (NewGspSession "" "me")
      = (Some "peer-a", l1, s1) ∧
    PeerReg_register (reg_env 2 "10.0.0.1:5556") reg_data fresh_link s1
      = (Some "peer-a", l2, s2) ∧
    closed l2 = false ∧
    Peers (PeerReg_leave (reg_env 1 "10.0.0.1:5555") "peer-a" l1 s2).2 !! "peer-a" = None.
Proof.
  assert (∃ l1 s1 l2 s2,
    PeerReg_register (reg_env 1 "10.0.0.1:5555") reg_data fresh_link (NewGspSession "" "me")
      = (Some "peer-a", l1, s1) ∧
    PeerReg_register (reg_env 2 "10.0.0.1:5556") reg_data fresh_link s1
      = (Some "peer-a", l2, s2) ∧ closed l2 = false) as (l1 & s1 & l2 & s2 & H1 & H2 & Hc).
  { do 4 eexists. split; [vm_compute; reflexivity|]. split; vm_compute; reflexivity. }
  exists l1, s1, l2, s2. split; [exact H1|]. split; [exact H2|]. split; [exact Hc|].
  exact (proj2 (stale_leave_unregisters _ _ _ _ _ _ _ _ _ _ _ _ H1 H2)).
Defined.

(** ** Dispatch *)

(** The operation of a request is read from the same bytes as the request. *)
Lemma operate_of `{Message A} (a : A) op :
  msg_ok a → text "operate" "" (encode a) = Some op →
  Unmarshal BaseJson (Marshal a) = Some (mkBaseJson op).
Proof.
  intros Hok Hop. unfold Unmarshal, Marshal. rewrite of_to_bytes.
  rewrite ParseJson_print by by apply encode_ok. cbn. unfold decode_BaseJson. by rewrite Hop.
Qed.

Lemma operate_GetChunkReq m : text "operate" "" (encode_GetChunkReq m) = Some (gq_Operate m).
Proof. destruct m. unfold encode_GetChunkReq. decode_fields. Qed.
Lemma operate_WantChunkReq m : text "operate" "" (encode_WantChunkReq m) = Some (wq_Operate m).
Proof. destruct m. unfold encode_WantChunkReq. decode_fields. Qed.
Lemma operate_ReportChunkReq m :
  text "operate" "" (encode_ReportChunkReq m) = Some (rq_Operate m).
Proof. destruct m. unfold encode_ReportChunkReq. decode_fields. Qed.
Lemma operate_PeerRegReq m : text "operate" "" (encode_PeerRegReq m) = Some (pr_Operate m).
Proof. destruct m. unfold encode_PeerRegReq. decode_fields. Qed.
Lemma operate_PeerReportReq m :
  text "operate" "" (encode_PeerReportReq m) = Some (pp_Operate m).
Proof. destruct m. unfold encode_PeerReportReq. decode_fields. Qed.

Section dispatch.
Context `{HalfPow}.

Lemma SenderOperation_mux env data l s op handler :
  Unmarshal BaseJson data = Some (mkBaseJson op) → op ≠ "getNodeStatus" → op ≠ "control" →
  Mux op = Some handler → SenderOperation env data l s = handler env data l s.
Proof.
  intros Hu H1 H2 Hm. unfold SenderOperation. rewrite Hu. cbn.
  rewrite decide_False, decide_False, Hm by done. done.
Qed.

(** Every request a client writes reaches its handler with its own content: the
    operation read from the bytes of a [GetChunkReq], [WantChunkReq],
    [ReportChunkReq], [PeerRegReq] or [PeerReportReq] selects the handler of that
    message, and a request of any other name, or that is not JSON, is refused
    without touching the session. *)
Theorem dispatch_correct (env : Env) (l : Link) (s : Session) :
  (∀ i, int_ok i → let m := mkGetChunkReq "getChunk" i in
     SenderOperation env (Marshal m) l s
     = if negb (HasChunk s i)
       then Served (sendJSON l (mkGetChunkResp "对端没有该分块" i false 0)) s
       else served_of (GetChunk_handler env (Marshal m) l s)) ∧
  (∀ m, msg_ok m → wq_Operate m = "wantChunk" →
     SenderOperation env (Marshal m) l s = served_of (WantChunk env (Marshal m) l s)) ∧
  (∀ m, msg_ok m → rq_Operate m = "reportChunk" →
     SenderOperation env (Marshal m) l s = Served l (AddBlockOwner (rq_Index m) (rq_UUID m) s)) ∧
  (∀ m, msg_ok m → pr_Operate m = "peerReg" →
     SenderOperation env (Marshal m) l s
     = match PeerReg_register env (Marshal m) l s with
       | (Some id, l', s') => Watching id l' s'
       | (None, l', s') => Served l' s'
       end) ∧
  (∀ m, msg_ok m → pp_Operate m = "reportPeer" → pp_ProviderUUID m ≠ "" →
     SenderOperation env (Marshal m) l s
     = Served l (UpdatePeer (e_now env) (e_now2 env) (pp_ProviderUUID m) (pp_Speed m)
                   (pp_Status m) (pp_Index m) (pp_UUID m) s)) ∧
  (∀ data, (∀ op, Unmarshal BaseJson data = Some (mkBaseJson op) →
              op ∉ ["getNodeStatus"; "control"; "getChunk"; "getFileStatus"; "wantChunk";
                    "reportChunk"; "peerReg"; "reportPeer"]) →
     SenderOperation env data l s = Refused).
Proof.
  split_and!.
  - intros i Hi m. assert (msg_ok m) as Hm by (by split).
    etransitivity.
    { eapply SenderOperation_mux; [apply operate_of; [exact Hm|apply operate_GetChunkReq]|done|done|reflexivity]. }
    cbv beta. unfold GetChunk_handler. rewrite (Unmarshal_of_Marshal m Hm). cbn.
    by destruct (HasChunk s i).
  - intros m Hm Hop. etransitivity.
    { eapply SenderOperation_mux; [apply operate_of; [exact Hm|etransitivity; [apply operate_WantChunkReq|by rewrite Hop]]|done|done|reflexivity]. }
    done.
  - intros m Hm Hop. etransitivity.
    { eapply SenderOperation_mux; [apply operate_of; [exact Hm|etransitivity; [apply operate_ReportChunkReq|by rewrite Hop]]|done|done|reflexivity]. }
    cbv beta. unfold ReportChunk. by rewrite (Unmarshal_of_Marshal m Hm).
  - intros m Hm Hop. etransitivity.
    { eapply SenderOperation_mux; [apply operate_of; [exact Hm|etransitivity; [apply operate_PeerRegReq|by rewrite Hop]]|done|done|reflexivity]. }
    done.
  - intros m Hm Hop Hp. etransitivity.
    { eapply SenderOperation_mux; [apply operate_of; [exact Hm|etransitivity; [apply operate_PeerReportReq|by rewrite Hop]]|done|done|reflexivity]. }
    cbv beta. unfold PeerReport. rewrite (Unmarshal_of_Marshal m Hm). cbn.
    by rewrite (proj2 (is_empty_false _)).
  - intros data Hnot. unfold SenderOperation. destruct (Unmarshal BaseJson data) as [[op]|]; [|done].
    specialize (Hnot op eq_refl). cbn. set_unfold in Hnot. unfold Mux.
    repeat (rewrite decide_False by tauto). done.
Qed.
End dispatch.
