(* ===== verification/Client.v ===== *)
(** * The client of a node

    internal/gsp_sdk/client: the requests a receiver makes. The connection
    borrowed from the pool is its writing side and the bytes that will arrive;
    each call also says what it does with the connection in the end. *)

From S2P Require Import Prelude Text Codec Chunk Float64 Net Json Model Session.
From S2P Require Import Scheduler Handle.
Local Open Scope string_scope.
Local Open Scope Z_scope.

(** internal/gsp_sdk/client/sdk.go:12-16 [controlState] *)
Record controlState : Type := mkControlState { ctl_conn : option conn_id; peerID : string }.

(** The pools and the context are arguments of the calls that use them.
    internal/gsp_sdk/client/sdk.go:17-25 [GspSdk] *)
Record GspSdk : Type := mkGspSdk {
  srvAddr : string;
  ctl : controlState;
  sdk_zone : string;
}.

(** internal/gsp_sdk/client/sdk.go:27-36 [NewGspSdk] *)
Definition NewGspSdk (address : string) (identity : list string) : GspSdk :=
  mkGspSdk address (mkControlState None (nth 0 identity "")) (nth 1 identity "").

(** The connection to close, and the client without it.
    internal/gsp_sdk/client/sdk.go:38-46 [GspSdk.Close] *)
Definition Close (g : GspSdk) : option conn_id * GspSdk :=
  (ctl_conn (ctl g),
   mkGspSdk (srvAddr g) (mkControlState None (peerID (ctl g))) (sdk_zone g)).

Inductive client_error : Type :=
| ErrBorrow
| ErrSend
| ErrCodec (e : Codec.error)
| ErrJSON
| ErrRemote (text : string)
| ErrMetadata
| ErrUnavailable
| ErrCRC
| ErrSave (e : Chunk.error)
| ErrOtherIndex
| ErrDial
| ErrRefused
| ErrNotSender.

(** A connection in use: what it writes to, and what is still to be read. *)
Record Stream : Type := mkStream { up : Link; down : bytes }.

(** What [finish] does with the borrowed connection: back to the pool, or away.
    internal/gsp_sdk/client/receiver.go:31-38 [GspSdk.borrow] *)
Inductive finish : Type := FinishNone | FinishPut (c : Stream) | FinishDiscard (c : Stream).

Definition finish_with (ok : bool) (c : Stream) : finish :=
  if ok then FinishPut c else FinishDiscard c.

(** One request and its answer; [decode_out] is [json.Unmarshal] into [out].
    internal/gsp_sdk/client/receiver.go:40-69 [GspSdk.exchange] *)
Definition exchange {A} (borrowed : option Stream) (payload : bytes)
    (decode_out : bytes → option A) : res client_error A * finish :=
  match borrowed with
  | None => (Err ErrBorrow, FinishNone)
  | Some c =>
      let '(sent, l) := send (up c) TypeJSON payload in
      let c1 := mkStream l (down c) in
      if negb sent then (Err ErrSend, finish_with false c1) else
      match DecodeBounded (down c1) (64 * 1024) (4 * 1024 * 1024) with
      | (Err e, r) => (Err (ErrCodec e), finish_with false (mkStream l r))
      | (Ok p, r) =>
          let c2 := mkStream l r in
          if negb (Type_ p =? TypeJSON) then (Err (ErrCodec ErrInvalidType), finish_with false c2)
          else match decode_out (Payload p) with
               | None => (Err ErrJSON, finish_with false c2)
               | Some a => (Ok a, finish_with true c2)
               end
      end
  end.

(** A request without an answer ([out == nil]).
    internal/gsp_sdk/client/receiver.go:40-69 [GspSdk.exchange] *)
Definition exchange_nil (borrowed : option Stream) (payload : bytes)
    : res client_error unit * finish :=
  match borrowed with
  | None => (Err ErrBorrow, FinishNone)
  | Some c =>
      let '(sent, l) := send (up c) TypeJSON payload in
      let c1 := mkStream l (down c) in
      if negb sent then (Err ErrSend, finish_with false c1) else (Ok tt, finish_with true c1)
  end.

(** The checks on the metadata of a file.
    internal/gsp_sdk/client/receiver.go:75-80 [GspSdk.GetFileStatus] *)
Definition check_status (r : GetFileStatusResp) : res client_error GetFileStatusResp :=
  if negb (is_empty (fs_Error r)) then Err (ErrRemote (fs_Error r))
  else if is_empty (fs_FileName r) || (fs_FileSize r <? 0)
          || negb (fs_ChunkSize r =? ChunkSize)
          || negb (fs_ChunkNum r =?
                   Z.quot (int64 (int64 (fs_FileSize r + fs_ChunkSize r) - 1)) (fs_ChunkSize r))
  then Err ErrMetadata
  else Ok r.

(** internal/gsp_sdk/client/receiver.go:70-82 [GspSdk.GetFileStatus] *)
Definition GetFileStatus (borrowed : option Stream) : res client_error GetFileStatusResp * finish :=
  let '(r, f) := exchange borrowed (Marshal (mkBaseJson "getFileStatus"))
                   (Unmarshal GetFileStatusResp) in
  (res_bind r check_status, f).

(** Fetch chunk [i] into [ck]: the payload and its checksum (the copy [GetChunk]
    returns is the payload). [fail] is a disk failing while the chunk is saved.
    internal/gsp_sdk/client/receiver.go:94-144 [GspSdk.fetch] *)
Definition fetch (borrowed : option Stream) (i : Z) (fs : Files) (ck : FileChunk)
    (fail : option nat) : res client_error (bytes * Z) * finish * Files :=
  match borrowed with
  | None => (Err ErrBorrow, FinishNone, fs)
  | Some c =>
      let '(sent, l) := send (up c) TypeJSON (Marshal (mkGetChunkReq "getChunk" i)) in
      if negb sent then (Err ErrSend, finish_with false (mkStream l (down c)), fs) else
      match Decode (down c) 4096 with
      | (Err e, r) => (Err (ErrCodec e), finish_with false (mkStream l r), fs)
      | (Ok p, r) =>
          let stop e := (Err e, finish_with false (mkStream l r), fs) in
          if negb (Type_ p =? TypeJSON) then stop (ErrCodec ErrInvalidType) else
          match Unmarshal GetChunkResp (Payload p) with
          | None => stop ErrJSON
          | Some info =>
              if negb (is_empty (gr_Error info)) then stop (ErrRemote (gr_Error info)) else
              if negb (gr_Status info) || negb (gr_Index info =? i) then stop ErrUnavailable else
              match Decode r ChunkSize with
              | (Err e, r2) => (Err (ErrCodec e), finish_with false (mkStream l r2), fs)
              | (Ok p2, r2) =>
                  let c2 := mkStream l r2 in
                  if negb (Type_ p2 =? TypeFileChunk)
                  then (Err (ErrCodec ErrInvalidType), finish_with false c2, fs) else
                  let checksum := ChecksumIEEE (Payload p2) in
                  if negb (checksum =? gr_CheckSum info)
                  then (Err ErrCRC, finish_with false c2, fs) else
                  match Save fs ck i (Payload p2) fail with
                  | (Some e, fs') => (Err (ErrSave e), finish_with false c2, fs')
                  | (None, fs') => (Ok (Payload p2, checksum), finish_with true c2, fs')
                  end
              end
          end
      end
  end.

(** internal/gsp_sdk/client/receiver.go:85-87 [GspSdk.FetchChunk] *)
Definition FetchChunk (borrowed : option Stream) (i : Z) (fs : Files) (ck : FileChunk)
    (fail : option nat) : res client_error (Z * Z) * finish * Files :=
  let '(r, f, fs') := fetch borrowed i fs ck fail in
  (match r with Ok (b, sum) => Ok (zlen b, sum) | Err e => Err e end, f, fs').

(** internal/gsp_sdk/client/receiver.go:145-147 [GspSdk.ReportChunk] *)
Definition ReportChunk (borrowed : option Stream) (id : string) (i : Z)
    : res client_error unit * finish :=
  exchange_nil borrowed (Marshal (mkReportChunkReq "reportChunk" i id)).

(** internal/gsp_sdk/client/receiver.go:148-162 [GspSdk.WantChunk] *)
Definition WantChunk (g : GspSdk) (borrowed : option Stream) (i : Z) (want : option Z)
    : res client_error WantChunkResp * finish :=
  let n := default SchedMaxSourcesPerWant want in
  let '(r, f) := exchange borrowed
    (Marshal (mkWantChunkReq (sdk_zone g) n (peerID (ctl g)) "wantChunk" i))
    (Unmarshal WantChunkResp) in
  (match r with
   | Ok out => if wr_Index out =? i then Ok out else Err ErrOtherIndex
   | Err e => Err e
   end, f).

(** [struct{ Ready bool }] of a registration's answer. *)
Definition decode_ready (payload : bytes) : option bool :=
  ParseJson (of_bytes payload) ≫= flag "ready" false.

(** [dialled]: the new connection and its stream. The result is the client with
    the connection as its control connection, and the old one to close; or an
    error, and the new one closed.
    internal/gsp_sdk/client/receiver.go:163-197 [GspSdk.PeerReg] *)
Definition PeerReg (g : GspSdk) (dialled : option (conn_id * Stream)) (port : Z) (id : string)
    : res client_error (Stream * option conn_id * GspSdk) :=
  match dialled with
  | None => Err ErrDial
  | Some (c, st) =>
      let '(sent, l) := send (up st) TypeJSON
        (Marshal (mkPeerRegReq (sdk_zone g) "peerReg" (string_of (FormatInt port)) id)) in
      if negb sent then Err ErrSend else
      match Decode (down st) 1024 with
      | (Err e, _) => Err (ErrCodec e)
      | (Ok p, r) =>
          match decode_ready (Payload p) with
          | Some true =>
              if negb (Type_ p =? TypeJSON) then Err ErrRefused else
              Ok (mkStream l r, ctl_conn (ctl g),
                  mkGspSdk (srvAddr g) (mkControlState (Some c) id) (sdk_zone g))
          | _ => Err ErrRefused
          end
      end
  end.

(** What the control connection brings. *)
Inductive event : Type := OnPush (p : PushStart) | OnControl (m : ControlMsg) | OnDown.

(** The events of one packet.
    internal/gsp_sdk/client/receiver.go:222-231 [GspSdk.WatchControl] *)
Definition packet_events (has_push has_control : bool) (p : Packet) : list event :=
  if negb (Type_ p =? TypeJSON) then [] else
  (match Unmarshal PushStart (Payload p) with
   | Some push => if bool_decide (ps_Operate push = "pushStart") && has_push
                  then [OnPush push] else []
   | None => []
   end)
  ++ (match Unmarshal ControlMsg (Payload p) with
      | Some msg => if negb (is_empty (cm_Cmd msg)) && has_control then [OnControl msg] else []
      | None => []
      end)%list.

(** Every packet takes at least five bytes: the bytes bound the loop.
    internal/gsp_sdk/client/receiver.go:216-232 [GspSdk.WatchControl] *)
Fixpoint watch_loop (fuel : nat) (has_push has_control : bool) (r : bytes) : list event :=
  match fuel with
  | O => []
  | S fuel' =>
      match Decode r 4096 with
      | (Err _, _) => []
      | (Ok p, r') => (packet_events has_push has_control p
                       ++ watch_loop fuel' has_push has_control r')%list
      end
  end.

(** internal/gsp_sdk/client/receiver.go:201-233 [GspSdk.WatchControl] *)
Definition WatchControl (g : GspSdk) (has_push has_control has_down : bool) (r : bytes)
    : list event :=
  let fin := if has_down then [OnDown] else [] in
  match ctl_conn (ctl g) with
  | None => fin
  | Some _ => (watch_loop (S (length r)) has_push has_control r ++ fin)%list
  end.

(** internal/gsp_sdk/client/receiver.go:234-236 [GspSdk.ReportPeer] *)
Definition ReportPeer (borrowed : option Stream) (id provider : string) (speed : Z)
    (status : string) (index : Z) : res client_error unit * finish :=
  exchange_nil borrowed
    (Marshal (mkPeerReportReq "reportPeer" id provider status speed index)).

(** [struct{ Value json.RawMessage; Error string }] *)
Definition decode_call (payload : bytes) : option (option json * string) :=
  j ← ParseJson (of_bytes payload);
  e ← text "error" "" j;
  v ← field_raw "value" j;
  Some (v, e).

(** internal/gsp_sdk/client/receiver.go:237-256 [GspSdk.Call] *)
Definition Call (borrowed : option Stream) (method token : string) (payload : json)
    : res client_error (option json) * finish :=
  let '(r, f) := exchange borrowed
    (to_bytes (print_json (encode_ControlRequest
       (mkControlRequest "control" method token payload)))) decode_call in
  (match r with
   | Ok (v, e) => if negb (is_empty e) then Err (ErrRemote e) else Ok v
   | Err e => Err e
   end, f).

(** internal/gsp_sdk/client/receiver.go:258-264 [GspSdk.GetNodeStatus] *)
Definition GetNodeStatus (borrowed : option Stream) : res client_error NodeStatusMsg * finish :=
  let '(r, f) := exchange borrowed (Marshal (mkBaseJson "getNodeStatus"))
                   (Unmarshal NodeStatusMsg) in
  (match r with
   | Ok n => if negb (ns_Sender n) || is_empty (ns_UUID n) then Err ErrNotSender else Ok n
   | Err e => Err e
   end, f).

(** ** What a fetch guarantees *)

(** A fetch that succeeds. *)
Lemma fetch_Ok borrowed i fs ck fail b sum f fs' :
  fetch borrowed i fs ck fail = (Ok (b, sum), f, fs') →
  sum = ChecksumIEEE b ∧ Save fs ck i b fail = (None, fs') ∧ (∃ c, f = FinishPut c) ∧
  ∃ c p r r2 info, borrowed = Some c ∧
    Decode (down c) 4096 = (Ok p, r) ∧ Unmarshal GetChunkResp (Payload p) = Some info ∧
    gr_Status info = true ∧ gr_Index info = i ∧ gr_CheckSum info = sum ∧
    Decode r ChunkSize = (Ok (mkPacket TypeFileChunk (zlen b) b), r2).
Proof.
  unfold fetch. intros Hf. destruct borrowed as [c|]; [|done].
  destruct (send _ _ _) as [[] l]; cbn [negb] in Hf; [|done].
  destruct (Decode (down c) 4096) as [[p|e] r] eqn:Hd; [|done].
  destruct (Type_ p =? TypeJSON); cbn [negb] in Hf; [|done].
  destruct (Unmarshal GetChunkResp (Payload p)) as [info|] eqn:Hu; [|done].
  destruct (is_empty (gr_Error info)); cbn [negb] in Hf; [|done].
  destruct (negb _ || negb _) eqn:Hg; [done|].
  pose proof (Decode_decoded r ChunkSize ltac:(pose proof ChunkSize_pos; lia)) as Hdec.
  destruct (Decode r ChunkSize) as [[[ty n b']|e] r2] eqn:Hd2; [|done].
  cbn [Type_ Payload] in Hf. destruct (Z.eqb_spec ty TypeFileChunk) as [->|]; cbn [negb] in Hf; [|done].
  destruct (Z.eqb_spec (ChecksumIEEE b') (gr_CheckSum info)) as [Hsum|]; cbn [negb] in Hf; [|done].
  destruct (Save fs ck i b' fail) as [[e|] fs1] eqn:Hs; [done|]. simplify_eq. zbool.
  split; [done|]. split; [done|]. split; [eexists; done|].
  exists c, p, r, r2, info. split_and!; try done.
  cbn in Hdec. destruct Hdec as (? & ? & Hn & _). by rewrite Hd2, Hn.
Qed.

Definition borrowed_back (f : finish) : Prop := ∃ c, f = FinishPut c.

(** A fetch that fails. *)
Lemma fetch_Err borrowed i fs ck fail e f fs' :
  fetch borrowed i fs ck fail = (Err e, f, fs') →
  ¬ borrowed_back f ∧
  (fs' = fs ∨ ∃ b x, e = ErrSave x ∧ Save fs ck i b fail = (Some x, fs')).
Proof.
  unfold fetch. intros Hf.
  assert (∀ c (g : Files), (e, f, fs') = (e, finish_with false c, g) →
    ¬ borrowed_back f) as Hfin by (intros c g ?; simplify_eq; by intros [? ?]).
  destruct borrowed as [c|]; [|simplify_eq; split; [by intros [? ?]|auto]].
  destruct (send _ _ _) as [[] l]; cbn [negb] in Hf; [|simplify_eq; eauto].
  destruct (Decode (down c) 4096) as [[p|e1] r] eqn:Hd; [|simplify_eq; eauto].
  destruct (Type_ p =? TypeJSON); cbn [negb] in Hf; [|simplify_eq; eauto].
  destruct (Unmarshal GetChunkResp (Payload p)) as [info|] eqn:Hu; [|simplify_eq; eauto].
  destruct (is_empty (gr_Error info)); cbn [negb] in Hf; [|simplify_eq; eauto].
  destruct (negb _ || negb _) eqn:Hg; [simplify_eq; eauto|].
  destruct (Decode r ChunkSize) as [[p2|e2] r2] eqn:Hd2; [|simplify_eq; eauto].
  destruct (Type_ p2 =? TypeFileChunk); cbn [negb] in Hf; [|simplify_eq; eauto].
  destruct (ChecksumIEEE (Payload p2) =? gr_CheckSum info); cbn [negb] in Hf;
    [|simplify_eq; eauto].
  destruct (Save fs ck i (Payload p2) fail) as [[x|] fs1] eqn:Hs; [|done].
  simplify_eq. eauto 10.
Qed.

Lemma chunk_bytes_at data j k :
  0 ≤ j → chunk_bytes data j !! k =
    if decide (Z.of_nat k < ChunkSize) then data !! (Z.to_nat (j * ChunkSize) + k)%nat else None.
Proof.
  intros Hj. unfold chunk_bytes, zslice. pose proof ChunkSize_pos. case_decide.
  - rewrite lookup_take_lt by lia. by rewrite lookup_drop.
  - apply lookup_take_ge. lia.
Qed.

(** Writing a whole chunk replaces that chunk and no other. *)
Lemma chunk_bytes_patch data i b :
  0 ≤ i → i * ChunkSize < zlen data →
  zlen b = Z.min ChunkSize (zlen data - i * ChunkSize) →
  chunk_bytes (patch (i * ChunkSize) b data) i = b ∧
  ∀ j, 0 ≤ j → j ≠ i → chunk_bytes (patch (i * ChunkSize) b data) j = chunk_bytes data j.
Proof.
  intros Hi Hs Hb. pose proof ChunkSize_pos.
  assert (0 ≤ i * ChunkSize) by (apply Z.mul_nonneg_nonneg; lia). split.
  - apply list_eq. intros k. rewrite chunk_bytes_at by done. rewrite patch_lookup by lia.
    unfold zlen in *. case_decide.
    + case_decide; [f_equal; lia|].
      rewrite (lookup_ge_None_2 b) by lia. apply lookup_ge_None_2. lia.
    + symmetry. apply lookup_ge_None_2. lia.
  - intros j Hj Hne. apply list_eq. intros k. rewrite !chunk_bytes_at by done.
    case_decide; [|done]. rewrite patch_lookup by lia. rewrite decide_False; [done|].
    assert (0 ≤ j * ChunkSize) by (apply Z.mul_nonneg_nonneg; lia).
    intros Hin. apply Hne. rewrite Nat2Z.inj_add, Z2Nat.id in Hin by done. nia.
Qed.

(** C6. A fetch writes only what it verified. When it succeeds, the bytes received
    have the announced checksum, they are exactly chunk [i] of the file afterwards,
    no other chunk and no other file changed, and the connection goes back to the
    pool. When it fails, the connection is thrown away, and the files are untouched
    unless the disk itself failed while the verified chunk was being written. *)
Theorem fetch_verified (borrowed : option Stream) (i : Z) (fs fs' : Files) (ck : FileChunk)
    (h : fd) (f : OsFile) (fail : option nat) (r : res client_error (bytes * Z)) (fin : finish) :
  chunk_wf fs ck h f →
  fetch borrowed i fs ck fail = (r, fin, fs') →
  match r with
  | Ok (b, sum) =>
      sum = ChecksumIEEE b ∧ 0 ≤ i < GetChunkNum ck ∧ borrowed_back fin ∧
      ∃ data, fs' = <[h := with_data f data]> fs ∧ length data = length (f_data f) ∧
        chunk_bytes data i = b ∧
        ∀ j, 0 ≤ j → j ≠ i → chunk_bytes data j = chunk_bytes (f_data f) j
  | Err e =>
      ¬ borrowed_back fin ∧ (e ≠ ErrSave ErrDisk → fs' = fs)
  end.
Proof.
  intros Hwf Hf. destruct r as [[b sum]|e].
  - apply fetch_Ok in Hf as (Hsum & Hs & Hfin & _).
    assert (0 ≤ i < GetChunkNum ck) as Hi.
    { destruct (decide (0 ≤ i < GetChunkNum ck)); [done|].
      rewrite Save_out in Hs by lia. done. }
    split; [done|]. split; [done|]. split; [done|].
    rewrite (Save_in _ _ _ _ _ _ _ Hwf Hi) in Hs. cbv zeta in Hs.
    destruct (Z.eqb_spec (zlen b) (Z.min ChunkSize (zlen (f_data f) - i * ChunkSize)))
      as [Hlen|]; cbn [negb] in Hs; [|done].
    destruct fail as [k|]; [done|]. injection Hs as <-.
    rewrite (GetChunkNum_count _ _ _ _ Hwf), chunk_count_range in Hi by apply zlen_nonneg.
    destruct (chunk_bytes_patch (f_data f) i b) as [H1 H2]; [lia|lia|done|].
    assert (0 ≤ i * ChunkSize) by (apply Z.mul_nonneg_nonneg; pose proof ChunkSize_pos; lia).
    exists (patch (i * ChunkSize) b (f_data f)). split_and!; try done.
    apply patch_length; lia.
  - apply fetch_Err in Hf as [Hfin Hfs]. split; [done|]. intros Hne.
    destruct Hfs as [->|(b & x & -> & Hs)]; [done|].
    destruct (decide (0 ≤ i < GetChunkNum ck)) as [Hi|Hi].
    + rewrite (Save_in _ _ _ _ _ _ _ Hwf Hi) in Hs. cbv zeta in Hs.
      destruct (negb _); [by simplify_eq|]. destruct fail; by simplify_eq.
    + rewrite Save_out in Hs by lia. by simplify_eq.
Qed.

(** ** The two ends together *)

Lemma zlen_to_bytes l : zlen (to_bytes l) = zlen l.
Proof. unfold zlen, to_bytes. by rewrite List.length_map. Qed.

Lemma print_member_length k j :
  length (print_member (k, j)) = (length (print_string k) + 1 + length (print_json j))%nat.
Proof. unfold print_member. rewrite length_app. cbn [length fst snd]. lia. Qed.

Lemma chunk_resp_small i c :
  int_ok i → crc_ok c → zlen (Marshal (mkGetChunkResp "" i true c)) ≤ 4096.
Proof.
  intros Hi [Hc1 Hc2]. unfold Marshal. rewrite zlen_to_bytes.
  pose proof (FormatInt_length i Hi) as H1.
  assert (in_int64 c = true) as Hc by (apply in_int64_spec; zlia).
  pose proof (FormatInt_length c Hc) as H2.
  change (print_json _) with ("{"%char :: (print_member ("index", jint i) ++ ","%char ::
    (print_member ("status", JBool true) ++ ","%char ::
     print_member ("checkSum", jint c))) ++ ["}"%char])%list.
  unfold zlen. cbn [length]. rewrite !length_app. cbn [length]. rewrite !length_app.
  cbn [length]. rewrite !print_member_length.
  change (length (print_string "index")) with 7%nat.
  change (length (print_string "status")) with 8%nat.
  change (length (print_string "checkSum")) with 10%nat.
  change (print_json (jint i)) with (FormatInt i). change (print_json (jint c)) with (FormatInt c).
  change (length (print_json (JBool true))) with 4%nat. lia.
Qed.

Lemma chunk_bytes_zlen data i : 0 ≤ i → zlen (chunk_bytes data i) ≤ ChunkSize.
Proof.
  intros Hi. unfold chunk_bytes, zslice, zlen. rewrite length_take. pose proof ChunkSize_pos. lia.
Qed.

Lemma uint32_ChunkSize : uint32 ChunkSize = ChunkSize.
Proof. rewrite ChunkSize_val. reflexivity. Qed.

(** What the server writes for a chunk it has. *)
Lemma GetChunk_upload_sends env ck h f i l s :
  chunk_wf (e_fs env).1.2 ck h f → chunkProvider s = ck → 0 ≤ i < GetChunkNum ck →
  (isMain s = true → Unchanged (e_fs env).1.1 ck = true ∧ Unchanged (e_fs env).2 ck = true) →
  closed l = false → room (wire l) = None →
  let b := chunk_bytes (f_data f) i in
  GetChunk_upload env ck i l s =
    (mkLink (mkConn (((sent (wire l)
        ++ frame TypeJSON (Marshal (mkGetChunkResp "" i true (ChecksumIEEE b))))
        ++ frame TypeFileChunk b)%list) None) false,
     ReleaseUploadSlot (e_others env s)).
Proof.
  intros Hwf Hck Hi Hmain Hcl Hroom b. unfold GetChunk_upload.
  destruct (e_fs env) as [[fs1 fs2] fs3]. cbn in Hwf, Hmain.
  assert (Session.ReadChunk fs1 fs2 fs3 s i (GetChunkSize ck) = Ok b) as ->.
  { unfold Session.ReadChunk. rewrite Hck.
    rewrite (ReadChunk_in _ _ _ _ _ _ Hwf Hi). destruct Hwf as [? ? ? ? Hc ?].
    unfold GetChunkSize. rewrite Hc, (proj2 (Z.ltb_ge _ _)) by (apply chunk_bytes_zlen; lia).
    destruct (isMain s); [|done]. by destruct Hmain as [-> ->]. }
  rewrite send_open by done. cbn [wire closed]. by rewrite send_open.
Qed.

(** C2. A transfer works end to end. The bytes a server with an open file writes
    when it serves chunk [i] make the client's fetch succeed with exactly chunk [i]
    of the server's file, whatever follows on the connection: afterwards that is
    the client's chunk [i] too, and the connection returns to the pool with the
    rest unread. *)
Theorem transfer_end_to_end (env : Env) (ck ck' : FileChunk) (h h' : fd) (f f' : OsFile)
    (i : Z) (l up : Link) (s : Session) (fs' : Files) (rest : bytes) :
  chunk_wf (e_fs env).1.2 ck h f → chunkProvider s = ck → 0 ≤ i < GetChunkNum ck →
  (isMain s = true → Unchanged (e_fs env).1.1 ck = true ∧ Unchanged (e_fs env).2 ck = true) →
  closed l = false → wire l = mkConn [] None → closed up = false → room (wire up) = None →
  chunk_wf fs' ck' h' f' → zlen (f_data f') = zlen (f_data f) →
  let out := sent (wire (GetChunk_upload env ck i l s).1) in
  let b := chunk_bytes (f_data f) i in
  ∃ up' data,
    fetch (Some (mkStream up (out ++ rest)%list)) i fs' ck' None
    = (Ok (b, ChecksumIEEE b), FinishPut (mkStream up' rest), <[h' := with_data f' data]> fs') ∧
    closed up' = false ∧ chunk_bytes data i = b.
Proof.
  intros Hwf Hck Hi Hmain Hcl Hwire Hup Hroom Hwf' Hlen out b.
  assert (out = (frame TypeJSON (Marshal (mkGetChunkResp "" i true (ChecksumIEEE b)))
                 ++ frame TypeFileChunk b)%list) as ->.
  { subst out. rewrite (GetChunk_upload_sends _ _ _ _ _ _ _ Hwf Hck Hi Hmain Hcl)
      by (by rewrite Hwire). rewrite Hwire. done. }
  pose proof (GetChunkNum_count _ _ _ _ Hwf) as Hn.
  pose proof (GetChunkNum_count _ _ _ _ Hwf') as Hn'.
  assert (0 ≤ i < GetChunkNum ck') as Hi' by congruence.
  assert (0 ≤ i ∧ i * ChunkSize < zlen (f_data f)) as [Hi0 Hi1].
  { apply chunk_count_range; [apply zlen_nonneg|congruence]. }
  assert (int_ok i) as Hint.
  { apply in_int64_spec. pose proof ChunkSize_pos. destruct Hwf as [? ? ? ? ? Hb]. unfold int64_min, int64_max in *. nia. }
  pose proof (ChecksumIEEE_range b) as Hcrc.
  assert (msg_ok (mkGetChunkResp "" i true (ChecksumIEEE b))) as Hok by (by split_and!).
  pose proof (zlen_chunk_bytes _ _ Hi0 Hi1) as Hb. fold b in Hb.
  pose proof (chunk_bytes_zlen (f_data f) i Hi0) as Hbs. fold b in Hbs.
  pose proof (chunk_resp_small i _ Hint Hcrc) as Hsmall.
  unfold fetch. rewrite send_open by done. cbn [negb down].
  rewrite <-app_assoc, Decode_frame; [|done|lia|lia|exact Hsmall].
  cbn [Type_ Payload]. rewrite Z.eqb_refl. cbn [negb].
  rewrite (Unmarshal_of_Marshal _ Hok). cbn [gr_Error gr_Status gr_Index gr_CheckSum is_empty negb].
  rewrite Z.eqb_refl. cbn [negb orb].
  rewrite Decode_frame; [|done|rewrite ChunkSize_val in Hbs; lia|pose proof ChunkSize_pos; lia|
    by rewrite uint32_ChunkSize].
  cbn [Type_ Payload]. rewrite Z.eqb_refl, Z.eqb_refl. cbn [negb].
  rewrite (Save_in _ _ _ _ _ _ _ Hwf' Hi'). cbv zeta. rewrite Hlen, <-Hb, Z.eqb_refl. cbn [negb].
  do 2 eexists. split; [done|]. split; [done|].
  destruct (chunk_bytes_patch (f_data f') i b) as [H1 _]; [done|lia|lia|done].
Qed.

Definition demo_src : OsFile := mkFile "a.bin" [Byte.x61; Byte.x62] 0 0 true.
Definition demo_dst : OsFile := mkFile "a.part" [Byte.x00; Byte.x00] 0 0 true.
Definition demo_fs : Files := {[1%positive := demo_src; 2%positive := demo_dst]}.
Definition demo_ck : FileChunk := NewFileChunk demo_fs 1%positive.
Definition demo_ck' : FileChunk := NewFileChunk demo_fs 2%positive.
Definition demo_env : Env :=
  mkEnv 1%positive "10.0.0.1:5555" 0 0 [] (demo_fs, demo_fs, demo_fs) [] id (λ _, "") (Ok None).
Definition demo_session : Session :=
  set_isMain true (set_chunkProvider demo_ck (NewGspSession "" "me")).

Lemma demo_wf : chunk_wf demo_fs demo_ck 1%positive demo_src.
Proof. apply NewFileChunk_wf; [reflexivity|vm_compute; discriminate]. Qed.
Lemma demo_wf' : chunk_wf demo_fs demo_ck' 2%positive demo_dst.
Proof. apply NewFileChunk_wf; [reflexivity|vm_compute; discriminate]. Qed.

Lemma transfer_end_to_end_witness :
  ∃ up' data,
    fetch (Some (mkStream fresh_link
      (sent (wire (GetChunk_upload demo_env demo_ck 0 fresh_link demo_session).1) ++ [])%list))
      0 demo_fs demo_ck' None
    = (Ok (chunk_bytes (f_data demo_src) 0, ChecksumIEEE (chunk_bytes (f_data demo_src) 0)),
       FinishPut (mkStream up' []), <[2%positive := with_data demo_dst data]> demo_fs) ∧
    closed up' = false ∧ chunk_bytes data 0 = chunk_bytes (f_data demo_src) 0.
Proof.
  apply (transfer_end_to_end demo_env demo_ck demo_ck' 1%positive 2%positive demo_src demo_dst
           0 fresh_link fresh_link demo_session demo_fs []); try reflexivity.
  - exact demo_wf.
  - split; [discriminate|reflexivity].
  - intros _. split; reflexivity.
  - exact demo_wf'.
Defined.

(** A peer that answers with other bytes than it announced. *)
Definition demo_bad : bytes :=
  (frame TypeJSON (Marshal (mkGetChunkResp "" 0 true 7)) ++ frame TypeFileChunk [Byte.x61; Byte.x62])%list.

Lemma fetch_verified_witness :
  let out := fetch (Some (mkStream fresh_link demo_bad)) 0 demo_fs demo_ck' None in
  out.1.1 = Err ErrCRC ∧ ¬ borrowed_back out.1.2 ∧ out.2 = demo_fs.
Proof.
  assert (∃ fin fs', fetch (Some (mkStream fresh_link demo_bad)) 0 demo_fs demo_ck' None
                     = (Err ErrCRC, fin, fs')) as (fin & fs' & Heq).
  { do 2 eexists. vm_compute. reflexivity. }
  cbv zeta. rewrite Heq. split; [reflexivity|].
  destruct (fetch_verified _ _ _ _ _ _ _ _ _ _ demo_wf' Heq) as [Hf Hs].
  split; [exact Hf|]. apply Hs. discriminate.
Defined.
