(* ===== verification/Paths.v ===== *)
(** * Slash-separated paths

    What the sources use of the standard packages [path] and [path/filepath] on
    Unix, where the two agree: [Clean], [Dir], [Base], [Join], [Rel], [IsAbs].
    The elements of a path are the texts between the slashes. *)

From S2P Require Import Prelude Text.
Local Open Scope Z_scope.

Definition slash : ascii := "/"%char.

(** [strings.Split(p, "/")]: never empty. *)
Fixpoint split_slash (l : chars) : list chars :=
  match l with
  | [] => [[]]
  | c :: l' =>
      if Ascii.eqb c slash then [] :: split_slash l'
      else match split_slash l' with
           | x :: xs => (c :: x) :: xs
           | [] => [[c]]
           end
  end.

(** [strings.Join(elems, "/")]. *)
Fixpoint join_slash (elems : list chars) : chars :=
  match elems with
  | [] => []
  | [x] => x
  | x :: xs => x ++ slash :: join_slash xs
  end.

Definition dot : chars := ["."%char].
Definition dotdot : chars := ["."; "."]%char.

Definition IsAbs (p : chars) : bool :=
  match p with c :: _ => Ascii.eqb c slash | [] => false end.

(** One element of the loop of [Clean]; the stack is the reversed output. *)
Definition clean_step (rooted : bool) (stack : list chars) (e : chars) : list chars :=
  if decide (e = []) then stack
  else if decide (e = dot) then stack
  else if decide (e = dotdot) then
    match stack with
    | x :: stack' => if decide (x = dotdot) then e :: stack else stack'
    | [] => if rooted then [] else [e]
    end
  else e :: stack.

Definition clean_elems (rooted : bool) (elems : list chars) : list chars :=
  rev (foldl (clean_step rooted) [] elems).

(** [path.Clean]. *)
Definition Clean (p : chars) : chars :=
  match p with
  | [] => dot
  | _ =>
      let out := clean_elems (IsAbs p) (split_slash p) in
      if IsAbs p then slash :: join_slash out
      else match out with [] => dot | _ => join_slash out end
  end.

(** [path.Dir]: what precedes the last slash, cleaned. *)
Definition Dir (p : chars) : chars :=
  match last_index slash p with
  | Some i => Clean (take (S i) p)
  | None => dot
  end.

Fixpoint drop_trailing (c : ascii) (l : chars) : chars :=
  match l with
  | [] => []
  | x :: l' =>
      match drop_trailing c l' with
      | [] => if Ascii.eqb x c then [] else [x]
      | t => x :: t
      end
  end.

(** [filepath.Base]. *)
Definition Base (p : chars) : chars :=
  match p with
  | [] => dot
  | _ =>
      match drop_trailing slash p with
      | [] => [slash]
      | q => match last_index slash q with Some i => drop (S i) q | None => q end
      end
  end.

(** [filepath.Join(a, b)]. *)
Definition Join (a b : chars) : chars :=
  match a, b with
  | [], [] => []
  | [], _ => Clean b
  | _, _ => Clean (a ++ slash :: b)
  end.

(** The elements of a cleaned path: none for the root and for ["."]. *)
Definition elems_of (p : chars) : list chars :=
  if decide (p = dot) then [] else filter (λ e, e ≠ []) (split_slash p).

Fixpoint strip_common (a b : list chars) : list chars * list chars :=
  match a, b with
  | x :: a', y :: b' => if decide (x = y) then strip_common a' b' else (a, b)
  | _, _ => (a, b)
  end.

(** [filepath.Rel]: [None] is the error. *)
Definition Rel (basepath targpath : chars) : option chars :=
  let base := Clean basepath in
  let targ := Clean targpath in
  if decide (targ = base) then Some dot else
  if negb (Bool.eqb (IsAbs base) (IsAbs targ)) then None else
  let '(b, t) := strip_common (elems_of base) (elems_of targ) in
  match b with
  | x :: _ => if decide (x = dotdot) then None
              else Some (join_slash (replicate (length b) dotdot ++ t))
  | [] => Some (join_slash t)
  end.

Example path_examples :
  let c s := string_of (Clean (chars_of s)) in
  let d s := string_of (Dir (chars_of s)) in
  let b s := string_of (Base (chars_of s)) in
  let r x y := string_of <$> Rel (chars_of x) (chars_of y) in
  (c "a//b/../c/." = "a/c" ∧ c "" = "." ∧ c "/../a" = "/a" ∧ c "../.." = "../.." ∧
   c "a/.." = ".")%string ∧
  (d "a/b" = "a" ∧ d "a" = "." ∧ d "/a" = "/")%string ∧
  (b "a/b/" = "b" ∧ b "///" = "/" ∧ b "" = "." ∧ b "x" = "x")%string ∧
  (r "/a/b" "/a/c/d" = Some "../c/d" ∧ r "/a" "/a/b" = Some "b" ∧ r "/" "/x" = Some "x"
   ∧ r "/a" "/a" = Some ".")%string.
Proof. vm_compute. split_and!; reflexivity. Qed.

(** ** Lemmas *)

(** An ordinary element: what a cleaned absolute path is made of. *)
Definition normal_elem (e : chars) : Prop :=
  e ≠ [] ∧ e ≠ dot ∧ e ≠ dotdot ∧ slash ∉ e.

Lemma split_slash_nonempty l : split_slash l ≠ [].
Proof.
  destruct l as [|c l]; cbn; [done|]. destruct (Ascii.eqb c slash); [done|].
  by destruct (split_slash l).
Qed.

Lemma split_slash_no_slash l e : e ∈ split_slash l → slash ∉ e.
Proof.
  revert e. induction l as [|c l IH]; intros e; cbn.
  - intros ->%list_elem_of_singleton. apply not_elem_of_nil.
  - destruct (Ascii.eqb_spec c slash) as [->|Hc].
    + intros [->|?]%elem_of_cons; [apply not_elem_of_nil|auto].
    + destruct (split_slash l) as [|x xs] eqn:E.
      * intros ->%list_elem_of_singleton. set_solver.
      * intros [->|Hin]%elem_of_cons; [|apply IH; by right].
        rewrite not_elem_of_cons. split; [done|]. apply IH. by left.
Qed.

Lemma join_split l : join_slash (split_slash l) = l.
Proof.
  induction l as [|c l IH]; [done|]. cbn.
  pose proof (split_slash_nonempty l) as Hne.
  destruct (Ascii.eqb_spec c slash) as [->|Hc].
  - destruct (split_slash l) as [|x xs] eqn:E; [done|]. cbn in *. by rewrite IH.
  - destruct (split_slash l) as [|x xs] eqn:E; [done|].
    destruct xs; cbn in *; by rewrite IH.
Qed.

Lemma split_no_slash e : slash ∉ e → split_slash e = [e].
Proof.
  induction e as [|c e IH]; [done|]. rewrite not_elem_of_cons. intros [Hc He].
  cbn. destruct (Ascii.eqb_spec c slash) as [->|]; [done|]. by rewrite IH.
Qed.

Lemma split_app_slash e l : slash ∉ e → split_slash (e ++ slash :: l) = e :: split_slash l.
Proof.
  induction e as [|c e IH].
  - done.
  - rewrite not_elem_of_cons. intros [Hc He]. cbn.
    destruct (Ascii.eqb_spec c slash) as [->|]; [done|]. by rewrite IH.
Qed.

Lemma split_join es : es ≠ [] → Forall (λ e, slash ∉ e) es → split_slash (join_slash es) = es.
Proof.
  intros Hne Hall. induction Hall as [|e es He Hes IH]; [done|].
  destruct es as [|e' es]; [by apply split_no_slash|].
  change (join_slash (e :: e' :: es)) with (e ++ slash :: join_slash (e' :: es)).
  by rewrite split_app_slash, IH.
Qed.

Lemma clean_step_normal rooted stack e :
  normal_elem e → clean_step rooted stack e = e :: stack.
Proof.
  intros (H1 & H2 & H3 & _). unfold clean_step. by rewrite !decide_False.
Qed.

Lemma clean_elems_normal rooted es : Forall normal_elem es → clean_elems rooted es = es.
Proof.
  intros Hall. unfold clean_elems.
  assert (∀ acc, foldl (clean_step rooted) acc es = rev es ++ acc) as Hf.
  { induction Hall as [|e es He Hes IH]; intros acc; [done|].
    cbn [foldl rev]. rewrite clean_step_normal, IH by done. by rewrite <-app_assoc. }
  rewrite Hf, app_nil_r. apply rev_involutive.
Qed.

(** The output of [Clean] on a rooted path has ordinary elements only. *)
Lemma clean_elems_rooted es :
  Forall (λ e, slash ∉ e) es → Forall normal_elem (clean_elems true es).
Proof.
  intros Hall. unfold clean_elems. apply Forall_rev.
  assert (∀ acc, Forall normal_elem acc → Forall normal_elem (foldl (clean_step true) acc es))
    as Hf; [|by apply Hf].
  induction Hall as [|e es He Hes IH]; intros acc Hacc; [done|]. cbn. apply IH.
  unfold clean_step. destruct (decide (e = [])); [done|]. destruct (decide (e = dot)); [done|].
  destruct (decide (e = dotdot)).
  - destruct acc as [|x acc]; [done|]. apply Forall_cons in Hacc as [Hx Hacc].
    destruct Hx as (_ & _ & Hx & _). by rewrite decide_False.
  - apply Forall_cons. split; [|done]. by repeat split.
Qed.

(** A cleaned absolute path is the root followed by ordinary elements. *)
Definition abs_path (es : list chars) : chars := slash :: join_slash es.

Lemma Clean_abs p :
  IsAbs p = true → ∃ es, Clean p = abs_path es ∧ Forall normal_elem es.
Proof.
  intros Hp. exists (clean_elems true (split_slash p)). split.
  - unfold Clean. rewrite Hp. by destruct p.
  - apply clean_elems_rooted, Forall_forall. intros e. apply split_slash_no_slash.
Qed.

Lemma split_abs_path es :
  Forall normal_elem es →
  split_slash (abs_path es) = [] :: match es with [] => [[]] | _ => es end.
Proof.
  intros Hall. unfold abs_path. cbn [split_slash]. rewrite Ascii.eqb_refl.
  destruct es as [|e es]; [done|]. rewrite split_join; [done|done|].
  eapply Forall_impl; [exact Hall|]. by intros ? (_ & _ & _ & ?).
Qed.

Lemma Clean_abs_path es : Forall normal_elem es → Clean (abs_path es) = abs_path es.
Proof.
  intros Hall. unfold Clean. cbn [abs_path]. rewrite split_abs_path by done.
  cbn [IsAbs]. unfold abs_path. f_equal. f_equal.
  destruct es as [|e es]; [done|].
  transitivity (clean_elems true (e :: es)); [done|by apply clean_elems_normal].
Qed.

Lemma elems_abs_path es : Forall normal_elem es → elems_of (abs_path es) = es.
Proof.
  intros Hall. unfold elems_of. rewrite decide_False by done. rewrite split_abs_path by done.
  rewrite filter_cons_False by auto. destruct es as [|e es].
  - rewrite filter_cons_False by auto. done.
  - revert Hall. generalize (e :: es). clear. induction 1 as [|x l Hx _ IH]; [done|].
    rewrite filter_cons_True by apply Hx. by rewrite IH.
Qed.

Lemma abs_path_inj es es' :
  Forall normal_elem es → Forall normal_elem es' → abs_path es = abs_path es' → es = es'.
Proof.
  intros H1 H2 H. rewrite <-(elems_abs_path es), H by done. by apply elems_abs_path.
Qed.

(** ** Joining and taking apart *)

Lemma split_app a b : split_slash (a ++ slash :: b) = split_slash a ++ split_slash b.
Proof.
  induction a as [|c a IH]; cbn; [done|]. rewrite IH.
  destruct (Ascii.eqb c slash); [done|].
  pose proof (split_slash_nonempty a). by destruct (split_slash a).
Qed.

Lemma foldl_clean_normal rooted acc es :
  Forall normal_elem es → foldl (clean_step rooted) acc es = rev es ++ acc.
Proof.
  intros Hall. revert acc. induction Hall as [|e es He _ IH]; intros acc; [done|].
  cbn [foldl rev]. rewrite clean_step_normal, IH by done. by rewrite <-app_assoc.
Qed.

Lemma Clean_rooted p : IsAbs p = true → Clean p = abs_path (clean_elems true (split_slash p)).
Proof. intros Hp. unfold Clean. rewrite Hp. by destruct p. Qed.

(** A clean relative path appended to an absolute one keeps all its elements. *)
Lemma Join_abs a b :
  IsAbs a = true → Forall normal_elem (split_slash b) →
  Join a b = abs_path (elems_of (Clean a) ++ split_slash b).
Proof.
  intros Ha Hb. destruct a as [|c a]; [done|].
  unfold Join. rewrite Clean_rooted by done.
  change (c :: a ++ slash :: b) with ((c :: a) ++ slash :: b).
  rewrite split_app. rewrite (Clean_rooted (c :: a)) by done.
  assert (Forall (λ e, slash ∉ e) (split_slash (c :: a))) as Hns.
  { apply Forall_forall. intros e. apply split_slash_no_slash. }
  rewrite elems_abs_path by by apply clean_elems_rooted.
  f_equal. unfold clean_elems. rewrite foldl_app, foldl_clean_normal by done.
  rewrite rev_app_distr. by rewrite rev_involutive.
Qed.

(** Joining ordinary names appends them. *)
Lemma foldl_Join es xs :
  Forall normal_elem es → Forall normal_elem xs → foldl Join (abs_path es) xs = abs_path (es ++ xs).
Proof.
  intros He Hx. revert es He. induction Hx as [|x xs Hx Hxs IH]; intros es He; [by rewrite app_nil_r|].
  cbn [foldl]. assert (split_slash x = [x]) as Hs by (apply split_no_slash; by destruct Hx as (_ & _ & _ & ?)).
  rewrite Join_abs, Hs, Clean_abs_path, elems_abs_path; [|done|done|done|by rewrite Hs; apply Forall_singleton].
  rewrite IH by (apply Forall_app; split; [done|by apply Forall_singleton]). by rewrite <-app_assoc.
Qed.

Lemma join_snoc es e : es ≠ [] → join_slash (es ++ [e]) = join_slash es ++ slash :: e.
Proof.
  intros Hes. induction es as [|x es IH]; [done|]. destruct es as [|y es]; [done|].
  change ((x :: y :: es) ++ [e]) with (x :: y :: (es ++ [e])).
  change (join_slash (x :: y :: es ++ [e])) with (x ++ slash :: join_slash ((y :: es) ++ [e])).
  rewrite IH by done.
  change (join_slash (x :: y :: es)) with (x ++ slash :: join_slash (y :: es)).
  by rewrite <-app_assoc.
Qed.

Lemma abs_path_snoc es e :
  abs_path (es ++ [e]) = (match es with [] => [] | _ => abs_path es end) ++ slash :: e.
Proof.
  unfold abs_path. destruct es as [|x es]; [done|].
  rewrite join_snoc by done. done.
Qed.

Lemma last_slash a e : slash ∉ e → last_index slash (a ++ slash :: e) = Some (length a).
Proof. intros He. apply last_index_mid. by apply has_char_false. Qed.

Lemma Dir_abs_path es e :
  Forall normal_elem es → normal_elem e → Dir (abs_path (es ++ [e])) = abs_path es.
Proof.
  intros Hes (_ & _ & _ & He). unfold Dir. rewrite abs_path_snoc, last_slash by done.
  set (a := match es with [] => [] | _ => abs_path es end).
  assert (take (S (length a)) (a ++ slash :: e) = a ++ slash :: []) as ->.
  { rewrite take_app_ge by lia. replace (S (length a) - length a)%nat with 1%nat by lia. done. }
  assert (IsAbs (a ++ [slash]) = true) as Habs by (subst a; by destruct es).
  rewrite Clean_rooted by done. rewrite split_app. f_equal.
  unfold clean_elems. rewrite foldl_app. cbn [split_slash foldl]. unfold clean_step at 1.
  rewrite decide_True by done. subst a. destruct es as [|x es]; [done|].
  rewrite split_abs_path by done.
  change (rev (foldl (clean_step true) [] (x :: es)) = x :: es).
  rewrite foldl_clean_normal by done. rewrite app_nil_r. apply rev_involutive.
Qed.

Lemma drop_trailing_id c l a : a ≠ c → drop_trailing c (l ++ [a]) = l ++ [a].
Proof.
  intros Ha. induction l as [|x l IH]; cbn.
  - by rewrite (proj2 (Ascii.eqb_neq a c) Ha).
  - rewrite IH. by destruct l.
Qed.

Lemma Base_abs_path es e : normal_elem e → Base (abs_path (es ++ [e])) = e.
Proof.
  intros (Hne & _ & _ & He). unfold Base. rewrite abs_path_snoc.
  set (a := match es with [] => [] | _ => abs_path es end).
  assert (drop_trailing slash (a ++ slash :: e) = a ++ slash :: e) as Hd.
  { destruct (exists_last Hne) as (k & x & ->).
    replace (a ++ slash :: k ++ [x]) with ((a ++ slash :: k) ++ [x]) by (by rewrite <-app_assoc).
    apply drop_trailing_id. intros ->. apply He. set_solver. }
  destruct (a ++ slash :: e) as [|c q] eqn:Hq; [by destruct a|]. rewrite Hd.
  rewrite <-Hq, last_slash by done.
  rewrite drop_app_ge by lia. by replace (S (length a) - length a)%nat with 1%nat by lia.
Qed.
