(* ===== verification/FileNames.v ===== *)
(** * File names received from a peer

    pkg/gosilver/path.go: [SanitizeFileName] turns any name into one that every
    system can create in the chosen directory. Also [strings.Map] and
    [strings.TrimRight] as the sources use them. *)

From S2P Require Import Prelude Text Paths.
Local Open Scope Z_scope.

(** [strings.Map(f, s)]: the runes in order; an invalid byte counts as U+FFFD. *)
Fixpoint map_runes (fuel : nat) (f : Z → Z) (l : chars) : chars :=
  match fuel, l with
  | S fuel', _ :: _ =>
      let '(r, n) := DecodeRune l in EncodeRune (f r) ++ map_runes fuel' f (drop n l)
  | _, _ => []
  end.

Definition strings_Map (f : Z → Z) (l : chars) : chars := map_runes (length l) f l.

(** [strings.TrimRight(s, cutset)] for an ASCII cutset. *)
Definition trim_right (cut : ascii → bool) (l : chars) : chars :=
  rev ((fix go (k : chars) : chars :=
          match k with c :: k' => if cut c then go k' else k | [] => [] end) (rev l)).

(** The runes no file system may see. *)
Definition illegal_runes : list Z := [92; 47; 58; 42; 63; 34; 60; 62; 124].

(** pkg/gosilver/path.go:36-45 [SanitizeFileName] *)
Definition clean_rune (r : Z) : Z :=
  if bool_decide (r ∈ illegal_runes) then 95 else if r <? 0x20 then 95 else r.

(** [strings.ToUpper] on ASCII. No other letter becomes one of the letters of a
    reserved name, so this decides the comparison. *)
Definition upper (c : ascii) : ascii :=
  if (97 <=? code c) && (code c <=? 122) then chr (code c - 32) else c.

(** pkg/gosilver/path.go:57-59 [SanitizeFileName] *)
Definition reserved_names : list chars :=
  List.map chars_of
    ["CON"; "PRN"; "AUX"; "NUL";
     "COM1"; "COM2"; "COM3"; "COM4"; "COM5"; "COM6"; "COM7"; "COM8"; "COM9";
     "LPT1"; "LPT2"; "LPT3"; "LPT4"; "LPT5"; "LPT6"; "LPT7"; "LPT8"; "LPT9"]%string.

Definition stem_of (l : chars) : chars :=
  match index_of "." l with Some i => take i l | None => l end.

Definition cut_trailing (c : ascii) : bool := Ascii.eqb c " " || Ascii.eqb c ".".

(** pkg/gosilver/path.go:34-63 [SanitizeFileName] *)
Definition sanitize (l : chars) : chars :=
  let name := trim_right cut_trailing (strings_Map clean_rune l) in
  match name with
  | [] => chars_of "download"
  | _ => if bool_decide (List.map upper (stem_of name) ∈ reserved_names)
         then "_"%char :: name else name
  end.

(** pkg/gosilver/path.go:34-63 [SanitizeFileName] *)
Definition SanitizeFileName (name : string) : string := string_of (sanitize (chars_of name)).

(** [os.MkdirAll] succeeds or not; the executable's directory is an argument.
    pkg/gosilver/path.go:11-20 [resolveSavePath] *)
Definition resolveSavePath (default_dir : string) (mkdir : string → bool) (saveDir rawName : string)
    : option string :=
  let dir := match saveDir with EmptyString => default_dir | _ => saveDir end in
  if mkdir dir then
    Some (string_of (Join (chars_of dir) (chars_of (SanitizeFileName rawName))))
  else None.

Example sanitize_examples :
  SanitizeFileName "../../etc/passwd" = ".._.._etc_passwd"%string ∧
  SanitizeFileName "con.txt" = "_con.txt"%string ∧ SanitizeFileName " . " = "download"%string ∧
  SanitizeFileName "报告?.pdf" = "报告_.pdf"%string.
Proof. vm_compute. split_and!; reflexivity. Qed.

(** ** Text as a sequence of runes *)

Definition rune_chunk (c : chars) : Prop :=
  (∃ a, c = [a] ∧ code a < 0x80) ∨ (∃ r, multi_rune c r ∧ EncodeRune r = c).

Definition rune_of (c : chars) : Z := (DecodeRune c).1.

Lemma chunk_nonempty c : rune_chunk c → (1 ≤ length c)%nat.
Proof. intros [(a & -> & _)|(r & (H & _) & _)]; [cbn; lia|lia]. Qed.

Lemma DecodeRune_ascii a t : code a < 0x80 → DecodeRune (a :: t) = (code a, 1%nat).
Proof. intros. unfold DecodeRune. by destruct (Z.ltb_spec (code a) 128); [|lia]. Qed.

Lemma EncodeRune_ascii a : code a < 0x80 → EncodeRune (code a) = [a].
Proof.
  intros H. pose proof (code_range a). unfold EncodeRune.
  destruct (Z.leb_spec 0 (code a)), (Z.ltb_spec (code a) 128); try lia. cbn. by rewrite chr_code.
Qed.

Lemma DecodeRune_chunk c t :
  rune_chunk c → DecodeRune (c ++ t) = (rune_of c, length c) ∧ EncodeRune (rune_of c) = c.
Proof.
  unfold rune_of. intros [(a & -> & Ha)|(r & (_ & _ & Hd) & He)].
  - cbn [app]. rewrite !DecodeRune_ascii by done. split; [done|]. by apply EncodeRune_ascii.
  - pose proof (Hd []) as H0. rewrite app_nil_r in H0. by rewrite Hd, H0.
Qed.

Lemma map_runes_chunks f cs fuel :
  Forall rune_chunk cs → (length (concat cs) ≤ fuel)%nat →
  map_runes fuel f (concat cs) = concat (List.map (λ c, EncodeRune (f (rune_of c))) cs).
Proof.
  intros Hall. revert fuel. induction Hall as [|c cs Hc Hcs IH]; intros fuel Hf.
  - by destruct fuel.
  - cbn [concat] in *. pose proof (chunk_nonempty c Hc) as Hlen.
    destruct (DecodeRune_chunk c (concat cs) Hc) as [Hd _]. rewrite length_app in Hf.
    destruct fuel as [|fuel]; [lia|]. destruct c as [|a c]; [cbn in Hlen; lia|].
    cbn [app map_runes List.map concat]. cbn [app] in Hd. rewrite Hd. f_equal.
    change (a :: c ++ concat cs) with ((a :: c) ++ concat cs). rewrite drop_app_length.
    apply IH. cbn in Hf. lia.
Qed.

Lemma DecodeRune_cases c t r n :
  DecodeRune (c :: t) = (r, n) →
  (1 < n)%nat ∨ (n = 1%nat ∧ ((code c < 0x80 ∧ r = code c) ∨ r = RuneError)).
Proof.
  intros Hd. pose proof (DecodeRune_size (c :: t) ltac:(done)) as Hsz. rewrite Hd in Hsz.
  cbn [snd] in Hsz. destruct (decide (1 < n)%nat); [by left|right].
  assert (n = 1%nat) as -> by lia. split; [done|]. unfold DecodeRune in Hd.
  destruct (Z.ltb_spec (code c) 128); [left; by simplify_eq|right].
  revert Hd. destruct (first_info (code c)) as [[[k lo] hi]|]; [|intros; by simplify_eq].
  repeat case_match; intros; by simplify_eq.
Qed.

Lemma RuneError_chunk : rune_chunk (EncodeRune RuneError).
Proof.
  right. exists RuneError. split; [|done]. split; [cbn; lia|]. split.
  - intros a. cbn. set_unfold. intros [->|[->|[->|[]]]]; by vm_compute.
  - intros t'. reflexivity.
Qed.

(** What [EncodeRune] writes for any decoded rune is a rune of valid text, the
    same one. *)
Lemma encoded_chunk l :
  l ≠ [] → rune_chunk (EncodeRune (rune_of l)) ∧ rune_of (EncodeRune (rune_of l)) = rune_of l.
Proof.
  intros Hl. destruct l as [|c t]; [done|].
  destruct (DecodeRune (c :: t)) as [r n] eqn:Hd.
  assert (rune_of (c :: t) = r) as -> by (unfold rune_of; by rewrite Hd).
  destruct (DecodeRune_cases _ _ _ _ Hd) as [Hn|[_ [[Hc ->]| ->]]].
  - pose proof (DecodeRune_multi _ _ _ _ Hn Hd) as Hm.
    pose proof (EncodeRune_DecodeRune _ _ _ _ Hn Hd) as He. rewrite He. split; [right; eauto|].
    destruct Hm as (_ & _ & Hm). specialize (Hm []). rewrite app_nil_r in Hm.
    unfold rune_of. by rewrite Hm.
  - rewrite EncodeRune_ascii by done. split; [left; eauto|]. unfold rune_of.
    by rewrite DecodeRune_ascii.
  - split; [apply RuneError_chunk|reflexivity].
Qed.

Lemma encoded_ascii z : 0 ≤ z < 0x80 → rune_chunk (EncodeRune z).
Proof.
  intros Hz. left. exists (chr z). rewrite code_chr by lia. split; [|lia].
  rewrite <-(code_chr z) at 1 by lia. apply EncodeRune_ascii. rewrite code_chr; lia.
Qed.

(** A sanitised rune, as a chunk. *)
Definition good_chunk (c : chars) : Prop :=
  rune_chunk c ∧ clean_rune (rune_of c) = rune_of c.

Lemma rune_of_encoded c : rune_chunk c → rune_of (EncodeRune (rune_of c)) = rune_of c.
Proof. intros Hc. by destruct (DecodeRune_chunk c [] Hc) as [_ ->]. Qed.

Lemma clean_rune_idem r : clean_rune (clean_rune r) = clean_rune r.
Proof.
  unfold clean_rune at 2 3. destruct (bool_decide (r ∈ illegal_runes)) eqn:E1; [done|].
  destruct (r <? 32) eqn:E2; [done|]. unfold clean_rune. by rewrite E1, E2.
Qed.

Lemma map_runes_good fuel l :
  (length l ≤ fuel)%nat →
  ∃ cs, map_runes fuel clean_rune l = concat cs ∧ Forall good_chunk cs.
Proof.
  revert l. induction fuel as [|fuel IH]; intros l Hl.
  { destruct l; [|cbn in Hl; lia]. by exists []. }
  destruct l as [|c t]; [by exists []|]. cbn [map_runes].
  destruct (DecodeRune (c :: t)) as [r n] eqn:Hd.
  pose proof (DecodeRune_size (c :: t) ltac:(done)) as Hsz. rewrite Hd in Hsz. cbn in Hsz.
  destruct (IH (drop n (c :: t))) as (cs & Heq & Hall).
  { rewrite length_drop. cbn in Hl |- *. lia. }
  exists (EncodeRune (clean_rune r) :: cs). rewrite Heq. split; [done|]. constructor; [|done].
  assert (r = rune_of (c :: t)) as Hr by (unfold rune_of; by rewrite Hd).
  destruct (encoded_chunk (c :: t)) as [Hc Hre]; [done|]. rewrite <-Hr in Hc, Hre.
  assert (clean_rune r = r ∨ clean_rune r = 95) as [E|E]
    by (unfold clean_rune; repeat case_match; auto).
  - rewrite E. split; [done|]. by rewrite Hre, E.
  - rewrite E. split; [by apply encoded_ascii|]. by vm_compute.
Qed.

(** ** Trimming *)

Lemma trim_right_cut cut l a : cut a = true → trim_right cut (l ++ [a]) = trim_right cut l.
Proof. intros Ha. unfold trim_right. rewrite rev_app_distr. cbn. by rewrite Ha. Qed.

Lemma trim_right_keep cut l a : cut a = false → trim_right cut (l ++ [a]) = l ++ [a].
Proof.
  intros Ha. unfold trim_right. rewrite rev_app_distr. cbn. rewrite Ha. cbn.
  by rewrite rev_involutive.
Qed.

Lemma trim_right_nil cut : trim_right cut [] = [].
Proof. done. Qed.

Lemma trim_right_end cut l :
  trim_right cut l = [] ∨ ∃ k a, trim_right cut l = k ++ [a] ∧ cut a = false.
Proof.
  induction l as [|a l IH] using rev_ind; [by left|].
  destruct (cut a) eqn:Ha; [by rewrite trim_right_cut|].
  right. exists l, a. by rewrite trim_right_keep.
Qed.

(** The last character of a chunk of several bytes is not ASCII. *)
Lemma chunk_snoc c :
  rune_chunk c → (∃ a, c = [a]) ∨ ∃ k a, c = k ++ [a] ∧ 0x80 ≤ code a.
Proof.
  intros [(a & -> & _)|(r & (Hlen & Hhi & _) & _)]; [left; eauto|right].
  assert (c ≠ []) as Hne by (intros ->; cbn in Hlen; lia).
  destruct (exists_last Hne) as (k & a & ->).
  exists k, a. split; [done|]. apply Hhi. set_solver.
Qed.

Lemma cut_trailing_ascii a : cut_trailing a = true → code a < 0x80.
Proof.
  unfold cut_trailing. intros [H|H]%orb_true_iff; apply Ascii.eqb_eq in H as ->; by vm_compute.
Qed.

Lemma trim_chunks cs :
  Forall good_chunk cs →
  ∃ cs', trim_right cut_trailing (concat cs) = concat cs' ∧ Forall good_chunk cs'.
Proof.
  induction cs as [|c cs IH] using rev_ind; intros Hall; [by exists []|].
  apply Forall_app in Hall as [Hcs Hc]. rewrite Forall_singleton in Hc.
  assert (rune_chunk c) as Hck by apply Hc.
  assert (concat (cs ++ [c]) = concat cs ++ c) as Heq.
  { rewrite concat_app. cbn. by rewrite app_nil_r. }
  rewrite Heq. destruct (chunk_snoc c Hck) as [[a ->]|(k & a & -> & Ha)].
  - destruct (cut_trailing a) eqn:E.
    + rewrite trim_right_cut by done. auto.
    + rewrite trim_right_keep by done. exists (cs ++ [[a]]). rewrite concat_app.
      split; [done|]. apply Forall_app. by rewrite Forall_singleton.
  - rewrite app_assoc, trim_right_keep.
    + exists (cs ++ [k ++ [a]]). rewrite Heq, app_assoc. split; [done|].
      apply Forall_app. by rewrite Forall_singleton.
    + destruct (cut_trailing a) eqn:E; [|done]. apply cut_trailing_ascii in E. lia.
Qed.

(** ** The result is a safe name *)

Definition legal_char (a : ascii) : Prop := 0x20 ≤ code a ∧ code a ∉ illegal_runes.

Lemma good_chunk_legal c : good_chunk c → Forall legal_char c.
Proof.
  intros [Hc Hg]. destruct Hc as [(a & -> & Ha)|(r & (_ & Hhi & _) & _)].
  - apply Forall_singleton. unfold rune_of in Hg. rewrite DecodeRune_ascii in Hg by done.
    cbn in Hg. unfold clean_rune in Hg. destruct (bool_decide (code a ∈ illegal_runes)) eqn:E1.
    + exfalso. zbool. rewrite <-Hg in E1. by vm_compute in E1; set_unfold in E1; naive_solver.
    + zbool. destruct (Z.ltb_spec (code a) 32); [lia|]. by split.
  - apply Forall_forall. intros a Ha%Hhi. split; [lia|].
    unfold illegal_runes. set_unfold. lia.
Qed.

(** The part of a sanitised name before the check for reserved names. *)
Lemma trimmed_good l :
  ∃ cs, trim_right cut_trailing (strings_Map clean_rune l) = concat cs ∧ Forall good_chunk cs.
Proof.
  destruct (map_runes_good (length l) l (le_n _)) as (cs & Hm & Hcs).
  unfold strings_Map. rewrite Hm. by apply trim_chunks.
Qed.

Lemma Map_good cs : Forall good_chunk cs → strings_Map clean_rune (concat cs) = concat cs.
Proof.
  intros Hall. unfold strings_Map. rewrite map_runes_chunks; [|eapply Forall_impl; [exact Hall|]; by intros ? [? _]|done].
  f_equal. induction Hall as [|c cs [Hc Hg] _ IH]; [done|]. cbn. rewrite Hg, IH. f_equal.
  by destruct (DecodeRune_chunk c [] Hc).
Qed.

Definition good_name (l : chars) : Prop :=
  l ≠ [] ∧ (∃ cs, l = concat cs ∧ Forall good_chunk cs) ∧
  (∃ k a, l = k ++ [a] ∧ cut_trailing a = false) ∧
  List.map upper (stem_of l) ∉ reserved_names.

Lemma underscore_good : good_chunk ["_"%char].
Proof. split; [left; by exists "_"%char|reflexivity]. Qed.

Lemma ascii_text_good l :
  Forall (λ a, code a < 0x80 ∧ clean_rune (code a) = code a) l →
  ∃ cs, l = concat cs ∧ Forall good_chunk cs.
Proof.
  induction 1 as [|a l [Ha Hc] _ (cs & -> & Hcs)]; [by exists []|].
  exists ([a] :: cs). split; [done|]. constructor; [|done].
  split; [left; eauto|]. unfold rune_of. by rewrite DecodeRune_ascii.
Qed.

Lemma reserved_not_underscore k : ("_"%char :: k) ∉ reserved_names.
Proof. unfold reserved_names. cbn. set_solver. Qed.

Lemma sanitize_good l : good_name (sanitize l).
Proof.
  unfold sanitize. destruct (trimmed_good l) as (cs & Ht & Hcs).
  pose proof (trim_right_end cut_trailing (strings_Map clean_rune l)) as Hend.
  rewrite Ht in *. destruct (concat cs) as [|a0 t] eqn:Hc.
  - split; [done|]. split; [|split].
    + apply ascii_text_good. by repeat constructor.
    + exists (chars_of "downloa"), "d"%char. done.
    + apply (bool_decide_unpack _). by vm_compute.
  - destruct Hend as [|(k & a & Hka & Ha)]; [done|]. rewrite <-Hc in *.
    destruct (bool_decide _) eqn:Hr; zbool.
    + split; [done|]. split; [|split].
      * exists (["_"%char] :: cs). split; [done|]. constructor; [apply underscore_good|done].
      * exists ("_"%char :: k), a. by rewrite Hka.
      * unfold stem_of. cbn [index_of]. change (Ascii.eqb "_" ".") with false. cbv iota.
        destruct (index_of "." (concat cs)) as [i|]; cbn; apply reserved_not_underscore.
    + split; [by rewrite Hc|]. split; [by exists cs|]. split; [by exists k, a|done].
Qed.

Lemma sanitize_good_id l : good_name l → sanitize l = l.
Proof.
  intros (Hne & (cs & Hcs & Hg) & (k & a & Hka & Ha) & Hr). unfold sanitize.
  rewrite Hcs, Map_good, <-Hcs by done. rewrite Hka, trim_right_keep, <-Hka by done.
  destruct l as [|c l]; [done|]. by rewrite bool_decide_false.
Qed.

Lemma good_name_legal l : good_name l → Forall legal_char l.
Proof.
  intros (_ & (cs & -> & Hcs) & _). induction Hcs as [|c cs Hc _ IH]; [constructor|].
  apply Forall_app. split; [by apply good_chunk_legal|done].
Qed.

Lemma good_name_elem l : good_name l → normal_elem l.
Proof.
  intros Hg. pose proof (good_name_legal l Hg) as Hl. destruct Hg as (Hne & _ & (k & a & Hka & Ha) & _).
  split; [done|]. split_and!.
  - intros ->. unfold dot in Hka. destruct k as [|? [|]]; simplify_eq/=; by vm_compute in Ha.
  - intros ->. unfold dotdot in Hka. destruct k as [|? [|? [|]]]; simplify_eq/=; by vm_compute in Ha.
  - intros Hin. rewrite Forall_forall in Hl. apply Hl in Hin as [_ Hin]. apply Hin. by vm_compute; set_solver.
Qed.

(** ** Properties *)

(** Whatever name a peer announces, [SanitizeFileName] returns a non-empty
    name of characters that every system accepts (no path separator, no control
    character), that does not end in a dot or a space and whose stem is not a
    reserved device name; and a sanitised name stays as it is. *)
Theorem SanitizeFileName_safe (name : string) :
  chars_of (SanitizeFileName name) ≠ [] ∧
  Forall legal_char (chars_of (SanitizeFileName name)) ∧
  (∃ k a, chars_of (SanitizeFileName name) = k ++ [a] ∧ a ≠ "."%char ∧ a ≠ " "%char) ∧
  List.map upper (stem_of (chars_of (SanitizeFileName name))) ∉ reserved_names ∧
  SanitizeFileName (SanitizeFileName name) = SanitizeFileName name.
Proof.
  unfold SanitizeFileName. rewrite !chars_of_string.
  pose proof (sanitize_good (chars_of name)) as Hg. split_and!.
  - apply Hg.
  - by apply good_name_legal.
  - destruct Hg as (_ & _ & (k & a & Hk & Ha) & _). exists k, a. split; [done|].
    split; intros ->; by vm_compute in Ha.
  - apply Hg.
  - by rewrite sanitize_good_id.
Qed.

(** A download is written inside the directory it was asked for, never
    above or beside it: when [resolveSavePath] accepts, the path's directory is
    the cleaned target directory and its last element is the sanitised name. *)
Theorem resolveSavePath_inside (default_dir : string) (mkdir : string → bool) (dir name p : string) :
  dir ≠ ""%string → IsAbs (chars_of dir) = true →
  resolveSavePath default_dir mkdir dir name = Some p →
  mkdir dir = true ∧ Dir (chars_of p) = Clean (chars_of dir) ∧
  Base (chars_of p) = chars_of (SanitizeFileName name).
Proof.
  intros Hne Habs. unfold resolveSavePath.
  assert (match dir with EmptyString => default_dir | _ => dir end = dir) as -> by by destruct dir.
  destruct (mkdir dir); [|done]. intros Hp. simplify_eq.
  rewrite chars_of_string. split; [done|].
  assert (normal_elem (chars_of (SanitizeFileName name))) as Hn.
  { unfold SanitizeFileName. rewrite chars_of_string. apply good_name_elem, sanitize_good. }
  assert (split_slash (chars_of (SanitizeFileName name)) = [chars_of (SanitizeFileName name)]) as Hs
    by (apply split_no_slash, Hn).
  rewrite Join_abs by (try done; rewrite Hs; by constructor). rewrite Hs.
  destruct (Clean_abs _ Habs) as (es & -> & Hes). rewrite elems_abs_path by done.
  by rewrite Dir_abs_path, Base_abs_path.
Qed.

Lemma resolveSavePath_inside_witness :
  Dir (chars_of "/home/u/get/a_b.txt") = Clean (chars_of "/home/u/x/../get/") ∧
  Base (chars_of "/home/u/get/a_b.txt") = chars_of (SanitizeFileName "a/b.txt").
Proof.
  apply (resolveSavePath_inside "" (λ _, true) "/home/u/x/../get/" "a/b.txt" "/home/u/get/a_b.txt");
    [discriminate|vm_compute; reflexivity|vm_compute; reflexivity].
Defined.
