(* ===== verification/Download.v ===== *)
(** * The download engine of a receiver

    internal/receiver/download.go: [RunTo] fetches every chunk of a remote file
    into a temporary file and renames it over the target. A feeder offers the
    indices in a shuffled order, up to five workers claim them, ask the centre for
    sources and fetch, and a failure after three attempts cancels the rest. The
    workers, the feeder and the environment (a cancelled context, prefetch
    commands, the other users of the session) are steps on one state; a step is one
    critical section or one call. Fetching goes through [Client.FetchChunk]; the
    connection it borrows is an input. *)

From S2P Require Import Prelude Text Codec Chunk Float64 Json Model Session.
From S2P Require Import Net Handle Client Paths.
Local Open Scope string_scope.
Local Open Scope Z_scope.

(** ** The order of the chunks *)

(** [for b != 0]; the second number decreases, which bounds the loop.
    internal/receiver/download.go:265-270 [gcd] *)
Fixpoint gcd_loop (fuel : nat) (a b : Z) : Z :=
  match fuel with
  | O => a
  | S fuel' => if b =? 0 then a else gcd_loop fuel' b (Z.rem a b)
  end.

(** internal/receiver/download.go:265-270 [gcd] *)
Definition gcd (a b : Z) : Z := gcd_loop (S (Z.to_nat b)) a b.

(** [for gcd(step, count) != 1]: the steps run through 1..count-1, and 1 ends the
    loop. internal/receiver/download.go:78-80 [RunTo] *)
Fixpoint step_loop (fuel : nat) (step count : Z) : Z :=
  match fuel with
  | O => step
  | S fuel' =>
      if gcd step count =? 1 then step else step_loop fuel' (Z.rem step (count - 1) + 1) count
  end.

(** [r1] is [rand.Int64N(count)] and [r2] is [rand.Int64N(count-1)].
    internal/receiver/download.go:72-81 [RunTo] *)
Definition choose_order (count r1 r2 : Z) : Z * Z :=
  let start := if 0 <? count then r1 else 0 in
  let step := if 1 <? count then step_loop (Z.to_nat count) (r2 + 1) count else 1 in
  (start, step).

(** internal/receiver/download.go:217-217 [RunTo] *)
Definition next_index (count step i : Z) : Z := Z.rem (i + step) (Z.max 1 count).

(** The indices the feeder offers from the [n]-th on.
    internal/receiver/download.go:216-217 [RunTo] *)
Fixpoint feed_order (left : nat) (count step i : Z) : list Z :=
  match left with
  | O => []
  | S left' => i :: feed_order left' count step (next_index count step i)
  end.

(** ** Candidates *)

(** internal/receiver/download.go:138-141 [RunTo] *)
Definition location_sources (loc : WantChunkResp) : list SourceCandidate :=
  match wr_Sources loc with
  | [] => [mkSourceCandidate (wr_Addr loc) (wr_UUID loc)]
  | l => l
  end.

(** internal/receiver/download.go:142-147 [RunTo] *)
Definition is_central (addr : string) (c : SourceCandidate) : bool :=
  String.eqb (sc_Addr c) "" || String.eqb (sc_Addr c) addr.

(** internal/receiver/download.go:138-150 [RunTo] *)
Definition candidates_of (addr : string) (loc : WantChunkResp) : list SourceCandidate :=
  let candidates := location_sources loc in
  if existsb (is_central addr) candidates then candidates
  else (candidates ++ [mkSourceCandidate "" ""])%list.

(** internal/receiver/download.go:159-162 [RunTo] *)
Definition provider_of (addr : string) (c : SourceCandidate) : string :=
  if String.eqb (sc_Addr c) "" then addr else sc_Addr c.

(** ** State *)

(** The names of the files of the disk. *)
Abbreviation Names := (gmap string fd).

(** internal/receiver/download.go:19-22 [BlockSource] *)
Record BlockSource : Type := mkBlockSource { bs_Index : Z; bs_Addr : string }.

(** internal/receiver/download.go:24-33 [Progress] *)
Record Progress : Type := mkProgress {
  pg_Active : list BlockSource;
  pg_FileName : string;
  pg_Total : Z;
  pg_Done : Z;
  pg_Bytes : Z;
  pg_Speed : Z;
  pg_Finished : bool;
}.

(** What a worker tells the centre; the calls' results are ignored. *)
Inductive report : Type :=
| RepPeer (provider : string) (speed : Z) (status : string) (index : Z)
| RepChunk (index : Z).

(** Where a worker is. [k] counts its attempts at chunk [i].
    internal/receiver/download.go:115-215 [RunTo] *)
Inductive worker : Type :=
| W_recv
| W_check (i : Z)
| W_attempt (i k : Z) (last : option client_error)
| W_want (i k : Z)
| W_try (i k : Z) (e : option client_error) (cands : list SourceCandidate)
| W_fetch (i k : Z) (c : SourceCandidate) (rest : list SourceCandidate)
| W_fetched (i : Z) (id : string) (n sum speed : Z)
| W_store (i : Z) (id : string) (n sum speed : Z)
| W_added (i : Z) (id : string) (n speed : Z)
| W_failed (i k : Z) (e : option client_error)
| W_retry (i k : Z) (e : option client_error)
| W_over (i : Z) (e : client_error)
| W_cancel (i : Z)
| W_gone.

(** Where the feeder is, about to offer the [n]-th index, [i].
    internal/receiver/download.go:216-232 [RunTo] *)
Inductive feeder : Type :=
| F_top (n i : Z)
| F_urgent (n i u : Z)
| F_main (n i : Z)
| F_closed.

(** The variables of a running [RunTo].
    internal/receiver/download.go:82-102 [RunTo] *)
Record Dl : Type := mkDl {
  sess : Session;
  disk : Files;
  workers : list worker;
  feed : feeder;
  priority : list Z;
  claimed : gset Z;
  active : gmap Z string;
  ndone : Z;
  received : Z;
  failure : option (Z * client_error);
  cancelled : bool;
  user_done : bool;
  reports : list report;
  progress : list Progress;
}.

(** What a run does not change. *)
Record Params : Type := mkParams {
  p_addr : string;
  p_sdk : GspSdk;
  p_meta : GetFileStatusResp;
  p_ck : FileChunk;
  p_start : Z;
  p_step : Z;
  p_on : bool;
}.

Definition count (P : Params) : Z := fs_ChunkNum (p_meta P).

Definition set_sess v st := mkDl v (disk st) (workers st) (feed st) (priority st) (claimed st)
  (active st) (ndone st) (received st) (failure st) (cancelled st) (user_done st) (reports st) (progress st).
Definition set_disk v st := mkDl (sess st) v (workers st) (feed st) (priority st) (claimed st)
  (active st) (ndone st) (received st) (failure st) (cancelled st) (user_done st) (reports st) (progress st).
Definition set_worker k w st := mkDl (sess st) (disk st) (<[k := w]> (workers st)) (feed st)
  (priority st) (claimed st) (active st) (ndone st) (received st) (failure st) (cancelled st)
  (user_done st) (reports st) (progress st).
Definition set_feed v pr st := mkDl (sess st) (disk st) (workers st) v pr (claimed st)
  (active st) (ndone st) (received st) (failure st) (cancelled st) (user_done st) (reports st) (progress st).
Definition set_claimed v st := mkDl (sess st) (disk st) (workers st) (feed st) (priority st) v
  (active st) (ndone st) (received st) (failure st) (cancelled st) (user_done st) (reports st) (progress st).
Definition set_active v st := mkDl (sess st) (disk st) (workers st) (feed st) (priority st)
  (claimed st) v (ndone st) (received st) (failure st) (cancelled st) (user_done st) (reports st) (progress st).
Definition set_counts d r st := mkDl (sess st) (disk st) (workers st) (feed st) (priority st)
  (claimed st) (active st) d r (failure st) (cancelled st) (user_done st) (reports st) (progress st).
Definition set_failure v st := mkDl (sess st) (disk st) (workers st) (feed st) (priority st)
  (claimed st) (active st) (ndone st) (received st) v (cancelled st) (user_done st) (reports st) (progress st).
Definition set_cancelled c u st := mkDl (sess st) (disk st) (workers st) (feed st) (priority st)
  (claimed st) (active st) (ndone st) (received st) (failure st) c u (reports st) (progress st).
Definition say (r : report) st := mkDl (sess st) (disk st) (workers st) (feed st) (priority st)
  (claimed st) (active st) (ndone st) (received st) (failure st) (cancelled st) (user_done st)
  (reports st ++ [r])%list (progress st).
Definition add_progress (p : Progress) st := mkDl (sess st) (disk st) (workers st) (feed st)
  (priority st) (claimed st) (active st) (ndone st) (received st) (failure st) (cancelled st)
  (user_done st) (reports st) (progress st ++ [p])%list.

(** [int64(x)] truncates; the language leaves the result open when it does not
    fit ([other]). *)
Definition int64_of_float (other : Z) (x : float64) : Z :=
  match x with
  | SpecFloat.S754_zero _ => 0
  | SpecFloat.S754_finite s m e =>
      let a := if 0 <=? e then Z.pos m * 2 ^ e else Z.quot (Z.pos m) (2 ^ (- e)) in
      let z := if s then - a else a in
      if in_int64 z then z else other
  | _ => other
  end.

(** Megabits per second over [secs] seconds.
    internal/receiver/download.go:171-171 [RunTo] *)
Definition mbps (n : Z) (secs : float64) (other : Z) : Z :=
  int64_of_float other
    (f_div (f_div (f_mul (f_of_Z n) (f_of_Z 8)) secs) (f_of_Z 1000000)).

(** internal/receiver/download.go:107-111 [RunTo] *)
Definition active_sources (a : gmap Z string) : list BlockSource :=
  sort_slice (λ x y, bs_Index x <? bs_Index y)
    ((λ '(i, ad), mkBlockSource i ad) <$> map_to_list a).

(** internal/receiver/download.go:103-114 [RunTo] *)
Definition emitLocked (P : Params) (secs : float64) (other : Z) (st : Dl) : Dl :=
  if negb (p_on P) then st else
  add_progress (mkProgress (active_sources (active st)) (fs_FileName (p_meta P)) (count P)
    (ndone st) (received st) (mbps (received st) secs other) false) st.

(** ** Steps *)

(** What the world supplies to a worker's step: the connection borrowed for a
    request ([None]: it could not be had), how the fetch's write to the disk goes,
    the time it took, and which of a timer and the context fires first. [secs] and
    [other] also serve the speed shown by [emitLocked]. *)
Inductive input : Type :=
| Run_ (secs : float64) (other : Z)
| Wanted (conn : option Stream)
| Fetched (conn : option Stream) (fail : option nat) (secs : float64) (other : Z)
| Timer
| Done.

(** internal/receiver/download.go:121-128 [RunTo] *)
Definition claim (i : Z) (st : Dl) : worker * Dl :=
  if bool_decide (i ∈ claimed st) || HasChunk (sess st) i then (W_recv, st)
  else (W_attempt i 0 None, set_claimed ({[i]} ∪ claimed st) st).

(** The head of the loop of attempts, and what follows the loop.
    internal/receiver/download.go:130-133 [RunTo] *)
Definition attempt (i k : Z) (last : option client_error) (st : Dl) : worker * Dl :=
  if k <? 3 then (if cancelled st then W_gone else W_want i k, st)
  else (match last with Some e => W_over i e | None => W_recv end, st).

(** internal/receiver/download.go:134-150 [RunTo] *)
Definition want (P : Params) (i k : Z) (conn : option Stream) (st : Dl) : worker * Dl :=
  match fst (WantChunk (p_sdk P) conn i None) with
  | Err e => (W_retry i k (Some e), st)
  | Ok location => (W_try i k None (candidates_of (p_addr P) location), st)
  end.

(** internal/receiver/download.go:155-167 [RunTo] *)
Definition try_next (P : Params) (secs : float64) (other i k : Z) (e : option client_error)
    (cands : list SourceCandidate) (st : Dl) : worker * Dl :=
  match cands with
  | [] => (W_failed i k e, st)
  | c :: rest =>
      if cancelled st then (W_gone, st) else
      (W_fetch i k c rest,
       emitLocked P secs other (set_active (<[i := provider_of (p_addr P) c]> (active st)) st))
  end.

(** internal/receiver/download.go:168-175 [RunTo] *)
Definition fetch_from (P : Params) (conn : option Stream) (fail : option nat) (secs : float64)
    (other i k : Z) (c : SourceCandidate) (rest : list SourceCandidate) (st : Dl) : worker * Dl :=
  let '(r, _, fs') := FetchChunk conn i (disk st) (p_ck P) fail in
  match r with
  | Ok (n, sum) => (W_fetched i (sc_UUID c) n sum (mbps n secs other), set_disk fs' st)
  | Err e => (W_try i k (Some e) rest, say (RepPeer (sc_UUID c) 0 "failed" i) (set_disk fs' st))
  end.

(** internal/receiver/download.go:176-178 [RunTo] *)
Definition stop_active (i : Z) (st : Dl) : Dl := set_active (delete i (active st)) st.

(** internal/receiver/download.go:180-181 [RunTo] *)
Definition store (i sum : Z) (st : Dl) : Dl :=
  say (RepChunk i) (set_sess (AddChunk i sum (sess st)) st).

(** internal/receiver/download.go:182-188 [RunTo] *)
Definition finish_chunk (P : Params) (secs : float64) (other i : Z) (id : string) (n speed : Z)
    (st : Dl) : Dl :=
  say (RepPeer id speed "done" i)
    (emitLocked P secs other
      (set_counts (int64 (ndone st + 1)) (int64 (received st + n))
        (set_claimed (claimed st ∖ {[i]}) st))).

(** internal/receiver/download.go:206-208 [RunTo] *)
Definition fail_once (i : Z) (e : client_error) (st : Dl) : Dl :=
  match failure st with
  | None => set_failure (Some (i, e)) st
  | Some _ => st
  end.

(** One step of a worker; [None]: the input is not one it waits for.
    internal/receiver/download.go:119-213 [RunTo] *)
Definition worker_step (P : Params) (w : worker) (inp : input) (st : Dl) : option (worker * Dl) :=
  match w, inp with
  | W_check i, Run_ _ _ => Some (claim i st)
  | W_attempt i k last, Run_ _ _ => Some (attempt i k last st)
  | W_want i k, Wanted conn => Some (want P i k conn st)
  | W_try i k e cands, Run_ secs other => Some (try_next P secs other i k e cands st)
  | W_fetch i k c rest, Fetched conn fail secs other =>
      Some (fetch_from P conn fail secs other i k c rest st)
  | W_fetched i id n sum speed, Run_ _ _ => Some (W_store i id n sum speed, stop_active i st)
  | W_store i id n sum speed, Run_ _ _ => Some (W_added i id n speed, store i sum st)
  | W_added i id n speed, Run_ secs other =>
      Some (W_recv, finish_chunk P secs other i id n speed st)
  | W_failed i k e, Run_ _ _ => Some (W_retry i k e, stop_active i st)
  | W_retry i k e, Run_ _ _ => if k <? 2 then None else Some (W_attempt i (k + 1) e, st)
  | W_retry i k e, Timer => if k <? 2 then Some (W_attempt i (k + 1) e, st) else None
  | W_retry i k e, Done => if (k <? 2) && cancelled st then Some (W_gone, st) else None
  | W_over i e, Run_ _ _ => Some (W_cancel i, fail_once i e st)
  | W_cancel i, Run_ _ _ => Some (W_gone, set_cancelled true (user_done st) st)
  | W_recv, Run_ _ _ => match feed st with F_closed => Some (W_gone, st) | _ => None end
  | _, _ => None
  end.

(** The feeder by itself: the loop's test and the poll of [priority], or the
    context while it offers an index.
    internal/receiver/download.go:216-233 [RunTo] *)
Definition feeder_step (P : Params) (st : Dl) : option Dl :=
  match feed st with
  | F_top n i =>
      if n <? count P then
        match priority st with
        | u :: rest => Some (set_feed (F_urgent n i u) rest st)
        | [] => Some (set_feed (F_main n i) [] st)
        end
      else Some (set_feed F_closed (priority st) st)
  | F_urgent _ _ _ | F_main _ _ =>
      if cancelled st then Some (set_feed F_closed (priority st) st) else None
  | F_closed => None
  end.

(** The unbuffered channel: the index offered, and the feeder after it is taken.
    internal/receiver/download.go:220-231 [RunTo] *)
Definition handoff (P : Params) (f : feeder) : option (Z * feeder) :=
  match f with
  | F_urgent n i u => Some (u, F_main n i)
  | F_main n i => Some (i, F_top (n + 1) (next_index (count P) (p_step P) i))
  | _ => None
  end.

(** internal/receiver/download.go:87-94 [RunTo] *)
Definition prefetch_push (P : Params) (index : Z) (l : list Z) : list Z :=
  if (0 <=? index) && (index <? count P) then
    if (length l <? 4)%nat then (l ++ [index])%list else l
  else l.

(** A run in which the providers deliver, for chunk [i], only bytes [b] with
    [accept i b]: [True] for any providers, or the chunks of one file. *)
Section run.
Variable accept : Z → bytes → Prop.

Definition delivers (P : Params) (w : worker) (inp : input) (st : Dl) : Prop :=
  match w, inp with
  | W_fetch i _ _ _, Fetched conn fail _ _ =>
      ∀ b sum fin fs', fetch conn i (disk st) (p_ck P) fail = (Ok (b, sum), fin, fs') → accept i b
  | _, _ => True
  end.

(** The download's own steps. *)
Inductive dl_step (P : Params) : Dl → Dl → Prop :=
| st_worker k w inp w' st st' :
    workers st !! k = Some w → worker_step P w inp st = Some (w', st') →
    delivers P w inp st → dl_step P st (set_worker k w' st')
| st_feeder st st' : feeder_step P st = Some st' → dl_step P st st'
| st_handoff k i f st :
    workers st !! k = Some W_recv → handoff P (feed st) = Some (i, f) →
    dl_step P st (set_worker k (W_check i) (set_feed f (priority st) st)).

(** The rest of the process. While this session is a receiver nobody else changes
    its chunk hashes, its role or its chunk handle, and nobody else writes to the
    temporary file. *)
Inductive env_step (P : Params) : Dl → Dl → Prop :=
| env_prefetch index st : env_step P st (set_feed (feed st) (prefetch_push P index (priority st)) st)
| env_cancel st : env_step P st (set_cancelled true true st)
| env_session s st :
    chunkHash s = chunkHash (sess st) → isMain s = isMain (sess st) →
    chunkProvider s = chunkProvider (sess st) → env_step P st (set_sess s st)
| env_disk fs st :
    (∀ h, file (p_ck P) = Some h → fs !! h = disk st !! h) → env_step P st (set_disk fs st).

Definition any_step (P : Params) (st st' : Dl) : Prop := dl_step P st st' ∨ env_step P st st'.

(** [wg.Wait()] has returned. *)
Definition is_gone (w : worker) : bool := match w with W_gone => true | _ => false end.
Definition joined (st : Dl) : bool :=
  (match feed st with F_closed => true | _ => false end) && forallb is_gone (workers st).

(** ** [RunTo] *)

Inductive dl_error : Type :=
| ErrInvalidMeta
| ErrContext
| ErrTemp
| ErrTruncate
| ErrChunkFailed (i : Z) (e : client_error)
| ErrSync
| ErrExists
| ErrLstat
| ErrRename.

(** internal/receiver/download.go:46-48 [RunTo] *)
Definition valid_meta (m : GetFileStatusResp) : bool :=
  negb (is_empty (fs_FileName m)
    || negb (String.eqb (string_of (Base (chars_of (fs_FileName m)))) (fs_FileName m))
    || (fs_FileSize m <? 0) || (Z.shiftl 1 50 <? fs_FileSize m)
    || negb (fs_ChunkSize m =? ChunkSize)
    || negb (fs_ChunkNum m =? Z.quot (int64 (int64 (fs_FileSize m + ChunkSize) - 1)) ChunkSize)).

(** What [RunTo] does with the temporary file in the end: [keep] or not. The file is closed; a
    failing [os.Remove] is not looked at, and leaves the name ([removed] is false).
    internal/receiver/download.go:57-63 [RunTo] *)
Definition cleanup (keep removed : bool) (h : fd) (tmp : string) (fs : Files) (names : Names) (s : Session)
    : Files * Names * Session :=
  if keep then (fs, names, s) else (delete h fs, if removed then delete tmp names else names, ClearChunks s).

(** [os.CreateTemp] makes [h], named [tmp]; [None]: it fails. The workers start.
    internal/receiver/download.go:45-116 [RunTo] *)
Definition RunTo_begin (addr : string) (g : GspSdk) (m : GetFileStatusResp) (on user : bool)
    (created : option (fd * string)) (truncated removed : bool) (r1 r2 : Z)
    (fs : Files) (names : Names) (s : Session)
    : res dl_error (Params * Dl * Names) * (Files * Names * Session) :=
  if negb (valid_meta m) then (Err ErrInvalidMeta, (fs, names, s)) else
  if user then (Err ErrContext, (fs, names, s)) else
  match created with
  | None => (Err ErrTemp, (fs, names, s))
  | Some (h, tmp) =>
      let names1 := <[tmp := h]> names in
      if negb truncated then (Err ErrTruncate, cleanup false removed h tmp fs names1 s) else
      let fs1 := <[h := mkFile tmp (replicate (Z.to_nat (fs_FileSize m)) Byte.x00) 0 0 true]> fs in
      let '(fs2, s2) := BeSendSub fs1 h s in
      let '(start, step) := choose_order (fs_ChunkNum m) r1 r2 in
      let P := mkParams addr g m (GetChunk s2) start step on in
      (Ok (P,
           mkDl (set_prefetch true s2) fs2
             (replicate (Z.to_nat (Z.min 5 (fs_ChunkNum m))) W_recv) (F_top 0 start) [] ∅ ∅ 0 0
             None false false [] [],
           names1), (fs2, names1, s2))
  end.

(** After the join. [user2] is the context when it is looked at again; [overwrite]
    is the optional argument; [lstat_fails] is an error other than absence. Others use the
    directory meanwhile: [names_lstat] is what [os.Lstat] sees, [names] what the last call sees,
    [os.Rename] or [os.Remove].
    internal/receiver/download.go:235-263 [RunTo] *)
Definition RunTo_end (h : fd) (tmp target : string) (synced user2 : bool)
    (overwrite : option bool) (lstat_fails renamed removed : bool) (names_lstat names : Names) (st : Dl)
    : option dl_error * (Files * Names * Session) :=
  let s := set_prefetch false (sess st) in
  let stop e := (Some e, cleanup false removed h tmp (disk st) names s) in
  if user_done st then stop ErrContext else
  match failure st with
  | Some (i, e) => stop (ErrChunkFailed i e)
  | None =>
      if negb synced then stop ErrSync else
      if user2 then stop ErrContext else
      let no_over := match overwrite with Some false => true | _ => false end in
      if no_over && lstat_fails then stop ErrLstat else
      if no_over && bool_decide (is_Some (names_lstat !! target)) then stop ErrExists else
      if negb renamed then stop ErrRename else
      (None, cleanup true removed h tmp (disk st) (<[target := h]> (delete tmp names)) (RetainFile h s))
  end.

(** The last progress report. internal/receiver/download.go:259-261 [RunTo] *)
Definition final_progress (P : Params) : Progress :=
  mkProgress [] (fs_FileName (p_meta P)) (count P) (count P) (fs_FileSize (p_meta P)) 0 true.

(** internal/receiver/download.go:36-41 [Run] *)
Definition Run_target (dir : string) (m : GetFileStatusResp) : string :=
  let dir := if is_empty dir then "." else dir in
  string_of (Join (chars_of dir) (Base (chars_of (fs_FileName m)))).

(** ** The order of the chunks: lemmas *)

Lemma gcd_loop_spec fuel a b :
  0 ≤ a → 0 ≤ b → (Z.to_nat b < fuel)%nat → gcd_loop fuel a b = Z.gcd a b.
Proof.
  revert a b. induction fuel as [|fuel IH]; intros a b Ha Hb Hf; [lia|]. cbn.
  destruct (Z.eqb_spec b 0) as [->|Hne]; [rewrite Z.gcd_0_r; lia|].
  pose proof (Z.rem_bound_pos a b ltac:(lia) ltac:(lia)) as Hr.
  rewrite IH by lia. rewrite Z.rem_mod_nonneg by lia.
  rewrite (Z.gcd_comm b), Z.gcd_mod by done. apply Z.gcd_comm.
Qed.

Lemma gcd_spec a b : 0 ≤ a → 0 ≤ b → gcd a b = Z.gcd a b.
Proof. intros. unfold gcd. apply gcd_loop_spec; lia. Qed.

Lemma step_loop_spec fuel step n :
  1 < n → 1 ≤ step < n → (if decide (step = 1) then 1 else n - step + 1) ≤ Z.of_nat fuel →
  1 ≤ step_loop fuel step n < n ∧ Z.gcd (step_loop fuel step n) n = 1.
Proof.
  intros Hn. revert step. induction fuel as [|fuel IH]; intros step Hs Hf.
  { case_decide; lia. }
  cbn [step_loop]. rewrite gcd_spec by lia. destruct (Z.eqb_spec (Z.gcd step n) 1) as [|Hg]; [done|].
  assert (step ≠ 1) as Hne by (intros ->; rewrite Z.gcd_1_l in Hg; done).
  rewrite decide_False in Hf by done.
  destruct (decide (step = n - 1)) as [->|].
  - rewrite Z.rem_same by lia. apply IH; [lia|]. rewrite decide_True by done. lia.
  - rewrite Z.rem_small by lia. apply IH; [lia|]. rewrite decide_False by lia. lia.
Qed.

(** The loop that picks a step ends with a step coprime to the count. *)
Lemma choose_order_spec n r1 r2 :
  0 < n → 0 ≤ r1 < n → 0 ≤ r2 < Z.max 1 (n - 1) →
  let '(start, step) := choose_order n r1 r2 in
  start = r1 ∧ 1 ≤ step ∧ Z.gcd step n = 1.
Proof.
  intros Hn H1 H2. unfold choose_order. rewrite (proj2 (Z.ltb_lt 0 n)) by lia. split; [done|].
  destruct (Z.ltb_spec 1 n).
  - pose proof (step_loop_spec (Z.to_nat n) (r2 + 1) n ltac:(lia) ltac:(lia)) as H3.
    case_decide; destruct H3; lia.
  - assert (n = 1) as -> by lia. done.
Qed.

Lemma next_index_mod n step i : 0 < n → 0 ≤ i → 0 ≤ step → next_index n step i = (i + step) `mod` n.
Proof. intros. unfold next_index. rewrite Z.max_r by lia. apply Z.rem_mod_nonneg; lia. Qed.

(** The index offered after [k] more rounds. *)
Definition index_at (n step i k : Z) : Z := (i + k * step) `mod` n.

Lemma index_at_0 n step i : 0 ≤ i < n → index_at n step i 0 = i.
Proof. intros. unfold index_at. rewrite Z.add_0_r. by apply Z.mod_small. Qed.

Lemma index_at_range n step i k : 0 < n → 0 ≤ index_at n step i k < n.
Proof. intros. by apply Z.mod_pos_bound. Qed.

Lemma index_at_next n step i k :
  0 < n → 0 ≤ step → next_index n step (index_at n step i k) = index_at n step i (k + 1).
Proof.
  intros Hn Hs. pose proof (index_at_range n step i k Hn). rewrite next_index_mod by lia.
  unfold index_at. rewrite Z.add_mod_idemp_l by lia. f_equal. lia.
Qed.

Lemma index_at_succ n step i k :
  0 < n → index_at n step (index_at n step i 1) k = index_at n step i (k + 1).
Proof. intros. unfold index_at. rewrite Z.add_mod_idemp_l by lia. f_equal. lia. Qed.

Lemma feed_order_eq left n step i :
  0 ≤ i < n → 0 ≤ step →
  feed_order left n step i = index_at n step i <$> seqZ 0 (Z.of_nat left).
Proof.
  intros Hi Hs. revert i Hi. induction left as [|left IH]; intros i Hi; [done|].
  cbn [feed_order]. rewrite Nat2Z.inj_succ, seqZ_cons by lia. cbn [fmap list_fmap].
  rewrite index_at_0 by done. f_equal. rewrite <-(index_at_0 n step i) at 1 by done.
  rewrite index_at_next by lia. rewrite IH by (apply index_at_range; lia).
  rewrite Z.pred_succ. change (Z.succ 0) with (1 + 0).
  rewrite <-fmap_add_seqZ, <-list_fmap_compose.
  apply list_fmap_ext. intros _ k _. cbn. rewrite index_at_succ by lia. f_equal. lia.
Qed.

Lemma index_at_inj n step i a b :
  0 < n → Z.gcd step n = 1 → 0 ≤ a < n → 0 ≤ b < n →
  index_at n step i a = index_at n step i b → a = b.
Proof.
  intros Hn Hg Ha Hb Heq. unfold index_at in Heq.
  assert ((n | step * (a - b))) as Hd.
  { apply Z.mod_divide; [lia|]. replace (step * (a - b)) with ((i + a * step) - (i + b * step)) by lia.
    rewrite Zminus_mod, Heq, Z.sub_diag. apply Z.mod_0_l. lia. }
  apply Z.gauss in Hd; [|by rewrite Z.gcd_comm]. destruct Hd as [q Hq].
  assert (q = 0) by nia. lia.
Qed.

Lemma order_perm n step i :
  0 ≤ i < n → Z.gcd step n = 1 → index_at n step i <$> seqZ 0 n ≡ₚ seqZ 0 n.
Proof.
  intros Hi Hg. apply submseteq_length_Permutation; [|by rewrite length_fmap].
  apply NoDup_submseteq.
  - apply NoDup_fmap_2_strong; [|apply NoDup_seqZ].
    intros a b Ha%elem_of_seqZ Hb%elem_of_seqZ. apply index_at_inj; lia.
  - intros x (k & -> & _)%list_elem_of_fmap. apply elem_of_seqZ.
    pose proof (index_at_range n step i k ltac:(lia)). lia.
Qed.

(** Every index is offered in some round. *)
Lemma index_at_surj n step i j :
  0 ≤ i < n → Z.gcd step n = 1 → 0 ≤ j < n → ∃ k, 0 ≤ k < n ∧ j = index_at n step i k.
Proof.
  intros Hi Hg Hj. assert (j ∈ seqZ 0 n) as Hin by (apply elem_of_seqZ; lia).
  rewrite <-(order_perm n step i Hi Hg) in Hin.
  apply list_elem_of_fmap in Hin as (k & -> & Hk%elem_of_seqZ). exists k. split; [lia|done].
Qed.

(** C32. The shuffled order is an order of the file's chunks: for any random numbers
    the loop that picks the step ends, and the feeder offers every index from 0 to
    count-1 exactly once. *)
Theorem feed_order_complete (n r1 r2 : Z) :
  0 < n → 0 ≤ r1 < n → 0 ≤ r2 < Z.max 1 (n - 1) →
  feed_order (Z.to_nat n) n (choose_order n r1 r2).2 (choose_order n r1 r2).1 ≡ₚ seqZ 0 n.
Proof.
  intros Hn H1 H2. pose proof (choose_order_spec n r1 r2 Hn H1 H2) as H.
  destruct (choose_order n r1 r2) as [start step]. destruct H as (-> & Hs & Hg). cbn [fst snd].
  rewrite feed_order_eq, Z2Nat.id by lia. by apply order_perm.
Qed.

Lemma feed_order_complete_witness :
  feed_order 10 10 (choose_order 10 7 3).2 (choose_order 10 7 3).1 ≡ₚ seqZ 0 10 ∧
  feed_order 10 10 (choose_order 10 7 3).2 (choose_order 10 7 3).1 = [7; 4; 1; 8; 5; 2; 9; 6; 3; 0].
Proof.
  split; [|vm_compute; reflexivity]. apply (feed_order_complete 10 7 3); lia.
Defined.

(** ** What a fetch does to the temporary file *)

Lemma chunk_bytes_patch_other data i j b :
  0 ≤ i → zlen b ≤ ChunkSize → i * ChunkSize + zlen b ≤ zlen data → 0 ≤ j → j ≠ i →
  chunk_bytes (patch (i * ChunkSize) b data) j = chunk_bytes data j.
Proof.
  intros Hi Hb Hd Hj Hne. pose proof ChunkSize_pos.
  assert (0 ≤ i * ChunkSize) by (apply Z.mul_nonneg_nonneg; lia).
  assert (0 ≤ j * ChunkSize) by (apply Z.mul_nonneg_nonneg; lia).
  apply list_eq. intros k. rewrite !chunk_bytes_at by done.
  case_decide; [|done]. rewrite patch_lookup by lia. rewrite decide_False; [done|].
  intros Hin. apply Hne. rewrite Nat2Z.inj_add, Z2Nat.id in Hin by done. nia.
Qed.

(** After a fetch of chunk [i] every other chunk is as before; a fetch that
    succeeds leaves in the file the bytes whose checksum it returns. *)
Definition fetch_effect (i : Z) (d d' : bytes) (r : res client_error (Z * Z)) : Prop :=
  zlen d' = zlen d ∧
  (∀ j, 0 ≤ j → j ≠ i → chunk_bytes d' j = chunk_bytes d j) ∧
  (∀ n sum, r = Ok (n, sum) → sum = ChecksumIEEE (chunk_bytes d' i) ∧ n = zlen (chunk_bytes d' i)).

Lemma with_data_same f : with_data f (f_data f) = f.
Proof. by destruct f. Qed.

Lemma Save_effect fs ck h f i b fail e fs' :
  chunk_wf fs ck h f → Save fs ck i b fail = (e, fs') →
  ∃ d, chunk_wf fs' ck h (with_data f d) ∧
    fetch_effect i (f_data f) d
      (match e with None => Ok (zlen b, ChecksumIEEE b) | Some x => Err (ErrSave x) end).
Proof.
  intros Hwf Hs. pose proof ChunkSize_pos.
  assert (∀ x, e = Some x → fs' = fs → ∃ d, chunk_wf fs' ck h (with_data f d) ∧
    fetch_effect i (f_data f) d (Err (ErrSave x))) as Hsame.
  { intros x -> ->. exists (f_data f). rewrite with_data_same. done. }
  destruct (decide (0 ≤ i < GetChunkNum ck)) as [Hi|Hi].
  2:{ rewrite Save_out in Hs by lia. simplify_eq. by apply Hsame. }
  rewrite (Save_in _ _ _ _ _ _ _ Hwf Hi) in Hs. cbv zeta in Hs.
  rewrite (GetChunkNum_count _ _ _ _ Hwf), chunk_count_range in Hi by apply zlen_nonneg.
  destruct (Z.eqb_spec (zlen b) (Z.min ChunkSize (zlen (f_data f) - i * ChunkSize)))
    as [Hlen|]; cbn [negb] in Hs; [|simplify_eq; by apply Hsame]. clear Hsame.
  assert (0 ≤ i * ChunkSize) by (apply Z.mul_nonneg_nonneg; lia).
  assert (∀ b', zlen b' ≤ zlen b →
    chunk_wf (<[h := with_data f (patch (i * ChunkSize) b' (f_data f))]> fs) ck h
      (with_data f (patch (i * ChunkSize) b' (f_data f)))
    ∧ zlen (patch (i * ChunkSize) b' (f_data f)) = zlen (f_data f)
    ∧ (∀ j, 0 ≤ j → j ≠ i → chunk_bytes (patch (i * ChunkSize) b' (f_data f)) j
                             = chunk_bytes (f_data f) j)) as Hp.
  { intros b' Hb'. split; [|split].
    - apply chunk_wf_patch; [done|lia|lia].
    - unfold zlen. rewrite patch_length; [done|lia|lia].
    - intros j Hj Hne. apply chunk_bytes_patch_other; lia. }
  destruct fail as [k|]; simplify_eq.
  - exists (patch (i * ChunkSize) (take k b) (f_data f)).
    destruct (Hp (take k b)) as (H1 & H2 & H3); [unfold zlen; rewrite length_take; lia|].
    split; [done|]. split; [done|]. split; [done|]. by intros ? ? [=].
  - exists (patch (i * ChunkSize) b (f_data f)). destruct (Hp b) as (H1 & H2 & H3); [done|].
    split; [done|]. split; [done|]. split; [done|]. intros n sum [= <- <-].
    destruct (chunk_bytes_patch (f_data f) i b) as [-> _]; [lia|lia|done|done].
Qed.

Lemma Ok_pair_inj {E A B} (a c : A) (b d : B) :
  @Ok E _ (a, b) = Ok (c, d) → a = c ∧ b = d.
Proof. intros H. by injection H. Qed.

Lemma Save_bytes fs ck h f i b fail fs' d :
  chunk_wf fs ck h f → Save fs ck i b fail = (None, fs') → chunk_wf fs' ck h (with_data f d) →
  chunk_bytes d i = b.
Proof.
  intros Hwf Hs Hd. pose proof ChunkSize_pos.
  destruct (decide (0 ≤ i < GetChunkNum ck)) as [Hi|Hi].
  2:{ by rewrite Save_out in Hs by lia. }
  rewrite (Save_in _ _ _ _ _ _ _ Hwf Hi) in Hs. cbv zeta in Hs.
  rewrite (GetChunkNum_count _ _ _ _ Hwf), chunk_count_range in Hi by apply zlen_nonneg.
  destruct (Z.eqb_spec (zlen b) (Z.min ChunkSize (zlen (f_data f) - i * ChunkSize)))
    as [Hlen|]; cbn [negb] in Hs; [|done]. destruct fail; [done|]. injection Hs as <-.
  destruct Hd as [_ Hd _ _ _ _]. rewrite lookup_insert_eq in Hd. injection Hd as <-.
  destruct (chunk_bytes_patch (f_data f) i b) as [Hb _]; [lia|lia|done|done].
Qed.

Lemma FetchChunk_effect conn i fs ck fail h f r fin fs' :
  chunk_wf fs ck h f → FetchChunk conn i fs ck fail = (r, fin, fs') →
  ∃ d, chunk_wf fs' ck h (with_data f d) ∧ fetch_effect i (f_data f) d r ∧
    ∀ n sum, r = Ok (n, sum) → fetch conn i fs ck fail = (Ok (chunk_bytes d i, sum), fin, fs').
Proof.
  intros Hwf Hf. unfold FetchChunk in Hf.
  destruct (fetch conn i fs ck fail) as [[r0 fin0] fs0] eqn:Hfe. simplify_eq.
  destruct r0 as [[b sum]|e].
  - apply fetch_Ok in Hfe as (-> & Hs & _).
    destruct (Save_effect _ _ _ _ _ _ _ _ _ Hwf Hs) as (d & H1 & H2 & H3). exists d.
    destruct (Save_bytes _ _ _ _ _ _ _ _ _ Hwf Hs H1). split; [done|]. split; [done|].
    intros n sum [_ <-]%Ok_pair_inj. reflexivity.
  - apply fetch_Err in Hfe as [_ [->|(b & x & -> & Hs)]].
    + exists (f_data f). rewrite with_data_same. split; [done|]. split; [|by intros ? ? [=]].
      split; [done|]. split; [done|]. by intros ? ? [=].
    + destruct (Save_effect _ _ _ _ _ _ _ _ _ Hwf Hs) as (d & H1 & H2). exists d.
      split; [done|]. split; [done|]. by intros ? ? [=].
Qed.

(** ** The invariant of a run *)

(** The chunk a worker has claimed, or has taken from the feeder; the checksum of
    what it has fetched; whether it has recorded it; the error it must carry. *)
Definition claims (w : worker) : option Z :=
  match w with
  | W_attempt i _ _ | W_want i _ | W_try i _ _ _ | W_fetch i _ _ _ | W_fetched i _ _ _ _
  | W_store i _ _ _ _ | W_added i _ _ _ | W_failed i _ _ | W_retry i _ _ | W_over i _
  | W_cancel i => Some i
  | _ => None
  end.

Definition carries (w : worker) : option Z :=
  match w with W_check i => Some i | _ => claims w end.

Definition holds (w : worker) : option (Z * Z) :=
  match w with W_fetched i _ _ sum _ | W_store i _ _ sum _ => Some (i, sum) | _ => None end.

Definition stored (w : worker) : bool := match w with W_added _ _ _ _ => true | _ => false end.

Definition good_worker (fl : option (Z * client_error)) (w : worker) : Prop :=
  match w with
  | W_attempt _ k last => 0 ≤ k ≤ 3 ∧ (k = 0 ∨ last ≠ None)
  | W_want _ k | W_fetch _ k _ _ => 0 ≤ k < 3
  | W_try _ k e cands => 0 ≤ k < 3 ∧ (e ≠ None ∨ cands ≠ [])
  | W_failed _ k e | W_retry _ k e => 0 ≤ k < 3 ∧ e ≠ None
  | W_cancel _ => fl ≠ None
  | _ => True
  end.

(** Some worker has [i] in the sense of [F]. *)
Definition holder (F : worker → option Z) (ws : list worker) (i : Z) : Prop :=
  ∃ k w, ws !! k = Some w ∧ F w = Some i.

Definition hashes (st : Dl) : gmap Z Z := chunkHash (sess st).

Definition covered (st : Dl) (i : Z) : Prop :=
  is_Some (hashes st !! i) ∨ holder carries (workers st) i.

(** How many rounds of the feeder are over. *)
Definition fed (P : Params) (f : feeder) : Z :=
  match f with F_top n _ | F_urgent n _ _ | F_main n _ => n | F_closed => count P end.

Definition round (P : Params) (k : Z) : Z := index_at (count P) (p_step P) (p_start P) k.

Definition good_feeder (P : Params) (f : feeder) : Prop :=
  match f with
  | F_top n i => 0 ≤ n ≤ count P ∧ (0 < count P → i = round P n)
  | F_urgent n i u => 0 ≤ n < count P ∧ i = round P n ∧ 0 ≤ u < count P
  | F_main n i => 0 ≤ n < count P ∧ i = round P n
  | F_closed => True
  end.

(** The temporary file holds every chunk recorded or about to be. *)
Record file_inv (P : Params) (st : Dl) (h : fd) (f : OsFile) : Prop := {
  fi_wf : chunk_wf (disk st) (p_ck P) h f;
  fi_hash i c : hashes st !! i = Some c →
    0 ≤ i < count P ∧ c = ChecksumIEEE (chunk_bytes (f_data f) i) ∧
    accept i (chunk_bytes (f_data f) i);
  fi_held k w i sum : workers st !! k = Some w → holds w = Some (i, sum) →
    sum = ChecksumIEEE (chunk_bytes (f_data f) i) ∧ accept i (chunk_bytes (f_data f) i);
}.

Record dl_inv (P : Params) (h : fd) (len : Z) (st : Dl) : Prop := {
  i_main : isMain (sess st) = false;
  i_ck : chunkProvider (sess st) = p_ck P;
  i_file : ∃ f, file_inv P st h f ∧ zlen (f_data f) = len;
  i_good k w : workers st !! k = Some w → good_worker (failure st) w;
  i_carry k w i : workers st !! k = Some w → carries w = Some i → 0 ≤ i < count P;
  i_claim k w i : workers st !! k = Some w → claims w = Some i →
    i ∈ claimed st ∧ (is_Some (hashes st !! i) ↔ stored w = true);
  i_uniq k k' w w' i : workers st !! k = Some w → workers st !! k' = Some w' →
    claims w = Some i → claims w' = Some i → k = k';
  i_orphan i : cancelled st = false → i ∈ claimed st → holder claims (workers st) i;
  i_feed : good_feeder P (feed st);
  i_prio : Forall (λ i, 0 ≤ i < count P) (priority st);
  i_cover m : cancelled st = false → 0 ≤ m < fed P (feed st) → covered st (round P m);
  i_cancel : cancelled st = true → user_done st = true ∨ failure st ≠ None;
  i_done : ndone st = Z.of_nat (size (dom (hashes st) ∖ claimed st));
  i_gone k : workers st !! k = Some W_gone → cancelled st = true ∨ feed st = F_closed;
  i_reports i : RepChunk i ∈ reports st → is_Some (hashes st !! i);
}.

(** The run's parameters fit the temporary file. *)
Record params_ok (P : Params) (h : fd) (len : Z) : Prop := {
  po_file : file (p_ck P) = Some h;
  po_size : 0 ≤ len ≤ 2 ^ 50;
  po_count : count P = chunk_count len;
  po_order : 0 < count P →
    0 ≤ p_start P < count P ∧ 1 ≤ p_step P ∧ Z.gcd (p_step P) (count P) = 1;
}.

(** ** Workers in the list *)

Lemma insert_cases (ws : list worker) k w j v :
  <[k := w]> ws !! j = Some v → (j = k ∧ v = w) ∨ (j ≠ k ∧ ws !! j = Some v).
Proof. intros [(-> & -> & _)|[? ?]]%list_lookup_insert_Some; auto. Qed.

Lemma holder_insert F ws k w w' i :
  ws !! k = Some w → (F w = Some i → F w' = Some i) → holder F ws i → holder F (<[k := w']> ws) i.
Proof.
  intros Hk Hw (j & v & Hj & Hv). destruct (decide (j = k)) as [->|Hne].
  - exists k, w'. rewrite list_lookup_insert_eq by by eapply lookup_lt_Some. naive_solver.
  - exists j, v. by rewrite list_lookup_insert_ne.
Qed.

Lemma holder_new F ws k w w' i :
  ws !! k = Some w → F w' = Some i → holder F (<[k := w']> ws) i.
Proof.
  intros Hk Hw. exists k, w'. by rewrite list_lookup_insert_eq by by eapply lookup_lt_Some.
Qed.

(** Everything the invariant reads, apart from the workers, is the same. *)
Record same_core (st st' : Dl) : Prop := {
  sc_sess : sess st' = sess st;
  sc_disk : disk st' = disk st;
  sc_workers : workers st' = workers st;
  sc_feed : feed st' = feed st;
  sc_priority : priority st' = priority st;
  sc_claimed : claimed st' = claimed st;
  sc_ndone : ndone st' = ndone st;
  sc_cancelled : cancelled st' = cancelled st;
  sc_user : user_done st' = user_done st;
  sc_failure : failure st ≠ None → failure st' ≠ None;
  sc_reports i : RepChunk i ∈ reports st' → RepChunk i ∈ reports st;
}.

Lemma same_core_refl st : same_core st st.
Proof. by split. Qed.

Lemma good_worker_mono fl fl' w : (fl ≠ None → fl' ≠ None) → good_worker fl w → good_worker fl' w.
Proof. destruct w; naive_solver. Qed.

(** A worker moves on with the same chunk. *)
Lemma inv_quiet P h len st st' k w w' :
  dl_inv P h len st → same_core st st' → workers st !! k = Some w →
  claims w' = claims w → carries w' = carries w → stored w' = stored w →
  (∀ x, holds w' = Some x → holds w = Some x) →
  good_worker (failure st') w' → w' ≠ W_gone →
  dl_inv P h len (set_worker k w' st').
Proof.
  intros [] [Hs Hd Hw Hf Hp Hc Hn Hca Hu Hfl Hr] Hk H1 H2 H3 H4 Hg Hng.
  unfold covered, hashes in *.
  split; cbn [set_worker sess disk workers feed priority claimed ndone failure cancelled user_done
    reports hashes]; unfold covered, hashes; cbn [set_worker sess workers];
    rewrite ?Hs, ?Hd, ?Hw, ?Hf, ?Hp, ?Hc, ?Hn, ?Hca, ?Hu; try done.
  - destruct i_file0 as (f & [Hwf Hh Hheld] & Hsz). exists f. split; [|done].
    split; cbn [set_worker disk workers]; unfold hashes in *; cbn [set_worker sess];
      rewrite ?Hs, ?Hd, ?Hw; try done.
    intros j v i sum [[-> ->]|[_ Hj]]%insert_cases Hv; [|by eapply Hheld].
    by eapply Hheld; [exact Hk|apply H4].
  - intros j v [[-> ->]|[_ Hj]]%insert_cases; [done|]. eapply good_worker_mono; eauto.
  - intros j v i [[-> ->]|[_ Hj]]%insert_cases Hv; [|by eapply i_carry0].
    rewrite H2 in Hv. by eapply i_carry0.
  - intros j v i [[-> ->]|[_ Hj]]%insert_cases Hv; [|by eapply i_claim0].
    rewrite H1 in Hv. rewrite H3. by eapply i_claim0.
  - intros j j' v v' i [[-> ->]|[? Hj]]%insert_cases [[-> ->]|[? Hj']]%insert_cases Hv Hv';
      rewrite ?H1 in *; eauto.
  - intros i Hcf Hi. eapply holder_insert; [exact Hk|by rewrite H1|auto].
  - intros m Hcf Hm. destruct (i_cover0 m Hcf Hm) as [?|?]; [by left|right].
    eapply holder_insert; [exact Hk|by rewrite H2|done].
  - naive_solver.
  - intros j [[-> Hv]|[_ Hj]]%insert_cases; [by destruct Hng|]. eauto.
  - eauto.
Qed.

(** A worker leaves once the context is done. *)
Lemma inv_leave P h len st k w :
  dl_inv P h len st → cancelled st = true → workers st !! k = Some w →
  dl_inv P h len (set_worker k W_gone st).
Proof.
  intros [] Hc Hk.
  split; cbn [set_worker sess disk workers feed priority claimed ndone failure cancelled user_done
    reports]; try done; try congruence.
  - destruct i_file0 as (f & [Hwf Hh Hheld] & Hsz). exists f. split; [|done].
    split; cbn [set_worker disk workers]; try done.
    intros j v i sum [[-> ->]|[_ Hj]]%insert_cases Hv; [done|by eapply Hheld].
  - intros j v [[-> ->]|[_ Hj]]%insert_cases; [done|eauto].
  - intros j v i [[-> ->]|[_ Hj]]%insert_cases Hv; [done|by eapply i_carry0].
  - intros j v i [[-> ->]|[_ Hj]]%insert_cases Hv; [done|by eapply i_claim0].
  - intros j j' v v' i [[-> ->]|[? Hj]]%insert_cases [[-> ->]|[? Hj']]%insert_cases Hv Hv';
      try done; eauto.
  - by left.
Qed.

Ltac dl_split :=
  split; cbn [set_worker set_feed set_claimed set_disk set_sess set_cancelled set_counts say
    sess disk workers feed priority claimed ndone failure cancelled user_done reports];
  unfold covered, hashes; cbn [set_worker set_feed set_claimed set_disk set_sess set_cancelled
    set_counts say sess workers]; try done.

(** The workers' part of the file invariant, when only worker [k] changes. *)
Lemma held_insert (Q : worker → Z → Z → Prop) (ws : list worker) k w' :
  (∀ j v i sum, ws !! j = Some v → holds v = Some (i, sum) → Q v i sum) →
  (∀ i sum, holds w' = Some (i, sum) → Q w' i sum) →
  ∀ j v i sum, <[k := w']> ws !! j = Some v → holds v = Some (i, sum) → Q v i sum.
Proof. intros H1 H2 j v i sum [[-> ->]|[_ Hj]]%insert_cases Hv; eauto. Qed.

Lemma HasChunk_spec P h len st i :
  params_ok P h len → dl_inv P h len st → 0 ≤ i < count P →
  HasChunk (sess st) i = bool_decide (is_Some (hashes st !! i)).
Proof.
  intros [] [] Hi. destruct i_file0 as (f & [Hwf _ _] & Hsz). unfold HasChunk.
  rewrite i_ck0, i_main0, (GetChunkNum_count _ _ _ _ Hwf), Hsz, <-po_count0.
  rewrite bool_decide_false by (destruct Hwf as [_ _ _ [? ->] _ _]; done).
  by rewrite (proj2 (Z.ltb_ge i 0)), (proj2 (Z.leb_gt _ _)) by lia.
Qed.

(** A worker drops an index that another has, or that is stored. *)
Lemma inv_skip P h len st k i :
  dl_inv P h len st → workers st !! k = Some (W_check i) →
  i ∈ claimed st ∨ is_Some (hashes st !! i) → dl_inv P h len (set_worker k W_recv st).
Proof.
  intros [] Hk Hi. dl_split.
  - destruct i_file0 as (f & [Hwf Hh Hheld] & Hsz). exists f. split; [|done]. split; [done|done|].
    eapply (held_insert (λ _ i sum, sum = ChecksumIEEE (chunk_bytes (f_data f) i)
      ∧ accept i (chunk_bytes (f_data f) i))); [done|done].
  - intros j v [[-> ->]|[_ Hj]]%insert_cases; [done|eauto].
  - intros j v c [[-> ->]|[_ Hj]]%insert_cases Hv; [done|by eapply i_carry0].
  - intros j v c [[-> ->]|[_ Hj]]%insert_cases Hv; [done|by eapply i_claim0].
  - intros j j' v v' c [[-> ->]|[? Hj]]%insert_cases [[-> ->]|[? Hj']]%insert_cases Hv Hv';
      try done; eauto.
  - intros c Hc Hin. eapply holder_insert; [exact Hk|done|auto].
  - intros m Hc Hm. destruct (i_cover0 m Hc Hm) as [?|(j & v & Hj & Hv)]; [by left|].
    destruct (decide (j = k)) as [->|Hne].
    2:{ right. exists j, v. by rewrite list_lookup_insert_ne. }
    simplify_eq. cbn in Hv. injection Hv as ->. destruct Hi as [Hi|Hi]; [right|by left].
    destruct (i_orphan0 _ Hc Hi) as (j & v & Hj & Hv). exists j, v.
    rewrite list_lookup_insert_ne by (intros ->; by simplify_eq). split; [done|].
    by destruct v.
  - intros j [[-> Hv]|[_ Hj]]%insert_cases; [done|eauto].
Qed.

(** A worker claims a chunk. *)
Lemma inv_claim P h len st k i :
  dl_inv P h len st → workers st !! k = Some (W_check i) →
  i ∉ claimed st → hashes st !! i = None →
  dl_inv P h len (set_worker k (W_attempt i 0 None) (set_claimed ({[i]} ∪ claimed st) st)).
Proof.
  intros [] Hk Hi Hn.
  assert (∀ j v, workers st !! j = Some v → claims v = Some i → False) as Hfresh.
  { intros j v Hj Hv. by destruct (i_claim0 _ _ _ Hj Hv). }
  dl_split.
  - destruct i_file0 as (f & [Hwf Hh Hheld] & Hsz). exists f. split; [|done]. split; [done|done|].
    eapply (held_insert (λ _ i sum, sum = ChecksumIEEE (chunk_bytes (f_data f) i)
      ∧ accept i (chunk_bytes (f_data f) i))); [done|done].
  - intros j v [[-> ->]|[_ Hj]]%insert_cases; [|eauto]. cbn. split; [lia|by left].
  - intros j v c [[-> ->]|[_ Hj]]%insert_cases Hv; [|by eapply i_carry0].
    by eapply i_carry0; [exact Hk|].
  - intros j v c [[-> ->]|[_ Hj]]%insert_cases Hv.
    + injection Hv as <-. split; [set_solver|]. unfold hashes in Hn. rewrite Hn.
      split; [by intros [? ?]|done].
    + destruct (i_claim0 _ _ _ Hj Hv). split; [set_solver|done].
  - intros j j' v v' c [[-> ->]|[? Hj]]%insert_cases [[-> ->]|[? Hj']]%insert_cases Hv Hv';
      try done; [| |by eauto]; exfalso; simplify_eq/=; eauto.
  - intros c Hc [->%elem_of_singleton|Hin]%elem_of_union; [by eapply holder_new|].
    eapply holder_insert; [exact Hk|done|auto].
  - intros m Hc Hm. destruct (i_cover0 m Hc Hm) as [?|?]; [by left|right].
    by eapply holder_insert.
  - rewrite i_done0. do 2 f_equal. unfold hashes in *. apply leibniz_equiv.
    assert (i ∉ dom (chunkHash (sess st))) by (by apply not_elem_of_dom). set_solver.
  - intros j [[-> Hv]|[_ Hj]]%insert_cases; [done|eauto].
Qed.

Lemma claim_of_holds w i sum : holds w = Some (i, sum) → claims w = Some i ∧ stored w = false.
Proof. by destruct w; cbn; intros [=]; subst. Qed.

Lemma carry_of_claim w i : claims w = Some i → carries w = Some i.
Proof. by destruct w. Qed.

(** A fetch of the chunk a worker has claimed. *)
Lemma inv_fetch P h len st k i a c rest conn fail secs other w' st' :
  dl_inv P h len st → workers st !! k = Some (W_fetch i a c rest) →
  delivers P (W_fetch i a c rest) (Fetched conn fail secs other) st →
  fetch_from P conn fail secs other i a c rest st = (w', st') →
  dl_inv P h len (set_worker k w' st').
Proof.
  intros [] Hk Hdel Hf. cbn in Hdel. unfold fetch_from in Hf.
  destruct (FetchChunk conn i (disk st) (p_ck P) fail) as [[r fin] fs'] eqn:Hfe.
  destruct i_file0 as (f & [Hwf Hh Hheld] & Hsz).
  destruct (FetchChunk_effect _ _ _ _ _ _ _ _ _ _ Hwf Hfe) as
    (d & Hwf' & (Hlen & Hother & Hok) & Hfetch).
  destruct (i_claim0 _ _ i Hk eq_refl) as [Hcl Hst].
  pose proof (i_good0 _ _ Hk) as Hg. cbn in Hg.
  assert (∀ j v c', workers st !! j = Some v → claims v = Some c' → j ≠ k → c' ≠ i) as Hne.
  { intros j v c' Hj Hv Hjk ->. destruct Hjk. by apply (i_uniq0 _ _ _ _ i Hj Hk). }
  assert (claims w' = Some i ∧ carries w' = Some i ∧ stored w' = false ∧ w' ≠ W_gone ∧
    good_worker (failure st) w' ∧
    (∀ j sum, holds w' = Some (j, sum) → sum = ChecksumIEEE (chunk_bytes d j)
       ∧ accept j (chunk_bytes d j)) ∧
    sess st' = sess st ∧ disk st' = fs' ∧ workers st' = workers st ∧ feed st' = feed st ∧
    priority st' = priority st ∧ claimed st' = claimed st ∧ ndone st' = ndone st ∧
    cancelled st' = cancelled st ∧ user_done st' = user_done st ∧ failure st' = failure st ∧
    ∀ j, RepChunk j ∈ reports st' → RepChunk j ∈ reports st) as
    (H1 & H2 & H3 & H4 & H5 & H6 & E1 & E2 & E3 & E4 & E5 & E6 & E7 & E8 & E9 & E10 & E11).
  { destruct r as [[n sum]|e]; simplify_eq;
      repeat match goal with |- _ ∧ _ => split end; try done.
    - intros j s [=]; subst. destruct (Hok _ _ eq_refl) as [-> _]. split; [done|].
      by eapply Hdel, Hfetch.
    - cbn. split; [lia|by left].
    - cbn. intros j [Hj|Hj]%elem_of_app; [done|]. by apply list_elem_of_singleton in Hj. }
  clear Hf. dl_split; rewrite ?E1, ?E2, ?E3, ?E4, ?E5, ?E6, ?E7, ?E8, ?E9, ?E10 in *; try done.
  - exists (with_data f d). split; [|by cbn; rewrite Hlen]. split.
    + by cbn; rewrite E2.
    + unfold hashes. cbn. rewrite E1. intros j cs Hj. destruct (Hh j cs Hj) as (Hr & -> & Hac). split; [done|].
      rewrite Hother; [done|lia|]. intros ->.
      assert (false = true) by (apply Hst; unfold hashes; eauto). done.
    + cbn. rewrite E3. intros j v j' sum [[-> ->]|[Hjk Hj]]%insert_cases Hv; [by eapply H6|].
      destruct (Hheld _ _ _ _ Hj Hv) as [-> Hac].
      destruct (claim_of_holds _ _ _ Hv) as [Hvc _].
      pose proof (carry_of_claim _ _ Hvc) as Hcar.
      pose proof (i_carry0 _ _ _ Hj Hcar). rewrite Hother; [done|lia|by eapply Hne].
  - intros j v [[-> ->]|[_ Hj]]%insert_cases; [done|eauto].
  - intros j v c' [[-> ->]|[_ Hj]]%insert_cases Hv; [|by eapply i_carry0].
    assert (c' = i) as -> by congruence. by apply (i_carry0 _ _ i Hk).
  - intros j v c' [[-> ->]|[_ Hj]]%insert_cases Hv; [|by eapply i_claim0].
    assert (c' = i) as -> by congruence. rewrite H3. by split.
  - intros j j' v v' c' [[-> ->]|[? Hj]]%insert_cases [[-> ->]|[? Hj']]%insert_cases Hv Hv';
      try done; [| |by eauto]; exfalso; rewrite H1 in *; simplify_eq; by eapply Hne.
  - intros c' Hc Hin. eapply holder_insert; [exact Hk|by rewrite H1|auto].
  - intros m Hc Hm. destruct (i_cover0 m Hc Hm) as [?|?]; [by left|right].
    eapply holder_insert; [exact Hk|by rewrite H2|done].
  - intros j [[-> Hv]|[_ Hj]]%insert_cases; [by destruct H4|eauto].
  - eauto.
Qed.

(** A worker records the chunk it fetched, and reports it. *)
Lemma inv_store P h len st k i id n sum speed :
  dl_inv P h len st → workers st !! k = Some (W_store i id n sum speed) →
  dl_inv P h len (set_worker k (W_added i id n speed) (store i sum st)).
Proof.
  intros [] Hk. destruct (i_claim0 _ _ i Hk eq_refl) as [Hcl Hst].
  assert (hashes st !! i = None) as Hnone.
  { destruct (hashes st !! i); [|done]. assert (false = true) by (apply Hst; eauto). done. }
  assert (chunkHash (AddChunk i sum (sess st)) = <[i := sum]> (hashes st)) as Hadd.
  { unfold AddChunk, hashes in *. by rewrite Hnone. }
  assert (isMain (AddChunk i sum (sess st)) = isMain (sess st) ∧
          chunkProvider (AddChunk i sum (sess st)) = chunkProvider (sess st)) as [Hm Hc].
  { unfold AddChunk, hashes in *. by rewrite Hnone. }
  pose proof (i_carry0 _ _ i Hk eq_refl) as Hr.
  assert (∀ j v c', workers st !! j = Some v → claims v = Some c' → j ≠ k → c' ≠ i) as Hne.
  { intros j v c' Hj Hv Hjk ->. destruct Hjk. by apply (i_uniq0 _ _ _ _ i Hj Hk). }
  unfold store. dl_split; rewrite ?Hm, ?Hc, ?Hadd; try done.
  - destruct i_file0 as (f & [Hwf Hh Hheld] & Hsz). exists f. split; [|done]. split; [done| |].
    + unfold hashes. cbn. rewrite Hadd. intros j c [[<- <-]|[_ Hj]]%lookup_insert_Some; [|by apply Hh].
      split; [done|]. by apply (Hheld _ _ _ _ Hk).
    + eapply (held_insert (λ _ i sum, sum = ChecksumIEEE (chunk_bytes (f_data f) i)
      ∧ accept i (chunk_bytes (f_data f) i))); done.
  - intros j v [[-> ->]|[_ Hj]]%insert_cases; [done|eauto].
  - intros j v c' [[-> ->]|[_ Hj]]%insert_cases Hv; [|by eapply i_carry0]. by injection Hv as <-.
  - intros j v c' [[-> ->]|[Hjk Hj]]%insert_cases Hv.
    + injection Hv as <-. split; [done|]. rewrite lookup_insert_eq. by split.
    + rewrite lookup_insert_ne by (symmetry; by eapply Hne). by eapply i_claim0.
  - intros j j' v v' c' [[-> ->]|[? Hj]]%insert_cases [[-> ->]|[? Hj']]%insert_cases Hv Hv';
      try done; [| |by eauto]; exfalso; simplify_eq/=; by eapply Hne.
  - intros c' Hc' Hin. eapply holder_insert; [exact Hk|done|auto].
  - intros m Hc' Hm'. destruct (i_cover0 m Hc' Hm') as [?|?].
    + left. rewrite lookup_insert_is_Some. destruct (decide (i = round P m)); auto.
    + right. by eapply holder_insert.
  - rewrite i_done0, dom_insert_L. do 2 f_equal. set_solver.
  - intros j [[-> Hv]|[_ Hj]]%insert_cases; [done|eauto].
  - intros j [Hj|Hj%list_elem_of_singleton]%elem_of_app; [|injection Hj as ->];
      rewrite lookup_insert_is_Some; [|by left].
    destruct (decide (i = j)); auto.
Qed.

Lemma inv_same P h len st st' : dl_inv P h len st → same_core st st' → dl_inv P h len st'.
Proof.
  intros [] [Hs Hd Hw Hf Hp Hc Hn Hca Hu Hfl Hr]. unfold covered, hashes in *.
  split; unfold covered, hashes; rewrite ?Hs, ?Hd, ?Hw, ?Hf, ?Hp, ?Hc, ?Hn, ?Hca, ?Hu; try done.
  - destruct i_file0 as (f & [Hwf Hh Hheld] & Hsz). exists f. split; [|done].
    split; unfold hashes in *; rewrite ?Hs, ?Hd, ?Hw; done.
  - intros k w Hk. eapply good_worker_mono; eauto.
  - naive_solver.
  - auto.
Qed.

Lemma emit_core P secs other st : same_core st (emitLocked P secs other st).
Proof. unfold emitLocked. by destruct (negb (p_on P)); split. Qed.

Lemma set_worker_core k w st st' : same_core st st' → same_core (set_worker k w st) (set_worker k w st').
Proof. intros []. by split; cbn; try congruence. Qed.

Lemma say_core P i id sp status st : same_core st (say (RepPeer id sp status i) st) ∧
  ∀ secs other, same_core st (say (RepPeer id sp status i) (emitLocked P secs other st)).
Proof.
  split; [|intros secs other; destruct (emit_core P secs other st)]; split; cbn; auto;
    intros j [?|Hj%list_elem_of_singleton]%elem_of_app; auto; done.
Qed.

Lemma dom_bounded (m : gmap Z Z) n :
  0 ≤ n → (∀ i c, m !! i = Some c → 0 ≤ i < n) → Z.of_nat (size (dom m)) ≤ n.
Proof.
  intros Hn Hm. assert (dom m ⊆ list_to_set (seqZ 0 n)) as Hs.
  { intros i [c Hi]%elem_of_dom. apply elem_of_list_to_set, elem_of_seqZ. apply Hm in Hi. lia. }
  apply subseteq_size in Hs. rewrite size_list_to_set, length_seqZ in Hs by apply NoDup_seqZ. lia.
Qed.

Lemma hash_bounded P h len st :
  params_ok P h len → dl_inv P h len st → Z.of_nat (size (dom (hashes st))) ≤ count P.
Proof.
  intros [] [? ? (f & [_ Hh _] & _)]. apply dom_bounded.
  - rewrite po_count0. apply chunk_count_nonneg. lia.
  - intros i c Hi. by destruct (Hh i c Hi).
Qed.

Lemma count_small P h len : params_ok P h len → 0 ≤ count P ≤ 2 ^ 50.
Proof.
  intros []. rewrite po_count0. split; [apply chunk_count_nonneg; lia|].
  unfold chunk_count. pose proof ChunkSize_pos. apply Z.div_le_upper_bound; [done|]. nia.
Qed.

(** A worker gives up its claim on the chunk it stored, and counts it. *)
Lemma inv_unclaim P h len st k i id n speed r :
  params_ok P h len → dl_inv P h len st → workers st !! k = Some (W_added i id n speed) →
  dl_inv P h len (set_worker k W_recv
    (set_counts (int64 (ndone st + 1)) r (set_claimed (claimed st ∖ {[i]}) st))).
Proof.
  intros Hpo Hinv Hk. pose proof (hash_bounded _ _ _ _ Hpo Hinv) as Hb.
  pose proof (count_small _ _ _ Hpo) as Hcount. destruct Hinv.
  destruct (i_claim0 _ _ i Hk eq_refl) as [Hcl Hst].
  assert (is_Some (hashes st !! i)) as Hi by by apply Hst.
  assert (∀ j v c', workers st !! j = Some v → claims v = Some c' → j ≠ k → c' ≠ i) as Hne.
  { intros j v c' Hj Hv Hjk ->. destruct Hjk. by apply (i_uniq0 _ _ _ _ i Hj Hk). }
  dl_split.
  - destruct i_file0 as (f & [Hwf Hh Hheld] & Hsz). exists f. split; [|done]. split; [done|done|].
    eapply (held_insert (λ _ i sum, sum = ChecksumIEEE (chunk_bytes (f_data f) i)
      ∧ accept i (chunk_bytes (f_data f) i))); done.
  - intros j v [[-> ->]|[_ Hj]]%insert_cases; [done|eauto].
  - intros j v c' [[-> ->]|[_ Hj]]%insert_cases Hv; [done|by eapply i_carry0].
  - intros j v c' [[-> ->]|[Hjk Hj]]%insert_cases Hv; [done|].
    destruct (i_claim0 _ _ _ Hj Hv). split; [|done]. pose proof (Hne _ _ _ Hj Hv Hjk). set_solver.
  - intros j j' v v' c' [[-> ->]|[? Hj]]%insert_cases [[-> ->]|[? Hj']]%insert_cases Hv Hv';
      try done; eauto.
  - intros c' Hc [Hin Hni]%elem_of_difference. destruct (i_orphan0 _ Hc Hin) as (j & v & Hj & Hv).
    exists j, v. rewrite list_lookup_insert_ne; [done|]. intros <-. simplify_eq. cbn in Hv. set_solver.
  - intros m Hc Hm. destruct (i_cover0 m Hc Hm) as [?|(j & v & Hj & Hv)]; [by left|].
    destruct (decide (j = k)) as [->|].
    + simplify_eq. cbn in Hv. injection Hv as <-. by left.
    + right. exists j, v. by rewrite list_lookup_insert_ne.
  - unfold hashes in *. assert (dom (chunkHash (sess st)) ∖ (claimed st ∖ {[i]})
      = {[i]} ∪ (dom (chunkHash (sess st)) ∖ claimed st)) as Heq.
    { apply elem_of_dom in Hi. apply set_eq. intros x. destruct (decide (x = i)); set_solver. }
    assert (size (dom (chunkHash (sess st)) ∖ (claimed st ∖ {[i]})) =
            S (size (dom (chunkHash (sess st)) ∖ claimed st))) as Hsize.
    { rewrite Heq, size_union by set_solver. by rewrite size_singleton. }
    assert (size (dom (chunkHash (sess st)) ∖ (claimed st ∖ {[i]})) ≤
            size (dom (chunkHash (sess st))))%nat by (apply subseteq_size; set_solver).
    rewrite Hsize in *. rewrite i_done0, int64_id; [lia|zlia].
  - intros j [[-> Hv]|[_ Hj]]%insert_cases; [done|eauto].
Qed.

Lemma inv_finish P h len st k i id n speed secs other :
  params_ok P h len → dl_inv P h len st → workers st !! k = Some (W_added i id n speed) →
  dl_inv P h len (set_worker k W_recv (finish_chunk P secs other i id n speed st)).
Proof.
  intros Hpo Hinv Hk. eapply inv_same; [by eapply (inv_unclaim _ _ _ _ _ _ _ _ _ (int64 (received st + n)))|].
  apply set_worker_core. apply say_core.
Qed.

Lemma inv_cancelled P h len st u :
  dl_inv P h len st → (u = true ∨ failure st ≠ None) →
  dl_inv P h len (set_cancelled true u st).
Proof.
  intros [] Hu. dl_split.
  - destruct i_file0 as (f & [Hwf Hh Hheld] & Hsz). exists f. split; [|done]. by split.
  - by left.
Qed.

(** The feeder and the queue of prefetch commands move on; the cover does not. *)
Lemma inv_feeder P h len st fd pr :
  dl_inv P h len st → good_feeder P fd → Forall (λ i, 0 ≤ i < count P) pr →
  (feed st = F_closed → fd = F_closed) →
  (cancelled st = true ∨ fed P fd = fed P (feed st)) →
  dl_inv P h len (set_feed fd pr st).
Proof.
  intros [] Hg Hpr Hcl Hfed. dl_split.
  - destruct i_file0 as (f & [Hwf Hh Hheld] & Hsz). exists f. split; [|done]. by split.
  - intros m Hc Hm. destruct Hfed as [?|Hfed]; [congruence|]. rewrite Hfed in Hm. by apply i_cover0.
  - intros k Hk. destruct (i_gone0 k Hk); auto.
Qed.

(** A worker takes an index. *)
Lemma inv_take P h len st k i fd :
  dl_inv P h len st → workers st !! k = Some W_recv → 0 ≤ i < count P → good_feeder P fd →
  feed st ≠ F_closed →
  (∀ m, 0 ≤ m < fed P fd → (0 ≤ m < fed P (feed st)) ∨ i = round P m) →
  dl_inv P h len (set_worker k (W_check i) (set_feed fd (priority st) st)).
Proof.
  intros [] Hk Hi Hg Hncl Hm. dl_split.
  - destruct i_file0 as (f & [Hwf Hh Hheld] & Hsz). exists f. split; [|done]. split; [done|done|].
    eapply (held_insert (λ _ i sum, sum = ChecksumIEEE (chunk_bytes (f_data f) i)
      ∧ accept i (chunk_bytes (f_data f) i))); done.
  - intros j v [[-> ->]|[_ Hj]]%insert_cases; [done|eauto].
  - intros j v c [[-> ->]|[_ Hj]]%insert_cases Hv; [by injection Hv as <-|by eapply i_carry0].
  - intros j v c [[-> ->]|[_ Hj]]%insert_cases Hv; [done|by eapply i_claim0].
  - intros j j' v v' c [[-> ->]|[? Hj]]%insert_cases [[-> ->]|[? Hj']]%insert_cases Hv Hv';
      try done; eauto.
  - intros c Hc Hin. eapply holder_insert; [exact Hk|done|auto].
  - intros m Hc Hm'. destruct (Hm m Hm') as [Hold| ->].
    + destruct (i_cover0 m Hc Hold) as [?|?]; [by left|right]. by eapply holder_insert.
    + right. by eapply holder_new.
  - intros j [[-> Hv]|[_ Hj]]%insert_cases; [done|]. destruct (i_gone0 j Hj); [by left|done].
Qed.

(** A worker leaves once the feeder has closed the channel. *)
Lemma inv_exit P h len st k :
  dl_inv P h len st → workers st !! k = Some W_recv → feed st = F_closed →
  dl_inv P h len (set_worker k W_gone st).
Proof.
  intros [] Hk Hf. dl_split.
  - destruct i_file0 as (f & [Hwf Hh Hheld] & Hsz). exists f. split; [|done]. split; [done|done|].
    eapply (held_insert (λ _ i sum, sum = ChecksumIEEE (chunk_bytes (f_data f) i)
      ∧ accept i (chunk_bytes (f_data f) i))); done.
  - intros j v [[-> ->]|[_ Hj]]%insert_cases; [done|eauto].
  - intros j v c [[-> ->]|[_ Hj]]%insert_cases Hv; [done|by eapply i_carry0].
  - intros j v c [[-> ->]|[_ Hj]]%insert_cases Hv; [done|by eapply i_claim0].
  - intros j j' v v' c [[-> ->]|[? Hj]]%insert_cases [[-> ->]|[? Hj']]%insert_cases Hv Hv';
      try done; eauto.
  - intros c Hc Hin. eapply holder_insert; [exact Hk|done|auto].
  - intros m Hc Hm. destruct (i_cover0 m Hc Hm) as [?|?]; [by left|right]. by eapply holder_insert.
  - auto.
Qed.

Lemma candidates_of_nonempty a loc : candidates_of a loc ≠ [].
Proof.
  unfold candidates_of, location_sources. destruct (wr_Sources loc); case_match; try done;
    by destruct (_ : list SourceCandidate).
Qed.

Lemma fail_core i e st : same_core st (fail_once i e st) ∧ failure (fail_once i e st) ≠ None.
Proof.
  unfold fail_once. destruct (failure st) eqn:E.
  - split; [apply same_core_refl|by rewrite E].
  - split; [|done]. by split.
Qed.

Lemma active_core v st : same_core st (set_active v st).
Proof. by split. Qed.

Lemma same_core_trans a b c : same_core a b → same_core b c → same_core a c.
Proof. intros [] []. split; try congruence; auto. Qed.

Lemma inv_attempt P h len st k i a last w' st' :
  dl_inv P h len st → workers st !! k = Some (W_attempt i a last) →
  attempt i a last st = (w', st') → dl_inv P h len (set_worker k w' st').
Proof.
  intros Hinv Hk Hs. pose proof (i_good _ _ _ _ Hinv _ _ Hk) as [Ha Hl]. unfold attempt in Hs.
  destruct (Z.ltb_spec a 3).
  - destruct (cancelled st) eqn:Hc; simplify_eq; [by eapply inv_leave|].
    eapply inv_quiet; try done; try apply same_core_refl. cbn. lia.
  - destruct Hl as [->|Hl]; [lia|]. destruct last as [e|]; [|done]. simplify_eq.
    eapply inv_quiet; try done; apply same_core_refl.
Qed.

Lemma inv_try P h len st k secs other i a e cands w' st' :
  dl_inv P h len st → workers st !! k = Some (W_try i a e cands) →
  try_next P secs other i a e cands st = (w', st') → dl_inv P h len (set_worker k w' st').
Proof.
  intros Hinv Hk Hs. pose proof (i_good _ _ _ _ Hinv _ _ Hk) as [Ha Hl]. unfold try_next in Hs.
  destruct cands as [|c rest].
  - simplify_eq. eapply inv_quiet; try done; try apply same_core_refl. split; [lia|naive_solver].
  - destruct (cancelled st) eqn:Hc; simplify_eq; [by eapply inv_leave|].
    eapply inv_quiet; try done. eapply same_core_trans; [apply active_core|apply emit_core].
Qed.

Lemma dl_inv_want P h len st k i a conn w' st' :
  dl_inv P h len st → workers st !! k = Some (W_want i a) →
  want P i a conn st = (w', st') → dl_inv P h len (set_worker k w' st').
Proof.
  intros Hinv Hk Hs. pose proof (i_good _ _ _ _ Hinv _ _ Hk) as Ha. unfold want in Hs.
  destruct (WantChunk _ _ _ _).1 as [loc|e]; simplify_eq; eapply inv_quiet; try done;
    try apply same_core_refl.
  split; [exact Ha|right; apply candidates_of_nonempty].
Qed.

Lemma inv_worker P h len st k w inp w' st' :
  params_ok P h len → dl_inv P h len st → workers st !! k = Some w →
  worker_step P w inp st = Some (w', st') → delivers P w inp st →
  dl_inv P h len (set_worker k w' st').
Proof.
  intros Hpo Hinv Hk Hs Hdel. pose proof (i_good _ _ _ _ Hinv _ _ Hk) as Hg.
  destruct w, inp; cbn [worker_step] in Hs; try done.
  - destruct (feed st) eqn:Hf; simplify_eq. by eapply inv_exit.
  - unfold claim in Hs. rewrite (HasChunk_spec _ _ _ _ _ Hpo Hinv) in Hs
      by (by eapply i_carry; [exact Hinv|exact Hk|]).
    destruct (bool_decide (i ∈ claimed st) || _) eqn:Hd; simplify_eq.
    + eapply inv_skip; [done|exact Hk|]. apply orb_true_iff in Hd as [Hd|Hd]; zbool; auto.
    + zbool. apply inv_claim; [done|done|done|by apply eq_None_not_Some].
  - eapply inv_attempt; [done|exact Hk|by injection Hs].
  - eapply dl_inv_want; [done|exact Hk|by injection Hs].
  - eapply inv_try; [done|exact Hk|by injection Hs].
  - eapply inv_fetch; [done|exact Hk|exact Hdel|by injection Hs].
  - simplify_eq. by eapply inv_quiet; try apply active_core.
  - simplify_eq. by eapply inv_store.
  - simplify_eq. by eapply inv_finish.
  - simplify_eq. by eapply inv_quiet; try apply active_core.
  - destruct (Z.ltb_spec k0 2); simplify_eq. eapply inv_quiet; try done; try apply same_core_refl.
    cbn in Hg |- *. split; [lia|naive_solver].
  - destruct (Z.ltb_spec k0 2); simplify_eq. eapply inv_quiet; try done; try apply same_core_refl.
    cbn in Hg |- *. split; [lia|naive_solver].
  - destruct (Z.ltb_spec k0 2); cbn [andb] in Hs; [|done].
    destruct (cancelled st) eqn:Hc; simplify_eq. by eapply inv_leave.
  - simplify_eq. destruct (fail_core i e st) as [Hcore Hfl]. by eapply inv_quiet.
  - simplify_eq. eapply inv_leave; [|done|exact Hk]. apply inv_cancelled; [done|by right].
Qed.

Lemma round_range P h len m : params_ok P h len → 0 < count P → 0 ≤ round P m < count P.
Proof. intros. by apply index_at_range. Qed.

Lemma dl_inv_step P h len st st' :
  params_ok P h len → dl_inv P h len st → any_step P st st' → dl_inv P h len st'.
Proof.
  intros Hpo Hinv Hstep. pose proof (i_feed _ _ _ _ Hinv) as Hf.
  pose proof (i_prio _ _ _ _ Hinv) as Hpr. pose proof (count_small _ _ _ Hpo) as Hcount.
  revert Hinv Hf Hpr. destruct Hstep as
    [[k w inp w' st1 st2 Hk Hs Hdel|st1 st2 Hs|k i f st1 Hk Hh]|[idx st1|st1|s st1 H1 H2 H3|fs st1 Hfs]];
    intros Hinv Hf Hpr.
  - exact (inv_worker _ _ _ _ _ _ _ _ _ Hpo Hinv Hk Hs Hdel).
  - unfold feeder_step in Hs. destruct (feed st1) as [n i|n i u|n i|] eqn:Hfd; [| | |done]; cbn in Hf.
    + destruct (Z.ltb_spec n (count P)) as [Hlt|Hge].
      * destruct Hf as [Hn Hi]. destruct (priority st1) as [|u rest] eqn:Hp; simplify_eq;
          apply inv_feeder; rewrite ?Hfd; try done; try (by right).
        -- cbn. split; [lia|]. apply Hi. lia.
        -- apply Forall_cons in Hpr as [Hu _]. cbn. split; [lia|]. split; [apply Hi; lia|done].
        -- by apply Forall_cons in Hpr as [_ ?].
      * simplify_eq. apply inv_feeder; rewrite ?Hfd; try done. right. cbn. lia.
    + destruct (cancelled st1) eqn:Hc; simplify_eq. apply inv_feeder; rewrite ?Hfd; try done. by left.
    + destruct (cancelled st1) eqn:Hc; simplify_eq. apply inv_feeder; rewrite ?Hfd; try done. by left.
  - destruct (feed st1) as [n j|n j u|n j|] eqn:Hfd; cbn in Hh; simplify_eq; cbn in Hf.
    + destruct Hf as (Hn & -> & Hu). apply inv_take; try done; rewrite Hfd; [done|].
      intros m Hm. by left.
    + destruct Hf as (Hn & ->). destruct (po_order _ _ _ Hpo) as (Hs & Hp & _); [lia|].
      apply inv_take; try done; [apply (round_range _ _ _ _ Hpo); lia| |by rewrite Hfd|].
      * cbn. split; [lia|]. intros _. unfold round. apply index_at_next; lia.
      * rewrite Hfd. cbn. intros m Hm. destruct (decide (m = n)) as [->|]; [by right|left; lia].
  - apply inv_feeder; try done; [|auto]. unfold prefetch_push.
    destruct ((0 <=? idx) && (idx <? count P)) eqn:E; [|done]. case_match; [|done].
    zbool. apply Forall_app. split; [done|]. apply Forall_singleton. lia.
  - apply inv_cancelled; [done|by left].
  - destruct Hinv. unfold hashes in *. dl_split; try congruence; unfold hashes in *.
    + destruct i_file0 as (f & [Hwf Hh Hheld] & Hsz). exists f. split; [|done].
      split; [done| |done]. unfold hashes in *. cbn. by rewrite H1.
    + intros j v c. rewrite H1. apply i_claim0.
    + intros m. rewrite H1. apply i_cover0.
    + by rewrite H1.
  - destruct Hinv. dl_split. destruct i_file0 as (f & [Hwf Hh Hheld] & Hsz). exists f. split; [|done].
    split; [|done|done]. cbn. destruct Hwf. split; try done. rewrite (Hfs h) by done. done.
Qed.

Lemma dl_inv_reachable P h len st st' :
  params_ok P h len → dl_inv P h len st → rtc (any_step P) st st' → dl_inv P h len st'.
Proof.
  intros Hpo Hinv Hr. induction Hr as [|a b c Hab _ IH]; [done|]. apply IH. by eapply dl_inv_step.
Qed.

(** ** What a finished run has done *)

Lemma joined_spec st :
  joined st = true → feed st = F_closed ∧ ∀ k w, workers st !! k = Some w → w = W_gone.
Proof.
  unfold joined. intros [Hf Hw]%andb_true_iff. split; [by destruct (feed st)|].
  rewrite forallb_forall in Hw. intros k w Hk. apply list_elem_of_lookup_2, list_elem_of_In, Hw in Hk.
  by destruct w.
Qed.

Lemma joined_complete P h len st :
  params_ok P h len → dl_inv P h len st → joined st = true →
  user_done st = false → failure st = None →
  ndone st = count P ∧
  ∃ f, disk st !! h = Some f ∧ zlen (f_data f) = len ∧
    ∀ i, 0 ≤ i < count P →
      hashes st !! i = Some (ChecksumIEEE (chunk_bytes (f_data f) i)) ∧
      accept i (chunk_bytes (f_data f) i).
Proof.
  intros Hpo Hinv [Hf Hw]%joined_spec Hu Hfail. pose proof (hash_bounded _ _ _ _ Hpo Hinv) as Hb.
  pose proof (count_small _ _ _ Hpo). destruct Hinv.
  assert (cancelled st = false) as Hc.
  { destruct (cancelled st); [|done]. destruct (i_cancel0 eq_refl); congruence. }
  assert (∀ i, 0 ≤ i < count P → is_Some (hashes st !! i)) as Hall.
  { intros i Hi. destruct (po_order _ _ _ Hpo) as (Hs & _ & Hg); [lia|].
    destruct (index_at_surj (count P) (p_step P) (p_start P) i Hs Hg Hi) as (m & Hm & ->).
    destruct (i_cover0 m Hc) as [?|(k & w & Hk & Hv)]; [by rewrite Hf|done|].
    by rewrite (Hw _ _ Hk) in Hv. }
  assert (claimed st ≡ ∅) as Hcl.
  { apply set_equiv. intros i. split; [|set_solver]. intros Hi.
    destruct (i_orphan0 i Hc Hi) as (k & w & Hk & Hv). by rewrite (Hw _ _ Hk) in Hv. }
  split.
  - rewrite i_done0. apply leibniz_equiv in Hcl. rewrite Hcl, difference_empty_L.
    assert (list_to_set (seqZ 0 (count P)) ⊆ dom (hashes st)) as Hsub.
    { intros i. rewrite elem_of_list_to_set, elem_of_seqZ, elem_of_dom. intros. apply Hall. lia. }
    apply subseteq_size in Hsub. rewrite size_list_to_set, length_seqZ in Hsub by apply NoDup_seqZ.
    lia.
  - destruct i_file0 as (f & [Hwf Hh _] & Hsz). exists f. split; [by destruct Hwf|]. split; [done|].
    intros i Hi. destruct (Hall i Hi) as [c Hci]. destruct (Hh i c Hci) as (_ & -> & Hac). done.
Qed.

(** ** The start *)

Lemma valid_meta_spec m :
  valid_meta m = true →
  0 ≤ fs_FileSize m ≤ 2 ^ 50 ∧ fs_ChunkNum m = chunk_count (fs_FileSize m) ∧ fs_FileName m ≠ "".
Proof.
  unfold valid_meta. intros Hv. zbool.
  match goal with H : is_empty _ = false |- _ => rename H into Hne end.
  repeat match goal with H : (_ <? _) = false |- _ => apply Z.ltb_ge in H end.
  change (Z.shiftl 1 50) with (2 ^ 50) in *. pose proof ChunkSize_pos. pose proof ChunkSize_val.
  split; [lia|]. split; [|by intros E; rewrite E in Hne].
  match goal with H : fs_ChunkNum m = _ |- _ => rewrite H end.
  rewrite (int64_id (_ + _)), int64_id by zlia. unfold chunk_count. apply Z.quot_div_nonneg; lia.
Qed.

Lemma close_files_other l h (fs : Files) : h ∉ l → close_files l fs !! h = fs !! h.
Proof.
  unfold close_files. induction l as [|x l IH]; cbn; [done|]. intros [? ?]%not_elem_of_cons.
  rewrite lookup_delete_ne by done. by apply IH.
Qed.

(** A fresh temporary file, and random numbers in their ranges. *)
Record start_ok (m : GetFileStatusResp) (h : fd) (r1 r2 : Z) (s : Session) : Prop := {
  so_main : isMain s = false;
  so_fresh : h ∉ files s;
  so_r1 : 0 < fs_ChunkNum m → 0 ≤ r1 < fs_ChunkNum m;
  so_r2 : 0 ≤ r2 < Z.max 1 (fs_ChunkNum m - 1);
}.

Lemma begin_inv a g m on user h tmp truncated rm r1 r2 fs names s P st names1 out :
  start_ok m h r1 r2 s →
  RunTo_begin a g m on user (Some (h, tmp)) truncated rm r1 r2 fs names s = (Ok (P, st, names1), out) →
  p_meta P = m ∧ names1 = <[tmp := h]> names ∧
  params_ok P h (fs_FileSize m) ∧ dl_inv P h (fs_FileSize m) st.
Proof.
  intros [Hmain Hfresh H1 H2] Hb. unfold RunTo_begin in Hb.
  destruct (valid_meta m) eqn:Hv; cbn [negb] in Hb; [|done]. apply valid_meta_spec in Hv as (Hs & Hn & _).
  destruct user; [done|]. destruct truncated; cbn [negb] in Hb; [|done].
  set (f := mkFile tmp (replicate (Z.to_nat (fs_FileSize m)) Byte.x00) 0 0 true) in *.
  unfold BeSendSub in Hb. set (fs2 := close_files (files s) (<[h:=f]> fs)) in *.
  assert (fs2 !! h = Some f) as Hf.
  { unfold fs2. rewrite close_files_other by done. apply lookup_insert_eq. }
  assert (zlen (f_data f) = fs_FileSize m) as Hlen.
  { cbn. unfold zlen. rewrite length_replicate. lia. }
  assert (chunk_wf fs2 (NewFileChunk fs2 h) h f) as Hwf.
  { apply NewFileChunk_wf; [done|]. rewrite Hlen. pose proof ChunkSize_val. zlia. }
  pose proof (chunk_count_nonneg (fs_FileSize m) ltac:(lia)) as Hc.
  pose proof (choose_order_spec (fs_ChunkNum m) r1 r2) as Hord.
  assert (0 ≤ (choose_order (fs_ChunkNum m) r1 r2).1) as Hst.
  { unfold choose_order. cbn. destruct (Z.ltb_spec 0 (fs_ChunkNum m)); [|done]. apply H1. lia. }
  destruct (choose_order (fs_ChunkNum m) r1 r2) as [start step]. cbn [fst] in Hst.
  injection Hb as <- <- <- <-. split; [done|]. split; [done|].
  assert (∀ k w, replicate (Z.to_nat (Z.min 5 (fs_ChunkNum m))) W_recv !! k = Some w → w = W_recv) as Hw.
  { intros k w Hk. by apply lookup_replicate in Hk as [-> _]. }
  split.
  - split; [done|done|done|]. unfold count. cbn. intros Hpos.
    destruct Hord as (-> & ? & ?); [done|auto|done|]. auto.
  - dl_split.
    + exists f. split; [|done]. split; [done| |].
      * intros i c Hi. unfold hashes in Hi. cbn in Hi. by rewrite lookup_empty in Hi.
      * cbn. intros k w i sum Hk. by rewrite (Hw _ _ Hk).
    + intros k w Hk. by rewrite (Hw _ _ Hk).
    + intros k w i Hk. by rewrite (Hw _ _ Hk).
    + intros k w i Hk. by rewrite (Hw _ _ Hk).
    + intros k k' w w' i Hk. by rewrite (Hw _ _ Hk).
    + cbn. unfold count. cbn. split; [lia|]. intros Hpos. unfold round. cbn. symmetry.
      apply index_at_0. destruct Hord as (-> & ? & ?); [done|auto|done|]. unfold count. cbn. auto.
    + cbn. lia.
    + intros k Hk. by specialize (Hw _ _ Hk).
    + cbn. intros i Hi. by apply not_elem_of_nil in Hi.
Qed.

Lemma RunTo_end_ok h tmp target synced user2 over lf ren rm names1 names st out :
  RunTo_end h tmp target synced user2 over lf ren rm names1 names st = (None, out) →
  user_done st = false ∧ failure st = None ∧
  (over = Some false → names1 !! target = None) ∧
  out = (disk st, <[target := h]> (delete tmp names), RetainFile h (set_prefetch false (sess st))).
Proof.
  unfold RunTo_end. destruct (user_done st); [done|]. destruct (failure st) as [[i e]|]; [done|].
  destruct synced, user2; try done. cbn [negb].
  destruct (match over with Some false => true | _ => false end && lf); [done|].
  destruct (match over with Some false => true | _ => false end) eqn:Ho; cbn [andb].
  - destruct (bool_decide _) eqn:Hb; [done|]. zbool. destruct ren; [|done]. cbn [negb].
    intros [= <-]. split_and!; try done. intros _. by apply eq_None_not_Some.
  - destruct ren; [|done]. cbn [negb]. intros [= <-]. split_and!; try done. by intros ->.
Qed.

Lemma RunTo_end_err h tmp target synced user2 over lf ren rm names1 names st e out :
  RunTo_end h tmp target synced user2 over lf ren rm names1 names st = (Some e, out) →
  out = (delete h (disk st), if rm then delete tmp names else names, ClearChunks (set_prefetch false (sess st))).
Proof.
  unfold RunTo_end, cleanup. intros H. repeat (case_match; simplify_eq; try done).
Qed.

(** C4. A download is complete or leaves nothing. Take any run of [RunTo] that starts its
    workers: any shuffle, any answers and failures of the network, any interleaving of the
    workers, the feeder, prefetch commands and cancellation, and a directory others use
    meanwhile. When the workers have been joined, either it returns no error, and then the
    target names a file of the announced size, every chunk of it is recorded with its checksum
    and consists of bytes some provider delivered for that chunk, the progress counter shows all
    chunks, the temporary name is gone, and if overwriting was not allowed there was no file of
    the target's name when it looked (what appears between that look and the rename is not
    seen). Or it returns an error, and then the temporary file is closed and its name is gone,
    unless the system refuses to remove it, which is not reported; every other name, the
    target's included, is as it was, and the session serves no chunk. *)
Theorem download_correct (a : string) (g : GspSdk) (m : GetFileStatusResp) (on user trunc removed0 : bool)
    (h : fd) (tmp target : string) (r1 r2 : Z) (fs : Files) (names names1 names_lstat names2 : Names)
    (s : Session) (P : Params) (st0 st : Dl) (out : Files * Names * Session)
    (synced user2 lstat_fails renamed removed : bool) (over : option bool)
    (err : option dl_error) (fs' : Files) (names' : Names) (s' : Session) :
  start_ok m h r1 r2 s →
  RunTo_begin a g m on user (Some (h, tmp)) trunc removed0 r1 r2 fs names s = (Ok (P, st0, names1), out) →
  rtc (any_step P) st0 st → joined st = true → tmp ≠ target →
  RunTo_end h tmp target synced user2 over lstat_fails renamed removed names_lstat names2 st
    = (err, (fs', names', s')) →
  match err with
  | None =>
      names' !! target = Some h ∧ names' !! tmp = None ∧ ndone st = fs_ChunkNum m ∧
      (over = Some false → names_lstat !! target = None) ∧ h ∈ files s' ∧
      ∃ f, fs' !! h = Some f ∧ zlen (f_data f) = fs_FileSize m ∧
        ∀ i, 0 ≤ i < fs_ChunkNum m →
          chunkHash s' !! i = Some (ChecksumIEEE (chunk_bytes (f_data f) i)) ∧
          accept i (chunk_bytes (f_data f) i)
  | Some _ => names' = (if removed then delete tmp names2 else names2) ∧ fs' !! h = None ∧ chunkHash s' = ∅
  end.
Proof.
  intros Hso Hb Hrun Hj Htt He. apply begin_inv in Hb as (Hm & _ & Hpo & Hinv); [|done].
  assert (dl_inv P h (fs_FileSize m) st) as Hinv' by by eapply dl_inv_reachable.
  destruct err as [e|].
  - apply RunTo_end_err in He. injection He as -> -> ->. split; [done|]. by rewrite lookup_delete_eq.
  - apply RunTo_end_ok in He as (Hu & Hf & Ho & He). injection He as -> -> ->.
    destruct (joined_complete _ _ _ _ Hpo Hinv' Hj Hu Hf) as (Hd & f & Hopen & Hlen & Hall).
    unfold count in *. rewrite Hm in *. rewrite lookup_insert_eq, lookup_insert_ne by done.
    rewrite lookup_delete_eq. split_and!; try done; [|by exists f].
    cbn. apply elem_of_app. right. set_solver.
Qed.

(** ** A run ends *)

(** How far the feeder is from the end, how many stages of attempts and how many
    candidates the workers still have before them. *)
Definition feed_left (P : Params) (f : feeder) : Z :=
  match f with
  | F_top n _ => 3 * Z.max 0 (count P - n) + 1
  | F_urgent n _ _ => 3 * Z.max 0 (count P - n)
  | F_main n _ => 3 * Z.max 0 (count P - n) - 1
  | F_closed => 0
  end.

Definition stages_left (w : worker) : Z :=
  match w with
  | W_gone => 0 | W_recv => 1 | W_cancel _ => 1 | W_over _ _ => 2
  | W_added _ _ _ _ => 2 | W_store _ _ _ _ _ => 3 | W_fetched _ _ _ _ _ => 4
  | W_retry _ k _ => 5 * (3 - k) | W_failed _ k _ => 5 * (3 - k) + 1
  | W_try _ k _ _ | W_fetch _ k _ _ => 5 * (3 - k) + 2
  | W_want _ k => 5 * (3 - k) + 3 | W_attempt _ k _ => 5 * (3 - k) + 4
  | W_check _ => 20
  end.

Definition candidates_left (w : worker) : nat :=
  match w with
  | W_try _ _ _ cands => 2 * length cands
  | W_fetch _ _ _ rest => S (2 * length rest)
  | _ => 0
  end.

Definition stages (w : worker) : nat := Z.to_nat (stages_left w).

Abbreviation measure := (nat * nat * nat)%type.
Definition run_measure (P : Params) (st : Dl) : measure :=
  (Z.to_nat (feed_left P (feed st)), sum_list_with stages (workers st),
   sum_list_with candidates_left (workers st)).

Definition measure_lt (a b : measure) : Prop :=
  (a.1.1 < b.1.1)%nat ∨ a.1.1 = b.1.1 ∧ ((a.1.2 < b.1.2)%nat ∨ a.1.2 = b.1.2 ∧ (a.2 < b.2)%nat).

Lemma measure_wf : well_founded measure_lt.
Proof.
  assert (∀ x y z, Acc measure_lt (x, y, z)) as H; [|intros [[x y] z]; apply H].
  intros x. induction (lt_wf x) as [x _ IHx]. intros y. induction (lt_wf y) as [y _ IHy].
  intros z. induction (lt_wf z) as [z _ IHz]. constructor. intros [[x' y'] z'].
  unfold measure_lt. cbn. intros [H|[-> [H|[-> H]]]]; [by apply IHx|by apply IHy|by apply IHz].
Qed.

Lemma sum_insert (f : worker → nat) ws k w w' :
  ws !! k = Some w →
  (sum_list_with f (<[k := w']> ws) + f w = sum_list_with f ws + f w')%nat.
Proof.
  revert k. induction ws as [|v ws IH]; intros k Hk; [done|]. destruct k as [|k]; cbn in *.
  - simplify_eq. lia.
  - specialize (IH k Hk). unfold insert in *. lia.
Qed.

Lemma claim_steps i st w' st' :
  claim i st = (w', st') → feed st' = feed st ∧ workers st' = workers st ∧ (stages w' < 20)%nat.
Proof. unfold claim. case_match; intros; simplify_eq; split_and!; try done; vm_compute; lia. Qed.

Lemma emit_same P secs other st :
  feed (emitLocked P secs other st) = feed st ∧ workers (emitLocked P secs other st) = workers st.
Proof. destruct (emit_core P secs other st). by split. Qed.

(** Every step of a worker brings it closer to the end. *)
Lemma worker_step_measure P w inp st w' st' :
  good_worker (failure st) w → worker_step P w inp st = Some (w', st') →
  feed st' = feed st ∧ workers st' = workers st ∧
  ((stages w' < stages w)%nat ∨ stages w' = stages w ∧ (candidates_left w' < candidates_left w)%nat).
Proof.
  intros Hg Hs. destruct w, inp; cbn [worker_step] in Hs; try done; cbn [good_worker] in Hg.
  - destruct (feed st) eqn:Hf; simplify_eq. split_and!; [done|done|left; by vm_compute].
  - destruct (claim_steps i st w' st') as (? & ? & ?); [by injection Hs|]. auto.
  - unfold attempt in Hs. repeat case_match; simplify_eq; split_and!; try done; left; zbool;
      unfold stages, stages_left; lia.
  - unfold want in Hs. case_match; simplify_eq; split_and!; try done; left;
      unfold stages, stages_left; lia.
  - unfold try_next in Hs. destruct cands as [|c rest]; [|destruct (cancelled st)]; simplify_eq.
    + split_and!; try done. left. unfold stages, stages_left. lia.
    + split_and!; try done. left. unfold stages, stages_left. lia.
    + destruct (emit_same P secs other
        (set_active (<[i := provider_of (p_addr P) c]> (active st)) st)) as [-> ->].
      split_and!; try done. right. split; [done|]. cbn. lia.
  - unfold fetch_from in Hs. destruct (FetchChunk _ _ _ _ _) as [[[[n sum]|e] fin] fs'];
      simplify_eq; split_and!; try done.
    + left. unfold stages, stages_left. lia.
    + right. split; [done|]. cbn. lia.
  - simplify_eq. split_and!; try done. left. by vm_compute.
  - simplify_eq. split_and!; try done. left. by vm_compute.
  - simplify_eq. unfold finish_chunk. cbn [say feed workers].
    match goal with |- context [emitLocked P secs other ?x] =>
      destruct (emit_same P secs other x) as [-> ->] end.
    split_and!; try done. left. by vm_compute.
  - simplify_eq. split_and!; try done. left. unfold stages, stages_left. lia.
  - case_match; simplify_eq. split_and!; try done. left. unfold stages, stages_left. lia.
  - case_match; simplify_eq. split_and!; try done. left. unfold stages, stages_left. lia.
  - case_match; simplify_eq. split_and!; try done. left. unfold stages, stages_left. lia.
  - simplify_eq. destruct (fail_core i e st) as [[] _]. split_and!; try done. left. by vm_compute.
  - simplify_eq. split_and!; try done. left. by vm_compute.
Qed.

Lemma feed_measure P st st' :
  (Z.to_nat (feed_left P (feed st')) < Z.to_nat (feed_left P (feed st)))%nat →
  measure_lt (run_measure P st') (run_measure P st).
Proof. by left. Qed.

Lemma step_measure P h len st st' :
  dl_inv P h len st → dl_step P st st' → measure_lt (run_measure P st') (run_measure P st).
Proof.
  intros Hinv Hs. pose proof (i_feed _ _ _ _ Hinv) as Hf. pose proof (i_good _ _ _ _ Hinv) as Hg.
  clear Hinv. revert Hf Hg. destruct Hs as [k w inp w' st1 st2 Hk Hs _|st1 st2 Hs|k i f st1 Hk Hh];
    intros Hf Hg.
  - destruct (worker_step_measure _ _ _ _ _ _ (Hg _ _ Hk) Hs) as (E1 & E2 & Hlt).
    unfold run_measure, measure_lt. cbn [set_worker feed workers fst snd]. rewrite E1, E2.
    pose proof (sum_insert stages _ _ _ w' Hk). pose proof (sum_insert candidates_left _ _ _ w' Hk).
    lia.
  - apply feed_measure. unfold feeder_step in Hs.
    destruct (feed st1) as [n i|n i u|n i|] eqn:Hfd; cbn in Hf; try done.
    + destruct (Z.ltb_spec n (count P)); [destruct (priority st1)|]; simplify_eq;
        cbn [set_feed feed feed_left]; lia.
    + destruct (cancelled st1); simplify_eq. cbn [set_feed feed feed_left]. lia.
    + destruct (cancelled st1); simplify_eq. cbn [set_feed feed feed_left]. lia.
  - apply feed_measure. cbn [set_worker set_feed feed].
    destruct (feed st1) as [n j|n j u|n j|] eqn:Hfd; cbn in Hf, Hh; simplify_eq;
      cbn [feed_left]; lia.
Qed.

Lemma env_measure P st st' : rtc (env_step P) st st' → run_measure P st' = run_measure P st.
Proof. induction 1 as [|a b c Hab _ IH]; [done|]. rewrite IH. by destruct Hab. Qed.

Lemma env_inv P h len st st' :
  params_ok P h len → dl_inv P h len st → rtc (env_step P) st st' → dl_inv P h len st'.
Proof.
  intros Hpo Hinv Hr. eapply dl_inv_reachable; [done|done|].
  eapply rtc_subrel; [|exact Hr]. intros ???. by right.
Qed.

(** A round: what happens around one step of the download, and that step. *)
Definition round_step (P : Params) (st' st : Dl) : Prop :=
  ∃ st1, rtc (env_step P) st st1 ∧ dl_step P st1 st'.

Lemma round_acc P h len st : params_ok P h len → dl_inv P h len st → Acc (round_step P) st.
Proof.
  intros Hpo. remember (run_measure P st) as m eqn:Hm. revert st Hm.
  induction (measure_wf m) as [m _ IH]. intros st -> Hinv. constructor.
  intros st' (st1 & Henv & Hs). pose proof (env_inv _ _ _ _ _ Hpo Hinv Henv) as Hinv1.
  eapply (IH (run_measure P st')); [|done|].
  - rewrite <-(env_measure _ _ _ Henv). by eapply step_measure.
  - eapply dl_inv_step; [done|exact Hinv1|by left].
Qed.

(** ** A run is never stuck *)

Lemma step_workers P st st' : any_step P st st' → length (workers st') = length (workers st).
Proof.
  assert (∀ w inp w' a b, worker_step P w inp a = Some (w', b) → workers b = workers a) as Hw.
  { intros w inp w' a b Hs. destruct w, inp; cbn [worker_step] in Hs; try done;
      unfold claim, attempt, want, try_next, fetch_from, finish_chunk, fail_once, emitLocked in Hs;
      repeat case_match; by simplify_eq. }
  intros [[k w inp w' a b Hk Hs _|a b Hs|k i f a Hk Hh]|[]]; cbn; rewrite ?length_insert; try done.
  - by erewrite Hw.
  - unfold feeder_step in Hs. repeat case_match; by simplify_eq.
Qed.

Lemma worker_can_step P h len st k w :
  dl_inv P h len st → workers st !! k = Some w → w ≠ W_recv → w ≠ W_gone →
  ∃ st', dl_step P st st'.
Proof.
  intros Hinv Hk Hr Hg.
  assert (∃ inp p, worker_step P w inp st = Some p ∧ delivers P w inp st) as
    (inp & [w' st'] & Hs & Hd).
  { destruct w as [|i|i a last|i a|i a e cands|i a c rest|i id n sum speed|i id n sum speed
                   |i id n speed|i a e|i a e|i e|i|]; try done;
      try (exists (Run_ f_zero 0); eexists; by split).
    - exists (Wanted None). eexists. by split.
    - exists (Fetched None None f_zero 0). eexists. split; [done|]. by intros ? ? ? ? [=].
    - destruct (Z.ltb_spec a 2) as [Hlt|Hge].
      + exists Timer. cbn [worker_step]. rewrite (proj2 (Z.ltb_lt _ _) Hlt). by eexists.
      + exists (Run_ f_zero 0). cbn [worker_step]. rewrite (proj2 (Z.ltb_ge _ _) Hge).
        by eexists. }
  eexists. by eapply st_worker.
Qed.

Definition idle (w : worker) : bool := match w with W_recv | W_gone => true | _ => false end.

Lemma run_progress P h len st :
  params_ok P h len → dl_inv P h len st →
  length (workers st) = Z.to_nat (Z.min 5 (count P)) → joined st = false →
  ∃ st', dl_step P st st'.
Proof.
  intros Hpo Hinv Hlen Hj. destruct (decide (Exists (λ w, idle w = false) (workers st))) as [He|Hne].
  { apply Exists_exists in He as (w & (k & Hk)%list_elem_of_lookup & Hi).
    by eapply worker_can_step; [done|exact Hk| |]; intros ->. }
  assert (∀ k w, workers st !! k = Some w → w = W_recv ∨ w = W_gone) as Hidle.
  { intros k w Hk. destruct (idle w) eqn:Hi; [destruct w; auto; done|]. destruct Hne.
    apply Exists_exists. exists w. split; [by eapply list_elem_of_lookup_2|done]. }
  pose proof (i_feed _ _ _ _ Hinv) as Hf. pose proof (i_gone _ _ _ _ Hinv) as Hgone.
  destruct (feed st) as [n i|n i u|n i|] eqn:Hfd; cbn in Hf.
  1:{ assert (∃ st', feeder_step P st = Some st') as [st' Hs].
      { unfold feeder_step. rewrite Hfd. repeat case_match; eauto. }
      exists st'. by apply st_feeder. }
  3:{ unfold joined in Hj. rewrite Hfd in Hj. cbn [andb] in Hj.
      assert (∃ k, workers st !! k = Some W_recv) as [k Hk].
      { destruct (decide (Exists (λ w, is_gone w = false) (workers st))) as [He|Hno].
        - apply Exists_exists in He as (w & (k & Hk)%list_elem_of_lookup & Hi). exists k.
          destruct (Hidle _ _ Hk) as [->| ->]; done.
        - exfalso. apply not_true_iff_false in Hj. apply Hj, forallb_forall.
          intros w Hw%list_elem_of_In. destruct (is_gone w) eqn:Hi; [done|].
          destruct Hno. apply Exists_exists. by exists w. }
      eexists. eapply (st_worker _ _ _ (Run_ f_zero 0)); [exact Hk| |done].
      cbn [worker_step]. by rewrite Hfd. }
  all: assert (0 < length (workers st))%nat as Hpos by (rewrite Hlen; lia).
  all: destruct (workers st !! 0%nat) as [w|] eqn:Hw0;
    [|apply lookup_ge_None in Hw0; lia].
  all: destruct (Hidle _ _ Hw0) as [->| ->];
    [eexists; eapply st_handoff; [exact Hw0|rewrite Hfd; done]|].
  all: destruct (Hgone _ Hw0) as [Hc|]; [|done].
  all: eexists; apply st_feeder; unfold feeder_step; rewrite Hfd, Hc; done.
Qed.

Lemma begin_workers a g m on user h tmp truncated rm r1 r2 fs names s P st names1 out :
  RunTo_begin a g m on user (Some (h, tmp)) truncated rm r1 r2 fs names s = (Ok (P, st, names1), out) →
  length (workers st) = Z.to_nat (Z.min 5 (count P)).
Proof.
  unfold RunTo_begin. destruct (valid_meta m), user, truncated; try done. cbn [negb].
  destruct (BeSendSub _ _ _) as [fs2 s2], (choose_order _ _ _) as [start step].
  intros H. injection H as <- <- _ _. cbn. apply length_replicate.
Qed.

Lemma run_workers P st st' : rtc (any_step P) st st' → length (workers st') = length (workers st).
Proof. induction 1 as [|x y z Hxy _ IH]; [done|]. by rewrite IH, (step_workers _ _ _ Hxy). Qed.

(** C5. Every download ends. Whatever the network answers and whatever else happens
    in between, a run takes only finitely many steps of its own, because every one
    of them brings the feeder, the attempts or the candidates nearer to their end;
    and until feeder and workers have all finished some step is possible, so
    [wg.Wait()] returns: no deadlock on the channel of jobs, and none when a failure
    or the user cancels. *)
Theorem download_terminates (a : string) (g : GspSdk) (m : GetFileStatusResp) (on user trunc removed0 : bool)
    (h : fd) (tmp : string) (r1 r2 : Z) (fs : Files) (names names1 : Names) (s : Session)
    (P : Params) (st0 : Dl) (out : Files * Names * Session) :
  start_ok m h r1 r2 s →
  RunTo_begin a g m on user (Some (h, tmp)) trunc removed0 r1 r2 fs names s = (Ok (P, st0, names1), out) →
  Acc (round_step P) st0 ∧
  ∀ st, rtc (any_step P) st0 st → joined st = false → ∃ st', dl_step P st st'.
Proof.
  intros Hso Hb. pose proof (begin_workers _ _ _ _ _ _ _ _ _ _ _ _ _ _ _ _ _ _ Hb) as Hlen.
  apply begin_inv in Hb as (_ & _ & Hpo & Hinv); [|done]. split; [by eapply round_acc|].
  intros st Hrun Hj. eapply run_progress; [done|by eapply dl_inv_reachable| |done].
  by rewrite (run_workers _ _ _ Hrun).
Qed.

(** ** Runs from a script *)

(** The next step of a run, chosen by its reader, who also checks what is
    delivered. *)
Inductive action : Type := AWorker (k : nat) (inp : input) | AFeeder | AHand (k : nat).

Definition delivered (ok : Z → bytes → bool) (P : Params) (w : worker) (inp : input) (st : Dl)
    : bool :=
  match w, inp with
  | W_fetch i _ _ _, Fetched conn fail _ _ =>
      match (fetch conn i (disk st) (p_ck P) fail).1.1 with Ok (b, _) => ok i b | Err _ => true end
  | _, _ => true
  end.

Definition run_action (ok : Z → bytes → bool) (P : Params) (a : action) (st : Dl) : option Dl :=
  match a with
  | AWorker k inp =>
      w ← workers st !! k;
      if negb (delivered ok P w inp st) then None else
      '(w', st') ← worker_step P w inp st; Some (set_worker k w' st')
  | AFeeder => feeder_step P st
  | AHand k =>
      w ← workers st !! k;
      match w with
      | W_recv => '(i, f) ← handoff P (feed st);
                  Some (set_worker k (W_check i) (set_feed f (priority st) st))
      | _ => None
      end
  end.

Fixpoint run_script (ok : Z → bytes → bool) (P : Params) (l : list action) (st : Dl) : option Dl :=
  match l with [] => Some st | a :: l' => run_action ok P a st ≫= run_script ok P l' end.

Lemma delivered_sound ok P w inp st :
  (∀ i b, ok i b = true → accept i b) → delivered ok P w inp st = true → delivers P w inp st.
Proof.
  intros Hacc. destruct w; try done. destruct inp; try done. cbn. intros Hd b sum fin fs' Hf.
  rewrite Hf in Hd. by apply Hacc.
Qed.

Lemma run_action_sound ok P a st st' :
  (∀ i b, ok i b = true → accept i b) → run_action ok P a st = Some st' → dl_step P st st'.
Proof.
  intros Hacc Hr. destruct a as [k inp| |k]; cbn [run_action] in Hr.
  - destruct (workers st !! k) as [w|] eqn:Hk; [|done]. cbn [mbind option_bind] in Hr.
    destruct (delivered ok P w inp st) eqn:Hd; cbn [negb] in Hr; [|done].
    destruct (worker_step P w inp st) as [[w' st1]|] eqn:Hs; [|done]. injection Hr as <-.
    eapply st_worker; [done..|]. by eapply delivered_sound.
  - by apply st_feeder.
  - destruct (workers st !! k) as [[]|] eqn:Hk; try done. cbn [mbind option_bind] in Hr.
    destruct (handoff P (feed st)) as [[i f]|] eqn:Hh; [|done]. injection Hr as <-.
    by apply st_handoff.
Qed.

Lemma run_script_sound ok P l st st' :
  (∀ i b, ok i b = true → accept i b) → run_script ok P l st = Some st' → rtc (any_step P) st st'.
Proof.
  intros Hacc. revert st. induction l as [|a l IH]; intros st Hr; cbn in Hr; [by simplify_eq|].
  destruct (run_action ok P a st) as [st1|] eqn:Ha; [|done]. cbn in Hr.
  eapply rtc_l; [left; by eapply run_action_sound|auto].
Qed.
End run.

(** ** A concrete download *)

Definition demo_meta : GetFileStatusResp := mkGetFileStatusResp "" "a.bin" 2 ChunkSize 1.
Definition demo_sdk : GspSdk := NewGspSdk "10.0.0.1:5555" ["me"].
Definition demo_chunk : bytes := [Byte.x61; Byte.x62].
Definition demo_wanted : Stream :=
  mkStream (mkLink (mkConn [] None) false)
    (frame TypeJSON (Marshal (mkWantChunkResp [mkSourceCandidate "10.0.0.9:7" "p9"] 0 "" 0 ""))).
Definition demo_fetched : Stream :=
  mkStream (mkLink (mkConn [] None) false)
    (frame TypeJSON (Marshal (mkGetChunkResp "" 0 true (ChecksumIEEE demo_chunk)))
     ++ frame TypeFileChunk demo_chunk)%list.
Definition tick : input := Run_ f_zero 0.

(** The first provider cannot be reached; the centre delivers. *)
Definition demo_script : list action :=
  [AFeeder; AHand 0; AWorker 0 tick; AWorker 0 tick; AWorker 0 (Wanted (Some demo_wanted));
   AWorker 0 tick; AWorker 0 (Fetched None None f_zero 0);
   AWorker 0 tick; AWorker 0 (Fetched (Some demo_fetched) None f_zero 0);
   AWorker 0 tick; AWorker 0 tick; AWorker 0 tick; AFeeder; AWorker 0 tick].

Definition demo_begin :=
  RunTo_begin "10.0.0.1:5555" demo_sdk demo_meta true false (Some (7%positive, "x.part")) true true 0 0
    ∅ ∅ (NewGspSession "" "me").

Definition demo_P : Params :=
  match demo_begin with (Ok (P, _, _), _) => P | _ => mkParams "" demo_sdk demo_meta zero_chunk 0 1 true end.
Definition demo_st0 : Dl :=
  match demo_begin with
  | (Ok (_, st, _), _) => st
  | _ => mkDl (NewGspSession "" "me") ∅ [] F_closed [] ∅ ∅ 0 0 None false false [] []
  end.
Definition demo_ok (i : Z) (b : bytes) : bool := bool_decide (i = 0) && bool_decide (b = demo_chunk).
Definition demo_st : Dl := default demo_st0 (run_script demo_ok demo_P demo_script demo_st0).
Definition demo_end :=
  RunTo_end 7 "x.part" "out/a.bin" true false (Some false) false true true ∅ {["x.part" := 7%positive]} demo_st.

Lemma demo_start_ok : start_ok demo_meta 7 0 0 (NewGspSession "" "me").
Proof. split; [done|set_solver|cbn; lia|cbn; lia]. Qed.

(** ** The source itself *)

Lemma same_chunks d src :
  zlen d = zlen src →
  (∀ i, 0 ≤ i < chunk_count (zlen src) → chunk_bytes d i = chunk_bytes src i) → d = src.
Proof.
  intros Hlen Hall. remember (Z.to_nat (chunk_count (zlen src))) as n eqn:Hn.
  assert (chunk_bytes d <$> seqZ 0 (Z.of_nat n) = chunk_bytes src <$> seqZ 0 (Z.of_nat n)) as Heq.
  { apply list_fmap_ext. intros k i Hk. apply lookup_seqZ in Hk as [-> Hk]. apply Hall. lia. }
  assert (Z.to_nat (chunk_count (zlen src)) ≤ n)%nat as Hle by (by rewrite Hn).
  pose proof (concat_chunks src n Hle) as Hs. rewrite <-Hlen in Hle.
  pose proof (concat_chunks d n Hle) as Hd. rewrite Heq in Hd.
  exact (eq_trans (eq_sym Hd) Hs).
Qed.

Lemma demo_chunk_bytes i b : demo_ok i b = true → b = chunk_bytes demo_chunk i.
Proof.
  unfold demo_ok. intros H. zbool. subst. unfold chunk_bytes, zslice.
  rewrite Z.mul_0_l. change (drop (Z.to_nat 0) demo_chunk) with demo_chunk.
  rewrite take_ge; [done|]. change (length demo_chunk) with 2%nat.
  pose proof ChunkSize_val. lia.
Qed.

Lemma demo_run : rtc (any_step (λ i b, b = chunk_bytes demo_chunk i) demo_P) demo_st0 demo_st.
Proof.
  eapply (run_script_sound _ demo_ok); [apply demo_chunk_bytes|].
  instantiate (1 := demo_script). vm_compute. reflexivity.
Qed.

(** Shared with the delivery of a folder. *)
Lemma copied_source (src : bytes) (a : string) (g : GspSdk) (m : GetFileStatusResp)
    (on user trunc removed0 : bool) (h : fd) (tmp target : string) (r1 r2 : Z) (fs : Files)
    (names names1 names_lstat names2 : Names) (s : Session) (P : Params) (st0 st : Dl)
    (out : Files * Names * Session) (synced user2 lstat_fails renamed removed : bool)
    (over : option bool) (fs' : Files) (names' : Names) (s' : Session) :
  start_ok m h r1 r2 s → zlen src = fs_FileSize m →
  RunTo_begin a g m on user (Some (h, tmp)) trunc removed0 r1 r2 fs names s = (Ok (P, st0, names1), out) →
  rtc (any_step (λ i b, b = chunk_bytes src i) P) st0 st → joined st = true →
  RunTo_end h tmp target synced user2 over lstat_fails renamed removed names_lstat names2 st
    = (None, (fs', names', s')) →
  names' !! target = Some h ∧ f_data <$> fs' !! h = Some src.
Proof.
  intros Hso Hsrc Hb Hrun Hj He.
  apply (begin_inv (λ i b, b = chunk_bytes src i)) in Hb as (Hm & _ & Hpo & Hinv); [|done].
  pose proof (dl_inv_reachable _ _ _ _ _ _ Hpo Hinv Hrun) as Hinv'.
  apply RunTo_end_ok in He as (Hu & Hf & _ & He). injection He as -> -> ->.
  destruct (joined_complete _ _ _ _ _ Hpo Hinv' Hj Hu Hf) as (_ & f & Hopen & Hlen & Hall).
  rewrite lookup_insert_eq, Hopen. split; [done|]. cbn. f_equal. apply same_chunks; [congruence|].
  intros i Hi. apply Hall. rewrite (po_count _ _ _ Hpo). congruence.
Qed.

(** C3. A download is a copy. If the providers that are reached deliver chunks of
    the file [src] (each with whatever errors, losses and wrong answers in between,
    which the checksums and the retries absorb), then a run of [RunTo] that returns
    no error leaves under the target's name exactly [src], whatever the shuffle, the
    interleaving of the workers and the prefetch commands. *)
Theorem download_copies_source (src : bytes) (a : string) (g : GspSdk) (m : GetFileStatusResp)
    (on user trunc removed0 : bool) (h : fd) (tmp target : string) (r1 r2 : Z) (fs : Files)
    (names names1 names_lstat names2 : Names) (s : Session) (P : Params) (st0 st : Dl)
    (out : Files * Names * Session) (synced user2 lstat_fails renamed removed : bool)
    (over : option bool) (fs' : Files) (names' : Names) (s' : Session) :
  start_ok m h r1 r2 s → zlen src = fs_FileSize m →
  RunTo_begin a g m on user (Some (h, tmp)) trunc removed0 r1 r2 fs names s = (Ok (P, st0, names1), out) →
  rtc (any_step (λ i b, b = chunk_bytes src i) P) st0 st → joined st = true →
  RunTo_end h tmp target synced user2 over lstat_fails renamed removed names_lstat names2 st
    = (None, (fs', names', s')) →
  names' !! target = Some h ∧ f_data <$> fs' !! h = Some src.
Proof. apply copied_source. Qed.

Lemma download_copies_source_witness :
  demo_end.2.1.2 !! "out/a.bin" = Some 7%positive ∧
  f_data <$> demo_end.2.1.1 !! 7%positive = Some demo_chunk.
Proof.
  eapply (download_copies_source demo_chunk "10.0.0.1:5555" demo_sdk demo_meta true false true true 7
    "x.part" "out/a.bin" 0 0 ∅ ∅ _ ∅ {["x.part" := 7%positive]} (NewGspSession "" "me") demo_P demo_st0
    demo_st _ true false false true true (Some false) demo_end.2.1.1 demo_end.2.1.2 demo_end.2.2);
    [apply demo_start_ok|reflexivity|vm_compute; reflexivity|apply demo_run
    |vm_compute; reflexivity|vm_compute; reflexivity].
Defined.

Lemma download_correct_witness :
  demo_end.2.1.2 !! "x.part" = None ∧ ndone demo_st = 1.
Proof.
  destruct (download_correct (λ i b, b = chunk_bytes demo_chunk i) "10.0.0.1:5555" demo_sdk demo_meta
    true false true true 7 "x.part" "out/a.bin" 0 0 ∅ ∅ {["x.part" := 7%positive]}
    ∅ {["x.part" := 7%positive]} (NewGspSession "" "me") demo_P demo_st0
    demo_st demo_begin.2 true false false true true (Some false) None demo_end.2.1.1 demo_end.2.1.2
    demo_end.2.2) as (_ & H1 & H2 & _);
    [apply demo_start_ok|vm_compute; reflexivity|apply demo_run|vm_compute; reflexivity
    |discriminate|vm_compute; reflexivity|].
  split; [exact H1|exact H2].
Defined.

Lemma download_terminates_witness :
  Acc (round_step (λ _ _, True) demo_P) demo_st0.
Proof.
  apply (download_terminates (λ _ _, True) "10.0.0.1:5555" demo_sdk demo_meta true false true true 7
    "x.part" 0 0 ∅ ∅ {["x.part" := 7%positive]} (NewGspSession "" "me") demo_P demo_st0
    demo_begin.2); [apply demo_start_ok|vm_compute; reflexivity].
Defined.

(** The centre is always a source. The candidates tried for a chunk are the ones
    the scheduler ranked, in its order, and if the centre is not among them it is
    tried last; so there is a candidate, and one of them is the centre itself. *)
Theorem candidates_include_centre (addr : string) (loc : WantChunkResp) :
  (∃ tail, candidates_of addr loc = (location_sources loc ++ tail)%list ∧
    (tail = [] ∨ tail = [mkSourceCandidate "" ""])) ∧
  ∃ c, c ∈ candidates_of addr loc ∧ provider_of addr c = addr.
Proof.
  unfold candidates_of. destruct (existsb (is_central addr) (location_sources loc)) eqn:He.
  - split; [exists []; rewrite app_nil_r; auto|].
    apply existsb_exists in He as (c & Hc%list_elem_of_In & Hcen). exists c. split; [done|].
    unfold is_central in Hcen. unfold provider_of.
    destruct (String.eqb_spec (sc_Addr c) ""); [done|]. cbn in Hcen. by apply String.eqb_eq in Hcen.
  - split; [eexists; split; [done|by right]|]. exists (mkSourceCandidate "" ""). split; [|done].
    apply elem_of_app. right. set_solver.
Qed.
