(* ===== verification/FileSys.v ===== *)
(** * A file system with symbolic links

    What [os.Lstat], [os.Stat], [filepath.EvalSymlinks] and [filepath.Abs] see: a
    tree of nodes addressed by the elements of an absolute path. Resolution of a
    path follows the links in its directories, with a bound on their number as
    every system has, and fails where the system refuses access. *)

From S2P Require Import Prelude Text Paths.
Local Open Scope Z_scope.

Abbreviation path := (list chars).

Inductive node : Type :=
| NDir
| NFile (data : bytes) (mode : Z) (writable : bool)
| NLink (target : chars)
| NOther.

(** [denied]: the places where the system answers with an error that is not
    absence. *)
Record FS : Type := mkFS {
  nodes : gmap path node;
  denied : path → bool;
}.

(** The root is a directory. *)
Definition node_at (fs : FS) (p : path) : option node :=
  match p with [] => Some NDir | _ => nodes fs !! p end.

Definition set_node (p : path) (n : node) (fs : FS) : FS :=
  mkFS (<[p := n]> (nodes fs)) (denied fs).
Definition del_node (p : path) (fs : FS) : FS := mkFS (delete p (nodes fs)) (denied fs).

(** Where a path leads. *)
Inductive walk : Type := At (p : path) | Missing | Refused.

Definition parent_of (p : path) : path := List.removelast p.

(** [cur] is reached, [todo] is left; [links] bounds the links followed. *)
Fixpoint namei (links : nat) (fs : FS) : path → list chars → walk :=
  fix go (cur : path) (todo : list chars) : walk :=
    match todo with
    | [] => At cur
    | x :: t =>
        if decide (x = []) then go cur t
        else if decide (x = dot) then go cur t
        else if decide (x = dotdot) then go (parent_of cur) t
        else if denied fs (cur ++ [x]) then Refused
        else match node_at fs (cur ++ [x]) with
             | None => Missing
             | Some NDir => go (cur ++ [x]) t
             | Some (NLink target) =>
                 match links with
                 | O => Refused
                 | S links' =>
                     namei links' fs (if IsAbs target then [] else cur) (split_slash target ++ t)
                 end
             | Some _ => match t with [] => At (cur ++ [x]) | _ => Refused end
             end
    end.

Definition max_links : nat := 255.

Inductive stat : Type := Found (n : node) | Absent | Fails.

(** [os.Lstat] of the clean absolute path with these elements: links are followed
    up to the last element, not there. *)
Definition Lstat (fs : FS) (p : path) : stat :=
  match p with
  | [] => Found NDir
  | _ =>
      match namei max_links fs [] (parent_of p) with
      | Missing => Absent
      | Refused => Fails
      | At q =>
          match node_at fs q with
          | Some NDir =>
              let place := q ++ [List.last p []] in
              if denied fs place then Fails
              else match node_at fs place with Some n => Found n | None => Absent end
          | _ => Fails
          end
      end
  end.

(** [os.Stat]. *)
Definition Stat (fs : FS) (p : path) : stat :=
  match namei max_links fs [] p with
  | Missing => Absent
  | Refused => Fails
  | At q => match node_at fs q with Some n => Found n | None => Absent end
  end.

(** [filepath.EvalSymlinks] of an absolute path. *)
Definition EvalSymlinks (fs : FS) (p : path) : option path :=
  match namei max_links fs [] p with At q => Some q | _ => None end.

(** [filepath.Abs]; [cwd] is the working directory. *)
Definition Abs (cwd p : chars) : chars := if IsAbs p then Clean p else Join cwd p.

Lemma elems_Abs cwd p : IsAbs cwd = true →
  ∃ es, Abs cwd p = abs_path es ∧ Forall normal_elem es ∧ elems_of (Abs cwd p) = es.
Proof.
  intros Hc. assert (∃ es, Abs cwd p = abs_path es ∧ Forall normal_elem es) as (es & He & Hn).
  { unfold Abs. destruct (IsAbs p) eqn:Hp; [by apply Clean_abs|]. destruct cwd as [|c cwd]; [done|].
    unfold Join. by apply Clean_abs. }
  exists es. by rewrite He, elems_abs_path.
Qed.

(** ** Real paths *)

(** Every directory on the way to [p] is a directory: no link is followed. *)
Definition is_dir (fs : FS) (p : path) : Prop := node_at fs p = Some NDir.
Definition dirs_to (fs : FS) (p : path) : Prop :=
  ∀ k, (k < length p)%nat → is_dir fs (take k p).

Definition not_link (fs : FS) (p : path) : Prop :=
  match node_at fs p with Some (NLink _) => False | _ => True end.

Lemma namei_unfold links fs cur todo :
  namei links fs cur todo =
    match todo with
    | [] => At cur
    | x :: t =>
        if decide (x = []) then namei links fs cur t
        else if decide (x = dot) then namei links fs cur t
        else if decide (x = dotdot) then namei links fs (parent_of cur) t
        else if denied fs (cur ++ [x]) then Refused
        else match node_at fs (cur ++ [x]) with
             | None => Missing
             | Some NDir => namei links fs (cur ++ [x]) t
             | Some (NLink target) =>
                 match links with
                 | O => Refused
                 | S links' =>
                     namei links' fs (if IsAbs target then [] else cur) (split_slash target ++ t)
                 end
             | Some _ => match t with [] => At (cur ++ [x]) | _ => Refused end
             end
    end.
Proof. destruct links, todo; reflexivity. Qed.

Lemma parent_of_take (p : path) : parent_of p = take (length p - 1) p.
Proof.
  unfold parent_of. destruct p as [|x p] using rev_ind; [done|].
  rewrite List.removelast_app by done. cbn. rewrite app_nil_r, length_app. cbn.
  by rewrite Nat.add_sub, take_app_length.
Qed.

Lemma parent_of_snoc (p : path) x : parent_of (p ++ [x]) = p.
Proof. unfold parent_of. rewrite List.removelast_app by done. cbn. by rewrite app_nil_r. Qed.

Lemma dirs_to_snoc fs p x : dirs_to fs p → is_dir fs p → dirs_to fs (p ++ [x]).
Proof.
  intros Hd Hp k Hk. rewrite length_app in Hk. cbn in Hk. destruct (decide (k = length p)) as [->|].
  - by rewrite take_app_length.
  - rewrite take_app_le by lia. apply Hd. lia.
Qed.

Lemma dirs_to_parent fs p : dirs_to fs p → dirs_to fs (parent_of p) ∧ is_dir fs (parent_of p).
Proof.
  rewrite parent_of_take. intros Hd. split.
  - intros k Hk. rewrite length_take in Hk. rewrite take_take. rewrite Nat.min_l by lia. apply Hd. lia.
  - destruct p as [|x p]; [done|]. apply Hd. cbn. lia.
Qed.

(** Resolution ends at a place that is not behind a link, and is not one. *)
Lemma namei_real links fs cur todo q :
  dirs_to fs cur → is_dir fs cur → Forall normal_elem cur →
  Forall (λ e, slash ∉ e) todo → namei links fs cur todo = At q →
  dirs_to fs q ∧ not_link fs q ∧ Forall normal_elem q.
Proof.
  revert cur todo. induction links as [|links IHl]; intros cur todo; revert cur;
    induction todo as [|x t IH]; intros cur Hd Hc Hn Ht; rewrite namei_unfold.
  1,3: intros [= <-]; split_and!; try done; unfold not_link, is_dir in *; by rewrite Hc.
  all: apply Forall_cons in Ht as [Hx Ht].
  all: repeat case_decide; try (by apply IH).
  1,3: apply dirs_to_parent in Hd as [? ?]; apply IH; try done; rewrite parent_of_take;
    by apply Forall_take.
  all: destruct (denied fs (cur ++ [x])); [done|].
  all: assert (Forall normal_elem (cur ++ [x])) as Hn'
    by (apply Forall_app; split; [done|by apply Forall_singleton]).
  all: pose proof (dirs_to_snoc fs cur x Hd Hc) as Hd'.
  all: destruct (node_at fs (cur ++ [x])) as [[]|] eqn:Hnode; try done; try (by apply IH).
  all: try (destruct t; [|done]; intros [= <-]; split_and!; try done; unfold not_link; by rewrite Hnode).
  assert (Forall (λ e, slash ∉ e) (split_slash target ++ t)) as Htt.
  2:{ destruct (IsAbs target); apply IHl; try done. intros k Hk. cbn in Hk. lia. }
  apply Forall_app. split; [|done]. apply Forall_forall. intros e. apply split_slash_no_slash.
Qed.

(** A tree: everything lies in a directory. *)
Definition fs_wf (fs : FS) : Prop :=
  ∀ p n, node_at fs p = Some n → p ≠ [] → is_dir fs (parent_of p).

(** The same, executable: a concrete tree is checked by evaluation. *)
Definition fs_wfb (fs : FS) : bool :=
  forallb (λ pn, match node_at fs (parent_of pn.1) with Some NDir => true | _ => false end)
    (map_to_list (nodes fs)).

Lemma fs_wfb_wf fs : fs_wfb fs = true → fs_wf fs.
Proof.
  intros Hb p n Hp Hne. unfold fs_wfb in Hb. rewrite forallb_forall in Hb.
  assert (nodes fs !! p = Some n) as Hl by (destruct p; [by destruct Hne|exact Hp]).
  specialize (Hb (p, n)). rewrite <-list_elem_of_In, elem_of_map_to_list in Hb. specialize (Hb Hl).
  unfold is_dir. cbn [fst] in Hb. destruct (node_at fs (parent_of p)) as [[]|]; congruence.

Qed.

(** A path without links on it leads where it says, if anywhere. *)
Definition no_links (fs : FS) (cur es : path) : Prop :=
  ∀ k, (0 < k ≤ length es)%nat → not_link fs (cur ++ take k es).

Lemma no_links_cons fs cur x es :
  no_links fs cur (x :: es) → not_link fs (cur ++ [x]) ∧ no_links fs (cur ++ [x]) es.
Proof.
  intros Hn. split; [apply (Hn 1%nat); cbn; lia|]. intros k Hk.
  rewrite <-app_assoc. apply (Hn (S k)). cbn. lia.
Qed.

Lemma namei_no_links links fs cur es q :
  Forall normal_elem es → no_links fs cur es → namei links fs cur es = At q → q = cur ++ es.
Proof.
  intros Hn. revert cur. induction Hn as [|x es (H1 & H2 & H3 & _) _ IH]; intros cur Hl;
    rewrite namei_unfold; [intros [= <-]; by rewrite app_nil_r|].
  rewrite !decide_False by done. apply no_links_cons in Hl as [Hx Hl]. unfold not_link in Hx.
  destruct (denied fs (cur ++ [x])); [done|].
  destruct (node_at fs (cur ++ [x])) as [[]|]; try done.
  - intros Hq. rewrite (IH _ Hl Hq). by rewrite <-app_assoc.
  - destruct es; [|done]. by intros [= <-].
  - destruct es; [|done]. by intros [= <-].
Qed.

Lemma namei_dirs links fs cur es t :
  Forall normal_elem es → (∀ k, (0 < k ≤ length es)%nat → is_dir fs (cur ++ take k es)) →
  namei links fs cur (es ++ t) = namei links fs (cur ++ es) t ∨
  namei links fs cur (es ++ t) = Refused.
Proof.
  intros Hn. revert cur. induction Hn as [|x es (H1 & H2 & H3 & _) _ IH]; intros cur Hd.
  { left. by rewrite app_nil_r. }
  assert (is_dir fs (cur ++ [x])) as Hx by (apply (Hd 1%nat); cbn; lia).
  cbn [app]. rewrite namei_unfold, !decide_False by done.
  destruct (denied fs (cur ++ [x])); [by right|]. unfold is_dir in Hx. rewrite Hx.
  destruct (IH (cur ++ [x])) as [-> | ->]; [|left; by rewrite <-app_assoc|by right].
  intros k Hk. rewrite <-app_assoc. apply (Hd (S k)). cbn. lia.
Qed.

Lemma fs_wf_dirs fs p n : fs_wf fs → node_at fs p = Some n → dirs_to fs p.
Proof.
  intros Hwf. revert n. induction p as [|x p IH] using rev_ind; intros n Hp; [by intros k Hk; cbn in Hk; lia|].
  pose proof (Hwf _ _ Hp) as Hd. rewrite parent_of_snoc in Hd.
  assert (is_dir fs p) as Hpd by (apply Hd; by destruct p).
  apply dirs_to_snoc; [|done]. by eapply IH.
Qed.

(** Of what exists, [Lstat] sees the node itself. *)
Lemma Lstat_node fs p n :
  fs_wf fs → Forall normal_elem p → node_at fs p = Some n → Lstat fs p = Found n ∨ Lstat fs p = Fails.
Proof.
  intros Hwf Hn Hp. pose proof (fs_wf_dirs _ _ _ Hwf Hp) as Hd.
  destruct p as [|x p _] using rev_ind; [cbn in Hp |- *; left; congruence|].
  assert (Lstat fs (p ++ [x]) = match namei max_links fs [] p with
      | Missing => Absent | Refused => Fails
      | At q => match node_at fs q with
                | Some NDir => if denied fs (q ++ [x]) then Fails else
                    match node_at fs (q ++ [x]) with Some n => Found n | None => Absent end
                | _ => Fails end end) as ->.
  { unfold Lstat. destruct (p ++ [x]) eqn:E; [by destruct p|]. rewrite <-E.
    by rewrite parent_of_snoc, List.last_last. }
  apply Forall_app in Hn as [Hn _].
  assert (is_dir fs p) as Hpd.
  { specialize (Hd (length p)). rewrite take_app_length in Hd. apply Hd. rewrite length_app. cbn. lia. }
  pose proof (namei_dirs max_links fs [] p [] Hn) as Hw. rewrite app_nil_r in Hw. cbn [app] in Hw.
  assert (∀ k, (0 < k ≤ length p)%nat → is_dir fs (take k p)) as Hall.
  { intros k Hk. destruct (decide (k = length p)) as [->|]; [by rewrite firstn_all|].
    specialize (Hd k). rewrite take_app_le in Hd by lia. apply Hd. rewrite length_app. cbn. lia. }
  destruct (Hw Hall) as [-> | ->]; [|by right].
  rewrite namei_unfold. unfold is_dir in Hpd. rewrite Hpd, Hp. destruct (denied fs (p ++ [x])); auto.
Qed.

(** ** Operations that change the tree *)

Definition last_elem (p : path) : chars := List.last p [].

(** Where an entry named by [p] is, or would be made: in the directory its parent
    leads to. *)
Definition place (fs : FS) (p : path) : option path :=
  match p with
  | [] => None
  | _ =>
      match namei max_links fs [] (parent_of p) with
      | At q =>
          match node_at fs q with
          | Some NDir => if denied fs (q ++ [last_elem p]) then None else Some (q ++ [last_elem p])
          | _ => None
          end
      | _ => None
      end
  end.

(** [os.MkdirAll]: the elements of [todo] below [cur], one by one. [room] is how many
    directories the system lets it make. *)
Fixpoint mkdirs (room : nat) (fs : FS) (cur : path) (todo : list chars) : bool * FS :=
  match todo with
  | [] => (true, fs)
  | x :: t =>
      match Stat fs (cur ++ [x]) with
      | Found NDir => mkdirs room fs (cur ++ [x]) t
      | Absent =>
          match room, place fs (cur ++ [x]) with
          | S room', Some q =>
              match node_at fs q with
              | None => mkdirs room' (set_node q NDir fs) (cur ++ [x]) t
              | Some _ => (false, fs)
              end
          | _, _ => (false, fs)
          end
      | _ => (false, fs)
      end
  end.

Definition MkdirAll (room : nat) (fs : FS) (p : path) : bool * FS := mkdirs room fs [] p.

(** [os.CreateTemp(dir, pattern)]: a new file, with the name the system chose. *)
Definition CreateTemp (fs : FS) (dir : path) (name : chars) : option (path * FS) :=
  q ← place fs (dir ++ [name]);
  match node_at fs q with
  | None => Some (dir ++ [name], set_node q (NFile [] 0x180 true) fs)
  | Some _ => None
  end.

(** What is written to the new file, and its mode. *)
Definition write_file (fs : FS) (p : path) (data : bytes) (mode : Z) : FS :=
  match place fs p with Some q => set_node q (NFile data mode true) fs | None => fs end.

(** [os.Remove] of a file. *)
Definition Remove (fs : FS) (p : path) : FS :=
  match place fs p with
  | Some q => match node_at fs q with Some (NFile _ _ _) => del_node q fs | _ => fs end
  | None => fs
  end.

(** [os.Rename] of a file; [None]: it fails, as it does over a directory. *)
Definition Rename (fs : FS) (old new : path) : option FS :=
  p ← place fs old;
  q ← place fs new;
  match node_at fs p, node_at fs q with
  | Some (NFile d m w), Some NDir => None
  | Some (NFile d m w), _ => Some (set_node q (NFile d m w) (del_node p fs))
  | _, _ => None
  end.

(** ** Their effect below a path without links *)

Lemma no_links_parent fs p : no_links fs [] p → no_links fs [] (parent_of p).
Proof.
  intros Hn k Hk. rewrite parent_of_take in *. rewrite length_take in Hk.
  rewrite take_take, Nat.min_l by lia. apply Hn. lia.
Qed.

Lemma parent_last p : p ≠ [] → parent_of p ++ [last_elem p] = p.
Proof. intros Hp. unfold parent_of, last_elem. symmetry. by apply List.app_removelast_last. Qed.

Lemma place_no_links fs p q :
  Forall normal_elem (parent_of p) → no_links fs [] (parent_of p) → place fs p = Some q →
  q = p ∧ p ≠ [] ∧ is_dir fs (parent_of p).
Proof.
  intros Hn Hl Hp. unfold place in Hp. destruct p as [|x p]; [done|].
  remember (x :: p) as es eqn:Hes. assert (es ≠ []) as Hne by by subst.
  destruct (namei max_links fs [] (parent_of es)) as [r| |] eqn:Hw; try done.
  apply namei_no_links in Hw; [|done|done].
  cbn [app] in Hw. subst r.
  destruct (node_at fs (parent_of es)) as [[]|] eqn:Hd; try done.
  destruct (denied fs _); [done|]. injection Hp as <-. by rewrite parent_last.
Qed.

Lemma node_at_set fs p n q :
  p ≠ [] → node_at (set_node p n fs) q = if decide (q = p) then Some n else node_at fs q.
Proof.
  intros Hp. unfold node_at, set_node. cbn. destruct q as [|x q].
  - by rewrite decide_False.
  - rewrite lookup_insert. repeat case_decide; congruence.
Qed.

Lemma node_at_del fs p q :
  p ≠ [] → node_at (del_node p fs) q = if decide (q = p) then None else node_at fs q.
Proof.
  intros Hp. unfold node_at, del_node. cbn. destruct q as [|x q].
  - by rewrite decide_False.
  - rewrite lookup_delete. repeat case_decide; congruence.
Qed.

(** A node that holds nothing may be replaced, where there is a directory for it. *)
Lemma fs_wf_set fs p n :
  fs_wf fs → p ≠ [] → is_dir fs (parent_of p) → (n = NDir ∨ node_at fs p ≠ Some NDir) →
  fs_wf (set_node p n fs).
Proof.
  intros Hwf Hp Hd Hn q m. unfold is_dir. rewrite !node_at_set by done.
  assert (parent_of p ≠ p) as Hpp.
  { intros E. apply (f_equal length) in E. rewrite parent_of_take, length_take in E.
    destruct p; [done|cbn in E; lia]. }
  case_decide as Hq.
  - intros _ _. subst q. by rewrite decide_False.
  - intros Hm Hne. case_decide as Hpq; [|by eapply Hwf].
    specialize (Hwf _ _ Hm Hne). unfold is_dir in Hwf. rewrite Hpq in Hwf. naive_solver.
Qed.

Lemma fs_wf_del fs p : fs_wf fs → p ≠ [] → node_at fs p ≠ Some NDir → fs_wf (del_node p fs).
Proof.
  intros Hwf Hp Hn q m. unfold is_dir. rewrite !node_at_del by done. case_decide; [done|].
  intros Hm Hne. specialize (Hwf _ _ Hm Hne). case_decide as Hpq; [|done].
  unfold is_dir in Hwf. by rewrite Hpq in Hwf.
Qed.

(** ** Trees that grow *)

(** Neither a directory nor a link. *)
Definition soft (n : option node) : Prop :=
  match n with Some NDir | Some (NLink _) => False | _ => True end.
Definition linkless (n : option node) : Prop := match n with Some (NLink _) => False | _ => True end.

(** From [fs] to [fs'] only places in [A] change, no directory or link goes away and
    no link appears. *)
Record evolves (A : path → Prop) (fs fs' : FS) : Prop := {
  ev_wf : fs_wf fs';
  ev_denied : denied fs' = denied fs;
  ev_node p : node_at fs' p = node_at fs p ∨
    (A p ∧ soft (node_at fs p) ∧ linkless (node_at fs' p));
}.

Lemma evolves_refl A fs : fs_wf fs → evolves A fs fs.
Proof. by split; auto. Qed.

Lemma evolves_trans A fs fs1 fs2 : evolves A fs fs1 → evolves A fs1 fs2 → evolves A fs fs2.
Proof.
  intros [W1 D1 N1] [W2 D2 N2]. split; [done|congruence|]. intros p.
  destruct (N1 p) as [E1|(?&?&?)], (N2 p) as [E2|(?&?&?)]; rewrite ?E1, ?E2 in *; auto.
Qed.

Lemma evolves_not_link A fs fs' p : evolves A fs fs' → not_link fs p → not_link fs' p.
Proof.
  intros [_ _ N] Hp. unfold not_link in *. destruct (N p) as [->|(_ & _ & Hl)]; [done|].
  unfold linkless in Hl. by destruct (node_at fs' p) as [[]|].
Qed.

Lemma evolves_is_dir A fs fs' p : evolves A fs fs' → is_dir fs p → is_dir fs' p.
Proof.
  intros [_ _ N] Hp. unfold is_dir in *. destruct (N p) as [->|(_ & Hs & _)]; [done|].
  by rewrite Hp in Hs.
Qed.

Lemma evolves_no_links A fs fs' cur es : evolves A fs fs' → no_links fs cur es → no_links fs' cur es.
Proof. intros He Hl k Hk. eapply evolves_not_link; [done|auto]. Qed.

(** A path that led to a directory leads there still. *)
Lemma namei_stable A links fs fs' cur todo q :
  evolves A fs fs' → namei links fs cur todo = At q → is_dir fs q →
  namei links fs' cur todo = At q.
Proof.
  intros [_ Hd N]. revert cur todo. induction links as [|links IHl]; intros cur todo; revert cur;
    induction todo as [|x t IH]; intros cur; 
    rewrite (namei_unfold _ fs cur), (namei_unfold _ fs' cur); try done.
  all: repeat case_decide; try (by apply IH).
  all: rewrite Hd; destruct (denied fs (cur ++ [x])); [done|].
  all: pose proof (N (cur ++ [x])) as Nx; unfold soft in Nx.
  all: destruct (node_at fs (cur ++ [x])) as [[]|] eqn:Hn; try done.
  all: try (destruct Nx as [-> |(_ & [] & _)]; auto; fail).
  all: destruct t; [|done]; intros [= <-] Hq; unfold is_dir in Hq; by rewrite Hn in Hq.
Qed.

(** ** What the operations do *)

Lemma parent_normal p : Forall normal_elem p → Forall normal_elem (parent_of p).
Proof. intros. rewrite parent_of_take. by apply Forall_take. Qed.

(** Between [cur] and [cur ++ todo]. *)
Definition on_way (cur todo : path) (p : path) : Prop :=
  ∃ k, (0 < k ≤ length todo)%nat ∧ p = cur ++ take k todo.

(** Only missing directories appear. *)
Definition grown (S : path → Prop) (fs fs' : FS) : Prop :=
  fs_wf fs' ∧ denied fs' = denied fs ∧
  ∀ p, node_at fs' p = node_at fs p ∨ (S p ∧ node_at fs p = None ∧ node_at fs' p = Some NDir).

Lemma grown_evolves (S A : path → Prop) fs fs' : (∀ p, S p → A p) → grown S fs fs' → evolves A fs fs'.
Proof.
  intros HS (W & D & N). split; [done|done|]. intros p. destruct (N p) as [->|(? & -> & ->)]; auto.
  right. split; [by apply HS|done].
Qed.

Lemma Stat_no_links fs p n :
  Forall normal_elem p → no_links fs [] p → Stat fs p = Found n → node_at fs p = Some n.
Proof.
  intros Hn Hl. unfold Stat. destruct (namei _ _ _ _) as [q| |] eqn:Hw; try done.
  apply namei_no_links in Hw; [|done|done]. cbn in Hw. subst q.
  destruct (node_at fs p); [by intros [= ->]|done].
Qed.

Lemma on_way_cons cur x t p : on_way (cur ++ [x]) t p ∨ p = cur ++ [x] ↔ on_way cur (x :: t) p.
Proof.
  split.
  - intros [(k & Hk & ->)| ->].
    + exists (S k). split; [cbn; lia|]. by rewrite <-app_assoc.
    + exists 1%nat. split; [cbn; lia|done].
  - intros (k & Hk & ->). destruct k as [|[|k]]; [lia|by right|]. left. exists (S k).
    split; [cbn in Hk; lia|]. by rewrite <-app_assoc.
Qed.

Lemma mkdirs_spec room fs cur todo ok fs' :
  fs_wf fs → Forall normal_elem (cur ++ todo) → no_links fs [] (cur ++ todo) →
  mkdirs room fs cur todo = (ok, fs') →
  grown (on_way cur todo) fs fs' ∧
  (ok = true → ∀ k, (0 < k ≤ length todo)%nat → is_dir fs' (cur ++ take k todo)).
Proof.
  revert room fs cur. induction todo as [|x t IH]; intros room fs cur Hwf Hn Hl; cbn [mkdirs].
  { intros [= <- <-]. split; [by split; auto|]. intros _ k Hk. cbn in Hk. lia. }
  rewrite cons_middle, app_assoc in Hn, Hl.
  assert (Forall normal_elem (cur ++ [x])) as Hnx by by apply Forall_app in Hn as [? _].
  assert (no_links fs [] (cur ++ [x])) as Hlx.
  { intros k Hk. specialize (Hl k). rewrite take_app_le in Hl by lia. apply Hl.
    rewrite length_app. lia. }
  assert (∀ fs1, grown (λ p, p = cur ++ [x]) fs fs1 → is_dir fs1 (cur ++ [x]) →
    ∀ room', mkdirs room' fs1 (cur ++ [x]) t = (ok, fs') →
    grown (on_way cur (x :: t)) fs fs' ∧
    (ok = true → ∀ k, (0 < k ≤ length (x :: t))%nat → is_dir fs' (cur ++ take k (x :: t)))) as Hrec.
  { intros fs1 Hg Hd room' Hm.
    assert (evolves (λ _, True) fs fs1) as He1 by (eapply grown_evolves; [|exact Hg]; done).
    destruct (IH room' fs1 (cur ++ [x]) (proj1 Hg) Hn (evolves_no_links _ _ _ _ _ He1 Hl) Hm)
      as [Hg2 Hd2].
    assert (evolves (λ _, True) fs1 fs') as He2 by (eapply grown_evolves; [|exact Hg2]; done).
    destruct Hg as (_ & D1 & N1), Hg2 as (W2 & D2 & N2). split.
    - split; [done|]. split; [congruence|]. intros p.
      destruct (N2 p) as [E2|(H2 & E2 & E2')], (N1 p) as [E1|(-> & E1 & E1')]; rewrite ?E2 in *; auto.
      + right. split; [apply on_way_cons; auto|done].
      + right. split; [apply on_way_cons; auto|]. by rewrite <-E1.
      + congruence.
    - intros Hok k Hk. destruct k as [|[|k]]; [lia|by eapply evolves_is_dir|].
      specialize (Hd2 Hok (S k)). rewrite <-app_assoc in Hd2. apply Hd2. cbn in Hk. lia. }
  assert (grown (on_way cur (x :: t)) fs fs) as Hsame by (by split; auto).
  destruct (Stat fs (cur ++ [x])) as [[]| |] eqn:Hs; try (by intros [= <- <-]).
  - apply Stat_no_links in Hs; [|done|done]. apply Hrec; [by split; auto|done].
  - destruct room as [|room]; [by intros [= <- <-]|].
    destruct (place fs (cur ++ [x])) as [q|] eqn:Hp; [|by intros [= <- <-]].
    apply place_no_links in Hp as (-> & Hne & Hd); [|by apply parent_normal|by apply no_links_parent].
    destruct (node_at fs (cur ++ [x])) eqn:Hnode; [by intros [= <- <-]|].
    apply Hrec.
    + split; [|split; [done|]].
      * apply fs_wf_set; try done. by left.
      * intros p. rewrite node_at_set by done. case_decide; [subst; right|by left]. done.
    + unfold is_dir. rewrite node_at_set by done. by rewrite decide_True.
Qed.
