(* ===== verification/Transfer.v ===== *)
(** * Folder transfer

    internal/transfer/files.go: names that are safe to create, manifests, where a
    destination may lie, the probe of a destination and the extraction of a received
    archive. Paths are unix paths; [filepath.ToSlash] and [FromSlash] are the
    identity and a path has no volume name. The archive is the sequence of headers
    and reads that [archive/tar] delivers; what the system allows (a temporary file,
    room for directories, a rename) is an input. *)

From S2P Require Import Prelude Text Paths FileSys.
Local Open Scope string_scope.
Local Open Scope Z_scope.

(** internal/transfer/files.go:16-16 [MaxEntries] *)
Definition MaxEntries : Z := 10000.

(** internal/transfer/files.go:18-23 [Entry] *)
Record Entry : Type := mkEntry { e_Name : string; e_Size : Z; e_Dir : bool; e_Mode : Z }.

#[export] Instance Entry_eq_dec : EqDecision Entry.
Proof. solve_decision. Defined.

Inductive t_error : Type :=
| ErrRoot
| ErrOutside
| ErrWalk (p : chars)
| ErrSymlink (p : chars)
| ErrManifestSize
| ErrEntry (name : string)
| ErrTooBig
| ErrConflict (parent : chars)
| ErrKind (p : chars)
| ErrOverwrite (p : chars)
| ErrReadOnly (p : chars)
| ErrStat (p : chars)
| ErrParent (p : chars)
| ErrProbe (p : chars)
| ErrSpace
| ErrContext
| ErrOpen
| ErrTar
| ErrMismatch (name : string)
| ErrMkdir
| ErrTemp
| ErrCopy
| ErrExists (p : chars)
| ErrRename
| ErrMissing.

(** ** Names *)

(** [strings.HasPrefix]. *)
Fixpoint has_prefix (p l : chars) : bool :=
  match p, l with
  | [], _ => true
  | a :: p', b :: l' => Ascii.eqb a b && has_prefix p' l'
  | _ :: _, [] => false
  end.

Definition up_slash : chars := chars_of "../".

Definition bad_char (c : ascii) : bool :=
  Ascii.eqb c "\" || Ascii.eqb c ":" || Ascii.eqb c Ascii.zero.

(** internal/transfer/files.go:38-40 [SafeName] *)
Definition SafeName (name : string) : bool :=
  let n := chars_of name in
  negb (bool_decide (n = [])) && negb (bool_decide (n = dot)) && negb (existsb bad_char n)
  && negb (IsAbs n) && bool_decide (Clean n = n) && negb (bool_decide (n = dotdot))
  && negb (has_prefix up_slash n).

(** ** Destinations *)

(** internal/transfer/files.go:207-222 [Resolve] *)
Fixpoint walk_parts (fs : FS) (walk : chars) (parts : list chars) : res t_error unit :=
  match parts with
  | [] => Ok tt
  | part :: rest =>
      let walk := Join walk part in
      match Lstat fs (elems_of walk) with
      | Absent => walk_parts fs walk rest
      | Fails => Err (ErrWalk walk)
      | Found (NLink _) => Err (ErrSymlink walk)
      | Found _ => walk_parts fs walk rest
      end
  end.

(** [cwd] is the working directory. internal/transfer/files.go:179-224 [Resolve] *)
Definition Resolve (cwd : chars) (fs : FS) (root dir : chars) : res t_error chars :=
  let '(root, dir) :=
    match root with [] => ([slash], Abs cwd dir) | _ => (root, dir) end in
  match EvalSymlinks fs (elems_of (Abs cwd root)) with
  | None => Err ErrRoot
  | Some real =>
      let root := abs_path real in
      let dir := match dir with [] => root | _ => dir end in
      let dir := if IsAbs dir then dir else Join root dir in
      let dir := Clean dir in
      match Rel root dir with
      | None => Err ErrOutside
      | Some rel =>
          if bool_decide (rel = dotdot) || has_prefix up_slash rel then Err ErrOutside else
          if bool_decide (rel = dot) then Ok dir else
          match walk_parts fs root (split_slash rel) with
          | Ok _ => Ok dir
          | Err e => Err e
          end
      end
  end.

(** ** Manifests *)

Definition PiB : Z := Z.shiftl 1 50.

(** internal/transfer/files.go:229-241 [ValidateEntries] *)
Fixpoint scan_entries (entries : list Entry) (seen : gmap string Entry) (total : Z)
    : res t_error (gmap string Entry) :=
  match entries with
  | [] => Ok seen
  | e :: rest =>
      let duplicate := bool_decide (is_Some (seen !! e_Name e)) in
      if negb (SafeName (e_Name e)) || (e_Size e <? 0) || (PiB <? e_Size e) || duplicate
         || (e_Dir e && negb (e_Size e =? 0))
      then Err (ErrEntry (e_Name e))
      else
        let total := int64 (total + e_Size e) in
        if PiB <? total then Err ErrTooBig
        else scan_entries rest (<[e_Name e := e]> seen) total
  end.

(** The parents of a name, up to ["."]; each is shorter than the one before.
    internal/transfer/files.go:243-247 [ValidateEntries] *)
Fixpoint check_parents (fuel : nat) (seen : gmap string Entry) (parent : chars)
    : res t_error unit :=
  match fuel with
  | O => Ok tt
  | S fuel' =>
      if bool_decide (parent = dot) then Ok tt else
      match seen !! string_of parent with
      | Some p => if negb (e_Dir p) then Err (ErrConflict parent)
                  else check_parents fuel' seen (Dir parent)
      | None => check_parents fuel' seen (Dir parent)
      end
  end.

(** internal/transfer/files.go:242-248 [ValidateEntries] *)
Fixpoint check_conflicts (seen : gmap string Entry) (entries : list Entry) : res t_error unit :=
  match entries with
  | [] => Ok tt
  | e :: rest =>
      let n := chars_of (e_Name e) in
      match check_parents (S (length n)) seen (Dir n) with
      | Ok _ => check_conflicts seen rest
      | Err x => Err x
      end
  end.

(** internal/transfer/files.go:225-250 [ValidateEntries] *)
Definition ValidateEntries (entries : list Entry) : res t_error unit :=
  if (zlen entries =? 0) || (MaxEntries <? zlen entries) then Err ErrManifestSize else
  match scan_entries entries ∅ 0 with
  | Err e => Err e
  | Ok seen => check_conflicts seen entries
  end.

Example safe_names :
  List.map SafeName ["a"; "a/b.txt"; "..x/y"; ""; "."; ".."; "../x"; "/abs"; "a/../../b"; "a\b"; "C:/x"; "a/"; "a//b"]
  = [true; true; true; false; false; false; false; false; false; false; false; false; false].
Proof. vm_compute. reflexivity. Qed.

Example validate_examples :
  ValidateEntries [mkEntry "d" 0 true 0; mkEntry "d/a" 3 false 420] = Ok tt ∧
  ValidateEntries [mkEntry "d" 1 false 0; mkEntry "d/x/a" 3 false 420] = Err (ErrConflict (chars_of "d")) ∧
  ValidateEntries [mkEntry "a" 1 false 0; mkEntry "a" 1 false 0] = Err (ErrEntry "a") ∧
  ValidateEntries [mkEntry "a" PiB false 0; mkEntry "b" 1 false 0] = Err ErrTooBig ∧
  ValidateEntries [] = Err ErrManifestSize.
Proof. vm_compute. split_and!; reflexivity. Qed.

(** ** Probing a destination *)

(** internal/transfer/files.go:252-257 [Probe] *)
Record Probe : Type := mkProbe {
  p_Ready : bool; p_Target : chars; p_Warnings : list chars; p_Bytes : Z;
}.

(** What the system answers: may this be opened for writing, may a file be made in
    this directory and removed again, and the blocks and block size of [statfs]. *)
Record Sys : Type := mkSys {
  sys_open : chars → bool;
  sys_create : chars → bool;
  sys_remove : chars → bool;
  sys_statfs : chars → option (Z * Z);
}.

(** internal/transfer/space_unix.go:7-13 [freeBytes] *)
Definition freeBytes (sys : Sys) (path : chars) : option Z :=
  match sys_statfs sys path with
  | None => None
  | Some (Bavail, Bsize) => Some ((Bavail mod 2 ^ 64 * (Bsize mod 2 ^ 64)) mod 2 ^ 64)
  end.

(** [e]'s place in the destination. internal/transfer/files.go:271-271 [ProbeTarget] *)
Definition dest_of (cwd : chars) (fs : FS) (root target : chars) (name : string)
    : res t_error chars :=
  Resolve cwd fs root (Join target (chars_of name)).

(** internal/transfer/files.go:278-296 [ProbeTarget] *)
Definition check_dest (sys : Sys) (fs : FS) (overwrite : bool) (e : Entry) (dest : chars)
    : res t_error (list chars) :=
  match Lstat fs (elems_of dest) with
  | Found n =>
      if negb (Bool.eqb (match n with NDir => true | _ => false end) (e_Dir e)) then Err (ErrKind dest)
      else if e_Dir e then Ok []
      else if negb overwrite then Err (ErrOverwrite dest)
      else if match n with NFile _ _ w => w && sys_open sys dest | _ => sys_open sys dest end
      then Ok [(chars_of "将覆盖 " ++ dest)%list] else Err (ErrReadOnly dest)
  | Absent => Ok []
  | Fails => Err (ErrStat dest)
  end.

(** The nearest existing directory above a path; the root exists.
    internal/transfer/files.go:301-317 [ProbeTarget] *)
Fixpoint existing_parent (fuel : nat) (fs : FS) (parent : chars) : res t_error chars :=
  match fuel with
  | O => Err (ErrStat parent)
  | S fuel' =>
      match Stat fs (elems_of parent) with
      | Found NDir => Ok parent
      | Found _ => Err (ErrParent parent)
      | Fails => Err (ErrStat parent)
      | Absent =>
          let next := Dir parent in
          if bool_decide (next = parent) then Err (ErrStat parent)
          else existing_parent fuel' fs next
      end
  end.

(** One entry: the probe so far, the error, and the directories checked so far.
    internal/transfer/files.go:271-331 [ProbeTarget] *)
Definition probe_entry (cwd : chars) (sys : Sys) (fs : FS) (root target : chars) (overwrite : bool)
    (e : Entry) (checked : list chars) (p : Probe) : Probe * option t_error * list chars :=
  match dest_of cwd fs root target (e_Name e) with
  | Err x => (p, Some x, checked)
  | Ok dest =>
      let p := mkProbe (p_Ready p) (p_Target p) (p_Warnings p)
                 (if e_Dir e then p_Bytes p else int64 (p_Bytes p + e_Size e)) in
      match check_dest sys fs overwrite e dest with
      | Err x => (p, Some x, checked)
      | Ok warn =>
          let p := mkProbe (p_Ready p) (p_Target p) (p_Warnings p ++ warn) (p_Bytes p) in
          let parent := if e_Dir e then dest else Dir dest in
          match existing_parent (S (length parent)) fs parent with
          | Err x => (p, Some x, checked)
          | Ok parent =>
              if bool_decide (parent ∈ checked) then (p, None, checked) else
              if negb (sys_create sys parent && sys_remove sys parent)
              then (p, Some (ErrProbe parent), parent :: checked)
              else (p, None, parent :: checked)
          end
      end
  end.

(** internal/transfer/files.go:268-332 [ProbeTarget] *)
Fixpoint probe_entries (cwd : chars) (sys : Sys) (fs : FS) (root target : chars) (overwrite : bool)
    (entries : list Entry) (checked : list chars) (p : Probe) : Probe * option t_error :=
  match entries with
  | [] => (p, None)
  | e :: rest =>
      match probe_entry cwd sys fs root target overwrite e checked p with
      | (p', Some x, _) => (p', Some x)
      | (p', None, checked') => probe_entries cwd sys fs root target overwrite rest checked' p'
      end
  end.

(** internal/transfer/files.go:334-340 [ProbeTarget] *)
Fixpoint space_parent (fuel : nat) (fs : FS) (parent : chars) : chars :=
  match fuel with
  | O => parent
  | S fuel' =>
      match Stat fs (elems_of parent) with
      | Found _ => parent
      | _ => space_parent fuel' fs (Dir parent)
      end
  end.

(** The file that a directory is tried with is not of the model: it is removed, and where that
    fails, which is an error, it stays. internal/transfer/files.go:259-346 [ProbeTarget] *)
Definition ProbeTarget (cwd : chars) (sys : Sys) (fs : FS) (root dir : chars)
    (entries : list Entry) (overwrite : bool) (extraBytes : Z) : Probe * option t_error :=
  let p := mkProbe false [] [] 0 in
  match ValidateEntries entries with
  | Err x => (p, Some x)
  | Ok _ =>
      match Resolve cwd fs root dir with
      | Err x => (p, Some x)
      | Ok target =>
          match probe_entries cwd sys fs root target overwrite entries [] (mkProbe false target [] 0) with
          | (p, Some x) => (p, Some x)
          | (p, None) =>
              let parent := space_parent (S (length target)) fs target in
              let need := (int64 (p_Bytes p + extraBytes)) mod 2 ^ 64 in
              match freeBytes sys parent with
              | Some available =>
                  if available <? need then (p, Some ErrSpace)
                  else (mkProbe true (p_Target p) (p_Warnings p) (p_Bytes p), None)
              | None => (mkProbe true (p_Target p) (p_Warnings p) (p_Bytes p), None)
              end
          end
      end
  end.

(** ** Copying *)

(** One round of the loop: the context, what [Read] gives, and how much of it [Write]
    takes. Some true is the end of the input. *)
Record io_event : Type := mkIo {
  io_done : bool;
  io_data : bytes;
  io_err : option bool;
  io_written : nat;
  io_werr : bool;
}.

Inductive copy_error : Type := CopyContextDone | CopyRead | CopyWrite | CopyShort.

(** The total, the error, and what the writer has taken. After its last event the
    reader is at its end; [last_done] is the context then.
    internal/transfer/files.go:150-175 [CopyContext] *)
Fixpoint CopyContext (last_done : bool) (events : list io_event) (total : Z) (out : bytes)
    : Z * option copy_error * bytes :=
  match events with
  | [] => (total, if last_done then Some CopyContextDone else None, out)
  | ev :: rest =>
      if io_done ev then (total, Some CopyContextDone, out) else
      let n := length (io_data ev) in
      let '(total, out) :=
        if (0 <? n)%nat
        then (int64 (total + Z.of_nat (io_written ev)), (out ++ take (io_written ev) (io_data ev))%list)
        else (total, out) in
      if ((0 <? n) && io_werr ev)%nat then (total, Some CopyWrite, out) else
      if ((0 <? n) && negb (io_written ev =? n))%nat then (total, Some CopyShort, out) else
      match io_err ev with
      | Some true => (total, None, out)
      | Some false => (total, Some CopyRead, out)
      | None => CopyContext last_done rest total out
      end
  end.

(** ** Extracting *)

Inductive tar_type : Type := TypeReg | TypeRegA | TypeDir | TypeOther.

(** A header, and what happens while the entry is extracted: the context, how many
    directories can be made, the name of the temporary file, the reads of the body,
    and which of the last calls succeed. *)
Record tar_entry : Type := mkTar {
  h_Name : string;
  h_Size : Z;
  h_Type : tar_type;
  x_done : bool;
  x_room : nat;
  x_temp : option chars;
  x_last_done : bool;
  x_reads : list io_event;
  x_chmod : bool;
  x_sync : bool;
  x_close : bool;
  x_rename : bool;
}.

(** [strings.TrimSuffix(name, "/")]. *)
Definition trim_slash (n : chars) : chars :=
  match last n with
  | Some c => if Ascii.eqb c slash then take (length n - 1) n else n
  | None => n
  end.

Definition is_dir_type (t : tar_type) : bool := match t with TypeDir => true | _ => false end.
Definition tar_known (t : tar_type) : bool := match t with TypeOther => false | _ => true end.

(** internal/transfer/files.go:376-380 [Extract] *)
Definition match_manifest (expected : gmap string Entry) (h : tar_entry) : option (string * Entry) :=
  let name := string_of (trim_slash (chars_of (h_Name h))) in
  match expected !! name with
  | None => None
  | Some e =>
      if negb (SafeName name) || negb (h_Size h =? e_Size e) || negb (tar_known (h_Type h))
         || negb (Bool.eqb (is_dir_type (h_Type h)) (e_Dir e))
      then None else Some (name, e)
  end.

(** The file of an entry: written under a temporary name and renamed into place, or
    removed. internal/transfer/files.go:392-428 [Extract] *)
Definition extract_file (cwd : chars) (root dest : chars) (overwrite : bool) (e : Entry)
    (h : tar_entry) (fs : FS) : option t_error * FS :=
  let '(made, fs1) := MkdirAll (x_room h) fs (elems_of (Dir dest)) in
  if negb made then (Some ErrMkdir, fs1) else
  match x_temp h with
  | None => (Some ErrTemp, fs1)
  | Some name =>
      match CreateTemp fs1 (elems_of (Dir dest)) name with
      | None => (Some ErrTemp, fs1)
      | Some (tmp, fs2) =>
          let '(_, err, data) := CopyContext (x_last_done h) (x_reads h) 0 [] in
          let fs3 := write_file fs2 tmp data 0x180 in
          let stop x fs := (Some x, Remove fs tmp) in
          if bool_decide (err ≠ None) then stop ErrCopy fs3 else
          if negb (x_chmod h) then stop ErrCopy fs3 else
          let fs4 := write_file fs3 tmp data (Z.land (e_Mode e) 0x1ed) in
          if negb (x_sync h) then stop ErrCopy fs4 else
          if negb (x_close h) then stop ErrCopy fs4 else
          match (if overwrite then Absent else Lstat fs4 (elems_of dest)) with
          | Found _ => stop (ErrExists dest) fs4
          | Fails => stop (ErrStat dest) fs4
          | Absent =>
              match Resolve cwd fs4 root dest with
              | Err x => stop x fs4
              | Ok _ =>
                  if negb (x_rename h) then stop ErrRename fs4 else
                  match Rename fs4 tmp (elems_of dest) with
                  | Some fs5 => (None, fs5)
                  | None => stop ErrRename fs4
                  end
              end
          end
      end
  end.

(** internal/transfer/files.go:366-429 [Extract] *)
Definition extract_entry (cwd : chars) (root target : chars) (overwrite : bool) (h : tar_entry)
    (expected : gmap string Entry) (fs : FS) : option t_error * gmap string Entry * FS :=
  if x_done h then (Some ErrContext, expected, fs) else
  match match_manifest expected h with
  | None => (Some (ErrMismatch (h_Name h)), expected, fs)
  | Some (name, e) =>
      let expected := delete name expected in
      match dest_of cwd fs root target name with
      | Err x => (Some x, expected, fs)
      | Ok dest =>
          if e_Dir e then
            let '(made, fs') := MkdirAll (x_room h) fs (elems_of dest) in
            (if made then None else Some ErrMkdir, expected, fs')
          else
            let '(err, fs') := extract_file cwd root dest overwrite e h fs in (err, expected, fs')
      end
  end.

(** [fin]: how the archive ends, at its end ([None]) or with an error.
    internal/transfer/files.go:364-429 [Extract] *)
Fixpoint extract_entries (cwd : chars) (root target : chars) (overwrite : bool)
    (archive : list tar_entry) (fin : option t_error) (expected : gmap string Entry) (fs : FS)
    : option t_error * gmap string Entry * FS :=
  match archive with
  | [] => (fin, expected, fs)
  | h :: rest =>
      match extract_entry cwd root target overwrite h expected fs with
      | (Some x, expected', fs') => (Some x, expected', fs')
      | (None, expected', fs') =>
          extract_entries cwd root target overwrite rest fin expected' fs'
      end
  end.

(** [archive = None]: it cannot be opened. internal/transfer/files.go:347-434 [Extract] *)
Definition Extract (cwd : chars) (sys : Sys) (archive : option (list tar_entry * option t_error))
    (root dir : chars) (entries : list Entry) (overwrite : bool) (fs : FS) : option t_error * FS :=
  match ProbeTarget cwd sys fs root dir entries overwrite 0 with
  | (_, Some x) => (Some x, fs)
  | (_, None) =>
      match Resolve cwd fs root dir with
      | Err x => (Some x, fs)
      | Ok target =>
          let expected := list_to_map ((λ e, (e_Name e, e)) <$> entries) : gmap string Entry in
          match archive with
          | None => (Some ErrOpen, fs)
          | Some (hs, fin) =>
              match extract_entries cwd root target overwrite hs fin expected fs with
              | (Some x, _, fs') => (Some x, fs')
              | (None, expected', fs') =>
                  (if bool_decide (expected' = ∅) then None else Some ErrMissing, fs')
              end
          end
      end
  end.

(** ** Safe names *)

Local Open Scope list_scope.

(** A relative path of ordinary elements, none of whose characters is special on
    some system. *)
Definition safe_path (es : path) : Prop :=
  es ≠ [] ∧ Forall normal_elem es ∧ Forall (λ e, existsb bad_char e = false) es.

Lemma existsb_app {A} (f : A → bool) l k : existsb f (l ++ k) = existsb f l || existsb f k.
Proof. apply List.existsb_app. Qed.

Lemma bad_char_join es :
  existsb bad_char (join_slash es) = false ↔ Forall (λ e, existsb bad_char e = false) es.
Proof.
  induction es as [|x es IH]; [by rewrite Forall_nil|]. rewrite Forall_cons.
  destruct es as [|y es].
  - cbn [join_slash]. rewrite Forall_nil. naive_solver.
  - change (join_slash (x :: y :: es)) with (x ++ slash :: join_slash (y :: es))%list.
    rewrite existsb_app. cbn [existsb]. change (bad_char slash) with false. cbn [orb].
    rewrite orb_false_iff, IH. done.
Qed.

Lemma IsAbs_join es : Forall normal_elem es → IsAbs (join_slash es) = false.
Proof.
  intros [|x es' (Hx & _ & _ & Hs) _]; [done|]. destruct x as [|c x]; [done|].
  assert (c ≠ slash) by (intros ->; apply Hs; left).
  destruct es'; cbn; by apply Ascii.eqb_neq.
Qed.

Lemma join_nonempty es : es ≠ [] → Forall normal_elem es → join_slash es ≠ [].
Proof.
  destruct es as [|x es]; [done|]. intros _ [(Hx & _) _]%Forall_cons. destruct x; [done|].
  by destruct es.
Qed.

Lemma Clean_join es : es ≠ [] → Forall normal_elem es → Clean (join_slash es) = join_slash es.
Proof.
  intros Hne Hall. pose proof (join_nonempty es Hne Hall) as Hj.
  unfold Clean. rewrite (IsAbs_join _ Hall). destruct (join_slash es) as [|c l] eqn:E; [done|].
  rewrite <-E, split_join; [|done|eapply Forall_impl; [exact Hall|]; by intros ? (_ & _ & _ & ?)].
  rewrite clean_elems_normal by done. by destruct es.
Qed.

(** Cleaning a relative path leaves only leading [".."]s. *)
Lemma clean_elems_relative es :
  Forall (λ e, slash ∉ e) es →
  ∃ k ns, clean_elems false es = replicate k dotdot ++ ns ∧ Forall normal_elem ns.
Proof.
  intros Hes. unfold clean_elems.
  assert (∀ k ns, Forall normal_elem ns →
    ∃ k' ns', foldl (clean_step false) (ns ++ replicate k dotdot) es = ns' ++ replicate k' dotdot
      ∧ Forall normal_elem ns') as Hf.
  { induction Hes as [|e es He _ IH]; intros k ns Hns; [by exists k, ns|].
    cbn [foldl]. unfold clean_step at 2. repeat case_decide; [by apply IH|by apply IH| |].
    - subst e. destruct Hns as [|x ns Hx Hns]; cbn [app].
      + destruct k as [|k]; cbn [replicate]; [apply (IH 1%nat []); constructor|].
        rewrite decide_True by done. by apply (IH (S (S k)) []).
      + rewrite decide_False by (by destruct Hx as (_ & _ & ? & _)). by apply IH.
    - apply (IH k (e :: ns)). by constructor. }
  destruct (Hf 0%nat [] (Forall_nil_2 _)) as (k & ns & Heq & Hns). cbn in Heq. rewrite Heq.
  exists k, (rev ns). rewrite rev_app_distr. split; [|by apply Forall_rev]. f_equal.
  clear. induction k as [|k IH]; [done|]. cbn. rewrite IH.
  change [dotdot] with (replicate 1 dotdot). rewrite <-replicate_add. by rewrite Nat.add_1_r.
Qed.

Lemma has_prefix_app p l : has_prefix p (p ++ l) = true.
Proof. induction p as [|a p IH]; [done|]. cbn. by rewrite Ascii.eqb_refl. Qed.

Lemma has_prefix_true p l : has_prefix p l = true → ∃ k, l = p ++ k.
Proof.
  revert l. induction p as [|a p IH]; intros l; [by exists l|]. destruct l as [|b l]; [done|].
  cbn. intros [Ha%Ascii.eqb_eq (k & ->)%IH]%andb_true_iff. subst. by exists k.
Qed.

(** A path of ordinary elements does not begin with [".."]. *)
Lemma normal_not_up x es :
  normal_elem x → join_slash (x :: es) ≠ dotdot ∧ has_prefix up_slash (join_slash (x :: es)) = false.
Proof.
  intros (Hx & Hd & Hdd & Hs). split.
  - destruct es; [done|]. cbn. intros E.
    destruct x as [|a [|b x]]; [done| |]; cbn in E; [naive_solver|].
    injection E as -> -> E. by destruct x.
  - apply not_true_iff_false. intros (k & Hk)%has_prefix_true.
    assert (∀ l, x ++ l = up_slash ++ k → False) as Hno.
    { intros l. unfold up_slash. cbn. destruct x as [|a [|b [|c x]]]; [done| | |]; cbn; intros E.
      - by injection E as -> _.
      - by injection E as -> -> _.
      - injection E as -> -> -> _. apply Hs. set_solver. }
    destruct es as [|y es]; [apply (Hno []); by rewrite app_nil_r|].
    by apply (Hno (slash :: join_slash (y :: es))).
Qed.

Lemma SafeName_spec (name : string) :
  SafeName name = true ↔ ∃ es, chars_of name = join_slash es ∧ safe_path es.
Proof.
  unfold SafeName. split.
  - intros H. zbool.
    match goal with H : IsAbs _ = false |- _ => rename H into Habs end.
    match goal with H : existsb _ _ = false |- _ => rename H into Hbad end.
    match goal with H : Clean _ = _ |- _ => rename H into Hcl end.
    match goal with H : has_prefix _ _ = false |- _ => rename H into Hup end.
    assert (Forall (λ e, slash ∉ e) (split_slash (chars_of name))) as Hsl.
    { apply Forall_forall. intros e. apply split_slash_no_slash. }
    destruct (clean_elems_relative _ Hsl) as (k & ns & Heq & Hns).
    assert (Clean (chars_of name) = match (replicate k dotdot ++ ns)%list with [] => dot | out => join_slash out end) as Hc.
    { unfold Clean. rewrite Habs, Heq. destruct (chars_of name); [done|]. by destruct (replicate k dotdot ++ ns). }
    rewrite Hcl in Hc.
    destruct k as [|k].
    + cbn [replicate app] in Hc. destruct ns as [|x ns]; [congruence|]. exists (x :: ns).
      split; [done|]. split; [done|]. split; [done|]. apply bad_char_join. by rewrite <-Hc.
    + exfalso. cbn [replicate app] in Hc. destruct (replicate k dotdot ++ ns) as [|c l]; [done|].
      change (join_slash (dotdot :: c :: l)) with (dotdot ++ slash :: join_slash (c :: l))%list in Hc.
      by rewrite Hc in Hup.
  - intros (es & -> & Hne & Hall & Hbad). destruct es as [|x es]; [done|].
    pose proof (join_nonempty _ Hne Hall) as Hj. pose proof (Clean_join _ Hne Hall) as Hc.
    pose proof (IsAbs_join _ Hall) as Ha. apply bad_char_join in Hbad.
    apply Forall_cons in Hall as [Hx Hall]. destruct (normal_not_up x es Hx) as [Hdd Hup].
    assert (join_slash (x :: es) ≠ dot) as Hd.
    { destruct Hx as (? & ? & ? & ?). destruct es; [done|]. cbn. intros E.
      destruct x as [|a x]; [done|]. injection E as -> E. by destruct x. }
    rewrite !bool_decide_false by done. rewrite bool_decide_true by done.
    rewrite (bool_decide_false (_ = dotdot)) by done. by rewrite Hbad, Ha, Hup.
Qed.

(** ** Where [Resolve] leads *)

Lemma strip_common_spec a b a' b' :
  strip_common a b = (a', b') → ∃ c, a = c ++ a' ∧ b = c ++ b'.
Proof.
  revert b. induction a as [|x a IH]; intros b; cbn.
  { intros [= <- <-]. by exists []. }
  destruct b as [|y b]; [intros [= <- <-]; by exists []|]. case_decide as Hxy.
  - intros (c & -> & ->)%IH. subst. by exists (y :: c).
  - intros [= <- <-]. by exists [].
Qed.

Lemma strip_common_self a b : strip_common a (a ++ b) = ([], b).
Proof. induction a as [|x a IH]; [by destruct b|]. cbn. by rewrite decide_True. Qed.

(** [filepath.Rel] between clean absolute paths: below the base, or up. *)
Lemma Rel_abs_path rs ds rel :
  Forall normal_elem rs → Forall normal_elem ds → Rel (abs_path rs) (abs_path ds) = Some rel →
  rel ≠ dotdot → has_prefix up_slash rel = false →
  ∃ ps, ds = rs ++ ps ∧ (if decide (rel = dot) then ps = [] else ps ≠ [] ∧ split_slash rel = ps).
Proof.
  intros Hrs Hds. unfold Rel. rewrite !Clean_abs_path by done. case_decide as Heq.
  { intros [= <-] _ _. apply abs_path_inj in Heq; [|done|done]. exists []. rewrite app_nil_r.
    by rewrite decide_True. }
  cbn [IsAbs abs_path]. change (Bool.eqb _ _) with true. cbn [negb]. rewrite !elems_abs_path by done.
  destruct (strip_common rs ds) as [b t] eqn:Hs. pose proof Hs as (c & -> & ->)%strip_common_spec.
  destruct b as [|x b].
  - intros [= <-] Hdd Hup. rewrite app_nil_r in *. exists t. split; [done|].
    assert (t ≠ []) as Hne by (intros ->; by rewrite app_nil_r in Heq).
    apply Forall_app in Hds as [_ Ht]. rewrite decide_False.
    + split; [done|]. apply split_join; [done|]. eapply Forall_impl; [exact Ht|]. by intros ? (_ & _ & _ & ?).
    + destruct t as [|y t]; [done|]. apply Forall_cons in Ht as [Hy _]. destruct Hy as (? & ? & _ & _).
      destruct t; [done|]. cbn. intros E. destruct y as [|a y]; [done|]. injection E as -> E. by destruct y.
  - apply Forall_app in Hrs as [_ Hxb]. apply Forall_cons in Hxb as [(_ & _ & Hx & _) _].
    rewrite decide_False by done. cbn [length replicate app]. intros [= <-] Hdd Hup. exfalso.
    destruct (replicate (length b) dotdot ++ t) as [|y l]; [done|].
    change (join_slash (dotdot :: y :: l)) with (dotdot ++ slash :: join_slash (y :: l)) in Hup.
    done.
Qed.

Lemma elems_join ws x :
  Forall normal_elem ws → normal_elem x → Join (abs_path ws) x = abs_path (ws ++ [x]).
Proof.
  intros Hws Hx. assert (split_slash x = [x]) as Hs by (apply split_no_slash, Hx).
  rewrite Join_abs; [|done|rewrite Hs; by apply Forall_singleton].
  by rewrite Clean_abs_path, elems_abs_path, Hs by done.
Qed.

Lemma walk_parts_spec fs ws ps :
  fs_wf fs → Forall normal_elem ws → Forall normal_elem ps →
  walk_parts fs (abs_path ws) ps = Ok tt → no_links fs ws ps.
Proof.
  intros Hwf Hws Hps. revert ws Hws. induction Hps as [|x ps Hx Hps IH]; intros ws Hws Hw k Hk.
  { cbn in Hk. lia. }
  cbn [walk_parts] in Hw. rewrite elems_join in Hw by done.
  assert (Forall normal_elem (ws ++ [x])) as Hwx by (apply Forall_app; by rewrite Forall_singleton).
  rewrite elems_abs_path in Hw by done.
  assert (not_link fs (ws ++ [x]) ∧ walk_parts fs (abs_path (ws ++ [x])) ps = Ok tt) as [Hl Hrest].
  { unfold not_link. destruct (node_at fs (ws ++ [x])) as [n|] eqn:Hn.
    - destruct (Lstat_node _ _ _ Hwf Hwx Hn) as [E|E]; rewrite E in Hw; [|done]. by destruct n.
    - split; [done|]. by destruct (Lstat fs (ws ++ [x])) as [[]| |]. }
  destruct k as [|k]; [lia|]. destruct k as [|k]; [done|].
  specialize (IH _ Hwx Hrest (S k)). rewrite <-app_assoc in IH. apply IH. cbn in Hk. lia.
Qed.

(** The root a destination is resolved against. *)
Definition root_of (root : chars) : chars := match root with [] => [slash] | _ => root end.

Definition real_root (cwd : chars) (fs : FS) (root : chars) : option path :=
  EvalSymlinks fs (elems_of (Abs cwd (root_of root))).

Lemma elems_of_no_slash p : Forall (λ e, slash ∉ e) (elems_of p).
Proof.
  unfold elems_of. case_decide; [constructor|]. apply Forall_forall. intros e.
  rewrite list_elem_of_filter. intros [_ He]. by eapply split_slash_no_slash.
Qed.

Lemma real_root_spec cwd fs root rs :
  real_root cwd fs root = Some rs → dirs_to fs rs ∧ not_link fs rs ∧ Forall normal_elem rs.
Proof.
  unfold real_root, EvalSymlinks. destruct (namei _ _ _ _) as [q| |] eqn:Hw; try done.
  intros [= <-]. eapply namei_real; [| | | |exact Hw]; [intros k Hk; cbn in Hk; lia|done|constructor|].
  apply elems_of_no_slash.
Qed.

Lemma Resolve_eq cwd fs root dir :
  Resolve cwd fs root dir =
    match real_root cwd fs root with
    | None => Err ErrRoot
    | Some real =>
        let dir := match root with [] => Abs cwd dir | _ => dir end in
        let dir := match dir with [] => abs_path real | _ => dir end in
        let dir := Clean (if IsAbs dir then dir else Join (abs_path real) dir) in
        match Rel (abs_path real) dir with
        | None => Err ErrOutside
        | Some rel =>
            if bool_decide (rel = dotdot) || has_prefix up_slash rel then Err ErrOutside else
            if bool_decide (rel = dot) then Ok dir else
            match walk_parts fs (abs_path real) (split_slash rel) with
            | Ok _ => Ok dir
            | Err e => Err e
            end
        end
    end.
Proof. unfold Resolve, real_root, root_of. by destruct root. Qed.

(** What [Resolve] returns lies below the real root, with no link on the way. *)
Lemma Resolve_spec cwd fs root dir d :
  fs_wf fs → Resolve cwd fs root dir = Ok d →
  ∃ rs ps, real_root cwd fs root = Some rs ∧ d = abs_path (rs ++ ps) ∧
    Forall normal_elem (rs ++ ps) ∧ no_links fs rs ps.
Proof.
  intros Hwf. rewrite Resolve_eq. destruct (real_root cwd fs root) as [rs|] eqn:Hr; [|done].
  destruct (real_root_spec _ _ _ _ Hr) as (_ & _ & Hrs). cbv zeta.
  set (dir' := match match root with [] => Abs cwd dir | _ => dir end with
               | [] => abs_path rs | _ => _ end).
  set (dir2 := if IsAbs dir' then dir' else Join (abs_path rs) dir').
  assert (IsAbs dir2 = true) as Habs.
  { unfold dir2. destruct (IsAbs dir') eqn:E; [done|]. unfold Join.
    cbn [abs_path]. unfold Clean. cbn [app IsAbs]. by destruct (clean_elems _ _). }
  destruct (Clean_abs _ Habs) as (ds & -> & Hds).
  destruct (Rel (abs_path rs) (abs_path ds)) as [rel|] eqn:Hrel; [|done].
  destruct (bool_decide (rel = dotdot) || has_prefix up_slash rel) eqn:Hup; [done|]. zbool.
  destruct (Rel_abs_path _ _ _ Hrs Hds Hrel) as (ps & -> & Hps); [done|done|].
  destruct (decide (rel = dot)) as [->|Hne].
  - rewrite bool_decide_true by done. intros [= <-]. exists rs, ps. subst ps.
    split_and!; try done. intros k Hk. cbn in Hk. lia.
  - rewrite bool_decide_false by done. destruct Hps as [_ ->].
    destruct (walk_parts fs (abs_path rs) ps) as [[]|] eqn:Hw; [|done]. intros [= <-].
    exists rs, ps. split_and!; try done. eapply walk_parts_spec; try done.
    by apply Forall_app in Hds as [_ ?].
Qed.

Lemma no_links_root fs rs ps :
  dirs_to fs rs → not_link fs rs → no_links fs rs ps → no_links fs [] (rs ++ ps).
Proof.
  intros Hd Hn Hl k Hk. rewrite length_app in Hk. cbn [app].
  destruct (decide (k < length rs)%nat).
  - rewrite take_app_le by lia. unfold not_link, dirs_to, is_dir in *. by rewrite Hd.
  - destruct (decide (k = length rs)) as [->|]; [by rewrite take_app_length|].
    rewrite take_app_ge by lia. apply Hl. lia.
Qed.

(** ** Manifests *)

Definition name_elems (n : string) : path := split_slash (chars_of n).

(** [f]'s path is a proper beginning of [e]'s. *)
Definition ancestor (f e : string) : Prop := ∃ x, x ≠ [] ∧ name_elems e = name_elems f ++ x.

Definition total_size (entries : list Entry) : Z := foldr (λ e t, e_Size e + t) 0 entries.

Definition entry_ok (e : Entry) : Prop :=
  SafeName (e_Name e) = true ∧ 0 ≤ e_Size e ∧ (e_Dir e = true → e_Size e = 0).

(** A manifest: names that are safe and distinct, sizes within bounds, and no file
    where another entry needs a directory. *)
Record entries_ok (entries : list Entry) : Prop := {
  eo_some : entries ≠ [];
  eo_max : zlen entries ≤ MaxEntries;
  eo_each : Forall entry_ok entries;
  eo_distinct : NoDup (e_Name <$> entries);
  eo_total : total_size entries ≤ PiB;
  eo_tree e f : e ∈ entries → f ∈ entries → ancestor (e_Name f) (e_Name e) → e_Dir f = true;
}.

Lemma total_size_nonneg entries : Forall entry_ok entries → 0 ≤ total_size entries.
Proof. induction 1 as [|e l (_ & H & _) _ IH]; unfold total_size in *; cbn; lia. Qed.

Definition add_entries (entries : list Entry) (seen : gmap string Entry) : gmap string Entry :=
  foldl (λ m e, <[e_Name e := e]> m) seen entries.

Lemma scan_entries_spec entries seen total seen' :
  0 ≤ total ≤ PiB →
  (scan_entries entries seen total = Ok seen' ↔
   Forall entry_ok entries ∧ NoDup (e_Name <$> entries) ∧
   (∀ e, e ∈ entries → seen !! e_Name e = None) ∧
   total + total_size entries ≤ PiB ∧ seen' = add_entries entries seen).
Proof.
  assert (PiB = 2 ^ 50) as HP by reflexivity.
  revert seen total. induction entries as [|e rest IH]; intros seen total Ht; cbn [scan_entries].
  { cbn. split; [intros [= <-]|intros (_ & _ & _ & _ & ->)]; [|done].
    repeat split; try constructor; try lia. intros e He. by apply not_elem_of_nil in He. }
  destruct (negb (SafeName (e_Name e)) || _ || _ || _ || _) eqn:Hg.
  - split; [done|]. intros (Hall & Hnd & Hs & Htot & _). exfalso.
    apply Forall_cons in Hall as [(H1 & H2 & H3) Hall]. pose proof (total_size_nonneg _ Hall).
    unfold total_size in *. cbn in Htot. rewrite H1, (proj2 (Z.ltb_ge _ _)), (proj2 (Z.ltb_ge _ _)) in Hg by lia.
    rewrite bool_decide_false in Hg by (rewrite Hs by left; by intros [? ?]). cbn in Hg.
    destruct (e_Dir e); [|done]. cbn in Hg. by rewrite H3 in Hg.
  - zbool. rewrite int64_id by zlia.
    match goal with H : ¬ is_Some _ |- _ => apply eq_None_not_Some in H; rename H into Hnone end.
    assert (entry_ok e) as He.
    { split; [done|]. split; [lia|]. intros Hd. rewrite Hd in *. cbn in *. zbool. lia. }
    destruct (Z.ltb_spec PiB (total + e_Size e)) as [Hbig|Hbig].
    + split; [done|]. intros (Hall & _ & _ & Htot & _). exfalso. apply Forall_cons in Hall as [_ Hall].
      pose proof (total_size_nonneg _ Hall). unfold total_size in *. cbn in Htot. lia.
    + rewrite IH by lia. cbn [fmap list_fmap total_size foldr add_entries foldl].
      rewrite Forall_cons, NoDup_cons, list_elem_of_fmap.
      split.
      * intros (Hall & Hnd & Hs & Htot & ->). split_and!; try done; [| |].
        -- intros (f & Hf & Hin). specialize (Hs f Hin). rewrite Hf, lookup_insert_eq in Hs. done.
        -- intros f [->|Hin]%elem_of_cons; [done|]. specialize (Hs f Hin).
           by apply lookup_insert_None in Hs as [? _].
        -- unfold total_size in Htot. lia.
      * intros ((_ & Hall) & (Hni & Hnd) & Hs & Htot & ->). split_and!; try done.
        -- intros f Hin. apply lookup_insert_None. split; [apply Hs; by right|].
           intros Heq. apply Hni. by exists f.
        -- unfold total_size. lia.
Qed.

Lemma add_entries_lookup entries seen n :
  add_entries entries seen !! n =
    match List.find (λ e, String.eqb (e_Name e) n) (rev entries) with
    | Some e => Some e | None => seen !! n end.
Proof.
  unfold add_entries. induction entries as [|e l IH] using rev_ind; [done|].
  rewrite foldl_app, rev_app_distr. cbn. destruct (String.eqb_spec (e_Name e) n) as [<-|Hne].
  - apply lookup_insert_eq.
  - by rewrite lookup_insert_ne.
Qed.

(** With distinct names the table finds each entry under its name. *)
Lemma seen_lookup entries n e :
  NoDup (e_Name <$> entries) → (add_entries entries ∅ !! n = Some e ↔ e ∈ entries ∧ e_Name e = n).
Proof.
  intros Hnd. rewrite add_entries_lookup, lookup_empty. split.
  - destruct (List.find _ _) as [f|] eqn:Hf; [|done]. intros [= <-].
    apply List.find_some in Hf as [Hin Hn]. apply String.eqb_eq in Hn.
    split; [|done]. by apply in_rev, list_elem_of_In in Hin.
  - intros [Hin Hn]. destruct (List.find _ _) as [f|] eqn:Hf.
    + apply List.find_some in Hf as [Hin' Hn']. apply String.eqb_eq in Hn'. f_equal.
      apply (NoDup_fmap_elem e_Name entries); [done| |done|congruence].
      by apply in_rev, list_elem_of_In in Hin'.
    + exfalso. eapply List.find_none in Hf; [|rewrite <-in_rev; by apply list_elem_of_In].
      rewrite Hn, String.eqb_refl in Hf. done.
Qed.

(** A relative name's directory; ["."] for a single element. *)
Definition rel_name (es : path) : chars := match es with [] => dot | _ => join_slash es end.

Lemma Clean_relative p :
  IsAbs p = false → Clean p = rel_name (clean_elems false (split_slash p)).
Proof.
  intros Ha. unfold Clean, rel_name. rewrite Ha. destruct p; [done|]. by destruct (clean_elems _ _).
Qed.

Lemma Dir_rel_name es x :
  Forall normal_elem es → normal_elem x → Dir (join_slash (es ++ [x])) = rel_name es.
Proof.
  intros Hes Hx. pose proof Hx as (_ & _ & _ & Hs). destruct (decide (es = [])) as [->|Hne].
  - cbn. unfold Dir. destruct (last_index slash x) eqn:E; [|done]. exfalso.
    revert E. rewrite <-(app_nil_r x). intros E. clear -Hs E.
    rewrite app_nil_r in E. revert n E. induction x as [|c x IH]; [done|].
    apply not_elem_of_cons in Hs as [Hc Hs]. cbn. intros n.
    destruct (last_index slash x) as [i|] eqn:El; [by destruct (IH Hs i)|].
    destruct (Ascii.eqb_spec c slash); [by subst|done].
  - rewrite join_snoc by done. unfold Dir. rewrite last_slash by done.
    rewrite take_app_ge by lia.
    replace (S (length (join_slash es)) - length (join_slash es))%nat with 1%nat by lia. cbn [take].
    assert (IsAbs (join_slash es ++ [slash]) = false) as Habs.
    { pose proof (IsAbs_join _ Hes) as Ha. pose proof (join_nonempty _ Hne Hes).
      by destruct (join_slash es). }
    assert (clean_elems false (split_slash (join_slash es ++ [slash])) = es) as Hcl.
    { rewrite split_app, split_join; [|done|eapply Forall_impl; [exact Hes|]; by intros ? (_ & _ & _ & ?)].
      unfold clean_elems. rewrite foldl_app, (foldl_clean_normal _ _ es) by done. cbn.
      rewrite app_nil_r. apply rev_involutive. }
    rewrite take_0, Clean_relative by done. by rewrite Hcl.
Qed.

Lemma rel_name_dot es : Forall normal_elem es → rel_name es = dot → es = [].
Proof.
  intros Hes Hd. destruct es as [|x es]; [done|]. exfalso. cbn [rel_name] in Hd.
  apply Forall_cons in Hes as [(Hx & Hxd & _) _]. destruct es; [done|]. cbn in Hd.
  destruct x as [|a x]; [done|]. injection Hd as -> Hd. by destruct x.
Qed.

Lemma check_parents_spec fuel seen es :
  Forall normal_elem es → (length es < fuel)%nat →
  (check_parents fuel seen (rel_name es) = Ok tt ↔
   ∀ k p, (0 < k ≤ length es)%nat → seen !! string_of (join_slash (take k es)) = Some p →
     e_Dir p = true).
Proof.
  revert fuel. induction es as [|x es IH] using rev_ind; intros fuel Hes Hf.
  { destruct fuel as [|fuel]; [lia|]. cbn [check_parents rel_name].
    rewrite bool_decide_true by done. split; [|done]. intros _ k p Hk. cbn in Hk. lia. }
  destruct fuel as [|fuel]; [lia|]. rewrite length_app in Hf. cbn in Hf. cbn [check_parents].
  assert (rel_name (es ++ [x]) = join_slash (es ++ [x])) as Hr by by destruct es.
  rewrite bool_decide_false.
  2:{ intros Hd%rel_name_dot; [by destruct es|done]. }
  apply Forall_app in Hes as [Hes Hx]. apply Forall_cons in Hx as [Hx _].
  rewrite Hr, Dir_rel_name by done.
  assert (∀ k, (0 < k ≤ length (es ++ [x]))%nat → take k (es ++ [x]) = es ++ [x] ∨
    (0 < k ≤ length es)%nat ∧ take k (es ++ [x]) = take k es) as Htake.
  { intros k Hk. rewrite length_app in Hk. cbn in Hk. destruct (decide (k = length es + 1)%nat) as [->|].
    - left. rewrite take_ge; [done|]. rewrite length_app. cbn. lia.
    - right. split; [lia|]. rewrite take_app_le by lia. done. }
  assert (∀ k, (0 < k ≤ length es)%nat → (0 < k ≤ length (es ++ [x]))%nat ∧ take k (es ++ [x]) = take k es)
    as Htake'.
  { intros k Hk. rewrite length_app, take_app_le by lia. cbn. split; [lia|done]. }
  assert (take (length (es ++ [x])) (es ++ [x]) = es ++ [x]) as Hall by apply firstn_all.
  assert (0 < length (es ++ [x]) ≤ length (es ++ [x]))%nat as Hlast by (rewrite length_app; cbn; lia).
  destruct (seen !! string_of (join_slash (es ++ [x]))) as [p|] eqn:Hp.
  - destruct (e_Dir p) eqn:Hd; cbn [negb].
    + rewrite IH by (done || lia). split.
      * intros Hk k q Hkk Hq. destruct (Htake k Hkk) as [E|[Hk' E]]; rewrite E in Hq; [congruence|].
        by eapply Hk.
      * intros Hk k q Hkk Hq. destruct (Htake' k Hkk) as [Hk' E]. eapply (Hk k); [done|by rewrite E].
    + split; [done|]. intros Hk. specialize (Hk _ p Hlast). rewrite Hall in Hk.
      specialize (Hk Hp). congruence.
  - rewrite IH by (done || lia). split.
    + intros Hk k q Hkk Hq. destruct (Htake k Hkk) as [E|[Hk' E]]; rewrite E in Hq; [congruence|].
      by eapply Hk.
    + intros Hk k q Hkk Hq. destruct (Htake' k Hkk) as [Hk' E]. eapply (Hk k); [done|by rewrite E].
Qed.

Lemma join_length es : Forall normal_elem es → (length es ≤ length (join_slash es))%nat.
Proof.
  induction 1 as [|x es (Hx & _) Hes IH]; [done|]. destruct es as [|y es].
  - destruct x; [done|]. cbn. lia.
  - change (join_slash (x :: y :: es)) with (x ++ slash :: join_slash (y :: es)).
    rewrite length_app. cbn [length] in *. destruct x; [done|]. cbn [length]. lia.
Qed.

Lemma normal_no_slash es : Forall normal_elem es → Forall (λ e, slash ∉ e) es.
Proof. intros H. eapply Forall_impl; [exact H|]. by intros ? (_ & _ & _ & ?). Qed.

Lemma safe_elems n : SafeName n = true → safe_path (name_elems n) ∧ chars_of n = join_slash (name_elems n).
Proof.
  intros (es & Hn & Hne & Hall & Hb)%SafeName_spec. unfold name_elems. rewrite join_split.
  rewrite Hn, split_join by (done || by apply normal_no_slash). done.
Qed.

Lemma name_of_elems n : string_of (join_slash (name_elems n)) = n.
Proof. unfold name_elems. by rewrite join_split, string_of_chars. Qed.

(** The check of one entry's parents. *)
Lemma check_entry_spec entries e :
  NoDup (e_Name <$> entries) → SafeName (e_Name e) = true →
  let n := chars_of (e_Name e) in
  check_parents (S (length n)) (add_entries entries ∅) (Dir n) = Ok tt ↔
  ∀ f, f ∈ entries → ancestor (e_Name f) (e_Name e) → e_Dir f = true.
Proof.
  intros Hnd Hsafe. destruct (safe_elems _ Hsafe) as ((Hne & Hall & _) & Hn). cbv zeta. rewrite Hn.
  unfold ancestor. set (es := name_elems (e_Name e)) in *. clearbody es. clear Hn Hsafe.
  destruct es as [|x es _] using rev_ind; [done|]. pose proof (join_length _ Hall) as Hlen.
  rewrite length_app in Hlen. cbn in Hlen.
  apply Forall_app in Hall as [Hes Hx]. apply Forall_cons in Hx as [Hx _].
  rewrite Dir_rel_name, check_parents_spec by (done || lia). split.
  - intros Hk f Hf (t & Ht & Heq).
    assert (name_elems (e_Name f) ≠ []) as Hfe by apply split_slash_nonempty.
    destruct t as [|y t _] using rev_ind; [done|]. rewrite app_assoc in Heq.
    apply app_inj_tail in Heq as [-> _].
    apply (Hk (length (name_elems (e_Name f))) f).
    + rewrite length_app. destruct (name_elems (e_Name f)); [done|]. cbn. lia.
    + rewrite take_app_length, name_of_elems. by apply seen_lookup.
  - intros Hf k p Hk Hp. apply seen_lookup in Hp as [Hin Hname]; [|done].
    apply (Hf p Hin). exists (drop k es ++ [x]). split; [by destruct (drop k es)|].
    unfold name_elems. rewrite Hname, chars_of_string, split_join.
    + by rewrite app_assoc, take_drop.
    + destruct es; [cbn in Hk; lia|]. destruct k; [lia|done].
    + by apply normal_no_slash, Forall_take.
Qed.

Lemma check_conflicts_spec entries rest :
  NoDup (e_Name <$> entries) → Forall (λ e, SafeName (e_Name e) = true) rest →
  (check_conflicts (add_entries entries ∅) rest = Ok tt ↔
   ∀ e f, e ∈ rest → f ∈ entries → ancestor (e_Name f) (e_Name e) → e_Dir f = true).
Proof.
  intros Hnd Hs. induction Hs as [|e rest He Hs IH]; cbn [check_conflicts].
  { split; [|done]. intros _ e f H. by apply not_elem_of_nil in H. }
  pose proof (check_entry_spec entries e Hnd He) as Hc. cbv zeta in Hc.
  destruct (check_parents _ _ _) as [[]|x].
  - rewrite IH. split.
    + intros Hall e' f [->|Hin]%elem_of_cons Hf; [by apply Hc|by apply Hall].
    + intros Hall e' f Hin. apply Hall. by right.
  - split; [done|]. intros Hall. assert (@Err t_error unit x = Ok tt) as [=].
    apply Hc. intros f. apply Hall. by left.
Qed.

Lemma ValidateEntries_ok entries : ValidateEntries entries = Ok tt ↔ entries_ok entries.
Proof.
  unfold ValidateEntries. destruct ((zlen entries =? 0) || (MaxEntries <? zlen entries)) eqn:Hg.
  { split; [done|]. intros [Hne Hmax _ _ _ _]. exfalso. apply orb_true_iff in Hg as [Hg|Hg]; zbool; [|lia].
    destruct entries; [done|]. unfold zlen in Hg. cbn in Hg. lia. }
  zbool. assert (0 ≤ 0 ≤ PiB) as Hz by done.
  destruct (scan_entries entries ∅ 0) as [seen|x] eqn:Hs.
  - apply scan_entries_spec in Hs as (Hall & Hnd & _ & Htot & ->); [|done].
    rewrite check_conflicts_spec; [|done|eapply Forall_impl; [exact Hall|]; by intros ? [? _]].
    split; [|by intros []]. intros Ht. split; try done. by intros ->.
  - split; [done|]. intros [Hne Hmax Hall Hnd Htot _]. exfalso.
    assert (scan_entries entries ∅ 0 = Ok (add_entries entries ∅)) as Hok; [|congruence].
    apply scan_entries_spec; [done|]. split_and!; try done.
Qed.

(** ** Properties *)

(** C35. [ValidateEntries] accepts exactly the manifests that describe a tree: at
    least one and at most [MaxEntries] entries, with safe and distinct names, sizes
    that are not negative, nothing in a directory entry, at most 1 PiB in all
    (without overflow on the way), and every entry that another lies under is a
    directory. *)
Theorem ValidateEntries_correct (entries : list Entry) :
  ValidateEntries entries = Ok tt ↔ entries_ok entries.
Proof. apply ValidateEntries_ok. Qed.

(** A destination cannot escape. Whatever root and directory the receiver is
    asked for, what [Resolve] accepts is the real root followed by ordinary elements,
    none of them a symbolic link: following the path as the system does, links and
    [".."] included, ends exactly there, inside the root. *)
Theorem Resolve_confined (cwd : chars) (fs : FS) (root dir d : chars) :
  fs_wf fs → Resolve cwd fs root dir = Ok d →
  ∃ rs ps, real_root cwd fs root = Some rs ∧ d = abs_path (rs ++ ps) ∧
    Forall normal_elem ps ∧
    (∀ k, (0 < k ≤ length ps)%nat → not_link fs (rs ++ take k ps)) ∧
    ∀ q, namei max_links fs [] (rs ++ ps) = At q → q = rs ++ ps.
Proof.
  intros Hwf Hd. destruct (Resolve_spec _ _ _ _ _ Hwf Hd) as (rs & ps & Hr & -> & Hn & Hl).
  destruct (real_root_spec _ _ _ _ Hr) as (Hrd & Hrl & _). exists rs, ps.
  split_and!; try done; [by apply Forall_app in Hn as [_ ?]|].
  intros q Hq. by apply (namei_no_links _ _ _ _ _ Hn) in Hq; [|by apply no_links_root].
Qed.

(** A tree with a link that leads out of the root. *)
Definition demo_fs : FS :=
  mkFS (list_to_map [([chars_of "srv"], NDir); ([chars_of "srv"; chars_of "in"], NDir);
                     ([chars_of "srv"; chars_of "out"], NLink (chars_of "/etc")); ([chars_of "etc"], NDir);
                     ([chars_of "srv"; chars_of "in"; chars_of "old"], NFile [] 420 true)])
    (λ _, false).

Lemma demo_fs_wf : fs_wf demo_fs.
Proof. apply fs_wfb_wf. vm_compute. reflexivity. Qed.

Example Resolve_examples :
  let r root dir := Resolve (chars_of "/srv") demo_fs (chars_of root) (chars_of dir) in
  r "/srv" "in/new" = Ok (chars_of "/srv/in/new") ∧ r "" "in" = Ok (chars_of "/srv/in") ∧
  r "." "" = Ok (chars_of "/srv") ∧ r "/srv" "../etc" = Err ErrOutside ∧
  r "/srv" "/etc" = Err ErrOutside ∧ r "/srv" "in/../out/x" = Err (ErrSymlink (chars_of "/srv/out")) ∧
  r "/nowhere" "x" = Err ErrRoot.
Proof. vm_compute. split_and!; reflexivity. Qed.

Lemma Resolve_confined_witness :
  ∃ rs ps, real_root (chars_of "/srv") demo_fs (chars_of "/srv") = Some rs ∧
    chars_of "/srv/in/new" = abs_path (rs ++ ps) ∧ Forall normal_elem ps ∧
    (∀ k, (0 < k ≤ length ps)%nat → not_link demo_fs (rs ++ take k ps)%list) ∧
    ∀ q, namei max_links demo_fs [] (rs ++ ps) = At q → q = (rs ++ ps)%list.
Proof.
  apply (Resolve_confined (chars_of "/srv") demo_fs (chars_of "/srv") (chars_of "in/new")).
  - apply demo_fs_wf.
  - vm_compute. reflexivity.
Defined.
