(* ===== verification/Extraction.v ===== *)
(** * What an extraction does to the file system

    The effect of [Extract] (file Transfer): it changes nothing outside the root it
    was given, it never replaces anything unless it may overwrite, and when it
    succeeds the destination holds exactly the manifest. *)

From S2P Require Import Prelude Text Paths FileSys Transfer.
Local Open Scope list_scope.
Local Open Scope Z_scope.

(** ** Temporary files *)

(** A directory below which nothing is a link. *)
Record real_dir (fs : FS) (d : path) : Prop := {
  rd_wf : fs_wf fs;
  rd_normal : Forall normal_elem d;
  rd_links : no_links fs [] d;
}.

Lemma real_dir_evolves A fs fs' d : evolves A fs fs' → real_dir fs d → real_dir fs' d.
Proof. intros He []. split; [by destruct He|done|by eapply evolves_no_links]. Qed.

Lemma place_in fs d x q :
  real_dir fs d → place fs (d ++ [x]) = Some q → q = d ++ [x] ∧ is_dir fs d.
Proof.
  intros [_ Hn Hl] Hp. apply place_no_links in Hp; rewrite parent_of_snoc in *; [|done|done].
  by destruct Hp as (-> & _ & ?).
Qed.

Lemma place_stable A fs fs' d x q :
  real_dir fs d → evolves A fs fs' → place fs (d ++ [x]) = Some q → place fs' (d ++ [x]) = Some q.
Proof.
  intros Hr He Hp. pose proof (place_in _ _ _ _ Hr Hp) as [-> Hd]. destruct Hr as [_ Hn Hl].
  unfold place in *. destruct (d ++ [x]) as [|y l] eqn:E; [by destruct d|]. rewrite <-E in *.
  rewrite parent_of_snoc in *. destruct (namei max_links fs [] d) as [r| |] eqn:Hw; try done.
  pose proof Hw as Hw'. apply namei_no_links in Hw'; [|done|done]. cbn in Hw'. subst r.
  rewrite (namei_stable _ _ _ _ _ _ _ He Hw Hd). pose proof (evolves_is_dir _ _ _ _ He Hd) as Hd'.
  unfold is_dir in Hd, Hd'. rewrite Hd in Hp. rewrite Hd'. destruct He as [_ -> _]. done.
Qed.

(** The same tree but for a file at [t]. *)
Definition only_file (fs : FS) (t : path) (d : bytes) (m : Z) (fs' : FS) : Prop :=
  denied fs' = denied fs ∧ fs_wf fs' ∧
  ∀ p, node_at fs' p = if decide (p = t) then Some (NFile d m true) else node_at fs p.

Lemma only_file_set fs d x data mode :
  fs_wf fs → is_dir fs d → soft (node_at fs (d ++ [x])) →
  only_file fs (d ++ [x]) data mode (set_node (d ++ [x]) (NFile data mode true) fs).
Proof.
  intros Hwf Hd Hs. assert (d ++ [x] ≠ []) as Hne by by destruct d.
  split; [done|]. split; [|intros p; by apply node_at_set].
  apply fs_wf_set; [done|done|by rewrite parent_of_snoc|]. right. intros E. by rewrite E in Hs.
Qed.

Lemma CreateTemp_spec fs d x tmp fs' :
  real_dir fs d → CreateTemp fs d x = Some (tmp, fs') →
  tmp = d ++ [x] ∧ place fs tmp = Some tmp ∧ is_dir fs d ∧ node_at fs tmp = None ∧
  only_file fs tmp [] 0x180 fs'.
Proof.
  intros Hr Hc. unfold CreateTemp in Hc. destruct (place fs (d ++ [x])) as [q|] eqn:Hp; [|done].
  cbn in Hc. pose proof (place_in _ _ _ _ Hr Hp) as [-> Hd].
  destruct (node_at fs (d ++ [x])) eqn:Hn; [done|]. injection Hc as <- <-.
  split_and!; try done. apply only_file_set; [apply Hr|done|by rewrite Hn].
Qed.

Lemma only_file_evolves (A : path → Prop) fs t d m fs' :
  A t → soft (node_at fs t) → only_file fs t d m fs' → evolves A fs fs'.
Proof.
  intros HA Hs (D & W & N). split; [done|done|]. intros p. rewrite N. case_decide as Hp; [|by left].
  right. by subst.
Qed.

Lemma only_file_again fs t d m fs1 d' m' fs2 :
  only_file fs t d m fs1 → only_file fs1 t d' m' fs2 → only_file fs t d' m' fs2.
Proof.
  intros (D1 & W1 & N1) (D2 & W2 & N2). split; [congruence|]. split; [done|]. intros p.
  rewrite N2. case_decide; [done|]. by rewrite N1, decide_False.
Qed.

Lemma write_file_spec fs dir x fs1 d m data mode :
  real_dir fs dir → place fs (dir ++ [x]) = Some (dir ++ [x]) → node_at fs (dir ++ [x]) = None →
  only_file fs (dir ++ [x]) d m fs1 →
  only_file fs (dir ++ [x]) data mode (write_file fs1 (dir ++ [x]) data mode).
Proof.
  intros Hr Hp Hn Ho. pose proof (place_in _ _ _ _ Hr Hp) as [_ Hd].
  assert (evolves (λ _, True) fs fs1) as He by (eapply only_file_evolves; [done|by rewrite Hn|exact Ho]).
  unfold write_file. rewrite (place_stable _ _ _ _ _ _ Hr He Hp).
  eapply only_file_again; [exact Ho|]. destruct Ho as (_ & W & N).
  apply only_file_set; [done|by eapply evolves_is_dir|]. by rewrite N, decide_True.
Qed.

(** The same nodes. *)
Definition same_nodes (fs fs' : FS) : Prop :=
  denied fs' = denied fs ∧ fs_wf fs' ∧ ∀ p, node_at fs' p = node_at fs p.

Lemma Remove_spec fs dir x fs1 d m :
  real_dir fs dir → place fs (dir ++ [x]) = Some (dir ++ [x]) → node_at fs (dir ++ [x]) = None →
  only_file fs (dir ++ [x]) d m fs1 → same_nodes fs (Remove fs1 (dir ++ [x])).
Proof.
  intros Hr Hp Hn Ho. assert (dir ++ [x] ≠ []) as Hne by by destruct dir.
  assert (evolves (λ _, True) fs fs1) as He by (eapply only_file_evolves; [done|by rewrite Hn|exact Ho]).
  unfold Remove. rewrite (place_stable _ _ _ _ _ _ Hr He Hp). destruct Ho as (D & W & N).
  rewrite N, decide_True by done. split; [done|]. split.
  - apply fs_wf_del; [done|done|]. by rewrite N, decide_True.
  - intros p. rewrite node_at_del by done. case_decide as E; [by subst|]. by rewrite N, decide_False.
Qed.

(** A rename over anything but a directory. *)
Lemma Rename_spec fs dir x y fs1 d m fs2 :
  real_dir fs dir → place fs (dir ++ [x]) = Some (dir ++ [x]) → node_at fs (dir ++ [x]) = None →
  only_file fs (dir ++ [x]) d m fs1 → not_link fs (dir ++ [y]) →
  Rename fs1 (dir ++ [x]) (dir ++ [y]) = Some fs2 →
  soft (node_at fs (dir ++ [y])) ∧ only_file fs (dir ++ [y]) d m fs2.
Proof.
  intros Hr Hp Hn Ho Hl Hren. assert (dir ++ [x] ≠ []) as Hnx by by destruct dir.
  assert (dir ++ [y] ≠ []) as Hny by by destruct dir.
  assert (evolves (λ _, True) fs fs1) as He by (eapply only_file_evolves; [done|by rewrite Hn|exact Ho]).
  pose proof (place_in _ _ _ _ Hr Hp) as [_ Hd]. pose proof (real_dir_evolves _ _ _ _ He Hr) as Hr1.
  unfold Rename in Hren. rewrite (place_stable _ _ _ _ _ _ Hr He Hp) in Hren. cbn in Hren.
  destruct (place fs1 (dir ++ [y])) as [q|] eqn:Hq; [|done]. cbn in Hren.
  apply (place_in _ _ _ _ Hr1) in Hq as [-> Hd1]. destruct Ho as (D & W & N).
  rewrite N, decide_True in Hren by done.
  assert (soft (node_at fs (dir ++ [y])) ∧ node_at fs1 (dir ++ [y]) ≠ Some NDir ∧
    fs2 = set_node (dir ++ [y]) (NFile d m true) (del_node (dir ++ [x]) fs1)) as (Hs & Hnd & ->).
  { rewrite N in Hren |- *. unfold not_link in Hl. case_decide as E.
    - split; [by rewrite E, Hn|]. split; [done|]. by injection Hren as <-.
    - unfold soft. destruct (node_at fs (dir ++ [y])) as [[]|]; try done;
        split; try done; split; try done; by injection Hren as <-. }
  split; [done|]. split; [done|]. split.
  - apply fs_wf_set; [|done| |].
    + apply fs_wf_del; [done|done|]. by rewrite N, decide_True.
    + rewrite parent_of_snoc. unfold is_dir. rewrite node_at_del by done. rewrite decide_False; [done|].
      intros E. apply (f_equal length) in E. rewrite length_app in E. cbn in E. lia.
    + right. rewrite node_at_del by done. by case_decide.
  - intros p. rewrite node_at_set, node_at_del by done. repeat case_decide; subst; try done.
    by rewrite N, decide_False.
Qed.

(** ** One entry *)

Definition below (rs p : path) : Prop := ∃ x, x ≠ [] ∧ p = rs ++ x.

(** Everything that was there is there unchanged, unless it is the destination [P] and
    may be overwritten. *)
Definition keeps (P : path) (overwrite : bool) (fs fs' : FS) : Prop :=
  ∀ p n, node_at fs p = Some n → node_at fs' p = Some n ∨ (p = P ∧ overwrite = true).

(** The bytes of an entry's file: what the copy took from the archive. *)
Definition body (h : tar_entry) : bytes := (CopyContext (x_last_done h) (x_reads h) 0 []).2.
Definition copied (h : tar_entry) : Prop :=
  (CopyContext (x_last_done h) (x_reads h) 0 []).1.2 = None.

(** The place of an entry, as [Resolve] has it. *)
Record resolved (fs : FS) (rs ps : path) : Prop := {
  rv_wf : fs_wf fs;
  rv_root : dirs_to fs rs;
  rv_dir : is_dir fs rs;
  rv_normal : Forall normal_elem (rs ++ ps);
  rv_links : no_links fs rs ps;
}.

Lemma resolved_links fs rs ps : resolved fs rs ps → no_links fs [] (rs ++ ps).
Proof.
  intros []. apply no_links_root; try done. unfold not_link, is_dir in *. by rewrite rv_dir0.
Qed.

Lemma way_below fs rs ps p :
  resolved fs rs ps → on_way [] (rs ++ ps) p → node_at fs p = None → below rs p.
Proof.
  intros [] (k & Hk & ->) Hn. cbn [app] in *. destruct (decide (k ≤ length rs)%nat) as [Hle|].
  - exfalso. rewrite take_app_le in Hn by done. destruct (decide (k = length rs)) as [->|].
    + rewrite firstn_all in Hn. unfold is_dir in rv_dir0. congruence.
    + specialize (rv_root0 k). unfold is_dir in rv_root0. rewrite rv_root0 in Hn by lia. done.
  - rewrite take_app_ge by lia. exists (take (k - length rs) ps). split; [|done].
    rewrite length_app in Hk. intros E. apply (f_equal length) in E. rewrite length_take in E. cbn in E. lia.
Qed.

Lemma grown_below fs fs' rs ps :
  resolved fs rs ps → grown (on_way [] (rs ++ ps)) fs fs' →
  evolves (below rs) fs fs' ∧ ∀ p n, node_at fs p = Some n → node_at fs' p = Some n.
Proof.
  intros Hr (W & D & N). split.
  - split; [done|done|]. intros p. destruct (N p) as [->|(Hp & E & ->)]; [by left|right].
    rewrite E. split; [by eapply way_below|done].
  - intros p n Hp. destruct (N p) as [->|(_ & E & _)]; congruence.
Qed.

Lemma resolved_parent fs rs ps x : resolved fs rs (ps ++ [x]) → resolved fs rs ps.
Proof.
  intros [? ? ? Hn Hl]. split; try done.
  - rewrite app_assoc in Hn. by apply Forall_app in Hn as [? _].
  - intros k Hk. specialize (Hl k). rewrite take_app_le in Hl by lia. apply Hl. rewrite length_app. lia.
Qed.

Lemma resolved_evolves A fs fs' rs ps : evolves A fs fs' → resolved fs rs ps → resolved fs' rs ps.
Proof.
  intros He []. split; try done.
  - by destruct He.
  - intros k Hk. eapply evolves_is_dir; eauto.
  - by eapply evolves_is_dir.
  - by eapply evolves_no_links.
Qed.

(** Making a directory and those above it. *)
Lemma MkdirAll_spec room fs rs ps ok fs' :
  resolved fs rs ps → MkdirAll room fs (rs ++ ps) = (ok, fs') →
  evolves (below rs) fs fs' ∧ (∀ p n, node_at fs p = Some n → node_at fs' p = Some n) ∧
  (ok = true → is_dir fs' (rs ++ ps)).
Proof.
  intros Hr Hm. unfold MkdirAll in Hm.
  destruct (mkdirs_spec room fs [] (rs ++ ps) ok fs' (rv_wf _ _ _ Hr) (rv_normal _ _ _ Hr) (resolved_links _ _ _ Hr) Hm)
    as [Hg Hd].
  destruct (grown_below _ _ _ _ Hr Hg) as [He Hk]. split_and!; [done|done|]. intros Hok.
  destruct (rs ++ ps) as [|y l] eqn:E; [done|]. rewrite <-E in *.
  specialize (Hd Hok (length (rs ++ ps))). rewrite firstn_all in Hd. apply Hd. rewrite E. cbn. lia.
Qed.

(** How an entry's file ends up. *)
Definition file_result (rs P : path) (ow : bool) (e : Entry) (h : tar_entry) (fs : FS)
    (err : option t_error) (fs' : FS) : Prop :=
  evolves (below rs) fs fs' ∧ keeps P ow fs fs' ∧
  (err = None → copied h ∧
     node_at fs' P = Some (NFile (body h) (Z.land (e_Mode e) 0x1ed) true)).

(** An error once the temporary file exists. *)
Lemma stop_result rs P ow e h fs fs1 dir name fsx d m y :
  real_dir fs1 dir → place fs1 (dir ++ [name]) = Some (dir ++ [name]) →
  node_at fs1 (dir ++ [name]) = None → evolves (below rs) fs fs1 →
  (∀ p n, node_at fs p = Some n → node_at fs1 p = Some n) →
  only_file fs1 (dir ++ [name]) d m fsx →
  file_result rs P ow e h fs (Some y) (Remove fsx (dir ++ [name])).
Proof.
  intros Hrd Hp Hnone He1 Hk1 Ho. destruct (Remove_spec _ _ _ _ _ _ Hrd Hp Hnone Ho) as (D & W & N).
  split_and!; [|intros p n Hpn; left; rewrite N; by apply Hk1|done].
  eapply evolves_trans; [exact He1|]. split; [done|done|]. intros p. left. apply N.
Qed.

(** The rename into place. *)
Lemma rename_result rs ps x (ow : bool) e h fs fs1 fs4 fs5 :
  Forall normal_elem (rs ++ ps ++ [x]) → evolves (below rs) fs fs1 →
  (∀ p n, node_at fs p = Some n → node_at fs1 p = Some n) → copied h →
  denied fs4 = denied fs1 → fs_wf fs4 →
  (∀ p, node_at fs1 p ≠ None → node_at fs4 p ≠ None) →
  (if ow then Absent else Lstat fs4 (rs ++ ps ++ [x])) = Absent →
  soft (node_at fs1 (rs ++ ps ++ [x])) →
  only_file fs1 (rs ++ ps ++ [x]) (body h) (Z.land (e_Mode e) 0x1ed) fs5 →
  file_result rs (rs ++ ps ++ [x]) ow e h fs None fs5.
Proof.
  intros Hn He1 Hk1 Hcop _ W4 Hsome Hls Hsoft Ho5. pose proof Ho5 as (_ & _ & N). split_and!.
  - eapply evolves_trans; [exact He1|]. eapply only_file_evolves; [|exact Hsoft|exact Ho5].
    exists (ps ++ [x]). split; [by destruct ps|done].
  - intros p n Hpn. rewrite N. case_decide as Hpx; [|left; by apply Hk1].
    subst p. destruct ow; [by right|]. exfalso.
    destruct (node_at fs4 (rs ++ ps ++ [x])) as [n4|] eqn:Hn4.
    + destruct (Lstat_node _ _ _ W4 Hn Hn4); congruence.
    + apply (Hsome (rs ++ ps ++ [x])); [|done]. by rewrite (Hk1 _ _ Hpn).
  - intros _. split; [done|]. by rewrite N, decide_True.
Qed.

(** The file of an entry, on every way out of the function. *)
Lemma extract_file_spec cwd root ow e h fs rs ps x err fs' :
  resolved fs rs (ps ++ [x]) →
  extract_file cwd root (abs_path (rs ++ ps ++ [x])) ow e h fs = (err, fs') →
  file_result rs (rs ++ ps ++ [x]) ow e h fs err fs'.
Proof.
  intros Hr Hx. pose proof (resolved_parent _ _ _ _ Hr) as Hrp. pose proof (rv_normal _ _ _ Hr) as Hn.
  rewrite app_assoc in Hn, Hx. pose proof Hn as [Hnd Hnx]%Forall_app. apply Forall_cons in Hnx as [Hnx _].
  unfold extract_file in Hx. rewrite Dir_abs_path, !elems_abs_path in Hx by done.
  destruct (MkdirAll (x_room h) fs (rs ++ ps)) as [made fs1] eqn:Hm.
  destruct (MkdirAll_spec _ _ _ _ _ _ Hrp Hm) as (He1 & Hk1 & _).
  assert (∀ y, file_result rs (rs ++ ps ++ [x]) ow e h fs (Some y) fs1) as Hearly.
  { intros y. split_and!; [done| |done]. intros p n Hp. left. by apply Hk1. }
  destruct made; cbn [negb] in Hx; [|by simplify_eq].
  destruct (x_temp h) as [name|]; [|by simplify_eq].
  destruct (CreateTemp fs1 (rs ++ ps) name) as [[tmp fs2]|] eqn:Hc; [|by simplify_eq].
  pose proof (resolved_evolves _ _ _ _ _ He1 Hr) as Hr1.
  assert (real_dir fs1 (rs ++ ps)) as Hrd.
  { split; [apply Hr1|done|]. apply resolved_links. by eapply resolved_parent. }
  destruct (CreateTemp_spec _ _ _ _ _ Hrd Hc) as (-> & Hp & Hd & Hnone & Ho2). clear Hc Hearly.
  destruct (CopyContext (x_last_done h) (x_reads h) 0 []) as [[tot cerr] data] eqn:Hcc.
  pose proof (write_file_spec _ _ _ _ _ _ data 0x180 Hrd Hp Hnone Ho2) as Ho3.
  set (fs3 := write_file fs2 _ data _) in *.
  pose proof (write_file_spec _ _ _ _ _ _ data (Z.land (e_Mode e) 0x1ed) Hrd Hp Hnone Ho3) as Ho4.
  set (fs4 := write_file fs3 _ data _) in *.
  assert (∀ fsx m y, only_file fs1 ((rs ++ ps) ++ [name]) data m fsx →
    file_result rs (rs ++ ps ++ [x]) ow e h fs (Some y) (Remove fsx ((rs ++ ps) ++ [name]))) as Hstop.
  { intros fsx m y. by apply stop_result. }
  case_bool_decide as Hcerr; [simplify_eq; by eapply Hstop|].
  subst cerr.
  destruct (x_chmod h), (x_sync h), (x_close h); cbn [negb] in Hx; try (simplify_eq; by eapply Hstop).
  destruct (if ow then Absent else Lstat fs4 ((rs ++ ps) ++ [x])) eqn:Hls;
    try (simplify_eq; by eapply Hstop).
  destruct (Resolve _ _ _ _); [|simplify_eq; by eapply Hstop].
  destruct (x_rename h); cbn [negb] in Hx; [|simplify_eq; by eapply Hstop].
  destruct (Rename fs4 _ _) as [fs5|] eqn:Hren; [|simplify_eq; by eapply Hstop]. clear Hstop.
  injection Hx as <- <-.
  assert (not_link fs1 ((rs ++ ps) ++ [x])) as Hnl.
  { pose proof (rv_links _ _ _ Hr1 (length (ps ++ [x]))) as Hl1. rewrite <-app_assoc.
    rewrite firstn_all in Hl1. apply Hl1. rewrite length_app. cbn. lia. }
  destruct (Rename_spec _ _ _ _ _ _ _ _ Hrd Hp Hnone Ho4 Hnl Hren) as [Hsoft Ho5].
  rewrite <-app_assoc in Hn, Hls, Hsoft, Ho5. destruct Ho4 as (D4 & W4 & N4).
  apply (rename_result rs ps x ow e h fs fs1 fs4 fs5); try done.
  - unfold copied. by rewrite Hcc.
  - intros p Hpn. rewrite N4. by case_decide.
  - unfold body. by rewrite Hcc.
Qed.

(** ** The whole archive *)

Lemma real_root_stable A cwd fs fs' root rs :
  evolves A fs fs' → real_root cwd fs root = Some rs → is_dir fs rs →
  real_root cwd fs' root = Some rs.
Proof.
  unfold real_root, EvalSymlinks. intros He Hr Hd. destruct (namei _ fs _ _) as [q| |] eqn:Hw; try done.
  injection Hr as ->. by rewrite (namei_stable _ _ _ _ _ _ _ He Hw Hd).
Qed.

Lemma Resolve_abs cwd fs root es d :
  Forall normal_elem es → Resolve cwd fs root (abs_path es) = Ok d → d = abs_path es.
Proof.
  intros Hes. rewrite Resolve_eq. destruct (real_root cwd fs root) as [rs|]; [|done]. cbv zeta.
  assert (match root with [] => Abs cwd (abs_path es) | _ => abs_path es end = abs_path es) as ->.
  { destruct root; [|done]. unfold Abs. cbn [IsAbs abs_path]. by apply Clean_abs_path. }
  cbn [abs_path IsAbs]. change (slash :: join_slash es) with (abs_path es).
  change (Ascii.eqb slash slash) with true. cbv iota. rewrite Clean_abs_path by done.
  repeat case_match; by intros [= <-].
Qed.

(** The run's root, which the extraction keeps. *)
Record rooted (cwd : chars) (fs : FS) (root : chars) (rs ts : path) : Prop := {
  ro_wf : fs_wf fs;
  ro_real : real_root cwd fs root = Some rs;
  ro_dir : is_dir fs rs;
  ro_normal : Forall normal_elem (rs ++ ts);
}.

Lemma rooted_evolves A cwd fs fs' root rs ts :
  evolves A fs fs' → rooted cwd fs root rs ts → rooted cwd fs' root rs ts.
Proof.
  intros He []. split; [by destruct He|by eapply real_root_stable|by eapply evolves_is_dir|done].
Qed.

Definition entry_place (rs ts : path) (name : string) : path := rs ++ ts ++ name_elems name.

Lemma entry_place_inj rs ts n n' : entry_place rs ts n = entry_place rs ts n' → n = n'.
Proof.
  unfold entry_place. intros H%app_inv_head%app_inv_head.
  by rewrite <-(name_of_elems n), H, name_of_elems.
Qed.

Lemma dest_spec cwd fs root rs ts name dest :
  rooted cwd fs root rs ts → SafeName name = true →
  dest_of cwd fs root (abs_path (rs ++ ts)) name = Ok dest →
  dest = abs_path (entry_place rs ts name) ∧ resolved fs rs (ts ++ name_elems name).
Proof.
  intros [Hwf Hr Hd Hn] Hs Hdest. destruct (safe_elems _ Hs) as ((_ & Hall & _) & Hname).
  unfold dest_of in Hdest. rewrite Join_abs in Hdest by done.
  rewrite Clean_abs_path, elems_abs_path, <-app_assoc in Hdest by done.
  assert (Forall normal_elem (rs ++ ts ++ name_elems name)) as Hfull.
  { rewrite app_assoc. by apply Forall_app. }
  pose proof (Resolve_abs _ _ _ _ _ Hfull Hdest) as ->. split; [done|].
  destruct (Resolve_spec _ _ _ _ _ Hwf Hdest) as (rs' & ps & Hr' & Heq & Hn' & Hl).
  rewrite Hr in Hr'. injection Hr' as <-. apply abs_path_inj in Heq; [|done|done].
  apply app_inv_head in Heq. subst ps. destruct (real_root_spec _ _ _ _ Hr) as (? & _ & _).
  by split.
Qed.

(** What a successful entry leaves. *)
Definition entry_done (fs : FS) (rs ts : path) (h : tar_entry) (e : Entry) : Prop :=
  if e_Dir e then is_dir fs (entry_place rs ts (e_Name e))
  else copied h ∧ node_at fs (entry_place rs ts (e_Name e))
                  = Some (NFile (body h) (Z.land (e_Mode e) 0x1ed) true).

(** The header [h] announces the entry [e]. *)
Definition announces (h : tar_entry) (e : Entry) : Prop :=
  string_of (trim_slash (chars_of (h_Name h))) = e_Name e ∧ h_Size h = e_Size e ∧
  is_dir_type (h_Type h) = e_Dir e.

Definition well_keyed (expected : gmap string Entry) : Prop :=
  ∀ n e, expected !! n = Some e → e_Name e = n.

Lemma match_manifest_spec expected h name e :
  well_keyed expected → match_manifest expected h = Some (name, e) →
  expected !! name = Some e ∧ e_Name e = name ∧ SafeName name = true ∧ announces h e.
Proof.
  intros Hk. unfold match_manifest. destruct (expected !! _) as [f|] eqn:Hf; [|done].
  destruct (negb _ || _ || _ || _) eqn:Hg; [done|]. intros [= <- <-]. zbool.
  pose proof (Hk _ _ Hf) as Hn. split_and!; try done. split_and!; try done. by apply Bool.eqb_prop.
Qed.

(** Nothing that was there changes, unless it may be overwritten and has an expected
    name. *)
Definition keeps_all (rs ts : path) (ow : bool) (expected : gmap string Entry) (fs fs' : FS) : Prop :=
  ∀ p n, node_at fs p = Some n → node_at fs' p = Some n ∨
    (ow = true ∧ ∃ name, is_Some (expected !! name) ∧ p = entry_place rs ts name).

Lemma keeps_all_refl rs ts ow expected fs : keeps_all rs ts ow expected fs fs.
Proof. intros p n Hp. by left. Qed.

Lemma extract_entry_spec cwd root rs ts ow h expected fs err expected' fs' :
  rooted cwd fs root rs ts → well_keyed expected →
  extract_entry cwd root (abs_path (rs ++ ts)) ow h expected fs = (err, expected', fs') →
  evolves (below rs) fs fs' ∧ keeps_all rs ts ow expected fs fs' ∧
  (err = None → ∃ e, expected !! e_Name e = Some e ∧ announces h e ∧
     expected' = delete (e_Name e) expected ∧ entry_done fs' rs ts h e).
Proof.
  intros Hro Hk. pose proof (ro_wf _ _ _ _ _ Hro) as Hwf. unfold extract_entry.
  assert (evolves (below rs) fs fs ∧ keeps_all rs ts ow expected fs fs) as [Hid1 Hid2]
    by (split; [by apply evolves_refl|apply keeps_all_refl]).
  destruct (x_done h); [by intros [= <- <- <-]|].
  destruct (match_manifest expected h) as [[name e]|] eqn:Hm; [|by intros [= <- <- <-]].
  destruct (match_manifest_spec _ _ _ _ Hk Hm) as (He & <- & Hs & Ha).
  destruct (dest_of _ _ _ _ _) as [dest|] eqn:Hdest; [|by intros [= <- <- <-]].
  destruct (dest_spec _ _ _ _ _ _ _ Hro Hs Hdest) as [-> Hres]. unfold entry_done, entry_place.
  destruct (e_Dir e) eqn:Hdir.
  - rewrite elems_abs_path by apply Hres.
    destruct (MkdirAll (x_room h) fs (rs ++ ts ++ name_elems (e_Name e))) as [made fs1] eqn:Hmk.
    destruct (MkdirAll_spec _ _ _ _ _ _ Hres Hmk) as (H1 & H2 & H3). intros [= <- <- <-].
    split_and!; [done|intros p n Hp; left; by apply H2|]. intros Hok. exists e. rewrite Hdir.
    destruct made; [|done]. split_and!; try done. by apply H3.
  - destruct (exists_last (split_slash_nonempty (chars_of (e_Name e)))) as (l & x & Hlx).
    change (split_slash (chars_of (e_Name e))) with (name_elems (e_Name e)) in Hlx.
    rewrite Hlx, (app_assoc ts) in *.
    destruct (extract_file _ _ _ _ _ _ _) as [err1 fs1] eqn:Hx.
    destruct (extract_file_spec _ _ _ _ _ _ _ _ _ _ _ Hres Hx) as (H1 & H2 & H3).
    intros [= <- <- <-]. split_and!; [done| |].
    + intros p n Hp. destruct (H2 p n Hp) as [?|[-> ?]]; [by left|right]. split; [done|].
      exists (e_Name e). split; [by rewrite He|]. unfold entry_place. by rewrite Hlx, <-!app_assoc.
    + intros Hok. destruct (H3 Hok) as [Hc Hnode]. exists e. rewrite Hdir. split_and!; try done.
      by rewrite Hlx, (app_assoc ts).
Qed.

Lemma keeps_all_weaken rs ts ow (exp1 exp2 : gmap string Entry) fs fs' :
  exp1 ⊆ exp2 → keeps_all rs ts ow exp1 fs fs' → keeps_all rs ts ow exp2 fs fs'.
Proof.
  intros Hsub Hk p n Hp. destruct (Hk p n Hp) as [?|(Ho & name & [e He] & ->)]; [by left|right].
  split; [done|]. exists name. split; [|done]. exists e. by eapply lookup_weaken.
Qed.

Lemma keeps_all_trans rs ts ow expected fs fs1 fs2 :
  keeps_all rs ts ow expected fs fs1 → keeps_all rs ts ow expected fs1 fs2 →
  keeps_all rs ts ow expected fs fs2.
Proof. intros H1 H2 p n Hp. destruct (H1 p n Hp); [by apply H2|by right]. Qed.

(** What is extracted stays, as long as its name is not expected again. *)
Lemma entry_done_kept A rs ts ow expected h e fs fs' :
  evolves A fs fs' → keeps_all rs ts ow expected fs fs' → expected !! e_Name e = None →
  entry_done fs rs ts h e → entry_done fs' rs ts h e.
Proof.
  unfold entry_done. intros He Hk Hn. destruct (e_Dir e); [by apply (evolves_is_dir _ _ _ _ He)|].
  intros [Hc Hp]. split; [done|]. destruct (Hk _ _ Hp) as [?|(_ & name & [f Hf] & Heq)]; [done|].
  apply entry_place_inj in Heq. subst. congruence.
Qed.

Lemma well_keyed_delete expected n : well_keyed expected → well_keyed (delete n expected).
Proof. intros Hk m e [_ He]%lookup_delete_Some. by apply Hk. Qed.

(** The entries of an archive that was extracted to its end. *)
Definition all_done (fs : FS) (rs ts : path) (hs : list tar_entry) (es : list Entry) : Prop :=
  Forall2 (λ h e, announces h e ∧ entry_done fs rs ts h e) hs es.

Lemma all_done_kept A rs ts ow expected hs es fs fs' :
  evolves A fs fs' → keeps_all rs ts ow expected fs fs' →
  (∀ e, e ∈ es → expected !! e_Name e = None) → all_done fs rs ts hs es → all_done fs' rs ts hs es.
Proof.
  intros He Hk Hn. induction 1 as [|h e hs es [Ha Hd] _ IH]; [constructor|]. constructor.
  - split; [done|]. eapply entry_done_kept; [done|done| |done]. apply Hn. by left.
  - apply IH. intros f Hf. apply Hn. by right.
Qed.

Lemma extract_entries_spec cwd root rs ts ow hs fin expected fs err expected' fs' :
  rooted cwd fs root rs ts → well_keyed expected →
  extract_entries cwd root (abs_path (rs ++ ts)) ow hs fin expected fs = (err, expected', fs') →
  evolves (below rs) fs fs' ∧ keeps_all rs ts ow expected fs fs' ∧
  (err = None → ∃ es, all_done fs' rs ts hs es ∧ NoDup (e_Name <$> es) ∧
     (∀ e, e ∈ es → expected !! e_Name e = Some e) ∧
     (∀ n e, expected' !! n = Some e ↔ expected !! n = Some e ∧ n ∉ e_Name <$> es)).
Proof.
  revert expected fs. induction hs as [|h hs IH]; intros expected fs Hro Hk; cbn [extract_entries].
  { intros [= <- <- <-]. split_and!; [by apply evolves_refl; destruct Hro|apply keeps_all_refl|].
    intros _. exists []. split_and!; [constructor|constructor|set_solver|set_solver]. }
  destruct (extract_entry _ _ _ _ _ _ _) as [[err1 exp1] fs1] eqn:Hx.
  destruct (extract_entry_spec _ _ _ _ _ _ _ _ _ _ _ Hro Hk Hx) as (He1 & Hk1 & Hd1).
  destruct err1 as [y|]; [intros [= <- <- <-]; by split_and!|].
  destruct (Hd1 eq_refl) as (e & Hexp & Ha & -> & Hdone). intros Hrest.
  destruct (IH _ _ (rooted_evolves _ _ _ _ _ _ _ He1 Hro) (well_keyed_delete _ _ Hk) Hrest)
    as (He2 & Hk2 & Hd2). split_and!.
  - by eapply evolves_trans.
  - eapply keeps_all_trans; [exact Hk1|]. eapply keeps_all_weaken; [|exact Hk2]. apply delete_subseteq.
  - intros Hok. destruct (Hd2 Hok) as (es & Hall & Hnd & Hin & Hleft). exists (e :: es). split_and!.
    + constructor; [|done]. split; [done|]. eapply entry_done_kept; [exact He2|exact Hk2| |done].
      apply lookup_delete_eq.
    + cbn. apply NoDup_cons. split; [|done]. intros (f & Hf & Hfin)%list_elem_of_fmap.
      specialize (Hin f Hfin). rewrite <-Hf, lookup_delete_eq in Hin. done.
    + intros f [->|Hf]%elem_of_cons; [done|]. specialize (Hin f Hf). by apply lookup_delete_Some in Hin as [_ ?].
    + intros n f. rewrite Hleft, lookup_delete_Some. cbn. rewrite not_elem_of_cons. naive_solver.
Qed.

Lemma Extract_start cwd sys arch root dir entries ow fs err fs' :
  Extract cwd sys arch root dir entries ow fs = (err, fs') → fs' = fs ∧ err ≠ None ∨
  ∃ target hs fin, ValidateEntries entries = Ok tt ∧ Resolve cwd fs root dir = Ok target ∧
    arch = Some (hs, fin) ∧ ∃ err1 exp1,
    extract_entries cwd root target ow hs fin
      (list_to_map ((λ e, (e_Name e, e)) <$> entries)) fs = (err1, exp1, fs') ∧
    err = match err1 with Some x => Some x | None => if bool_decide (exp1 = ∅) then None else Some ErrMissing end.
Proof.
  unfold Extract. destruct (ProbeTarget _ _ _ _ _ _ _ _) as [p [x|]] eqn:Hp; [intros [= <- <-]; by left|].
  destruct (Resolve cwd fs root dir) as [target|x] eqn:Hr; [|intros [= <- <-]; by left].
  destruct arch as [[hs fin]|]; [|intros [= <- <-]; by left].
  destruct (extract_entries _ _ _ _ _ _ _ _) as [[err1 exp1] fs1] eqn:Hx. intros Heq. right.
  exists target, hs, fin. split_and!; try done.
  - unfold ProbeTarget in Hp. by destruct (ValidateEntries entries) as [[]|].
  - exists err1, exp1. destruct err1; injection Heq as <- <-; split; done.
Qed.

Lemma expected_keyed entries :
  NoDup (e_Name <$> entries) →
  well_keyed (list_to_map ((λ e, (e_Name e, e)) <$> entries)) ∧
  ∀ n e, (list_to_map ((λ e, (e_Name e, e)) <$> entries) : gmap string Entry) !! n = Some e
    ↔ e ∈ entries ∧ e_Name e = n.
Proof.
  intros Hnd. assert (∀ n e, (list_to_map ((λ e, (e_Name e, e)) <$> entries) : gmap string Entry) !! n
    = Some e ↔ e ∈ entries ∧ e_Name e = n) as Hl.
  { intros n e. rewrite <-elem_of_list_to_map.
    - rewrite list_elem_of_fmap. split; [intros (f & [= -> ->] & ?); done|intros [? <-]; by exists e].
    - by rewrite <-list_fmap_compose. }
  split; [intros n e He; by destruct (proj1 (Hl n e) He)|exact Hl].
Qed.

Lemma int64_add a b : int64 (int64 a + b) = int64 (a + b).
Proof.
  unfold int64. f_equal.
  replace ((a + 2 ^ 63) `mod` 2 ^ 64 - 2 ^ 63 + b + 2 ^ 63)
    with ((a + 2 ^ 63) `mod` 2 ^ 64 + b) by ring.
  rewrite Z.add_mod_idemp_l by done. f_equal. ring.
Qed.

Lemma copy_events last_done events total0 out0 total out :
  total0 = int64 (zlen out0) →
  CopyContext last_done events total0 out0 = (total, None, out) →
  total = int64 (zlen out) ∧
  ∃ k, out = out0 ++ concat (io_data <$> take k events) ∧
    ((length events ≤ k)%nat ∨
      (0 < k)%nat ∧ ∃ ev, events !! (k - 1)%nat = Some ev ∧ io_err ev = Some true).
Proof.
  revert total0 out0. induction events as [|ev rest IH]; intros total0 out0 Ht; cbn [CopyContext].
  { destruct last_done; [done|]. intros [= <- <-]. split; [done|]. exists 0%nat. cbn.
    rewrite app_nil_r. split; [done|]. left. lia. }
  destruct (io_done ev); [done|]. set (n := length (io_data ev)).
  destruct (if (0 <? n)%nat then _ else _) as [t o] eqn:Hto.
  destruct ((0 <? n) && io_werr ev)%nat; [done|].
  destruct ((0 <? n) && negb (io_written ev =? n))%nat eqn:Hshort; [done|].
  assert (t = int64 (zlen o) ∧ o = out0 ++ io_data ev) as [Ht' Ho].
  { destruct (Nat.ltb_spec 0 n) as [Hpos|Hz].
    - cbn in Hshort. apply negb_false_iff, Nat.eqb_eq in Hshort. injection Hto as <- <-.
      rewrite Hshort. unfold n. rewrite firstn_all. split; [|done].
      rewrite zlen_app, Ht, int64_add. done.
    - injection Hto as <- <-. split; [done|]. destruct (io_data ev); [by rewrite app_nil_r|].
      unfold n in Hz. cbn in Hz. lia. }
  destruct (io_err ev) as [[]|] eqn:Herr.
  - intros [= <- <-]. split; [done|]. exists 1%nat. cbn. rewrite app_nil_r. split; [done|].
    right. split; [lia|]. by exists ev.
  - done.
  - intros Hc. destruct (IH t o Ht' Hc) as (Htot & k & Hk & Hend). split; [done|]. exists (S k).
    cbn. rewrite Hk, Ho, <-app_assoc. split; [done|].
    destruct Hend as [?|(Hpos & ev' & He & Hee)]; [left; lia|]. right. split; [lia|].
    exists ev'. destruct k as [|k]; [lia|]. cbn in *. by rewrite Nat.sub_0_r in *.
Qed.

Lemma Extract_ok (cwd : chars) (sys : Sys) (hs : list tar_entry) (fin : option t_error)
    (root dir : chars) (entries : list Entry) (overwrite : bool) (fs fs' : FS) (rs : path) :
  fs_wf fs → real_root cwd fs root = Some rs → is_dir fs rs →
  Extract cwd sys (Some (hs, fin)) root dir entries overwrite fs = (None, fs') →
  ∃ ts es, Resolve cwd fs root dir = Ok (abs_path (rs ++ ts)) ∧ Forall normal_elem (rs ++ ts) ∧
    es ≡ₚ entries ∧
    all_done fs' rs ts hs es.
Proof.
  intros Hwf Hr Hd Hx.
  apply Extract_start in Hx as [[_ ?]|(target & hs' & fin' & Hv & Hres & Heq & err1 & exp1 & Hx & He)];
    [done|]. injection Heq as <- <-. destruct err1; [done|].
  case_bool_decide as Hempty; [|done]. subst exp1. clear He.
  apply ValidateEntries_ok in Hv. destruct (expected_keyed _ (eo_distinct _ Hv)) as [Hkey Hl].
  destruct (Resolve_spec _ _ _ _ _ Hwf Hres) as (rs' & ts & Hr' & -> & Hn & _).
  rewrite Hr in Hr'. injection Hr' as <-.
  destruct (extract_entries_spec _ _ rs ts _ _ _ _ _ _ _ _ (Build_rooted _ _ _ _ _ Hwf Hr Hd Hn) Hkey Hx)
    as (_ & _ & Hok). destruct (Hok eq_refl) as (es & Hall & Hnd & Hin & Hleft).
  exists ts, es. split_and!; try done. apply NoDup_Permutation.
  - by apply NoDup_fmap_1 in Hnd.
  - pose proof (eo_distinct _ Hv) as Hnd'. by apply NoDup_fmap_1 in Hnd'.
  - intros e. split.
    + intros He. by destruct (proj1 (Hl _ _) (Hin e He)).
    + intros He. assert (expected_entries_in : e_Name e ∈ e_Name <$> es).
      { destruct (decide (e_Name e ∈ e_Name <$> es)) as [|Hno]; [done|].
        pose proof (proj2 (Hleft (e_Name e) e) (conj (proj2 (Hl _ _) (conj He eq_refl)) Hno)) as Hc.
        by rewrite lookup_empty in Hc. }
      apply list_elem_of_fmap in expected_entries_in as (f & Hf & Hfin).
      pose proof (Hin f Hfin) as Hlf. apply Hl in Hlf as [Hfe _].
      by rewrite (NoDup_fmap_elem e_Name entries e f (eo_distinct _ Hv) He Hfe Hf).
Qed.

(** ** Properties *)

(** C33. A received archive cannot write outside the root, whatever it contains,
    however the extraction ends and whatever the system refuses on the way: every
    place that is not below the real root is as it was, no link is created or
    removed anywhere, no directory disappears, and without permission to overwrite
    everything that existed is still there unchanged, temporary files included. *)
Theorem Extract_confined (cwd : chars) (sys : Sys) (arch : option (list tar_entry * option t_error))
    (root dir : chars) (entries : list Entry) (overwrite : bool) (fs fs' : FS) (rs : path)
    (err : option t_error) :
  fs_wf fs → real_root cwd fs root = Some rs → is_dir fs rs →
  Extract cwd sys arch root dir entries overwrite fs = (err, fs') →
  (∀ p, ¬ below rs p → node_at fs' p = node_at fs p) ∧
  (∀ p target, node_at fs' p = Some (NLink target) ↔ node_at fs p = Some (NLink target)) ∧
  (∀ p, is_dir fs p → is_dir fs' p) ∧
  (overwrite = false → ∀ p n, node_at fs p = Some n → node_at fs' p = Some n).
Proof.
  intros Hwf Hr Hd Hx.
  assert (evolves (below rs) fs fs' ∧ ∃ ts expected, keeps_all rs ts overwrite expected fs fs')
    as (He & ts & expected & Hk).
  { apply Extract_start in Hx as [[-> _]|(target & hs & fin & Hv & Hres & -> & err1 & exp1 & Hx & _)].
    { split; [by apply evolves_refl|]. exists [], ∅. apply keeps_all_refl. }
    apply ValidateEntries_ok in Hv. destruct (expected_keyed _ (eo_distinct _ Hv)) as [Hkey _].
    destruct (Resolve_spec _ _ _ _ _ Hwf Hres) as (rs' & ts & Hr' & -> & Hn & _).
    rewrite Hr in Hr'. injection Hr' as <-.
    destruct (extract_entries_spec _ _ rs ts _ _ _ _ _ _ _ _ (Build_rooted _ _ _ _ _ Hwf Hr Hd Hn) Hkey Hx)
      as (? & ? & _). eauto. }
  split_and!.
  - intros p Hp. by destruct (ev_node _ _ _ He p) as [?|[? _]].
  - intros p target. destruct (ev_node _ _ _ He p) as [->|(_ & Hs & Hl)]; [done|].
    split; intros E; rewrite E in *; done.
  - intros p. by eapply evolves_is_dir.
  - intros -> p n Hp. by destruct (Hk p n Hp) as [?|[? _]].
Qed.

(** C34. A successful extraction is the manifest, exactly. When [Extract] returns no
    error the archive's entries are the manifest's, each once, with the announced
    kind and size; every directory of the manifest is a directory in the
    destination, and every file is there under its name with the bytes copied from
    the archive, its permissions reduced by the mask. *)
Theorem Extract_exact (cwd : chars) (sys : Sys) (hs : list tar_entry) (fin : option t_error)
    (root dir : chars) (entries : list Entry) (overwrite : bool) (fs fs' : FS) (rs : path) :
  fs_wf fs → real_root cwd fs root = Some rs → is_dir fs rs →
  Extract cwd sys (Some (hs, fin)) root dir entries overwrite fs = (None, fs') →
  ∃ ts es, Resolve cwd fs root dir = Ok (abs_path (rs ++ ts)) ∧ es ≡ₚ entries ∧
    all_done fs' rs ts hs es.
Proof.
  intros Hwf Hr Hd Hx. destruct (Extract_ok _ _ _ _ _ _ _ _ _ _ _ Hwf Hr Hd Hx) as (ts & es & Hres & _ & Hp & Hall).
  by exists ts, es.
Qed.

(** [CopyContext] copies. Without an error the writer has received exactly what
    the reader gave up to its end, in order, and the count returned is that of the
    bytes written. *)
Theorem CopyContext_copies (last_done : bool) (events : list io_event) (total : Z) (out : bytes) :
  CopyContext last_done events 0 [] = (total, None, out) →
  total = int64 (zlen out) ∧
  ∃ k, out = concat (io_data <$> take k events) ∧
    ((length events ≤ k)%nat ∨
      (0 < k)%nat ∧ ∃ ev, events !! (k - 1)%nat = Some ev ∧ io_err ev = Some true).
Proof.
  intros Hc. destruct (copy_events last_done events 0 [] total out eq_refl Hc) as (Ht & k & Ho & Hk).
  split; [done|]. by exists k.
Qed.

(** A manifest of a directory and a file, and the archive that matches it. *)
Definition demo_entries : list Entry :=
  [mkEntry "d" 0 true 493; mkEntry "d/a.txt" 3 false 420].

Definition demo_reads : list io_event :=
  [mkIo false [Byte.x61; Byte.x62] None 2 false; mkIo false [Byte.x63] (Some true) 1 false].

Definition demo_archive : list tar_entry :=
  [mkTar "d/" 0 TypeDir false 1 None false [] true true true true;
   mkTar "d/a.txt" 3 TypeReg false 0 (Some (chars_of ".gosilver-1")) false demo_reads true true true true].

Definition demo_sys : Sys := mkSys (λ _, true) (λ _, true) (λ _, true) (λ _, Some (10, 4096)).

Definition demo_run (entries : list Entry) (ow : bool) : option t_error * FS :=
  Extract (chars_of "/") demo_sys (Some (demo_archive, None)) (chars_of "/srv") (chars_of "in")
    entries ow demo_fs.

Example demo_run_ok :
  (demo_run demo_entries false).1 = None ∧
  node_at (demo_run demo_entries false).2 (chars_of <$> ["srv"; "in"; "d"; "a.txt"]%string)
    = Some (NFile [Byte.x61; Byte.x62; Byte.x63] 420 true) ∧
  (demo_run [mkEntry "d" 0 true 493; mkEntry "d/a.txt" 4 false 420] false).1
    = Some (ErrMismatch "d/a.txt") ∧
  (demo_run (mkEntry "e" 0 true 493 :: demo_entries) false).1 = Some ErrMissing.
Proof. vm_compute. split_and!; reflexivity. Qed.

Lemma Extract_confined_witness :
  let fs' := (demo_run demo_entries false).2 in
  (∀ p, ¬ below [chars_of "srv"] p → node_at fs' p = node_at demo_fs p) ∧
  (∀ p target, node_at fs' p = Some (NLink target) ↔ node_at demo_fs p = Some (NLink target)) ∧
  (∀ p, is_dir demo_fs p → is_dir fs' p) ∧
  (false = false → ∀ p n, node_at demo_fs p = Some n → node_at fs' p = Some n).
Proof.
  intros fs'. apply (Extract_confined (chars_of "/") demo_sys (Some (demo_archive, None))
    (chars_of "/srv") (chars_of "in") demo_entries false demo_fs fs' [chars_of "srv"] None).
  - apply demo_fs_wf.
  - vm_compute. reflexivity.
  - vm_compute. reflexivity.
  - vm_compute. reflexivity.
Defined.

Lemma Extract_exact_witness :
  ∃ ts es, Resolve (chars_of "/") demo_fs (chars_of "/srv") (chars_of "in")
      = Ok (abs_path ([chars_of "srv"] ++ ts)) ∧ es ≡ₚ demo_entries ∧
    all_done (demo_run demo_entries false).2 [chars_of "srv"] ts demo_archive es.
Proof.
  apply (Extract_exact (chars_of "/") demo_sys demo_archive None
    (chars_of "/srv") (chars_of "in") demo_entries false demo_fs _ [chars_of "srv"]).
  - apply demo_fs_wf.
  - vm_compute. reflexivity.
  - vm_compute. reflexivity.
  - vm_compute. reflexivity.
Defined.

Lemma CopyContext_copies_witness :
  3 = int64 (zlen [Byte.x61; Byte.x62; Byte.x63]) ∧
  ∃ k, [Byte.x61; Byte.x62; Byte.x63] = concat (io_data <$> take k demo_reads) ∧
    ((length demo_reads ≤ k)%nat ∨
      (0 < k)%nat ∧ ∃ ev, demo_reads !! (k - 1)%nat = Some ev ∧ io_err ev = Some true).
Proof.
  apply (CopyContext_copies false demo_reads 3 [Byte.x61; Byte.x62; Byte.x63]).
  vm_compute. reflexivity.
Defined.
