(* ===== verification/Upload.v ===== *)
(** * Uploading files from the page

    internal/webui/http.go ([upload]): the parts of a multipart form are written below a
    temporary directory, which is offered as the file or the folder to distribute, or
    removed with all that was written but what the system keeps. What is read, and which calls of
    the system succeed, are the inputs. *)

From S2P Require Import Prelude Text Paths Json Model FileSys Transfer Extraction.
Local Open Scope string_scope.
Local Open Scope Z_scope.
Local Open Scope list_scope.

(** A part of the form: its name, how many directories can be made, what is read of it,
    and whether the file can be closed. *)
Record part : Type := mkPart {
  pt_Name : string; pt_room : nat; pt_last_done : bool; pt_reads : list io_event; pt_close : bool;
}.

Inductive upload_error : Type :=
| UTemp | UNext | UName | UMany | UMkdir | UOpen | UCopy | UEmpty | UReadDir | UClosed.

(** [os.OpenFile] of a file that must not exist; [None]: it fails. *)
Definition create_new (fs : FS) (p : path) (mode : Z) : option FS :=
  q ← place fs p;
  match node_at fs q with
  | None => Some (set_node q (NFile [] mode true) fs)
  | Some _ => None
  end.

(** [os.RemoveAll] removes what it can: what the system refuses to remove ([kept]) stays, and so
    do the directories above it. *)
Definition removable (kept : path → bool) (fs : FS) (q : path) : Prop :=
  map_Forall (λ r _, q `prefix_of` r → kept r = false) (nodes fs).

Definition RemoveAll (kept : path → bool) (fs : FS) (p : path) : FS :=
  mkFS (filter (λ '(q, _), ¬ (p `prefix_of` q ∧ removable kept fs q)) (nodes fs)) (denied fs).

(** The file of a part. internal/webui/http.go:387-406 [upload] *)
Definition upload_part (temp : chars) (pt : part) (fs : FS) : option upload_error * FS :=
  let target := Join temp (chars_of (pt_Name pt)) in
  let '(made, fs1) := MkdirAll (pt_room pt) fs (elems_of (Dir target)) in
  if negb made then (Some UMkdir, fs1) else
  match create_new fs1 (elems_of target) 0x1a4 with
  | None => (Some UOpen, fs1)
  | Some fs2 =>
      let '(_, err, data) := CopyContext (pt_last_done pt) (pt_reads pt) 0 [] in
      let fs3 := write_file fs2 (elems_of target) data 0x1a4 in
      if bool_decide (err ≠ None) || negb (pt_close pt) then (Some UCopy, fs3) else (None, fs3)
  end.

(** [fin]: the form ends, or cannot be read on. internal/webui/http.go:366-407 [upload] *)
Fixpoint upload_parts (temp : chars) (parts : list part) (fin : bool) (seen : gset string) (count : Z)
    (fs : FS) : option upload_error * Z * FS :=
  match parts with
  | [] => (if fin then None else Some UNext, count, fs)
  | pt :: rest =>
      if negb (SafeName (pt_Name pt)) || bool_decide (pt_Name pt ∈ seen) then (Some UName, count, fs) else
      let count := count + 1 in
      if MaxEntries <? count then (Some UMany, count, fs) else
      match upload_part temp pt fs with
      | (Some e, fs') => (Some e, count, fs')
      | (None, fs') => upload_parts temp rest fin ({[pt_Name pt]} ∪ seen) count fs'
      end
  end.

(** The names in a directory. *)
Definition children (fs : FS) (d : path) : list chars :=
  omap (λ '(q, _), if bool_decide (parent_of q = d ∧ q ≠ []) then Some (last_elem q) else None)
    (map_to_list (nodes fs)).

(** [temp]: the new directory, if there is one; [readable]: whether it can be listed;
    [shut]: whether the application has been closed meanwhile; [kept]: what cannot be removed,
    an error nobody looks at. The result is the path that
    is offered and the number of files.
    internal/webui/http.go:345-431 [upload] *)
Definition upload (temp : option chars) (parts : list part) (fin readable shut : bool) (kept : path → bool) (fs : FS)
    : (upload_error + chars * Z) * FS :=
  match temp with
  | None => (inl UTemp, fs)
  | Some temp =>
      let '(err, count, fs') := upload_parts temp parts fin ∅ 0 fs in
      let fail e := (inl e, RemoveAll kept fs' (elems_of temp)) in
      match err with
      | Some e => fail e
      | None =>
          if count =? 0 then fail UEmpty else
          if negb readable then fail UReadDir else
          let chosen := match children fs' (elems_of temp) with [x] => Join temp x | _ => temp end in
          if shut then fail UClosed else (inr (chosen, count), fs')
      end
  end.

(** ** What is written *)

Definition part_body (pt : part) : bytes := (CopyContext (pt_last_done pt) (pt_reads pt) 0 []).2.
Definition part_copied (pt : part) : Prop := (CopyContext (pt_last_done pt) (pt_reads pt) 0 []).1.2 = None.
Definition part_place (ts : path) (pt : part) : path := ts ++ name_elems (pt_Name pt).

(** A temporary directory in the making: real, and without links below. *)
Record workdir (ts : path) (fs : FS) : Prop := {
  wd_root : resolved fs ts [];
  wd_plain p : below ts p → linkless (node_at fs p);
}.

Lemma workdir_evolves ts fs fs' : evolves (below ts) fs fs' → workdir ts fs → workdir ts fs'.
Proof.
  intros He [Hr Hp]. split; [by eapply resolved_evolves|]. intros p Hb.
  destruct (ev_node _ _ _ He p) as [-> |(_ & _ & ?)]; [by apply Hp|done].
Qed.

Lemma workdir_resolved ts fs es : workdir ts fs → Forall normal_elem es → resolved fs ts es.
Proof.
  intros [[Hwf Hroot Hdir Hn Hl] Hp] Hes. rewrite app_nil_r in Hn.
  split; [done|done|done|by apply Forall_app|]. intros k Hk.
  assert (below ts (ts ++ take k es)) as Hb.
  { exists (take k es). split; [|done]. intros E. apply (f_equal length) in E. rewrite length_take in E.
    cbn in E. lia. }
  specialize (Hp _ Hb). unfold not_link. by destruct (node_at fs _) as [[]|].
Qed.

Lemma create_new_spec fs d x mode fs' :
  real_dir fs d → create_new fs (d ++ [x]) mode = Some fs' →
  place fs (d ++ [x]) = Some (d ++ [x]) ∧ node_at fs (d ++ [x]) = None ∧ only_file fs (d ++ [x]) [] mode fs'.
Proof.
  intros Hr Hc. unfold create_new in Hc. destruct (place fs (d ++ [x])) as [q|] eqn:Hp; [|done].
  cbn in Hc. pose proof (place_in _ _ _ _ Hr Hp) as [-> Hd].
  destruct (node_at fs (d ++ [x])) eqn:Hn; [done|]. injection Hc as <-.
  split_and!; try done. apply only_file_set; [apply Hr|done|by rewrite Hn].
Qed.

(** One part, on every way out. *)
Lemma upload_part_spec ts pt fs err fs' :
  workdir ts fs → SafeName (pt_Name pt) = true → upload_part (abs_path ts) pt fs = (err, fs') →
  evolves (below ts) fs fs' ∧ (∀ p n, node_at fs p = Some n → node_at fs' p = Some n) ∧
  (∀ p d m w, node_at fs' p = Some (NFile d m w) → node_at fs p = Some (NFile d m w) ∨ p = part_place ts pt) ∧
  (err = None → part_copied pt ∧ node_at fs' (part_place ts pt) = Some (NFile (part_body pt) 0x1a4 true)).
Proof.
  intros Hw Hs Hu. destruct (safe_elems _ Hs) as ((Hne & Hall & _) & Hname).
  pose proof (workdir_resolved ts fs _ Hw Hall) as Hr.
  assert (Forall normal_elem ts) as Hts by (pose proof (rv_normal _ _ _ (wd_root _ _ Hw)) as H; by rewrite app_nil_r in H).
  assert (Join (abs_path ts) (chars_of (pt_Name pt)) = abs_path (part_place ts pt)) as Hj.
  { rewrite Join_abs; [|done|done]. by rewrite Clean_abs_path, elems_abs_path. }
  unfold upload_part in Hu. rewrite Hj in Hu. unfold part_place in *.
  destruct (name_elems (pt_Name pt)) as [|x ps _] eqn:Ees using rev_ind; [done|].
  pose proof (resolved_parent _ _ _ _ Hr) as Hrp. pose proof (rv_normal _ _ _ Hr) as Hn. rewrite app_assoc in Hn, Hu |- *.
  pose proof Hn as [Hnd Hnx]%Forall_app. apply Forall_cons in Hnx as [Hnx _].
  rewrite Dir_abs_path, !elems_abs_path in Hu by done.
  destruct (MkdirAll (pt_room pt) fs (ts ++ ps)) as [made fs1] eqn:Hm.
  destruct (MkdirAll_spec _ _ _ _ _ _ Hrp Hm) as (He1 & Hk1 & _).
  assert (∀ p d m w, node_at fs1 p = Some (NFile d m w) → node_at fs p = Some (NFile d m w)) as Hf1.
  { intros p d m w Hp. unfold MkdirAll in Hm.
    destruct (mkdirs_spec (pt_room pt) fs [] (ts ++ ps) made fs1 (rv_wf _ _ _ Hrp) (rv_normal _ _ _ Hrp)
      (resolved_links _ _ _ Hrp) Hm) as [(_ & _ & Hg) _].
    destruct (Hg p) as [E|(_ & _ & E)]; congruence. }
  destruct made; cbn [negb] in Hu; [|simplify_eq; split_and!; try done; intros; left; by apply Hf1].
  pose proof (resolved_evolves _ _ _ _ _ He1 Hr) as Hr1.
  assert (real_dir fs1 (ts ++ ps)) as Hrd.
  { split; [apply Hr1|done|]. apply resolved_links. by eapply resolved_parent. }
  destruct (create_new fs1 _ _) as [fs2|] eqn:Hc;
    [|simplify_eq; split_and!; try done; intros; left; by apply Hf1].
  destruct (create_new_spec _ _ _ _ _ Hrd Hc) as (Hp & Hnone & Ho2).
  destruct (CopyContext (pt_last_done pt) (pt_reads pt) 0 []) as [[tot cerr] data] eqn:Hcc.
  pose proof (write_file_spec _ _ _ _ _ _ data 0x1a4 Hrd Hp Hnone Ho2) as Ho3.
  set (fs3 := write_file fs2 _ data _) in *.
  assert (fs' = fs3 ∧ (err = None → cerr = None)) as [-> Herr].
  { destruct (bool_decide_reflect (cerr ≠ None)) as [E|E]; cbn [orb] in Hu; [by split; congruence|].
    split; [destruct (pt_close pt); cbn in Hu; congruence|]. intros _. destruct cerr; [by destruct E|done]. }
  pose proof Ho3 as (_ & _ & N3). split_and!.
  - eapply evolves_trans; [exact He1|]. eapply only_file_evolves; [|by rewrite Hnone|exact Ho3].
    exists (ps ++ [x]). rewrite app_assoc. split; [by destruct ps|done].
  - intros p n Hpn. rewrite N3. case_decide as Hpx; [|by apply Hk1]. subst. by rewrite (Hk1 _ _ Hpn) in Hnone.
  - intros p d m w. rewrite N3. case_decide; [by right|]. intros ?. left. by apply Hf1.
  - intros He. rewrite N3, decide_True by done. unfold part_body, part_copied. rewrite Hcc. split; [by apply Herr|done].
Qed.

(** What has been uploaded so far is there, and nothing else. *)
Record holds (ts : path) (fs0 fs : FS) (parts : list part) : Prop := {
  ho_evolves : evolves (below ts) fs0 fs;
  ho_files pt : pt ∈ parts →
    part_copied pt ∧ node_at fs (part_place ts pt) = Some (NFile (part_body pt) 0x1a4 true);
  ho_only p d m w : below ts p → node_at fs p = Some (NFile d m w) → ∃ pt, pt ∈ parts ∧ p = part_place ts pt;
}.

Lemma upload_parts_spec ts fs0 parts fin seen done_ fs err count fs' :
  workdir ts fs0 → holds ts fs0 fs done_ → Forall (λ pt, SafeName (pt_Name pt) = true) done_ →
  NoDup (List.map pt_Name done_) → (∀ n, n ∈ seen ↔ n ∈ List.map pt_Name done_) → zlen done_ ≤ MaxEntries →
  upload_parts (abs_path ts) parts fin seen (zlen done_) fs = (err, count, fs') →
  evolves (below ts) fs0 fs' ∧
  (err = None → let all := done_ ++ parts in
    holds ts fs0 fs' all ∧ Forall (λ pt, SafeName (pt_Name pt) = true) all ∧ NoDup (List.map pt_Name all) ∧
    count = zlen all ∧ count ≤ MaxEntries).
Proof.
  intros Hw. revert seen done_ fs. induction parts as [|pt rest IH]; intros seen done_ fs Hh Hsafe Hnd Hseen Hmax Hu; cbn in Hu.
  { injection Hu as <- <- <-. split; [apply Hh|]. intros _. cbv zeta. by rewrite app_nil_r. }
  destruct (SafeName (pt_Name pt)) eqn:Hs; cbn [negb orb] in Hu; [|by simplify_eq; split; [apply Hh|]].
  destruct (bool_decide_reflect (pt_Name pt ∈ seen)) as [Hin|Hin]; [by simplify_eq; split; [apply Hh|]|].
  destruct (Z.ltb_spec MaxEntries (zlen done_ + 1)) as [|Hle]; [by simplify_eq; split; [apply Hh|]|].
  pose proof (ho_evolves _ _ _ _ Hh) as He.
  destruct (upload_part (abs_path ts) pt fs) as [e fs1] eqn:Hp.
  destruct (upload_part_spec _ _ _ _ _ (workdir_evolves _ _ _ He Hw) Hs Hp) as (He1 & Hk & Hf & Hok).
  destruct e as [e|]; [simplify_eq; split; [by eapply evolves_trans|done]|].
  assert (zlen (done_ ++ [pt]) = zlen done_ + 1) as Hlen by (unfold zlen; rewrite length_app; cbn; lia).
  rewrite <-Hlen in Hu, Hle.
  destruct (IH ({[pt_Name pt]} ∪ seen) (done_ ++ [pt]) fs1) as [IH1 IH2]; [| | | |done|exact Hu|].
  - split.
    + by eapply evolves_trans.
    + intros q [Hq|Hq]%elem_of_app.
      * destruct (ho_files _ _ _ _ Hh q Hq) as [? ?]. split; [done|by apply Hk].
      * apply list_elem_of_singleton in Hq as ->. by apply Hok.
    + intros p d m w Hb Hn. destruct (Hf _ _ _ _ Hn) as [Hn'| ->].
      * destruct (ho_only _ _ _ _ Hh _ _ _ _ Hb Hn') as (q & Hq & ->). exists q. set_solver.
      * exists pt. set_solver.
  - apply Forall_app. split; [done|by apply Forall_singleton].
  - rewrite List.map_app. apply NoDup_app. split_and!; [done| |apply NoDup_singleton].
    intros n Hn Hx. apply list_elem_of_singleton in Hx as ->. by apply Hin, Hseen.
  - intros n. rewrite List.map_app, elem_of_app, elem_of_union, elem_of_singleton, Hseen. cbn.
    rewrite list_elem_of_singleton. tauto.
  - split; [done|]. rewrite <-app_assoc in IH2. exact IH2.
Qed.

#[export] Instance removable_dec kept fs q : Decision (removable kept fs q).
Proof. unfold removable. apply _. Defined.

Lemma RemoveAll_node kept fs p q :
  p ≠ [] →
  node_at (RemoveAll kept fs p) q = if bool_decide (p `prefix_of` q ∧ removable kept fs q) then None else node_at fs q.
Proof.
  intros Hp. unfold node_at, RemoveAll. destruct q as [|x q].
  - rewrite bool_decide_eq_false_2; [done|]. by intros [Hq%prefix_nil_inv _].
  - cbn [nodes]. destruct (bool_decide_reflect (p `prefix_of` (x :: q) ∧ removable kept fs (x :: q))) as [E|E].
    + apply map_lookup_filter_None. right. intros n _. by intros [].
    + destruct (nodes fs !! (x :: q)) as [n|] eqn:En.
      * apply map_lookup_filter_Some. by split.
      * apply map_lookup_filter_None. by left.
Qed.

Lemma not_removable kept fs q : ¬ removable kept fs q → ∃ r, q `prefix_of` r ∧ kept r = true ∧ is_Some (nodes fs !! r).
Proof.
  intros (r & n & Hr & Hn)%map_not_Forall; [|intros; apply _]. exists r.
  destruct (decide (q `prefix_of` r)) as [Hp|]; [|by destruct Hn]. destruct (kept r); [by eauto|]. by destruct Hn.
Qed.

Lemma below_prefix ts p : below ts p → ts `prefix_of` p.
Proof. intros (x & _ & ->). by exists x. Qed.

(** C23. An upload stays in its directory: whatever the names and the contents of the
    parts and wherever it stops, nothing outside the temporary directory changes. On an
    error the directory is removed with all that was written: what remains is only what the
    system refuses to remove, with the directories above it, so nothing when it refuses
    nothing. On success it holds exactly the parts, each with a safe name of its own and the
    bytes that were read, at most [MaxEntries] of them and at least one, and what is offered
    is that directory or the one thing in it. *)
Theorem upload_confined ts parts fin readable shut kept fs res fs' :
  workdir ts fs → ts ≠ [] → (∀ p, below ts p → node_at fs p = None) →
  upload (Some (abs_path ts)) parts fin readable shut kept fs = (res, fs') →
  (∀ p, ¬ ts `prefix_of` p → node_at fs' p = node_at fs p) ∧
  match res with
  | inl _ => ∀ p, ts `prefix_of` p → is_Some (node_at fs' p) → ∃ q, p `prefix_of` q ∧ kept q = true
  | inr (chosen, count) =>
      0 < count ≤ MaxEntries ∧ count = zlen parts ∧ NoDup (List.map pt_Name parts) ∧
      (∀ pt, pt ∈ parts → SafeName (pt_Name pt) = true ∧ part_copied pt ∧
        node_at fs' (part_place ts pt) = Some (NFile (part_body pt) 0x1a4 true)) ∧
      (∀ p d m w, below ts p → node_at fs' p = Some (NFile d m w) → ∃ pt, pt ∈ parts ∧ p = part_place ts pt) ∧
      (chosen = abs_path ts ∨ ∃ x, children fs' ts = [x] ∧ chosen = Join (abs_path ts) x)
  end.
Proof.
  intros Hw Hne Hempty Hu. assert (Forall normal_elem ts) as Hts
    by (pose proof (rv_normal _ _ _ (wd_root _ _ Hw)) as H; by rewrite app_nil_r in H).
  unfold upload in Hu. rewrite elems_abs_path in Hu by done.
  destruct (upload_parts (abs_path ts) parts fin ∅ 0 fs) as [[err count] fs1] eqn:Hp.
  destruct (upload_parts_spec ts fs parts fin ∅ [] fs err count fs1 Hw) as [He Hok]; try done.
  { split; [apply evolves_refl, Hw|by intros pt Hpt%elem_of_nil|]. intros p d m w Hb Hn. by rewrite Hempty in Hn. }
  { constructor. }
  { cbn. intros n. by rewrite elem_of_nil. }
  assert (∀ p, ¬ ts `prefix_of` p → node_at fs1 p = node_at fs p) as Hout.
  { intros p Hb. destruct (ev_node _ _ _ He p) as [|(Hx & _)]; [done|]. by destruct Hb; apply below_prefix. }
  assert (∀ e, (res, fs') = (inl e, RemoveAll kept fs1 ts) →
    (∀ p, ¬ ts `prefix_of` p → node_at fs' p = node_at fs p) ∧
    ∀ p, ts `prefix_of` p → is_Some (node_at fs' p) → ∃ q, p `prefix_of` q ∧ kept q = true) as Hfail.
  { intros e [= -> ->]. split; intros p Hb; rewrite RemoveAll_node by done.
    - rewrite bool_decide_eq_false_2 by (by intros [? _]). by apply Hout.
    - case_bool_decide as E; [by intros []|]. intros _. destruct (not_removable kept fs1 p) as (q & ? & ? & _); [tauto|eauto]. }
  destruct err as [e|]; [injection Hu as <- <-; by eapply Hfail|].
  destruct (Z.eqb_spec count 0) as [E0|E0]; [injection Hu as <- <-; by eapply Hfail|].
  destruct readable; cbn [negb] in Hu; [|injection Hu as <- <-; by eapply Hfail].
  destruct shut; [injection Hu as <- <-; by eapply Hfail|]. injection Hu as <- <-. split; [done|].
  destruct (Hok eq_refl) as (Hh & Hs & Hnd & Hc & Hm). cbn [app] in *. rewrite Forall_forall in Hs.
  split_and!; try done.
  - unfold zlen in Hc. lia.
  - intros pt Hpt. destruct (ho_files _ _ _ _ Hh pt Hpt). split_and!; [by apply Hs|done|done].
  - apply Hh.
  - destruct (children fs1 ts) as [|x [|y l]] eqn:Ec; [by left| |by left]. right. by exists x.
Qed.

(** ** A concrete upload *)

Definition demo_dir : path := [chars_of "tmp"; chars_of "up"].
Definition demo_upload_fs : FS :=
  mkFS (<[[chars_of "tmp"] := NDir]> (<[demo_dir := NDir]> ∅)) (λ _, false).
Definition demo_part (name : string) : part :=
  mkPart name 8 false [mkIo false [Byte.x01; Byte.x02] (Some true) 2 false] true.

Example upload_examples :
  (upload (Some (abs_path demo_dir)) [demo_part "d/a"; demo_part "d/b"] true true false (λ _, false) demo_upload_fs).1
    = inr (chars_of "/tmp/up/d", 2) ∧
  (upload (Some (abs_path demo_dir)) [demo_part "../a"] true true false (λ _, false) demo_upload_fs).1 = inl UName ∧
  (upload (Some (abs_path demo_dir)) [demo_part "a"; demo_part "a"] true true false (λ _, false) demo_upload_fs).1 = inl UName ∧
  (upload (Some (abs_path demo_dir)) [demo_part "a"; demo_part "a/b"] true true false (λ _, false) demo_upload_fs).1 = inl UMkdir ∧
  (upload (Some (abs_path demo_dir)) [] true true false (λ _, false) demo_upload_fs).1 = inl UEmpty ∧
  let r kept := node_at (upload (Some (abs_path demo_dir)) [demo_part "a"; demo_part "../a"] true true false kept demo_upload_fs).2 in
  r (λ _, false) demo_dir = None ∧
  r (λ q, bool_decide (q = demo_dir ++ [chars_of "a"])) demo_dir = Some NDir.
Proof. vm_compute. split_and!; reflexivity. Qed.

Lemma demo_empty p : below demo_dir p → node_at demo_upload_fs p = None.
Proof.
  intros (x & Hx & ->). destruct x as [|y x]; [done|]. unfold demo_dir. cbn [app node_at].
  unfold demo_upload_fs. cbn [nodes]. rewrite !lookup_insert_ne; [apply lookup_empty|..]; intros E;
    apply (f_equal length) in E; cbn in E; lia.
Qed.

Lemma demo_workdir : workdir demo_dir demo_upload_fs.
Proof.
  split.
  - split.
    + apply fs_wfb_wf. vm_compute. reflexivity.
    + intros k Hk. cbn in Hk. destruct k as [|[|k]]; [vm_compute; reflexivity|vm_compute; reflexivity|lia].
    + vm_compute. reflexivity.
    + rewrite app_nil_r. repeat constructor; try done; apply (bool_decide_unpack _); vm_compute; exact I.
    + intros k Hk. cbn in Hk. lia.
  - intros p Hp. by rewrite demo_empty.
Qed.

Lemma upload_confined_witness :
  let r := upload (Some (abs_path demo_dir)) [demo_part "d/a"; demo_part "d/b"] true true false (λ _, false) demo_upload_fs in
  r.1 = inr (chars_of "/tmp/up/d", 2) ∧
  node_at r.2 (demo_dir ++ [chars_of "d"; chars_of "b"]) = Some (NFile [Byte.x01; Byte.x02] 0x1a4 true).
Proof.
  set (parts := [demo_part "d/a"; demo_part "d/b"]).
  destruct (upload (Some (abs_path demo_dir)) parts true true false (λ _, false) demo_upload_fs) as [res fs'] eqn:E.
  assert (res = inr (chars_of "/tmp/up/d", 2)) as Hr.
  { change res with (res, fs').1. rewrite <-E. vm_compute. reflexivity. }
  cbv zeta. cbn [fst snd]. split; [exact Hr|]. subst res.
  destruct (upload_confined demo_dir parts true true false (λ _, false) demo_upload_fs _ fs' demo_workdir ltac:(discriminate)
    demo_empty E) as (_ & _ & _ & _ & Hp & _).
  assert (demo_part "d/b" ∈ parts) as Hin by (right; left).
  destruct (Hp _ Hin) as (_ & _ & Hn). exact Hn.
Defined.
