(* ===== verification/Prepare.v ===== *)
(** * Preparing a source

    internal/transfer/files.go, [Prepare]: the file or the folder to distribute, as a
    manifest and, for a folder, an archive. [filepath.WalkDir] is the sequence of
    calls it makes, a directory before its entries and these by name; the archive
    writer of archive/tar keeps what is left of the entry being written. What an
    extraction of the archive restores is the folder. *)

From S2P Require Import Prelude Text Paths FileSys Transfer Extraction.
Local Open Scope list_scope.
Local Open Scope Z_scope.

(** ** Walking *)

Definition name_le (a b : chars) : Prop := String.ltb (string_of b) (string_of a) = false.

#[export] Instance name_le_dec : RelDecision name_le.
Proof. intros a b. unfold name_le. apply _. Defined.

(** The names in a directory, sorted, as [os.ReadDir] gives them. *)
Definition child_of (p : path) (kv : path * node) : option chars :=
  if decide (kv.1 ≠ [] ∧ parent_of kv.1 = p) then Some (last_elem kv.1) else None.

Definition children (fs : FS) (p : path) : list chars :=
  merge_sort name_le (omap (child_of p) (map_to_list (nodes fs))).

(** A call of the walk's function: an entry, by its elements below the source, and
    whether it is the second call for a directory, which could not be read. *)
Record call : Type := mkCall { c_rel : path; c_node : node; c_bad : bool }.

(** [filepath.WalkDir] below [base]; [fuel] bounds the depth. *)
Fixpoint walk_dir (fuel : nat) (unreadable : path → bool) (fs : FS) (base rel : path) (n : node)
    : list call :=
  mkCall rel n false ::
  match fuel, n with
  | S fuel', NDir =>
      if unreadable (base ++ rel) then [mkCall rel n true]
      else List.flat_map (λ x, match node_at fs (base ++ rel ++ [x]) with
                          | Some m => walk_dir fuel' unreadable fs base (rel ++ [x]) m
                          | None => []
                          end) (children fs (base ++ rel))
  | _, _ => []
  end.

(** ** The archive *)

(** An entry of the archive and what was written for it. *)
Record member : Type := mkMember { m_name : string; m_size : Z; m_dir : bool; m_data : bytes }.

(** One read of a file: how much it asks for, and what goes wrong: the context, the
    read, the write to the archive's file. *)
Record read_event : Type := mkRead { r_n : nat; r_done : bool; r_fail : bool; r_full : bool }.

(** The reads of a file with this content; they stop before its end only by a
    failure. [left] is what the archive still takes for this entry. *)
Fixpoint tar_events (left : Z) (d : bytes) (rs : list read_event) : list io_event :=
  match rs with
  | [] => match d with [] => [] | _ => [mkIo false [] (Some false) 0 false] end
  | r :: rest =>
      let data := take (r_n r) d in
      let n := zlen data in
      let over := left <? n in
      let w := if r_full r then 0 else Z.min n left in
      mkIo (r_done r) data (if r_fail r then Some false else None) (Z.to_nat w) (over || r_full r)
        :: tar_events (left - w) (drop (r_n r) d) rest
  end.

(** ** Prepare *)

Inductive p_error : Type :=
| PLstat | PSymlink | PName | PKind | PTemp | PCreate | PWalk | PContext | PInfo
| PSpecial | PRel | PInvalid (rel : chars) | PTooMany | PHeader | POpen | PCopy | PClose
| PTarClose | PStat.

(** What the system answers about one entry: the context, its information and mode
    bits, whether its header can be written, and the reads of its content. *)
Record entry_io : Type := mkEntryIo {
  v_done : bool; v_info : bool; v_mode : Z; v_header : bool; v_open : bool;
  v_last_done : bool; v_reads : list read_event; v_close : bool;
}.

(** The manifest so far, the archive so far, and what is missing of its last entry. *)
Record walk_state : Type := mkWalk { w_entries : list Entry; w_members : list member; w_left : Z }.

Definition perm_of (io : entry_io) (n : node) : Z :=
  Z.land (match n with NFile _ mode _ => mode | _ => v_mode io end) 0x1ff.

Definition size_of (n : node) : Z := match n with NFile d _ _ => zlen d | _ => 0 end.

Definition is_dir_node (n : node) : bool := match n with NDir => true | _ => false end.

(** The function of the walk; [p] is the path it is called with.
    internal/transfer/files.go:84-135 [Prepare] *)
Definition visit (source p : chars) (io : entry_io) (c : call) (st : walk_state)
    : option p_error * walk_state :=
  if c_bad c then (Some PWalk, st) else
  if v_done io then (Some PContext, st) else
  if negb (v_info io) then (Some PInfo, st) else
  match c_node c with
  | NLink _ | NOther => (Some PSpecial, st)
  | n =>
      match Rel (Dir source) p with
      | None => (Some PRel, st)
      | Some rel =>
          let name := string_of rel in
          if negb (SafeName name) then (Some (PInvalid rel), st) else
          if MaxEntries <=? zlen (w_entries st) then (Some PTooMany, st) else
          let e := mkEntry name (size_of n) (is_dir_node n) (perm_of io n) in
          let st1 := mkWalk (w_entries st ++ [e]) (w_members st) (w_left st) in
          if negb (v_header io) || negb (w_left st =? 0) then (Some PHeader, st1) else
          let m data := mkMember name (size_of n) (is_dir_node n) data in
          match n with
          | NFile d _ _ =>
              if negb (v_open io)
              then (Some POpen, mkWalk (w_entries st1) (w_members st ++ [m []]) (size_of n)) else
              let '(total, err, out) :=
                CopyContext (v_last_done io) (tar_events (size_of n) d (v_reads io)) 0 [] in
              let st2 := mkWalk (w_entries st1) (w_members st ++ [m out]) (size_of n - zlen out) in
              if bool_decide (err ≠ None) then (Some PCopy, st2) else
              (if v_close io then None else Some PClose, st2)
          | _ => (None, mkWalk (w_entries st1) (w_members st ++ [m []]) 0)
          end
      end
  end.

(** [filepath.Join] of the source and the names below it. *)
Definition join_rel (source : chars) (rel : path) : chars := foldl Join source rel.

Fixpoint visit_all (source : chars) (ios : path → entry_io) (cs : list call) (st : walk_state)
    : option p_error * walk_state :=
  match cs with
  | [] => (None, st)
  | c :: rest =>
      match visit source (join_rel source (c_rel c)) (ios (c_rel c)) c st with
      | (Some e, st') => (Some e, st')
      | (None, st') => visit_all source ios rest st'
      end
  end.

(** [s_cleanup]: the temporary directory to remove.
    internal/transfer/files.go:24-31 [Source] *)
Record Source : Type := mkSource {
  s_Path : chars; s_Name : string; s_Size : Z; s_Archive : bool; s_Entries : list Entry;
  s_cleanup : option chars;
}.

(** The temporary directories there are afterwards.
    internal/transfer/files.go:33-37 [Close] *)
Definition close_source (s : Source) (temps : list chars) : list chars :=
  match s_cleanup s with
  | Some d => filter (λ t, t ≠ d) temps
  | None => temps
  end.

(** What the system answers around the walk. *)
Record prepare_io : Type := mkPrepareIo {
  i_temp : option chars; i_create : bool; i_unreadable : path → bool; i_entry : path → entry_io;
  i_tar_close : bool; i_stat : option Z; i_size : Z;
}.

Definition file_name (p : chars) : chars := match p with [] => dot | _ => Base p end.

(** The source with its archive, and the temporary directories left behind; the
    archive's writer cannot be closed on an incomplete entry.
    internal/transfer/files.go:41-149 [Prepare] *)
Definition Prepare (cwd : chars) (io : prepare_io) (fs : FS) (source : chars) (temps : list chars)
    : res p_error (Source * list member) * list chars :=
  let source := Abs cwd source in
  match Lstat fs (elems_of source) with
  | Found (NLink _) => (Err PSymlink, temps)
  | Found n =>
      let name := string_of (file_name source) in
      if negb (SafeName name) then (Err PName, temps) else
      match n with
      | NFile d mode _ =>
          (Ok (mkSource source name (zlen d) false
                 [mkEntry name (zlen d) false (Z.land mode 0x1ff)] None, []), temps)
      | NDir =>
          match i_temp io with
          | None => (Err PTemp, temps)
          | Some temp =>
              let s := mkSource (Join temp (chars_of name ++ chars_of ".gosilver.tar")) name (i_size io)
                         true [] (Some temp) in
              let fail e := (Err e, close_source s (temp :: temps)) in
              if negb (i_create io) then fail PCreate else
              let base := default [] (place fs (elems_of source)) in
              let calls := walk_dir (size (nodes fs)) (i_unreadable io) fs base [] n in
              match visit_all source (i_entry io) calls (mkWalk [] [] 0) with
              | (Some e, _) => fail e
              | (None, st) =>
                  if negb (i_tar_close io) || negb (w_left st =? 0) then fail PTarClose else
                  match i_stat io with
                  | None => fail PStat
                  | Some size =>
                      (Ok (mkSource (s_Path s) name size true (w_entries st) (Some temp), w_members st),
                       temp :: temps)
                  end
              end
          end
      | _ => (Err PKind, temps)
      end
  | _ => (Err PLstat, temps)
  end.

(** ** The walk visits the tree, each place once *)

(** Names are elements of paths. *)
Definition fs_named (fs : FS) : Prop := ∀ p n, nodes fs !! p = Some n → Forall normal_elem p.

Lemma node_at_nodes fs p n : p ≠ [] → node_at fs p = Some n ↔ nodes fs !! p = Some n.
Proof. by destruct p. Qed.

Lemma child_of_spec p kv x : child_of p kv = Some x ↔ kv.1 = p ++ [x].
Proof.
  unfold child_of. case_decide as H; split.
  - destruct H as [Hne <-]. intros [= <-]. by rewrite parent_last.
  - intros E. rewrite E. unfold last_elem. by rewrite List.last_last.
  - done.
  - intros E. destruct H. rewrite E, parent_of_snoc. split; [by destruct p|done].
Qed.

Lemma children_spec fs p x : x ∈ children fs p ↔ is_Some (nodes fs !! (p ++ [x])).
Proof.
  unfold children. rewrite merge_sort_Permutation, list_elem_of_omap. split.
  - intros ([q n] & Hin & Hc). apply child_of_spec in Hc as Hq. cbn in Hq. subst q.
    apply elem_of_map_to_list in Hin. by exists n.
  - intros [n Hn]. exists (p ++ [x], n). split; [by apply elem_of_map_to_list|by apply child_of_spec].
Qed.

Lemma children_NoDup fs p : NoDup (children fs p).
Proof.
  unfold children. rewrite merge_sort_Permutation.
  assert (NoDup (map_to_list (nodes fs)).*1) as Hnd by apply NoDup_fst_map_to_list.
  induction (map_to_list (nodes fs)) as [|kv l IH]; [constructor|]. cbn in Hnd.
  apply NoDup_cons in Hnd as [Hni Hnd]. cbn. destruct (child_of p kv) as [x|] eqn:Hc; [|by apply IH].
  apply NoDup_cons. split; [|by apply IH]. intros (kv' & Hin & Hc')%list_elem_of_omap.
  apply child_of_spec in Hc, Hc'. apply Hni. rewrite Hc, <-Hc'. apply list_elem_of_fmap. by exists kv'.
Qed.

Section walking.
Context (u : path → bool) (fs : FS) (base : path).
Hypothesis Hwf : fs_wf fs.

Definition place_ok (c : call) : Prop := node_at fs (base ++ c_rel c) = Some (c_node c).

Lemma child_node rel x :
  x ∈ children fs (base ++ rel) → is_Some (node_at fs (base ++ rel ++ [x])).
Proof.
  intros (n & Hn)%children_spec. exists n. rewrite app_assoc. apply node_at_nodes; [|done].
  by destruct (base ++ rel).
Qed.

(** Every call is about a node of the tree below [rel]. *)
Lemma walk_sound fuel rel n c :
  node_at fs (base ++ rel) = Some n → c ∈ walk_dir fuel u fs base rel n →
  place_ok c ∧ ∃ t, c_rel c = rel ++ t.
Proof.
  revert rel n c. induction fuel as [|fuel IH]; intros rel n c Hn; cbn [walk_dir].
  { intros ->%list_elem_of_singleton. split; [done|]. exists []. by rewrite app_nil_r. }
  intros [->|Hin]%elem_of_cons; [split; [done|]; exists []; by rewrite app_nil_r|].
  destruct n; try by apply not_elem_of_nil in Hin.
  destruct (u (base ++ rel)).
  { apply list_elem_of_singleton in Hin as ->. split; [done|]. exists []. by rewrite app_nil_r. }
  apply list_elem_of_In, List.in_flat_map in Hin as (x & Hx & Hc). apply list_elem_of_In in Hx.
  destruct (child_node _ _ Hx) as [m Hm]. rewrite Hm in Hc. apply list_elem_of_In in Hc.
  destruct (IH _ _ _ Hm Hc) as [Hp (t & Ht)]. split; [done|]. exists (x :: t).
  by rewrite Ht, <-app_assoc.
Qed.

(** With every directory read, every node below is visited. *)
Lemma walk_complete fuel rel n t m :
  node_at fs (base ++ rel) = Some n → node_at fs (base ++ rel ++ t) = Some m →
  (length t ≤ fuel)%nat → Forall (λ c, c_bad c = false) (walk_dir fuel u fs base rel n) →
  mkCall (rel ++ t) m false ∈ walk_dir fuel u fs base rel n.
Proof.
  revert rel n t. induction fuel as [|fuel IH]; intros rel n t Hn Hm Hlen Hgood;
    (destruct t as [|x t]; [rewrite app_nil_r in *; rewrite Hn in Hm; injection Hm as ->; by left|]).
  { cbn in Hlen. lia. }
  assert (n = NDir) as ->.
  { pose proof (fs_wf_dirs _ _ _ Hwf Hm (length (base ++ rel))) as Hd.
    rewrite app_assoc, take_app_length in Hd. unfold is_dir in Hd.
    rewrite Hd in Hn; [by injection Hn|]. rewrite !length_app. cbn. lia. }
  cbn [walk_dir] in *. apply elem_of_cons. right. apply Forall_cons in Hgood as [_ Hgood].
  destruct (u (base ++ rel)); [by apply Forall_cons in Hgood as [? _]|].
  assert (is_Some (node_at fs (base ++ rel ++ [x]))) as [k Hk].
  { destruct t as [|y t]; [by rewrite Hm|]. eexists.
    pose proof (fs_wf_dirs _ _ _ Hwf Hm (length (base ++ rel ++ [x]))) as Hd.
    replace (base ++ rel ++ x :: y :: t) with ((base ++ rel ++ [x]) ++ y :: t) in Hd
      by (by rewrite <-!app_assoc). rewrite take_app_length in Hd. apply Hd.
    rewrite !length_app. cbn. lia. }
  apply list_elem_of_In, List.in_flat_map. exists x. split.
  { apply list_elem_of_In, children_spec. exists k. rewrite <-app_assoc. apply node_at_nodes; [|done].
    by destruct base, rel. }
  rewrite Hk. apply list_elem_of_In. replace (rel ++ x :: t) with ((rel ++ [x]) ++ t) by by rewrite <-app_assoc.
  apply IH; [done| |cbn in Hlen; lia|].
  - by rewrite <-app_assoc.
  - apply Forall_forall. intros c Hc. rewrite Forall_forall in Hgood. apply Hgood.
    apply list_elem_of_In, List.in_flat_map. exists x. split.
    + apply list_elem_of_In, children_spec. exists k. rewrite <-app_assoc. apply node_at_nodes; [|done].
      by destruct base, rel.
    + rewrite Hk. by apply list_elem_of_In.
Qed.

(** No place is visited twice. *)
Lemma walk_distinct fuel rel n :
  node_at fs (base ++ rel) = Some n → Forall (λ c, c_bad c = false) (walk_dir fuel u fs base rel n) →
  NoDup (c_rel <$> walk_dir fuel u fs base rel n).
Proof.
  revert rel n. induction fuel as [|fuel IH]; intros rel n Hn Hgood; cbn [walk_dir] in *.
  { apply NoDup_singleton. }
  destruct n; try apply NoDup_singleton. apply Forall_cons in Hgood as [_ Hgood].
  destruct (u (base ++ rel)); [by apply Forall_cons in Hgood as [? _]|].
  cbn [fmap list_fmap]. change (c_rel (mkCall rel NDir false)) with rel.
  set (sub x := match node_at fs (base ++ rel ++ [x]) with
                | Some m => walk_dir fuel u fs base (rel ++ [x]) m | None => [] end) in *.
  assert (∀ x c, x ∈ children fs (base ++ rel) → c ∈ sub x → ∃ t, c_rel c = rel ++ x :: t) as Hsub.
  { intros x c Hx Hc. destruct (child_node _ _ Hx) as [m Hm]. unfold sub in Hc. rewrite Hm in Hc.
    destruct (walk_sound _ _ _ _ Hm Hc) as [_ (t & Ht)]. exists t. by rewrite Ht, <-app_assoc. }
  apply NoDup_cons. split.
  - intros (c & Hr & Hc)%list_elem_of_fmap. apply list_elem_of_In, List.in_flat_map in Hc as (x & Hx & Hc).
    apply list_elem_of_In in Hx, Hc. destruct (Hsub x c Hx Hc) as [t Ht]. rewrite Ht in Hr.
    rewrite <-(app_nil_r rel) in Hr at 1. by apply app_inv_head in Hr.
  - assert (∀ x, x ∈ children fs (base ++ rel) → NoDup (c_rel <$> sub x)) as Hnd.
    { intros x Hx. destruct (child_node _ _ Hx) as [m Hm]. unfold sub. rewrite Hm. apply IH; [done|].
      apply Forall_forall. intros c Hc. rewrite Forall_forall in Hgood. apply Hgood.
      apply list_elem_of_In, List.in_flat_map. exists x. unfold sub. rewrite Hm.
      split; by apply list_elem_of_In. }
    pose proof (children_NoDup fs (base ++ rel)) as Hch. clear Hgood. revert Hsub Hnd Hch.
    generalize (children fs (base ++ rel)). intros l Hsub Hnd Hch.
    induction l as [|x l IHl]; [constructor|]. cbn [List.flat_map]. rewrite fmap_app.
    apply NoDup_cons in Hch as [Hx Hch]. apply NoDup_app. split_and!.
    + apply Hnd. by left.
    + intros p (c & Hp & Hc)%list_elem_of_fmap (c' & Hp' & Hc')%list_elem_of_fmap.
      apply list_elem_of_In, List.in_flat_map in Hc' as (y & Hy & Hc'). apply list_elem_of_In in Hy, Hc'.
      destruct (Hsub x c) as [t Ht]; [by left|done|].
      destruct (Hsub y c') as [t' Ht']; [by right|done|]. rewrite Hp, Ht, Ht' in Hp'.
      apply app_inv_head in Hp'. by injection Hp' as -> _.
    + apply IHl; [|intros; apply Hnd; by right|done]. intros y c Hy. apply Hsub. by right.
Qed.
End walking.

(** The fuel is enough: a node lies no deeper than there are nodes. *)
Lemma depth_bound fs p n : fs_wf fs → node_at fs p = Some n → (length p ≤ size (nodes fs))%nat.
Proof.
  intros Hwf Hp. pose proof (fs_wf_dirs _ _ _ Hwf Hp) as Hd.
  set (ps := (λ k, take (S k) p) <$> seq 0 (length p)).
  assert (length ps = length p) as <- by by (unfold ps; rewrite length_fmap, length_seq).
  assert (NoDup ps) as Hnd.
  { apply NoDup_fmap_2_strong; [|apply NoDup_seq]. intros i j Hi Hj E.
    apply elem_of_seq in Hi, Hj. apply (f_equal length) in E. rewrite !length_take in E. lia. }
  rewrite <-(size_dom (nodes fs)). rewrite <-(size_list_to_set (C := gset path) ps) by done.
  apply subseteq_size. intros q Hq. apply elem_of_list_to_set in Hq.
  apply list_elem_of_fmap in Hq as (k & -> & Hk). apply elem_of_seq in Hk. apply elem_of_dom.
  assert (take (S k) p ≠ []) as Hne by (destruct p; [cbn in Hk; lia|done]).
  destruct (decide (S k = length p)) as [E|].
  - rewrite E, firstn_all in *. exists n. by apply node_at_nodes.
  - exists NDir. apply node_at_nodes; [done|]. apply Hd. lia.
Qed.

(** ** What is recorded *)

Definition content (n : node) : bytes := match n with NFile d _ _ => d | _ => [] end.

(** [x] is the source's own name. *)
Record recorded (x : chars) (ios : path → entry_io) (c : call) (e : Entry) (m : member) : Prop := {
  rc_name : name_elems (e_Name e) = x :: c_rel c;
  rc_safe : SafeName (e_Name e) = true;
  rc_size : e_Size e = size_of (c_node c);
  rc_dir : e_Dir e = is_dir_node (c_node c);
  rc_mode : e_Mode e = perm_of (ios (c_rel c)) (c_node c);
  rc_kind : match c_node c with NDir | NFile _ _ _ => True | _ => False end;
  rc_member : m = mkMember (e_Name e) (e_Size e) (e_Dir e) (content (c_node c));
  rc_good : c_bad c = false;
}.

(** A copy into the archive without error is a copy of the whole file. *)
Lemma tar_copy ld rs left d total out total' out' :
  CopyContext ld (tar_events left d rs) total out = (total', None, out') → out' = out ++ d.
Proof.
  revert left d total out. induction rs as [|r rs IH]; intros left d total out; cbn [tar_events].
  { destruct d as [|b d]; cbn; [|done]. destruct ld; [done|]. intros [= _ <-]. by rewrite app_nil_r. }
  cbn [CopyContext io_done io_data io_written io_werr io_err].
  destruct (r_done r); [done|]. set (data := take (r_n r) d).
  destruct (if (0 <? length data)%nat then _ else _) as [t o] eqn:Hto.
  destruct ((0 <? length data)%nat && _) eqn:Hw; [done|].
  destruct ((0 <? length data)%nat && negb _) eqn:Hshort; [done|].
  destruct (r_fail r); [done|]. intros Hc. rewrite (IH _ _ _ _ Hc).
  assert (o = out ++ data) as ->.
  { destruct (Nat.ltb_spec 0 (length data)) as [Hpos|Hz].
    - cbn [andb] in Hshort. apply negb_false_iff, Nat.eqb_eq in Hshort. rewrite Hshort in Hto.
      injection Hto as _ <-. by rewrite firstn_all.
    - injection Hto as _ <-. destruct data; [by rewrite app_nil_r|cbn in Hz; lia]. }
  rewrite <-app_assoc. f_equal. unfold data. apply take_drop.
Qed.

Lemma Rel_below rs es :
  Forall normal_elem rs → Forall normal_elem es → es ≠ [] →
  Rel (abs_path rs) (abs_path (rs ++ es)) = Some (join_slash es).
Proof.
  intros Hr He Hne. assert (Forall normal_elem (rs ++ es)) as Hre by by apply Forall_app.
  unfold Rel. rewrite !Clean_abs_path by done. rewrite decide_False.
  - change (Bool.eqb _ _) with true. cbn [negb]. by rewrite !elems_abs_path, strip_common_self.
  - intros E%abs_path_inj; [|done|done]. rewrite <-(app_nil_r rs) in E at 2. by apply app_inv_head in E.
Qed.

Lemma join_rel_spec es rel :
  Forall normal_elem es → Forall normal_elem rel → join_rel (abs_path es) rel = abs_path (es ++ rel).
Proof. apply foldl_Join. Qed.

Lemma visit_recorded ss x ios c st st' :
  Forall normal_elem ss → normal_elem x → Forall normal_elem (c_rel c) →
  visit (abs_path (ss ++ [x])) (join_rel (abs_path (ss ++ [x])) (c_rel c)) (ios (c_rel c)) c st = (None, st') →
  zlen (w_entries st) < MaxEntries ∧ ∃ e m, recorded x ios c e m ∧
    w_entries st' = w_entries st ++ [e] ∧ w_members st' = w_members st ++ [m].
Proof.
  intros Hss Hx Hr. assert (Forall normal_elem (ss ++ [x])) as Hsx
    by (apply Forall_app; split; [done|by apply Forall_singleton]).
  rewrite join_rel_spec by done. unfold visit. rewrite Dir_abs_path by done.
  rewrite <-app_assoc. change ([x] ++ c_rel c) with (x :: c_rel c).
  rewrite Rel_below by (done || by constructor).
  destruct (c_bad c) eqn:Hbad; [done|]. destruct (v_done _); [done|]. destruct (v_info _); [|done]. cbn [negb].
  assert (name_elems (string_of (join_slash (x :: c_rel c))) = x :: c_rel c) as Hname.
  { unfold name_elems. rewrite chars_of_string, split_join; [done|done|].
    apply normal_no_slash. by constructor. }
  destruct (c_node c) as [|d mode wr|target|] eqn:Hn; try done.
  all: destruct (SafeName _) eqn:Hsafe; [|done]; cbn [negb].
  all: destruct (Z.leb_spec MaxEntries (zlen (w_entries st))); [done|].
  all: destruct (negb _ || negb _); [done|].
  - intros [= <-]. split; [done|]. eexists _, _. split; [|by cbn].
    split; cbn [e_Name e_Size e_Dir e_Mode]; rewrite ?Hn; done.
  - destruct (v_open _); [|done]. cbn [negb].
    destruct (CopyContext _ _ _ _) as [[total err] out] eqn:Hc. destruct err; [done|].
    rewrite bool_decide_false by by intros []. destruct (v_close _); [|done]. intros [= <-]. split; [done|].
    apply tar_copy in Hc as ->. eexists _, _. split; [|by cbn]. split; cbn [e_Name e_Size e_Dir e_Mode]; rewrite ?Hn; done.
Qed.

Lemma visit_all_recorded ss x ios cs st st' :
  Forall normal_elem ss → normal_elem x → Forall (λ c, Forall normal_elem (c_rel c)) cs →
  visit_all (abs_path (ss ++ [x])) ios cs st = (None, st') → zlen (w_entries st) ≤ MaxEntries →
  zlen (w_entries st') ≤ MaxEntries ∧ ∃ es ms,
    w_entries st' = w_entries st ++ es ∧ w_members st' = w_members st ++ ms ∧
    Forall3 (recorded x ios) cs es ms.
Proof.
  intros Hss Hx Hcs. revert st. induction Hcs as [|c cs Hc Hcs IH]; intros st; cbn [visit_all].
  { intros [= <-] ?. split; [done|]. exists [], []. rewrite !app_nil_r. split_and!; constructor || done. }
  destruct (visit _ _ _ _ _) as [[e|] st1] eqn:Hv; [done|].
  destruct (visit_recorded _ _ _ _ _ _ Hss Hx Hc Hv) as (Hlt & e & m & Hrec & He & Hm).
  intros Hrest _. destruct (IH st1 Hrest) as (Hle & es & ms & He' & Hm' & H3).
  { rewrite He, zlen_app. unfold zlen in *. cbn. lia. }
  split; [done|]. exists (e :: es), (m :: ms). rewrite He', Hm', He, Hm, <-!app_assoc.
  split_and!; [done|done|by constructor].
Qed.

Lemma Forall3_right {A B C} (R : A → B → C → Prop) l k m y :
  Forall3 R l k m → y ∈ k → ∃ x z, x ∈ l ∧ z ∈ m ∧ R x y z.
Proof.
  induction 1 as [|x0 y0 z0 l k m HR _ IH]; [by intros ?%not_elem_of_nil|].
  intros [->|Hy]%elem_of_cons; [exists x0, z0; split_and!; (by left) || done|].
  destruct (IH Hy) as (x & z & ? & ? & ?). exists x, z. split_and!; (by right) || done.
Qed.

Lemma Forall3_rotate {A B C} (R : A → B → C → Prop) l k m :
  Forall3 R l k m → Forall3 (λ y x z, R x y z) k l m ∧ Forall3 (λ x z y, R x y z) l m k.
Proof. induction 1 as [|???????? [? ?]]; split; by constructor. Qed.

Lemma Forall3_Forall2 {A B C} (R : A → B → C → Prop) (S : B → C → Prop) l k m :
  (∀ x y z, x ∈ l → R x y z → S y z) → Forall3 R l k m → Forall2 S k m.
Proof.
  intros HS. induction 1 as [|x y z l k m HR H3 IH]; constructor.
  - eapply HS; [by left|done].
  - apply IH. intros x' y' z' Hx. apply HS. by right.
Qed.

(** The manifest of the tree at [base], distributed under the name [x]. *)
Record manifest_of (fs : FS) (base : path) (x : chars) (entries : list Entry) : Prop := {
  mf_distinct : NoDup (e_Name <$> entries);
  mf_max : zlen entries ≤ MaxEntries;
  mf_tree rel n : node_at fs (base ++ rel) = Some n →
    ∃ e, e ∈ entries ∧ name_elems (e_Name e) = x :: rel;
  mf_entry e : e ∈ entries → SafeName (e_Name e) = true ∧ ∃ rel n,
    name_elems (e_Name e) = x :: rel ∧ node_at fs (base ++ rel) = Some n ∧
    e_Size e = size_of n ∧ e_Dir e = is_dir_node n ∧
    match n with NDir => True | NFile _ mode _ => e_Mode e = Z.land mode 0x1ff | _ => False end;
}.

(** An archive of it: the same entries, and the contents of the files. *)
Definition archive_of (fs : FS) (base : path) (x : chars) (entries : list Entry) (ms : list member)
    : Prop :=
  Forall2 (λ e m, ∀ rel n, name_elems (e_Name e) = x :: rel → node_at fs (base ++ rel) = Some n →
    m = mkMember (e_Name e) (e_Size e) (e_Dir e) (content n)) entries ms.

Lemma recorded_manifest u fs base x ios es ms fuel :
  fs_wf fs → is_dir fs base → (∀ rel n, node_at fs (base ++ rel) = Some n → (length rel ≤ fuel)%nat) →
  zlen es ≤ MaxEntries →
  Forall3 (recorded x ios) (walk_dir fuel u fs base [] NDir) es ms →
  manifest_of fs base x es ∧ archive_of fs base x es ms.
Proof.
  intros Hwf Hd Hfuel Hmax H3. set (cs := walk_dir fuel u fs base [] NDir) in *.
  assert (node_at fs (base ++ []) = Some NDir) as Hb by by rewrite app_nil_r.
  pose proof (Forall3_rotate _ _ _ _ H3) as [Hr1 Hr2].
  assert (Forall (λ c, c_bad c = false) cs) as Hgood.
  { apply Forall_forall. intros c Hc. destruct (Forall3_right _ _ _ _ c Hr1 Hc) as (? & ? & _ & _ & []). done. }
  assert (∀ c, c ∈ cs → node_at fs (base ++ c_rel c) = Some (c_node c)) as Hsound.
  { intros c Hc. by destruct (walk_sound u fs base fuel [] NDir c Hb Hc) as [? _]. }
  split; [split|].
  - pose proof (walk_distinct u fs base fuel [] NDir Hb Hgood) as Hnd. fold cs in Hnd.
    clear Hr1 Hr2 Hsound Hgood Hmax. induction H3 as [|c e m cs' es' ms' Hrec H3 IH]; [constructor|].
    cbn in *. apply NoDup_cons in Hnd as [Hc Hnd]. apply NoDup_cons. split; [|by apply IH].
    intros (e' & Hname & He')%list_elem_of_fmap. apply Hc.
    destruct (Forall3_right _ _ _ _ e' H3 He') as (c' & m' & Hc' & _ & Hrec').
    apply list_elem_of_fmap. exists c'. split; [|done].
    destruct Hrec as [Hn1 _ _ _ _ _ _ _], Hrec' as [Hn2 _ _ _ _ _ _ _]. rewrite Hname in Hn1. congruence.
  - done.
  - intros rel n Hn.
    pose proof (walk_complete u fs base Hwf fuel [] NDir rel n Hb Hn (Hfuel _ _ Hn) Hgood) as Hc.
    destruct (Forall3_right _ _ _ _ _ Hr1 Hc) as (e & m & He & _ & []). by exists e.
  - intros e He. destruct (Forall3_right _ _ _ _ _ H3 He) as (c & m & Hc & _ & Hrec).
    specialize (Hsound c Hc). destruct Hrec. split; [done|]. exists (c_rel c), (c_node c).
    split_and!; try done. unfold perm_of in *. destruct (c_node c); done.
  - eapply Forall3_Forall2; [|exact H3]. intros c e m Hc [Hname _ _ _ _ _ Hm _] rel n Hrel Hn.
    rewrite Hname in Hrel. injection Hrel as <-. specialize (Hsound c Hc). congruence.
Qed.

Lemma manifest_ok fs base x es :
  fs_wf fs → is_Some (node_at fs base) → manifest_of fs base x es → total_size es ≤ PiB → entries_ok es.
Proof.
  intros Hwf [n0 Hn0] [Hd Hmax Htree Hent] Htot. split; try done.
  - intros ->. destruct (Htree [] n0) as (e & He & _); [by rewrite app_nil_r|].
    by apply not_elem_of_nil in He.
  - apply Forall_forall. intros e He. destruct (Hent e He) as (Hs & rel & n & _ & _ & Hsz & Hdir & Hk).
    split; [done|]. rewrite Hsz, Hdir. destruct n; cbn; try done. split; [apply zlen_nonneg|done].
  - intros e f He Hf (t & Hne & Hanc).
    destruct (Hent e He) as (_ & rel & n & Hrel & Hn & _).
    destruct (Hent f Hf) as (_ & rel' & n' & Hrel' & Hn' & _ & -> & _).
    rewrite Hrel, Hrel' in Hanc. injection Hanc as ->.
    pose proof (fs_wf_dirs _ _ _ Hwf Hn (length (base ++ rel'))) as Hdir.
    rewrite app_assoc, take_app_length in Hdir. unfold is_dir in Hdir.
    rewrite Hdir in Hn'; [by injection Hn' as <-|]. rewrite !length_app. destruct t; [done|]. cbn. lia.
Qed.

Lemma Lstat_place fs p n :
  p ≠ [] → Lstat fs p = Found n → ∃ q, place fs p = Some q ∧ node_at fs q = Some n ∧ q ≠ [].
Proof.
  intros Hne. unfold Lstat, place. destruct p as [|y p]; [done|].
  destruct (namei max_links fs [] (parent_of (y :: p))) as [q| |]; try done.
  destruct (node_at fs q) as [[]|]; try done. unfold last_elem.
  destruct (denied fs _); [done|]. destruct (node_at fs (q ++ _)) eqn:Hn; [|done].
  intros [= ->]. eexists. split; [done|]. split; [done|by destruct q].
Qed.

Lemma file_manifest fs base x d mode w :
  fs_wf fs → node_at fs base = Some (NFile d mode w) → normal_elem x → SafeName (string_of x) = true →
  manifest_of fs base x [mkEntry (string_of x) (zlen d) false (Z.land mode 0x1ff)].
Proof.
  intros Hwf Hn Hx Hsafe.
  assert (name_elems (string_of x) = [x]) as Hname.
  { unfold name_elems. rewrite chars_of_string. apply split_no_slash. by destruct Hx as (_ & _ & _ & ?). }
  split.
  - apply NoDup_singleton.
  - done.
  - intros rel n Hrel. destruct rel as [|y rel].
    + eexists. split; [by left|]. done.
    + pose proof (fs_wf_dirs _ _ _ Hwf Hrel (length base)) as Hd. rewrite take_app_length in Hd.
      unfold is_dir in Hd. rewrite Hd in Hn; [done|]. rewrite length_app. cbn. lia.
  - intros e ->%list_elem_of_singleton. split; [done|]. exists [], (NFile d mode w).
    rewrite app_nil_r. split_and!; done.
Qed.

Lemma Prepare_spec cwd io fs source temps s ms temps' :
  fs_wf fs → fs_named fs → IsAbs cwd = true →
  Prepare cwd io fs source temps = (Ok (s, ms), temps') →
  ∃ x base n, s_Name s = string_of x ∧ last_elem (elems_of (Abs cwd source)) = x ∧
    place fs (elems_of (Abs cwd source)) = Some base ∧ node_at fs base = Some n ∧
    s_Archive s = is_dir_node n ∧ manifest_of fs base x (s_Entries s) ∧
    (s_Archive s = true → archive_of fs base x (s_Entries s) ms).
Proof.
  intros Hwf Hnm Hcwd. unfold Prepare. destruct (elems_Abs cwd source Hcwd) as (es & Habs & Hes & Hel).
  rewrite Hel, Habs. destruct es as [|x ss _] using rev_ind; [done|].
  assert (ss ++ [x] ≠ []) as Hne by by destruct ss.
  destruct (Lstat fs (ss ++ [x])) as [n| |] eqn:Hl; try done.
  destruct (Lstat_place _ _ _ Hne Hl) as (base & Hp & Hn & Hbne).
  apply Forall_app in Hes as [Hss Hx]. apply Forall_cons in Hx as [Hx _].
  assert (file_name (abs_path (ss ++ [x])) = x) as ->.
  { unfold file_name. rewrite <-(Base_abs_path ss x Hx) at 2. done. }
  assert (last_elem (ss ++ [x]) = x) as Hlast by (unfold last_elem; by rewrite List.last_last).
  destruct n as [|d mode w|target|]; try done.
  2:{ destruct (SafeName (string_of x)) eqn:Hs; [|done]. cbn [negb]. intros [= <- <- <-].
      exists x, base, (NFile d mode w). split_and!; try done. by apply (file_manifest _ _ _ _ _ w). }
  2:{ destruct (SafeName (string_of x)); done. }
  destruct (SafeName (string_of x)) eqn:Hs; [|done]. cbn [negb].
  destruct (i_temp io) as [temp|]; [|done]. destruct (i_create io); [|done]. cbn [negb].
  rewrite Hp. cbn [default].
  destruct (visit_all _ _ _ _) as [[e|] st] eqn:Hv; [done|].
  destruct (negb _ || negb _); [done|]. destruct (i_stat io); [|done]. intros [= <- <- _].
  assert (Forall (λ c, Forall normal_elem (c_rel c))
    (walk_dir (size (nodes fs)) (i_unreadable io) fs base [] NDir)) as Hcs.
  { apply Forall_forall. intros c Hc.
    destruct (walk_sound (i_unreadable io) fs base _ [] NDir c ltac:(by rewrite app_nil_r) Hc) as [Hpl _].
    unfold place_ok in Hpl. apply node_at_nodes in Hpl; [|by destruct base].
    by apply Hnm, Forall_app in Hpl as [_ ?]. }
  destruct (visit_all_recorded _ _ _ _ _ _ Hss Hx Hcs Hv) as (Hmax & es & ms' & He & Hm & H3); [done|].
  cbn in He, Hm. exists x, base, NDir. cbn [s_Name s_Archive s_Entries]. rewrite He, Hm.
  rewrite He in Hmax.
  assert (∀ rel n, node_at fs (base ++ rel) = Some n → (length rel ≤ size (nodes fs))%nat) as Hdepth.
  { intros rel n Hrel. pose proof (depth_bound _ _ _ Hwf Hrel) as Hb. rewrite length_app in Hb. lia. }
  destruct (recorded_manifest _ _ _ _ _ _ _ _ Hwf Hn Hdepth Hmax H3)
    as [Hmf Har].
  split_and!; done.
Qed.

(** A failed preparation leaves no temporary directory behind. *)
Lemma Prepare_cleans cwd io fs source temps e temps' :
  (∀ t, i_temp io = Some t → t ∉ temps) →
  Prepare cwd io fs source temps = (Err e, temps') → temps' = temps.
Proof.
  intros Hfresh. unfold Prepare. destruct (Lstat _ _) as [n| |]; try (by intros [= _ <-]).
  destruct n; try (by intros [= _ <-]); destruct (negb (SafeName _)); try (by intros [= _ <-]).
  destruct (i_temp io) as [t|]; [|by intros [= _ <-]]. specialize (Hfresh t eq_refl).
  unfold close_source. cbn [s_cleanup]. rewrite filter_cons_False by (intros H; by apply H).
  assert (filter (λ t', t' ≠ t) temps = temps) as ->.
  { clear -Hfresh. induction temps as [|t' l IH]; [done|]. apply not_elem_of_cons in Hfresh as [Ht Hl].
    rewrite filter_cons_True by done. by rewrite IH. }
  destruct (negb (i_create io)); [by intros [= _ <-]|].
  destruct (visit_all _ _ _ _) as [[?|] st]; [by intros [= _ <-]|].
  destruct (negb _ || negb _); [by intros [= _ <-]|]. destruct (i_stat io); [done|by intros [= _ <-]].
Qed.

(** What the archive reader gives back for what was written: the header, and the
    content as far as it is read to its end. *)
Definition reads_back (m : member) (h : tar_entry) : Prop :=
  string_of (trim_slash (chars_of (h_Name h))) = m_name m ∧ h_Size h = m_size m ∧
  is_dir_type (h_Type h) = m_dir m ∧ (copied h → body h = m_data m).

Lemma restored fs base x es ms hs fs' rs ts es' rel n :
  manifest_of fs base x es → archive_of fs base x es ms → Forall2 reads_back ms hs →
  es' ≡ₚ es → all_done fs' rs ts hs es' → node_at fs (base ++ rel) = Some n →
  node_at fs' (rs ++ ts ++ x :: rel) = match n with
    | NFile d mode _ => Some (NFile d (Z.land mode 0x1ed) true)
    | _ => Some NDir
    end.
Proof.
  intros [Hnd _ Htree Hent] Har Hrb Hperm Hdone Hn. destruct (Htree rel n Hn) as (e & He & Hname).
  destruct (Hent e He) as (_ & rel' & n' & Hname' & Hn' & Hsize & Hdir & Hmode).
  rewrite Hname in Hname'. injection Hname' as <-. rewrite Hn in Hn'. injection Hn' as <-.
  assert (∃ m h e', m = mkMember (e_Name e) (e_Size e) (e_Dir e) (content n) ∧ reads_back m h ∧
    e' ∈ es' ∧ announces h e' ∧ entry_done fs' rs ts h e') as (m & h & e' & Hm & Hrbh & He' & Ha & Hd).
  { clear Hnd Htree Hent. apply list_elem_of_lookup in He as [i Hi].
    destruct (Forall2_lookup_l _ _ _ _ _ Har Hi) as (m & Him & Hm).
    destruct (Forall2_lookup_l _ _ _ _ _ Hrb Him) as (h & Hih & Hh).
    destruct (Forall2_lookup_l _ _ _ _ _ Hdone Hih) as (e' & Hie & Ha & Hd).
    exists m, h, e'. split_and!; try done; [by eapply Hm|by eapply list_elem_of_lookup_2]. }
  rewrite Hperm in He'. destruct Hrbh as (Hb1 & _ & _ & Hbody). destruct Ha as (Ha1 & _ & _).
  rewrite Hb1, Hm in Ha1. cbn in Ha1.
  assert (e = e') as <- by (by apply (NoDup_fmap_elem e_Name es)).
  unfold entry_done in Hd. rewrite Hdir in Hd. unfold entry_place in Hd. rewrite Hname in Hd.
  destruct n as [|d mode w| |]; cbn [is_dir_node] in Hd; try done.
  destruct Hd as [Hc Hd]. rewrite Hd. rewrite (Hbody Hc), Hm, Hmode. cbn [m_data content].
  by rewrite <-Z.land_assoc.
Qed.

(** ** Properties *)

(** The manifest [Prepare] makes is that of the source, and a receiver accepts
    it. A file gives one entry; for a folder every file and directory below it has
    exactly one entry, under its path below the folder's name, with its kind, its
    size and its permission bits, and nothing else is listed. Links and special
    files, whatever depth they lie at, make it fail. Unless the files exceed 1 PiB
    in all, [ValidateEntries] accepts the manifest. *)
Theorem Prepare_manifest (cwd : chars) (io : prepare_io) (fs : FS) (source : chars)
    (temps temps' : list chars) (s : Source) (ms : list member) :
  fs_wf fs → fs_named fs → IsAbs cwd = true →
  Prepare cwd io fs source temps = (Ok (s, ms), temps') →
  ∃ x base, s_Name s = string_of x ∧ place fs (elems_of (Abs cwd source)) = Some base ∧
    manifest_of fs base x (s_Entries s) ∧
    (total_size (s_Entries s) ≤ PiB → ValidateEntries (s_Entries s) = Ok tt).
Proof.
  intros Hwf Hnm Hc Hp.
  destruct (Prepare_spec _ _ _ _ _ _ _ _ Hwf Hnm Hc Hp) as (x & base & n & Hname & _ & Hpl & Hn & _ & Hmf & _).
  exists x, base. split_and!; try done. intros Ht. apply ValidateEntries_ok.
  by eapply manifest_ok.
Qed.

(** A folder arrives as it was sent. When the archive [Prepare] wrote is read
    back and extracted without error, below any root and over whatever was there,
    the destination holds the folder: each directory is a directory, and each file
    has the sender's bytes at the same path below the folder's name, with its
    permissions reduced by the mask. *)
Theorem folder_roundtrip (cwd : chars) (io : prepare_io) (src : FS) (source : chars)
    (temps temps' : list chars) (s : Source) (ms : list member)
    (cwd' : chars) (sys : Sys) (hs : list tar_entry) (fin : option t_error) (root dir : chars)
    (overwrite : bool) (fs fs' : FS) (rs : path) :
  fs_wf src → fs_named src → IsAbs cwd = true →
  Prepare cwd io src source temps = (Ok (s, ms), temps') → s_Archive s = true →
  Forall2 reads_back ms hs →
  fs_wf fs → real_root cwd' fs root = Some rs → is_dir fs rs →
  Extract cwd' sys (Some (hs, fin)) root dir (s_Entries s) overwrite fs = (None, fs') →
  ∃ base ts, place src (elems_of (Abs cwd source)) = Some base ∧
    Resolve cwd' fs root dir = Ok (abs_path (rs ++ ts)) ∧
    ∀ rel n, node_at src (base ++ rel) = Some n →
      node_at fs' (rs ++ ts ++ chars_of (s_Name s) :: rel) = match n with
        | NFile d mode _ => Some (NFile d (Z.land mode 0x1ed) true)
        | _ => Some NDir
        end.
Proof.
  intros Hwf Hnm Hc Hp Harch Hrb Hwf' Hroot Hdir Hx.
  destruct (Prepare_spec _ _ _ _ _ _ _ _ Hwf Hnm Hc Hp) as (x & base & n & -> & _ & Hpl & _ & _ & Hmf & Har).
  destruct (Extract_ok _ _ _ _ _ _ _ _ _ _ _ Hwf' Hroot Hdir Hx) as (ts & es & Hres & _ & Hperm & Hdone).
  exists base, ts. split_and!; try done. intros rel m Hm. rewrite chars_of_string.
  by eapply restored; eauto.
Qed.

(** ** A concrete folder *)

Definition normal_elemb (e : chars) : bool :=
  bool_decide (e ≠ []) && bool_decide (e ≠ dot) && bool_decide (e ≠ dotdot) && negb (has_char slash e).

Definition fs_namedb (fs : FS) : bool :=
  forallb (λ pn, forallb normal_elemb pn.1) (map_to_list (nodes fs)).

Lemma fs_namedb_named fs : fs_namedb fs = true → fs_named fs.
Proof.
  unfold fs_namedb. rewrite forallb_forall. intros Hb p n Hp. specialize (Hb (p, n)).
  rewrite <-list_elem_of_In, elem_of_map_to_list in Hb. specialize (Hb Hp). cbn in Hb.
  rewrite forallb_forall in Hb. apply Forall_forall. intros e He. apply list_elem_of_In, Hb in He.
  unfold normal_elemb in He. zbool. split_and!; try done. by apply has_char_false.
Qed.

Definition demo_src : FS :=
  mkFS (list_to_map [(chars_of <$> ["home"]%string, NDir); (chars_of <$> ["home"; "d"]%string, NDir);
                     (chars_of <$> ["home"; "d"; "a.txt"]%string,
                      NFile [Byte.x61; Byte.x62; Byte.x63] 420 true)])
    (λ _, false).

Definition demo_entry_io : entry_io :=
  mkEntryIo false true 493 true true false [mkRead 2 false false false; mkRead 9 false false false] true.

Definition demo_io : prepare_io :=
  mkPrepareIo (Some (chars_of "/tmp/b")) true (λ _, false) (λ _, demo_entry_io) true (Some 4096) 4096.

Definition demo_prepared : Source :=
  mkSource (chars_of "/tmp/b/d.gosilver.tar") "d" 4096 true demo_entries (Some (chars_of "/tmp/b")).

Definition demo_members : list member :=
  [mkMember "d" 0 true []; mkMember "d/a.txt" 3 false [Byte.x61; Byte.x62; Byte.x63]].

Lemma demo_prepare : Prepare (chars_of "/home") demo_io demo_src (chars_of "d") []
  = (Ok (demo_prepared, demo_members), [chars_of "/tmp/b"]).
Proof. vm_compute. reflexivity. Qed.

(** Folders with a link, or with too little to read, are refused. *)
Example Prepare_errors :
  let p fs io := (Prepare (chars_of "/srv") io fs (chars_of "/srv") []) in
  p demo_fs demo_io = (Err PSpecial, []) ∧
  p demo_fs (mkPrepareIo None true (λ _, false) (λ _, demo_entry_io) true (Some 0) 0) = (Err PTemp, []) ∧
  p demo_src demo_io = (Err PLstat, []) ∧
  (Prepare (chars_of "/") demo_io demo_src [slash] []).1 = Err PName ∧
  (Prepare (chars_of "/") (mkPrepareIo (Some []) true (λ _, false)
     (λ _, mkEntryIo false true 493 true true false [mkRead 2 false false false] true) true (Some 0) 0)
     demo_src (chars_of "home/d") []) = (Err PCopy, []).
Proof. vm_compute. split_and!; reflexivity. Qed.

Lemma Prepare_manifest_witness :
  ∃ x base, s_Name demo_prepared = string_of x ∧
    place demo_src (elems_of (Abs (chars_of "/home") (chars_of "d"))) = Some base ∧
    manifest_of demo_src base x (s_Entries demo_prepared) ∧
    (total_size (s_Entries demo_prepared) ≤ PiB → ValidateEntries (s_Entries demo_prepared) = Ok tt).
Proof.
  apply (Prepare_manifest (chars_of "/home") demo_io demo_src (chars_of "d") []
    [chars_of "/tmp/b"] demo_prepared demo_members).
  - apply fs_wfb_wf. vm_compute. reflexivity.
  - apply fs_namedb_named. vm_compute. reflexivity.
  - reflexivity.
  - apply demo_prepare.
Defined.

Lemma folder_roundtrip_witness :
  ∃ base ts, place demo_src (elems_of (Abs (chars_of "/home") (chars_of "d"))) = Some base ∧
    Resolve (chars_of "/") demo_fs (chars_of "/srv") (chars_of "in")
      = Ok (abs_path ([chars_of "srv"] ++ ts)) ∧
    ∀ rel n, node_at demo_src (base ++ rel) = Some n →
      node_at (demo_run demo_entries false).2 ([chars_of "srv"] ++ ts ++ chars_of "d" :: rel) = match n with
        | NFile d mode _ => Some (NFile d (Z.land mode 0x1ed) true)
        | _ => Some NDir
        end.
Proof.
  apply (folder_roundtrip (chars_of "/home") demo_io demo_src (chars_of "d") []
    [chars_of "/tmp/b"] demo_prepared demo_members (chars_of "/") demo_sys demo_archive None
    (chars_of "/srv") (chars_of "in") false demo_fs _ [chars_of "srv"]).
  - apply fs_wfb_wf. vm_compute. reflexivity.
  - apply fs_namedb_named. vm_compute. reflexivity.
  - reflexivity.
  - apply demo_prepare.
  - reflexivity.
  - repeat constructor.
  - apply demo_fs_wf.
  - vm_compute. reflexivity.
  - vm_compute. reflexivity.
  - vm_compute. reflexivity.
Defined.
