(* ===== verification/Tasks.v ===== *)
(** * Tasks and their messages

    What a sender asks of a receiver and what the receiver reports, with their JSON
    forms: the entries of a manifest, task specifications, commands, task states and
    progress. Each is a [Message], so that what is sent is what is read back. *)

From S2P Require Import Prelude Text Paths Json Model Download FileSys Transfer.
Local Open Scope string_scope.
Local Open Scope Z_scope.

(** internal/webui/agent.go:24-31 [TaskSpec] *)
Record TaskSpec : Type := mkTaskSpec {
  sp_ID : string; sp_Target : string; sp_Overwrite : bool; sp_Archive : bool;
  sp_Entries : list Entry; sp_Meta : GetFileStatusResp;
}.

(** internal/webui/agent.go:32-40 [TaskState] *)
Record TaskState : Type := mkTaskState {
  t_ID : string; t_Kind : string; t_Status : string; t_Message : string; t_Error : string;
  t_Output : string; t_Progress : Progress;
}.

(** internal/webui/agent.go:307-312 [Command] *)
Record Command : Type := mkCommand {
  c_ID : string; c_Text : string; c_Directory : string; c_Timeout : Z;
}.

#[export] Instance GetFileStatusResp_eq_dec : EqDecision GetFileStatusResp.
Proof. solve_decision. Defined.

Definition no_progress : Progress := mkProgress [] "" 0 0 0 0 false.
Definition no_meta : GetFileStatusResp := mkGetFileStatusResp "" "" 0 0 0.

(** A value that is not null. *)
Lemma encode_obj_field {A} (dec : json → option A) name zero ms a :
  dec (JObj ms) = Some a → same_name name name = true →
  field dec name zero (JObj [(name, JObj ms)]) = Some a.
Proof. intros Hd Hn. cbn. by rewrite Hn. Qed.

(** ** Entries *)

(** internal/transfer/files.go:18-23 [Entry] *)
Definition encode_Entry (e : Entry) : json :=
  JObj ([("name", JStr (e_Name e))]
    ++ [("size", jint (e_Size e))]
    ++ omit_if (negb (e_Dir e)) ("dir", JBool (e_Dir e))
    ++ omit_if (e_Mode e =? 0) ("mode", jint (e_Mode e))).

(** internal/transfer/files.go:18-23 [Entry] *)
Definition decode_Entry (j : json) : option Entry :=
  name ← text "name" "" j;
  size ← num "size" 0 j;
  dir ← flag "dir" false j;
  mode ← num "mode" 0 j;
  Some (mkEntry name size dir mode).

Definition Entry_msg_ok (e : Entry) : Prop :=
  str_ok (e_Name e) ∧ int_ok (e_Size e) ∧ int_ok (e_Mode e).

#[export, refine] Instance Entry_message : Message Entry := {|
  encode := encode_Entry; decode := decode_Entry; msg_ok := Entry_msg_ok;
|}.
Proof.
  - open_message. unfold encode_Entry, decode_Entry. destruct e_Dir; decode_fields.
  - open_message. unfold encode_Entry. destruct e_Dir; encode_members.
Defined.

(** ** Progress *)

(** internal/receiver/download.go:19-22 [BlockSource] *)
Definition encode_BlockSource (b : BlockSource) : json :=
  JObj ([("index", jint (bs_Index b))] ++ [("addr", JStr (bs_Addr b))]).

(** internal/receiver/download.go:19-22 [BlockSource] *)
Definition decode_BlockSource (j : json) : option BlockSource :=
  index ← num "index" 0 j;
  addr ← text "addr" "" j;
  Some (mkBlockSource index addr).

Definition BlockSource_ok (b : BlockSource) : Prop := int_ok (bs_Index b) ∧ str_ok (bs_Addr b).

#[export, refine] Instance BlockSource_message : Message BlockSource := {|
  encode := encode_BlockSource; decode := decode_BlockSource; msg_ok := BlockSource_ok;
|}.
Proof.
  - open_message. unfold encode_BlockSource, decode_BlockSource. decode_fields.
  - open_message. unfold encode_BlockSource. encode_members.
Defined.

(** A list of messages is read back element by element. *)
Lemma decode_list `{Message A} (l : list A) :
  Forall msg_ok l → dec_slice decode (JArr (List.map encode l)) = Some l.
Proof.
  cbn. induction 1 as [|x l Hx Hl IH]; [done|]. cbn [List.map].
  pose proof (decode_encode x Hx) as Hd. cbn. rewrite Hd. cbn. by rewrite IH.
Qed.

Lemma encode_list_ok `{Message A} (l : list A) : Forall msg_ok l → json_ok (JArr (List.map encode l)).
Proof.
  intros Hl. constructor. intros j Hj.
  apply list_elem_of_In, List.in_map_iff in Hj as (x & <- & Hx%list_elem_of_In).
  rewrite Forall_forall in Hl. exact (encode_ok x (Hl x Hx)).
Qed.

(** internal/receiver/download.go:24-33 [Progress] *)
Definition encode_Progress (p : Progress) : json :=
  JObj (omit_if (bool_decide (pg_Active p = [])) ("active", JArr (List.map encode_BlockSource (pg_Active p)))
    ++ [("fileName", JStr (pg_FileName p))]
    ++ [("total", jint (pg_Total p))]
    ++ [("done", jint (pg_Done p))]
    ++ [("bytes", jint (pg_Bytes p))]
    ++ [("speed", jint (pg_Speed p))]
    ++ [("finished", JBool (pg_Finished p))]).

(** internal/receiver/download.go:24-33 [Progress] *)
Definition decode_Progress (j : json) : option Progress :=
  active ← field (dec_slice decode_BlockSource) "active" [] j;
  fileName ← text "fileName" "" j;
  total ← num "total" 0 j;
  done ← num "done" 0 j;
  bytes ← num "bytes" 0 j;
  speed ← num "speed" 0 j;
  finished ← flag "finished" false j;
  Some (mkProgress active fileName total done bytes speed finished).

Definition Progress_ok (p : Progress) : Prop :=
  Forall BlockSource_ok (pg_Active p) ∧ str_ok (pg_FileName p) ∧ int_ok (pg_Total p) ∧
  int_ok (pg_Done p) ∧ int_ok (pg_Bytes p) ∧ int_ok (pg_Speed p).

#[export, refine] Instance Progress_message : Message Progress := {|
  encode := encode_Progress; decode := decode_Progress; msg_ok := Progress_ok;
|}.
Proof.
  - open_message. unfold encode_Progress, decode_Progress.
    pose proof (decode_list _ H) as Hs. revert Hs. cbn [encode decode BlockSource_message].
    generalize (dec_slice decode_BlockSource). intros dec Hs.
    cbn. destruct (bool_decide_reflect (pg_Active = [])) as [-> |]; decode_fields.
    by rewrite Hs.
  - open_message. unfold encode_Progress. cbn.
    destruct (bool_decide_reflect (pg_Active = [])) as [-> |]; [encode_members|].
    unfold omit_if, jint. cbn. constructor. intros k j Hin.
    apply elem_of_cons in Hin as [Hin|Hin]; [|members_ok Hin].
    simplify_eq. split; [reflexivity|]. exact (encode_list_ok _ H).
Defined.

(** ** Specifications, states and commands *)

(** internal/webui/agent.go:24-31 [TaskSpec] *)
Definition encode_TaskSpec (s : TaskSpec) : json :=
  JObj ([("id", JStr (sp_ID s))]
    ++ [("target", JStr (sp_Target s))]
    ++ [("overwrite", JBool (sp_Overwrite s))]
    ++ [("archive", JBool (sp_Archive s))]
    ++ [("entries", JArr (List.map encode_Entry (sp_Entries s)))]
    ++ [("meta", encode_GetFileStatusResp (sp_Meta s))]).

(** internal/webui/agent.go:24-31 [TaskSpec] *)
Definition decode_TaskSpec (j : json) : option TaskSpec :=
  id ← text "id" "" j;
  target ← text "target" "" j;
  overwrite ← flag "overwrite" false j;
  archive ← flag "archive" false j;
  entries ← field (dec_slice decode_Entry) "entries" [] j;
  meta ← field decode_GetFileStatusResp "meta" no_meta j;
  Some (mkTaskSpec id target overwrite archive entries meta).

Definition TaskSpec_ok (s : TaskSpec) : Prop :=
  str_ok (sp_ID s) ∧ str_ok (sp_Target s) ∧ Forall Entry_msg_ok (sp_Entries s) ∧
  GetFileStatusResp_ok (sp_Meta s).

#[export, refine] Instance TaskSpec_message : Message TaskSpec := {|
  encode := encode_TaskSpec; decode := decode_TaskSpec; msg_ok := TaskSpec_ok;
|}.
Proof.
  - intros [id target ow ar es meta] (Hid & Ht & Hes & Hm). cbn in Hid, Ht, Hes, Hm.
    unfold encode_TaskSpec, decode_TaskSpec.
    pose proof (decode_list (H := Entry_message) _ Hes) as Hs. pose proof (decode_encode (Message := GetFileStatusResp_message) meta Hm) as Hd. revert Hs Hd.
    cbn [encode decode Entry_message GetFileStatusResp_message]. generalize (dec_slice decode_Entry).
    assert (∃ ms, encode_GetFileStatusResp meta = JObj ms) as [ms Hms] by (eexists; reflexivity).
    cbn [sp_ID sp_Target sp_Overwrite sp_Archive sp_Entries sp_Meta]. rewrite Hms.
    generalize decode_GetFileStatusResp, (List.map encode_Entry es). intros dm le de Hs Hd.
    decode_fields.
    rewrite Hs. cbn. by rewrite Hd.
  - intros [id target ow ar es meta] (Hid & Ht & Hes & Hm). unfold encode_TaskSpec. cbn in *.
    pose proof (encode_ok meta Hm) as He. cbn in He.
    constructor. intros k j Hin.
    do 4 (apply elem_of_cons in Hin as [Hin|Hin]; [simplify_eq; split; [reflexivity|by constructor]|]).
    apply elem_of_cons in Hin as [Hin|Hin]; [|apply elem_of_cons in Hin as [Hin|Hin]].
    + simplify_eq. split; [reflexivity|]. exact (encode_list_ok (H := Entry_message) _ Hes).
    + simplify_eq. split; [reflexivity|]. exact He.
    + by apply elem_of_nil in Hin.
Defined.

(** internal/webui/agent.go:32-40 [TaskState] *)
Definition encode_TaskState (t : TaskState) : json :=
  JObj ([("id", JStr (t_ID t))]
    ++ [("kind", JStr (t_Kind t))]
    ++ [("status", JStr (t_Status t))]
    ++ [("message", JStr (t_Message t))]
    ++ omit_if (is_empty (t_Error t)) ("error", JStr (t_Error t))
    ++ omit_if (is_empty (t_Output t)) ("output", JStr (t_Output t))
    ++ [("progress", encode_Progress (t_Progress t))]).

(** internal/webui/agent.go:32-40 [TaskState] *)
Definition decode_TaskState (j : json) : option TaskState :=
  id ← text "id" "" j;
  kind ← text "kind" "" j;
  status ← text "status" "" j;
  message ← text "message" "" j;
  error ← text "error" "" j;
  output ← text "output" "" j;
  progress ← field decode_Progress "progress" no_progress j;
  Some (mkTaskState id kind status message error output progress).

Definition TaskState_ok (t : TaskState) : Prop :=
  str_ok (t_ID t) ∧ str_ok (t_Kind t) ∧ str_ok (t_Status t) ∧ str_ok (t_Message t) ∧
  str_ok (t_Error t) ∧ str_ok (t_Output t) ∧ Progress_ok (t_Progress t).

#[export, refine] Instance TaskState_message : Message TaskState := {|
  encode := encode_TaskState; decode := decode_TaskState; msg_ok := TaskState_ok;
|}.
Proof.
  - intros [id kind st ms er out pg] (H1 & H2 & H3 & H4 & H5 & H6 & Hp).
    cbn in H1, H2, H3, H4, H5, H6, Hp. unfold encode_TaskState, decode_TaskState.
    pose proof (decode_encode pg Hp) as Hd. revert Hd.
    cbn [encode decode Progress_message]. 
    assert (∃ l, encode_Progress pg = JObj l) as [l Hl] by (eexists; reflexivity).
    cbn [t_ID t_Kind t_Status t_Message t_Error t_Output t_Progress]. rewrite Hl.
    generalize decode_Progress. intros dp Hd. decode_fields; by rewrite Hd.
  - intros [id kind st ms er out pg] (H1 & H2 & H3 & H4 & H5 & H6 & Hp). unfold encode_TaskState.
    cbn in *. pose proof (encode_ok pg Hp) as He. cbn in He.
    revert He. generalize (encode_Progress pg). intros jp He.
    split_omitted; unfold omit_if; cbn; constructor; intros k j Hin;
      repeat (apply elem_of_cons in Hin as [Hin|Hin];
        [simplify_eq; split; [reflexivity|by first [exact He|constructor]]|]);
      by apply elem_of_nil in Hin.
Defined.

(** internal/webui/agent.go:307-312 [Command] *)
Definition encode_Command (c : Command) : json :=
  JObj (omit_if (is_empty (c_ID c)) ("id", JStr (c_ID c))
    ++ [("text", JStr (c_Text c))]
    ++ [("directory", JStr (c_Directory c))]
    ++ [("timeout", jint (c_Timeout c))]).

(** internal/webui/agent.go:307-312 [Command] *)
Definition decode_Command (j : json) : option Command :=
  id ← text "id" "" j;
  txt ← text "text" "" j;
  directory ← text "directory" "" j;
  timeout ← num "timeout" 0 j;
  Some (mkCommand id txt directory timeout).

Definition Command_ok (c : Command) : Prop :=
  str_ok (c_ID c) ∧ str_ok (c_Text c) ∧ str_ok (c_Directory c) ∧ int_ok (c_Timeout c).

#[export, refine] Instance Command_message : Message Command := {|
  encode := encode_Command; decode := decode_Command; msg_ok := Command_ok;
|}.
Proof.
  - open_message. unfold encode_Command, decode_Command. decode_fields.
  - open_message. unfold encode_Command. encode_members.
Defined.

Example TaskSpec_wire :
  let s := mkTaskSpec "t" "in" false true [mkEntry "d" 0 true 493; mkEntry "d/a" 3 false 420]
             (mkGetFileStatusResp "" "d.tar" 4096 1048576 1) in
  Unmarshal TaskSpec (Marshal s) = Some s.
Proof. vm_compute. reflexivity. Qed.
