(* ===== verification/Listing.v ===== *)
(** * Directory listings

    internal/webui/http.go, [listDirectory]: what the pickers of both sides show of a
    directory, read in batches and cut at a thousand entries. *)

From S2P Require Import Prelude Text Paths FileSys Transfer.
Local Open Scope list_scope.
Local Open Scope Z_scope.

(** internal/webui/http.go:282-287 [FileEntry] *)
Record FileEntry : Type := mkFileEntry {
  fe_Name : string; fe_Path : chars; fe_Dir : bool; fe_Size : Z;
}.

(** internal/webui/http.go:288-294 [Listing] *)
Record Listing : Type := mkListing {
  l_Path : chars; l_Parent : chars; l_Root : chars; l_Entries : list FileEntry; l_Truncated : bool;
}.

(** An entry as the directory gives it, with the size its [Info] has, which may fail. *)
Record dirent : Type := mkDirent { de_name : chars; de_node : node; de_info : option Z }.

(** What one [ReadDir] gives; [Some true] is the end of the directory. *)
Record batch : Type := mkBatch { b_entries : list dirent; b_err : option bool }.

Definition hidden_prefix : chars := chars_of ".gosilver-".

(** internal/webui/http.go:317-319 [listDirectory] *)
Definition skipped (onlyDirs : bool) (d : dirent) : bool :=
  (match de_node d with NLink _ => true | _ => false end)
  || has_prefix hidden_prefix (de_name d)
  || (onlyDirs && negb (match de_node d with NDir => true | _ => false end)).

(** internal/webui/http.go:324-324 [listDirectory] *)
Definition file_entry (abs : chars) (d : dirent) : FileEntry :=
  mkFileEntry (string_of (de_name d)) (Join abs (de_name d))
    (match de_node d with NDir => true | _ => false end)
    (default 0 (de_info d)).

(** One batch, up to the limit. internal/webui/http.go:316-329 [listDirectory] *)
Fixpoint add_batch (abs : chars) (onlyDirs : bool) (es : list dirent) (out : list FileEntry)
    : list FileEntry * bool :=
  match es with
  | [] => (out, false)
  | d :: rest =>
      if skipped onlyDirs d then add_batch abs onlyDirs rest out else
      if bool_decide (de_info d = None) then add_batch abs onlyDirs rest out else
      let out := out ++ [file_entry abs d] in
      if 1000 <=? zlen out then (out, true) else add_batch abs onlyDirs rest out
  end.

(** The batches; [None] is an error.
    internal/webui/http.go:314-336 [listDirectory] *)
Fixpoint read_batches (abs : chars) (onlyDirs : bool) (bs : list batch) (out : list FileEntry)
    : option (list FileEntry * bool) :=
  match bs with
  | [] => Some (out, false)
  | b :: rest =>
      let '(out, truncated) := add_batch abs onlyDirs (b_entries b) out in
      if truncated then Some (out, true) else
      match b_err b with
      | Some true => Some (out, false)
      | Some false => None
      | None => read_batches abs onlyDirs rest out
      end
  end.

(** internal/webui/http.go:337-342 [listDirectory] *)
Definition entry_le (a b : FileEntry) : Prop :=
  if Bool.eqb (fe_Dir a) (fe_Dir b) then String.ltb (fe_Name b) (fe_Name a) = false
  else fe_Dir a = true.

#[export] Instance entry_le_dec : RelDecision entry_le.
Proof. intros a b. unfold entry_le. destruct (Bool.eqb _ _); apply _. Defined.

(** [opened] gives the batches of a directory, [None] if it cannot be opened.
    internal/webui/http.go:296-344 [listDirectory] *)
Definition listDirectory (cwd : chars) (fs : FS) (opened : chars → option (list batch))
    (p root : chars) (onlyDirs : bool) : option Listing :=
  let abs := Abs cwd p in
  let abs := match Stat fs (elems_of abs) with
             | Found NDir => abs | Found _ => Dir abs | _ => abs end in
  match opened abs with
  | None => None
  | Some bs =>
      let parent := if negb (bool_decide (root = [])) && bool_decide (abs = root) then [] else Dir abs in
      match read_batches abs onlyDirs bs [] with
      | None => None
      | Some (out, truncated) => Some (mkListing abs parent root (merge_sort entry_le out) truncated)
      end
  end.

(** ** What is listed *)

Definition listable (onlyDirs : bool) (d : dirent) : bool :=
  negb (skipped onlyDirs d) && negb (bool_decide (de_info d = None)).

(** The entries up to the end of the directory. *)
Fixpoint all_entries (bs : list batch) : list dirent :=
  match bs with
  | [] => []
  | b :: rest => b_entries b ++ match b_err b with None => all_entries rest | Some _ => [] end
  end.

Lemma add_batch_spec abs onlyDirs es out out' tr :
  zlen out < 1000 → add_batch abs onlyDirs es out = (out', tr) →
  ∃ l, l `prefix_of` filter (λ d, listable onlyDirs d) es ∧ out' = out ++ (file_entry abs <$> l) ∧
    (if tr then zlen out' = 1000 else zlen out' < 1000 ∧ l = filter (λ d, listable onlyDirs d) es).
Proof.
  revert out. induction es as [|d es IH]; intros out Hlen; cbn [add_batch].
  { intros [= <- <-]. exists []. rewrite app_nil_r. done. }
  rewrite filter_cons. destruct (decide (listable onlyDirs d)) as [Hd|Hd].
  2:{ assert (add_batch abs onlyDirs es out = (out', tr) →
        ∃ l, l `prefix_of` filter (λ d, listable onlyDirs d) es ∧ out' = out ++ (file_entry abs <$> l) ∧
          (if tr then zlen out' = 1000 else zlen out' < 1000 ∧ l = filter (λ d, listable onlyDirs d) es))
        as Hrec by by apply IH.
      unfold listable in Hd. destruct (skipped onlyDirs d); [done|]. by destruct (bool_decide _). }
  assert (skipped onlyDirs d = false ∧ bool_decide (de_info d = None) = false) as [-> ->].
  { unfold listable in Hd. apply Is_true_true, andb_true_iff in Hd as [Hs ?].
    split; by apply negb_true_iff. }
  assert (zlen (out ++ [file_entry abs d]) = zlen out + 1) as Hl1 by (rewrite zlen_app; done).
  destruct (Z.leb_spec 1000 (zlen (out ++ [file_entry abs d]))) as [Hbig|Hsmall].
  - intros [= <- <-]. exists [d]. split; [by apply prefix_cons, prefix_nil|]. split; [done|]. lia.
  - intros H. destruct (IH _ Hsmall H) as (l & Hp & -> & Ht). exists (d :: l).
    split; [by apply prefix_cons|]. rewrite <-app_assoc. split; [done|].
    rewrite <-app_assoc in Ht. destruct tr; [done|]. destruct Ht as [? ->]. done.
Qed.

Lemma read_batches_spec abs onlyDirs bs out out' tr :
  zlen out < 1000 → read_batches abs onlyDirs bs out = Some (out', tr) →
  ∃ l, l `prefix_of` filter (λ d, listable onlyDirs d) (all_entries bs) ∧
    out' = out ++ (file_entry abs <$> l) ∧
    (if tr then zlen out' = 1000
     else zlen out' < 1000 ∧ l = filter (λ d, listable onlyDirs d) (all_entries bs)).
Proof.
  revert out. induction bs as [|b bs IH]; intros out Hlen; cbn [read_batches all_entries].
  { intros [= <- <-]. exists []. rewrite app_nil_r. done. }
  destruct (add_batch _ _ _ _) as [out1 t1] eqn:Hb.
  destruct (add_batch_spec _ _ _ _ _ _ Hlen Hb) as (l & Hp & -> & Ht). rewrite filter_app.
  destruct t1.
  { intros [= <- <-]. exists l. split; [by apply prefix_app_r|done]. }
  destruct Ht as [Hl ->]. destruct (b_err b) as [[]|].
  - intros [= <- <-]. exists (filter (λ d, listable onlyDirs d) (b_entries b)). by rewrite app_nil_r.
  - done.
  - intros H. destruct (IH _ Hl H) as (l & Hp' & -> & Ht).
    exists (filter (λ d, listable onlyDirs d) (b_entries b) ++ l). rewrite fmap_app, app_assoc.
    split; [by apply prefix_app|]. split; [done|]. destruct tr; [done|]. destruct Ht as [? ->]. done.
Qed.

(** A listing holds entries of the directory that are not links and not the
    program's own, at most a thousand, directories first and each kind by name; it
    says so when something was cut, and otherwise nothing is missing. *)
Lemma listDirectory_spec cwd fs opened p root onlyDirs l :
  listDirectory cwd fs opened p root onlyDirs = Some l →
  ∃ bs ds, opened (l_Path l) = Some bs ∧
    ds `prefix_of` filter (λ d, listable onlyDirs d) (all_entries bs) ∧
    l_Entries l ≡ₚ file_entry (l_Path l) <$> ds ∧ zlen (l_Entries l) ≤ 1000 ∧
    (l_Truncated l = false → ds = filter (λ d, listable onlyDirs d) (all_entries bs)).
Proof.
  unfold listDirectory. set (abs := match Stat fs _ with Found NDir => _ | _ => _ end).
  destruct (opened abs) as [bs|] eqn:Ho; [|done].
  destruct (read_batches _ _ _ _) as [[out tr]|] eqn:Hb; [|done]. intros [= <-]. cbn.
  destruct (read_batches_spec _ _ _ [] _ _ ltac:(done) Hb) as (ds & Hp & Hout & Ht). cbn in Hout. subst out.
  pose proof (merge_sort_Permutation entry_le (file_entry abs <$> ds)) as Hperm.
  exists bs, ds. split_and!; try done.
  - unfold zlen in *. rewrite (Permutation_length Hperm). destruct tr; lia.
  - intros ->. by destruct Ht.
Qed.

Lemma string_ltb_asym a b : String.ltb a b = true → String.ltb b a = false.
Proof.
  intros H. destruct (String.ltb b a) eqn:Hb; [|done].
  pose proof (string_ltb_trans _ _ _ H Hb) as Hc. by rewrite string_ltb_irrefl in Hc.
Qed.

#[export] Instance entry_le_total : Total entry_le.
Proof.
  intros a b. unfold entry_le. destruct (fe_Dir a), (fe_Dir b); cbn; auto.
  all: destruct (string_ltb_total (fe_Name a) (fe_Name b)) as [H|[H|H]].
  all: try (left; by apply string_ltb_asym). all: try (right; by apply string_ltb_asym).
  all: left; rewrite H; apply string_ltb_irrefl.
Qed.

Lemma listDirectory_sorted cwd fs opened p root onlyDirs l :
  listDirectory cwd fs opened p root onlyDirs = Some l → Sorted entry_le (l_Entries l).
Proof.
  unfold listDirectory. destruct (opened _); [|done].
  destruct (read_batches _ _ _ _) as [[out tr]|]; [|done]. intros [= <-]. cbn.
  apply (Sorted_merge_sort entry_le).
Qed.
