(* ===== verification/Agent.v ===== *)
(** * The agent of a receiver

    internal/webui/agent.go: what a receiver does for the sender that controls it.
    Its mutable state is guarded by [r.mu]; each definition on [agent] is one critical
    section, or a whole handler where only fields that never change are read outside
    it. A download and a command run in goroutines of their own; contexts are
    numbered, and a context is cancelled by its number or with the agent's own. *)

From S2P Require Import Prelude Text Paths Json Model Download FileSys Transfer Extraction Tasks Listing.
Local Open Scope string_scope.
Local Open Scope Z_scope.

(** An error of a task: its text, and whether it is a cancellation. *)
Record job_error : Type := mkJobError { je_text : string; je_cancelled : bool }.

(** internal/webui/agent.go:41-55 [agent] *)
Record agent : Type := mkAgent {
  root : chars; token : string; senderAddr : string; allowCommands : bool;
  disconnected : bool;
  stopped : bool;
  task : TaskState; commandTask : TaskState;
  taskCancel : option Z; commandCancel : option Z;
  ctx_cancelled : gset Z; next_ctx : Z;
  downloads : list (Z * TaskSpec); commands : list (Z * Command);
  cache : list chars;
}.

Definition set_disconnected v r := mkAgent (root r) (token r) (senderAddr r) (allowCommands r) v
  (stopped r) (task r) (commandTask r) (taskCancel r) (commandCancel r) (ctx_cancelled r) (next_ctx r)
  (downloads r) (commands r) (cache r).
Definition set_stopped v r := mkAgent (root r) (token r) (senderAddr r) (allowCommands r)
  (disconnected r) v (task r) (commandTask r) (taskCancel r) (commandCancel r) (ctx_cancelled r)
  (next_ctx r) (downloads r) (commands r) (cache r).
Definition set_task v r := mkAgent (root r) (token r) (senderAddr r) (allowCommands r)
  (disconnected r) (stopped r) v (commandTask r) (taskCancel r) (commandCancel r) (ctx_cancelled r)
  (next_ctx r) (downloads r) (commands r) (cache r).
Definition set_commandTask v r := mkAgent (root r) (token r) (senderAddr r) (allowCommands r)
  (disconnected r) (stopped r) (task r) v (taskCancel r) (commandCancel r) (ctx_cancelled r)
  (next_ctx r) (downloads r) (commands r) (cache r).
Definition set_cancelled_ctx v r := mkAgent (root r) (token r) (senderAddr r) (allowCommands r)
  (disconnected r) (stopped r) (task r) (commandTask r) (taskCancel r) (commandCancel r) v
  (next_ctx r) (downloads r) (commands r) (cache r).
Definition set_downloads v r := mkAgent (root r) (token r) (senderAddr r) (allowCommands r)
  (disconnected r) (stopped r) (task r) (commandTask r) (taskCancel r) (commandCancel r)
  (ctx_cancelled r) (next_ctx r) v (commands r) (cache r).
Definition set_commands v r := mkAgent (root r) (token r) (senderAddr r) (allowCommands r)
  (disconnected r) (stopped r) (task r) (commandTask r) (taskCancel r) (commandCancel r)
  (ctx_cancelled r) (next_ctx r) (downloads r) v (cache r).
Definition set_cache v r := mkAgent (root r) (token r) (senderAddr r) (allowCommands r)
  (disconnected r) (stopped r) (task r) (commandTask r) (taskCancel r) (commandCancel r)
  (ctx_cancelled r) (next_ctx r) (downloads r) (commands r) v.

Definition set_Status v t := mkTaskState (t_ID t) (t_Kind t) v (t_Message t) (t_Error t) (t_Output t) (t_Progress t).
Definition set_Message v t := mkTaskState (t_ID t) (t_Kind t) (t_Status t) v (t_Error t) (t_Output t) (t_Progress t).
Definition set_Error v t := mkTaskState (t_ID t) (t_Kind t) (t_Status t) (t_Message t) v (t_Output t) (t_Progress t).
Definition set_Output v t := mkTaskState (t_ID t) (t_Kind t) (t_Status t) (t_Message t) (t_Error t) v (t_Progress t).
Definition set_Progress v t := mkTaskState (t_ID t) (t_Kind t) (t_Status t) (t_Message t) (t_Error t) (t_Output t) v.

Inductive a_error : Type :=
| AJSON | AToken | ABusy | ANoID | AEntries (e : t_error) | AFileName | AManifest
| ATransfer (e : t_error) | ASender | AStale | ACanceled | ADisabled | AEmptyCommand
| ACommandBusy | AUnknown (method : string) | ATarget | AStat | AList.

(** What a request is answered with. *)
Inductive value : Type :=
| VProbe (p : Probe) | VTask (t : TaskState) | VListing (l : Listing) | VCancelled.

(** ** Contexts *)

Definition ctx_done (n : Z) (r : agent) : bool := stopped r || bool_decide (n ∈ ctx_cancelled r).

Definition cancel_ctx (c : option Z) (r : agent) : agent :=
  match c with
  | Some n => set_cancelled_ctx ({[n]} ∪ ctx_cancelled r) r
  | None => r
  end.

(** internal/webui/agent.go:75-81 [cancelTask] *)
Definition cancelTask (r : agent) : agent := cancel_ctx (taskCancel r) r.

(** internal/webui/agent.go:477-483 [cancelCommand] *)
Definition cancelCommand (r : agent) : agent := cancel_ctx (commandCancel r) r.

(** ** Tasks and commands *)

(** internal/webui/agent.go:224-241 [launch] *)
Definition launch (kind : string) (spec : TaskSpec) (r : agent) : res a_error TaskState * agent :=
  if stopped r then (Err ACanceled, r) else
  if decide (t_Status (task r) = "running") then (Err ABusy, r) else
  let n := next_ctx r in
  let t := mkTaskState (sp_ID spec) kind "running" "任务已启动" "" "" no_progress in
  (Ok t, mkAgent (root r) (token r) (senderAddr r) (allowCommands r) (disconnected r) (stopped r)
           t (commandTask r) (Some n) (commandCancel r) (ctx_cancelled r) (n + 1)
           (downloads r ++ [(n, spec)])%list (commands r) (cache r)).

Definition remove_job {A} (n : Z) (l : list (Z * A)) : list (Z * A) := filter (λ j, j.1 ≠ n) l.

(** The goroutine of the [n]-th context ends.
    internal/webui/agent.go:242-254 [launch] *)
Definition launch_end (n : Z) (err : option job_error) (r : agent) : agent :=
  let t := set_Message "接收完成，正在做种，为其他机器提供文件块" (set_Status "seeding" (task r)) in
  let t := match err with
           | Some e => set_Status (if je_cancelled e then "cancelled" else "failed")
                         (set_Error (je_text e) t)
           | None => t
           end in
  set_cancelled_ctx ({[n]} ∪ ctx_cancelled r) (set_downloads (remove_job n (downloads r)) (set_task t r)).

(** internal/webui/agent.go:484-497 [launchCommand] *)
Definition launchCommand (c : Command) (r : agent) : res a_error TaskState * agent :=
  if stopped r then (Err ACanceled, r) else
  if decide (t_Status (commandTask r) = "running") then (Err ACommandBusy, r) else
  let n := next_ctx r in
  let t := mkTaskState (c_ID c) "command" "running" "正在执行命令" "" "" no_progress in
  (Ok t, mkAgent (root r) (token r) (senderAddr r) (allowCommands r) (disconnected r) (stopped r)
           (task r) t (taskCancel r) (Some n) (ctx_cancelled r) (n + 1)
           (downloads r) (commands r ++ [(n, c)])%list (cache r)).

(** internal/webui/agent.go:498-513 [launchCommand] *)
Definition launchCommand_end (n : Z) (err : option job_error) (r : agent) : agent :=
  let t := set_Message "命令执行完成" (set_Status "completed" (commandTask r)) in
  let t := match err with
           | Some e => set_Status (if je_cancelled e then "cancelled" else "failed")
                         (set_Error (je_text e) t)
           | None => t
           end in
  set_cancelled_ctx ({[n]} ∪ ctx_cancelled r)
    (set_commands (remove_job n (commands r)) (set_commandTask t r)).

(** The progress of a download. internal/webui/agent.go:283-289 [download] *)
Definition on_progress (archive : bool) (p : Progress) (r : agent) : agent :=
  let t := set_Message "正在接收" (set_Progress p (task r)) in
  set_task (if pg_Finished p && archive then set_Message "正在展开文件夹" t else t) r.

(** ** Destinations *)

(** The nearest place that exists, and the names below it, innermost first.
    internal/webui/agent.go:413-427 [resolve] *)
Fixpoint find_ancestor (fuel : nat) (fs : FS) (ancestor : chars) (suffix : list chars)
    : res a_error (chars * list chars) :=
  match fuel with
  | O => Err ATarget
  | S fuel' =>
      match Lstat fs (elems_of ancestor) with
      | Found _ => Ok (ancestor, suffix)
      | Fails => Err AStat
      | Absent =>
          let parent := Dir ancestor in
          if bool_decide (parent = ancestor) then Err ATarget
          else find_ancestor fuel' fs parent (suffix ++ [Base ancestor])%list
      end
  end.

(** internal/webui/agent.go:405-436 [resolve] *)
Definition resolve (fs : FS) (root dir : chars) : res a_error chars :=
  let dir := match dir with [] => dot | _ => dir end in
  let dir := if IsAbs dir then dir else Join root dir in
  let dir := Clean dir in
  match find_ancestor (S (length dir)) fs dir [] with
  | Err e => Err e
  | Ok (ancestor, suffix) =>
      match EvalSymlinks fs (elems_of ancestor) with
      | None => Err AStat
      | Some base => Ok (foldl Join (abs_path base) (rev suffix))
      end
  end.

(** internal/webui/agent.go:437-443 [probe] *)
Definition probe (cwd : chars) (sys : Sys) (fs : FS) (root : chars) (spec : TaskSpec) (extra : Z)
    : res a_error Probe :=
  match resolve fs root (chars_of (sp_Target spec)) with
  | Err e => Err e
  | Ok dir =>
      match ProbeTarget cwd sys fs [] dir (sp_Entries spec) (sp_Overwrite spec) extra with
      | (_, Some e) => Err (ATransfer e)
      | (p, None) => Ok p
      end
  end.

(** internal/webui/agent.go:209-223 [validateSpec] *)
Definition validateSpec (s : TaskSpec) : res a_error unit :=
  if is_empty (sp_ID s) then Err ANoID else
  match ValidateEntries (sp_Entries s) with
  | Err e => Err (AEntries e)
  | Ok _ =>
      let name := fs_FileName (sp_Meta s) in
      if is_empty name || negb (String.eqb (string_of (Base (chars_of name))) name) then Err AFileName else
      if negb (sp_Archive s) &&
         match sp_Entries s with
         | [e] => e_Dir e || negb (e_Size e =? fs_FileSize (sp_Meta s))
         | _ => true
         end
      then Err AManifest else Ok tt
  end.

(** ** Running a command *)

(** internal/webui/agent.go:313-317 [limitedOutput] *)
Record limitedOutput : Type := mkOutput { o_b : bytes; o_truncated : bool }.

Definition output_limit : Z := Z.shiftl 256 10.

(** internal/webui/agent.go:319-330 [Write] *)
Definition Write (p : bytes) (w : limitedOutput) : Z * limitedOutput :=
  let n := zlen p in
  let left := output_limit - zlen (o_b w) in
  let w' := if left <? n
            then mkOutput (o_b w ++ take (Z.to_nat (Z.max 0 left)) p)%list true
            else mkOutput (o_b w ++ p)%list (o_truncated w) in
  (n, w').

(** internal/webui/agent.go:335-341 [execute] *)
Definition command_timeout (c : Command) : Z :=
  let timeout := if c_Timeout c <=? 0 then 60 else c_Timeout c in
  if 300 <? timeout then 300 else timeout.

Definition newline : ascii := chr 10.

(** The text of the output. internal/webui/agent.go:356-359 [execute] *)
Definition output_text (w : limitedOutput) : string :=
  string_of (of_bytes (o_b w)
    ++ if o_truncated w then newline :: chars_of "[输出超过 256 KiB，已截断]" else [])%list.

(** [writes]: what the command writes before it ends with [err]; [over]: the error of
    the context then, if any. internal/webui/agent.go:331-367 [execute] *)
Definition execute (writes : list bytes) (err over : option job_error) (r : agent)
    : option job_error * agent :=
  if negb (allowCommands r) then (Some (mkJobError "接收端未启用命令执行" false), r) else
  let output := foldl (λ w p, (Write p w).2) (mkOutput [] false) writes in
  let r := set_commandTask (set_Output (output_text output) (commandTask r)) r in
  (match over with Some e => Some e | None => err end, r).

(** ** Caches of archives *)

(** The cache is forgotten and removed. internal/webui/agent.go:445-456 [removeCache] *)
Definition removeCache (path : chars) (r : agent) : agent * list chars :=
  (set_cache (filter (λ p, p ≠ path) (cache r)) r, [path]).

(** internal/webui/agent.go:459-475 [pruneCaches] *)
Definition pruneCaches (current : chars) (r : agent) : agent * list chars :=
  (set_cache (filter (λ p, p = current) (cache r)) r, filter (λ p, p ≠ current) (cache r)).

(** What the download of a task needs from the system: room for directories, and the
    name of the new cache directory. *)
Record dl_env : Type := mkDlEnv { de_room : nat; de_cache : option chars }.

(** The destination directory, the file to receive into, and the cache it is in, if
    any. internal/webui/agent.go:256-281 [download] *)
Definition download_begin (cwd : chars) (env : dl_env) (fs : FS) (spec : TaskSpec) (r : agent)
    : res a_error (chars * chars * chars) * FS * agent :=
  match resolve fs (root r) (chars_of (sp_Target spec)) with
  | Err e => (Err e, fs, r)
  | Ok dir =>
      let '(made, fs1) := MkdirAll (de_room env) fs (elems_of dir) in
      if negb made then (Err AStat, fs1, r) else
      if sp_Archive spec then
        match de_cache env ≫= λ name, q ← place fs1 (elems_of (Join dir name));
              match node_at fs1 q with None => Some (Join dir name, q) | Some _ => None end with
        | None => (Err AStat, fs1, r)
        | Some (c, q) =>
            (Ok (dir, Join c (chars_of (fs_FileName (sp_Meta spec))), c), set_node q NDir fs1,
             set_cache (cache r ++ [c])%list r)
        end
      else
        let name := match sp_Entries spec with e :: _ => chars_of (e_Name e) | [] => [] end in
        match Resolve cwd fs1 [] (Join dir name) with
        | Err e => (Err (ATransfer e), fs1, r)
        | Ok target => (Ok (dir, target, []), fs1, r)
        end
  end.

(** How [RunTo] ended is [run]; the archive is then extracted. The caches to remove
    are returned too. internal/webui/agent.go:291-304 [download] *)
Definition download_end (cwd : chars) (sys : Sys) (run : option job_error)
    (arch : option (list tar_entry * option t_error)) (spec : TaskSpec) (dir cachePath : chars)
    (fs : FS) (r : agent) : option (job_error + t_error) * FS * agent * list chars :=
  match run with
  | Some e =>
      if bool_decide (cachePath ≠ [])
      then let '(r, gone) := removeCache cachePath r in (Some (inl e), fs, r, gone)
      else (Some (inl e), fs, r, [])
  | None =>
      let '(r, gone) := pruneCaches cachePath r in
      if sp_Archive spec then
        match Extract cwd sys arch [] dir (sp_Entries spec) (sp_Overwrite spec) fs with
        | (Some e, fs') => (Some (inr e), fs', r, gone)
        | (None, fs') => (None, fs', r, gone)
        end
      else (None, fs, r, gone)
  end.

(** ** Requests *)

(** What a request meets outside the agent: the working directory, the file system,
    what the system and the sender answer, a fresh identifier, the directories. *)
Record ctl_env : Type := mkCtlEnv {
  ce_cwd : chars; ce_sys : Sys; ce_fs : FS; ce_meta : option GetFileStatusResp;
  ce_key : string; ce_open : chars → option (list batch);
}.

(** [unicode.IsSpace]. *)
Definition is_space_rune (r : Z) : bool :=
  ((9 <=? r) && (r <=? 13)) || (r =? 32) || (r =? 0x85) || (r =? 0xA0) || (r =? 0x1680)
  || ((0x2000 <=? r) && (r <=? 0x200A)) || (r =? 0x2028) || (r =? 0x2029) || (r =? 0x202F)
  || (r =? 0x205F) || (r =? 0x3000).

(** [strings.TrimSpace(s) == ""]. *)
Fixpoint blank_fuel (fuel : nat) (l : chars) : bool :=
  match fuel, l with
  | _, [] => true
  | O, _ => false
  | S fuel', _ => let '(r, n) := DecodeRune l in is_space_rune r && blank_fuel fuel' (drop n l)
  end.
Definition blank (s : string) : bool := blank_fuel (length (chars_of s)) (chars_of s).

(** internal/gsp_sdk/model/type.go:101-106 [ControlRequest] *)
Definition decode_request (data : bytes) : option (string * string * option json) :=
  j ← ParseJson (of_bytes data);
  _ ← text "operate" "" j;
  method ← text "method" "" j;
  token ← text "token" "" j;
  payload ← field_raw "payload" j;
  Some (method, token, payload).

(** [json.Unmarshal(req.Payload, &v)]: there may be no payload. *)
Definition payload_as {A} (dec : json → option A) (payload : option json) : option A :=
  payload ≫= dec.

(** The identifier of a cancellation; an absent payload, like null, names none.
    internal/webui/agent.go:169-176 [control] *)
Definition cancel_id (payload : option json) : option string :=
  match payload with
  | None | Some JNull => Some ""
  | Some j => text "id" "" j
  end.

(** How far a request got before the section that starts a download. *)
Inductive reaction : Type :=
| Answer (r : res a_error value)
| Begin (spec : TaskSpec).

(** internal/webui/agent.go:91-130 [control] *)
Definition control_task (env : ctl_env) (method : string) (payload : option json) (r : agent)
    : reaction :=
  match payload_as decode_TaskSpec payload with
  | None => Answer (Err AJSON)
  | Some spec =>
      let status := t_Status (task r) in
      if bool_decide (method = "start") && bool_decide (t_ID (task r) = sp_ID spec)
         && (bool_decide (status = "running") || bool_decide (status = "seeding"))
      then Answer (Ok (VTask (task r)))
      else if bool_decide (status = "running") then Answer (Err ABusy) else
      match validateSpec spec with
      | Err e => Answer (Err e)
      | Ok _ =>
          let extra := if sp_Archive spec then fs_FileSize (sp_Meta spec) else 0 in
          match probe (ce_cwd env) (ce_sys env) (ce_fs env) (root r) spec extra with
          | Err e => Answer (Err e)
          | Ok p =>
              if bool_decide (method = "probe") then Answer (Ok (VProbe p)) else
              match ce_meta env with
              | None => Answer (Err ASender)
              | Some meta => if bool_decide (meta = sp_Meta spec) then Begin spec else Answer (Err AStale)
              end
          end
      end
  end.

(** internal/webui/agent.go:185-204 [control] *)
Definition control_command (env : ctl_env) (payload : option json) (r : agent)
    : res a_error TaskState * agent :=
  if negb (allowCommands r) then (Err ADisabled, r) else
  match payload_as decode_Command payload with
  | None => (Err AJSON, r)
  | Some c =>
      if blank (c_Text c) then (Err AEmptyCommand, r) else
      match resolve (ce_fs env) (root r) (chars_of (c_Directory c)) with
      | Err e => (Err e, r)
      | Ok dir =>
          let id := if is_empty (c_ID c) then ce_key env else c_ID c in
          launchCommand (mkCommand id (c_Text c) (string_of dir) (c_Timeout c)) r
      end
  end.

(** internal/webui/agent.go:151-184 [control] *)
Definition control_cancel (cancels_command : bool) (payload : option json) (r : agent)
    : res a_error value * agent :=
  match cancel_id payload with
  | None => (Err AJSON, r)
  | Some id =>
      let running := t_ID (if cancels_command then commandTask r else task r) in
      (Ok VCancelled,
       if bool_decide (id = "") || bool_decide (id = running)
       then (if cancels_command then cancelCommand r else cancelTask r) else r)
  end.

(** A request up to its answer, or to the start of a download.
    internal/webui/agent.go:82-207 [control] *)
Definition control_enter (env : ctl_env) (raw : bytes) (r : agent) : reaction * agent :=
  match decode_request raw with
  | None => (Answer (Err AJSON), r)
  | Some (method, tok, payload) =>
      if negb (String.eqb tok (token r)) then (Answer (Err AToken), r) else
      if bool_decide (method = "probe") || bool_decide (method = "start")
      then (control_task env method payload r, r)
      else if decide (method = "browse") then
        (Answer (match payload ≫= text "path" "" with
                 | None => Err AJSON
                 | Some p =>
                     match resolve (ce_fs env) (root r) (chars_of p) with
                     | Err e => Err e
                     | Ok dir =>
                         match listDirectory (ce_cwd env) (ce_fs env) (ce_open env) dir [] true with
                         | Some l => Ok (VListing l)
                         | None => Err AList
                         end
                     end
                 end), r)
      else if decide (method = "status") then (Answer (Ok (VTask (task r))), r)
      else if decide (method = "command.status") then (Answer (Ok (VTask (commandTask r))), r)
      else if decide (method = "command.cancel") then
        let '(v, r') := control_cancel true payload r in (Answer v, r')
      else if decide (method = "cancel") then
        let '(v, r') := control_cancel false payload r in (Answer v, r')
      else if decide (method = "command") then
        match control_command env payload r with
        | (Ok t, r') => (Answer (Ok (VTask t)), r')
        | (Err e, r') => (Answer (Err e), r')
        end
      else (Answer (Err (AUnknown method)), r)
  end.

(** A request that nothing interrupts. internal/webui/agent.go:82-208 [control] *)
Definition control (env : ctl_env) (raw : bytes) (r : agent) : res a_error value * agent :=
  match control_enter env raw r with
  | (Answer v, r') => (v, r')
  | (Begin spec, r') =>
      match launch "download" spec r' with
      | (Ok t, r'') => (Ok (VTask t), r'')
      | (Err e, r'') => (Err e, r'')
      end
  end.

(** ** The end *)

(** The last section, when no job is left; the caches are removed.
    internal/webui/agent.go:57-74 [close] *)
Definition close_end (r : agent) : agent * list chars :=
  (if is_empty (t_ID (task r)) then r
   else set_task (set_Message "已停止做种并下线，任务结束" (set_Status "ended" (task r))) r,
   cache r).

(** internal/webui/app.go:331-331 [startAgent] *)
Definition new_agent (root : chars) (token senderAddr : string) (allowCommands : bool) : agent :=
  let idle := mkTaskState "" "" "idle" "" "" "" no_progress in
  mkAgent root token senderAddr allowCommands false false idle idle None None ∅ 0 [] [] [].
