(* ===== verification/AgentInv.v ===== *)
(** * What the agent guarantees

    The agent as a transition system (requests, jobs that end, cancellations, the
    close) and its lifecycle specification: one download and one command at a time,
    each ending once, nothing started after the close. Which requests change
    anything, where destinations lead, and the bounds on a command. *)

From S2P Require Import Prelude Text Paths Json Model Download FileSys Transfer Extraction Tasks Listing Agent.
Local Open Scope string_scope.
Local Open Scope Z_scope.
Local Open Scope list_scope.

(** ** The output of a command *)

Definition written (ws : list bytes) : limitedOutput :=
  foldl (λ w p, (Write p w).2) (mkOutput [] false) ws.

Lemma written_spec ws :
  o_b (written ws) = take (Z.to_nat output_limit) (concat ws) ∧
  (o_truncated (written ws) = true ↔ output_limit < zlen (concat ws)).
Proof.
  assert (0 < output_limit) as Hpos by done.
  induction ws as [|p ws [IHb IHt]] using rev_ind.
  { split; [done|]. unfold zlen. cbn. split; [done|lia]. }
  unfold written in *. rewrite foldl_app, concat_app. cbn [foldl concat]. rewrite app_nil_r.
  set (w := foldl _ _ ws) in *. set (d := concat ws) in *. unfold Write. cbn [snd].
  rewrite IHb. unfold zlen in *. rewrite length_take, length_app.
  set (L := Z.to_nat output_limit). assert (Z.of_nat L = output_limit) as HL by (unfold L; lia).
  destruct (Z.ltb_spec (output_limit - Z.of_nat (L `min` length d)) (Z.of_nat (length p))) as [Hover|Hfit];
    cbn [o_b o_truncated].
  - split.
    + destruct (decide (length d ≤ L)%nat).
      * rewrite (take_ge d) by lia. rewrite take_app. rewrite (take_ge d) by lia. f_equal. f_equal. lia.
      * rewrite take_app_le by lia. replace (Z.to_nat _) with 0%nat by lia. by rewrite take_0, app_nil_r.
    + split; [|done]. intros _. destruct (decide (length d ≤ L)%nat); lia.
  - split.
    + destruct (decide (length d ≤ L)%nat).
      * rewrite (take_ge d) by lia. by rewrite take_ge by (rewrite length_app; lia).
      * assert (p = []) as -> by (apply length_zero_iff_nil; lia). by rewrite !app_nil_r.
    + rewrite IHt. split; lia.
Qed.

Lemma command_timeout_range c : 1 ≤ command_timeout c ≤ 300.
Proof.
  unfold command_timeout. destruct (Z.leb_spec (c_Timeout c) 0); [done|].
  destruct (Z.ltb_spec 300 (c_Timeout c)); lia.
Qed.

(** ** Destinations *)

Lemma find_ancestor_spec fuel fs es suffix anc suf :
  Forall normal_elem es → find_ancestor fuel fs (abs_path es) suffix = Ok (anc, suf) →
  ∃ k n, (k ≤ length es)%nat ∧ anc = abs_path (take k es) ∧ suf = suffix ++ rev (drop k es) ∧
    Lstat fs (take k es) = Found n ∧
    ((k < length es)%nat → Lstat fs (take (S k) es) = Absent).
Proof.
  intros Hes. revert suffix. induction es as [|x es IH] using rev_ind in fuel, Hes |- *; intros suffix.
  { destruct fuel as [|fuel]; [done|]. cbn [find_ancestor]. rewrite elems_abs_path by done. cbn [Lstat].
    intros [= <- <-]. exists 0%nat, NDir. cbn. rewrite app_nil_r. split_and!; try done. lia. }
  destruct fuel as [|fuel]; [done|]. cbn [find_ancestor]. rewrite elems_abs_path by done.
  assert (length (es ++ [x]) = S (length es)) as Hlen by (rewrite length_app; cbn; lia).
  destruct (Lstat fs (es ++ [x])) as [n| |] eqn:Hl; [| |done].
  { intros [= <- <-]. exists (S (length es)), n. rewrite <-Hlen, firstn_all, drop_all, app_nil_r.
    split_and!; try done. lia. }
  pose proof Hes as Hes'. apply Forall_app in Hes' as [Hes1 Hx]. apply Forall_cons in Hx as [Hx _].
  rewrite Dir_abs_path, Base_abs_path by done. case_bool_decide as Heq; [done|]. intros Hf.
  destruct (IH fuel Hes1 _ Hf) as (k & n & Hk & -> & -> & Hn & Habs). exists k, n.
  rewrite Hlen, take_app_le, drop_app_le, rev_app_distr by lia. split_and!; try done; [lia|by rewrite <-app_assoc|].
  intros Hk'. destruct (decide (k = length es)) as [->|].
  - by rewrite <-Hlen, firstn_all.
  - rewrite take_app_le by lia. apply Habs. lia.
Qed.

Lemma Lstat_snoc fs p x :
  Lstat fs (p ++ [x]) = match namei max_links fs [] p with
    | Missing => Absent | Refused => Fails
    | At q => match node_at fs q with
              | Some NDir => if denied fs (q ++ [x]) then Fails else
                  match node_at fs (q ++ [x]) with Some n => Found n | None => Absent end
              | _ => Fails end end.
Proof.
  unfold Lstat. destruct (p ++ [x]) eqn:E; [by destruct p|]. rewrite <-E.
  by rewrite parent_of_snoc, List.last_last.
Qed.

(** Nothing lies below a place that does not exist. *)
Lemma absent_below fs p t : fs_wf fs → node_at fs p = None → node_at fs (p ++ t) = None.
Proof.
  intros Hwf Hn. destruct t as [|x t]; [by rewrite app_nil_r|].
  destruct (node_at fs (p ++ x :: t)) as [n|] eqn:E; [|done].
  pose proof (fs_wf_dirs _ _ _ Hwf E (length p)) as Hd. rewrite take_app_length in Hd.
  unfold is_dir in Hd. rewrite Hd in Hn; [done|]. rewrite length_app. cbn. lia.
Qed.

(** Where a destination leads: the real directory the sender's path names, as far as
    it exists, and then names under which nothing exists. *)
Lemma resolve_spec fs root dir p :
  fs_wf fs → IsAbs root = true → resolve fs root dir = Ok p →
  ∃ es real k, Abs root (match dir with [] => dot | _ => dir end) = abs_path es ∧ (k ≤ length es)%nat ∧
    EvalSymlinks fs (take k es) = Some real ∧ p = abs_path (real ++ drop k es) ∧
    Forall normal_elem (real ++ drop k es) ∧ no_links fs [] (real ++ drop k es) ∧
    ((k < length es)%nat → node_at fs (real ++ take 1 (drop k es)) = None).
Proof.
  intros Hwf Hroot. unfold resolve. set (d0 := match dir with [] => dot | _ => dir end).
  destruct (elems_Abs root d0 Hroot) as (es & Habs & Hes & _).
  assert (Clean (if IsAbs d0 then d0 else Join root d0) = abs_path es) as ->.
  { unfold Abs in Habs. destruct (IsAbs d0); [done|]. rewrite Habs. by apply Clean_abs_path. }
  destruct (find_ancestor _ _ _ _) as [[anc suf]|] eqn:Hf; [|done].
  destruct (find_ancestor_spec _ _ _ _ _ _ Hes Hf) as (k & n & Hk & -> & -> & Hn & Habsent).
  rewrite elems_abs_path by by apply Forall_take. cbn [app]. rewrite rev_involutive.
  destruct (EvalSymlinks fs (take k es)) as [real|] eqn:He; [|done]. intros [= <-].
  unfold EvalSymlinks in He. destruct (namei max_links fs [] (take k es)) as [q| |] eqn:Hw; [|done|done].
  injection He as ->.
  destruct (namei_real max_links fs [] (take k es) real) as (Hrd & Hrl & Hrn); try done.
  { intros j Hj. cbn in Hj. lia. }
  { apply normal_no_slash. by apply Forall_take. }
  assert (Forall normal_elem (real ++ drop k es)) as Hall
    by (apply Forall_app; split; [done|by apply Forall_drop]).
  assert ((k < length es)%nat → node_at fs (real ++ take 1 (drop k es)) = None) as Hnone.
  { intros Hlt. destruct (lookup_lt_is_Some_2 es k Hlt) as [x Hx].
    rewrite (drop_S _ _ _ Hx). cbn. rewrite take_0. specialize (Habsent Hlt).
    rewrite (take_S_r _ _ _ Hx), Lstat_snoc, Hw in Habsent.
    destruct (node_at fs real) as [[]|]; try done. destruct (denied fs _); [done|].
    by destruct (node_at fs (real ++ [x])). }
  assert (no_links fs [] (real ++ drop k es)) as Hnl; [|exists es, real, k;
    rewrite foldl_Join by (done || by apply Forall_drop); split_and!; try done;
    unfold EvalSymlinks; by rewrite Hw].
  intros j Hj. cbn [app]. destruct (decide (j ≤ length real)%nat) as [Hjr|Hjr].
  - rewrite take_app_le by lia. destruct (decide (j = length real)) as [->|]; [by rewrite firstn_all|].
    unfold not_link. by rewrite (Hrd j) by lia.
  - rewrite take_app_ge by lia. rewrite length_app in Hj. unfold not_link.
    assert (node_at fs (real ++ take (j - length real) (drop k es)) = None) as ->; [|done].
    rewrite length_drop in Hj. destruct (j - length real)%nat as [|i] eqn:Ei; [lia|].
    assert (take (S i) (drop k es) = take 1 (drop k es) ++ take i (drop 1 (drop k es))) as ->.
    { destruct (drop k es) as [|y l]; [by destruct i|]. cbn. by rewrite take_0, drop_0. }
    rewrite app_assoc. apply absent_below; [done|]. apply Hnone. lia.
Qed.

(** ** Requests *)

(** What a request may do to the agent before a download starts. *)
Inductive effect (env : ctl_env) (r : agent) (method : string) (payload : option json) : agent → Prop :=
| E_none : effect env r method payload r
| E_cancel : method = "cancel" → effect env r method payload (cancelTask r)
| E_cancel_command : method = "command.cancel" → effect env r method payload (cancelCommand r)
| E_command c dir id t r' :
    method = "command" → allowCommands r = true → payload ≫= decode_Command = Some c →
    blank (c_Text c) = false → resolve (ce_fs env) (root r) (chars_of (c_Directory c)) = Ok dir →
    launchCommand (mkCommand id (c_Text c) (string_of dir) (c_Timeout c)) r = (Ok t, r') →
    effect env r method payload r'.

Lemma launchCommand_err c r e r' : launchCommand c r = (Err e, r') → r' = r.
Proof. unfold launchCommand. destruct (stopped r); [by intros [= _ <-]|]. case_decide; by intros [= _ <-]. Qed.

Lemma control_enter_cases env raw r x r' :
  control_enter env raw r = (x, r') →
  r' = r ∧ (∃ e, x = Answer (Err e)) ∨
  ∃ method payload, decode_request raw = Some (method, token r, payload) ∧
    effect env r method payload r' ∧
    ∀ spec, x = Begin spec → r' = r ∧ method = "start" ∧ payload ≫= decode_TaskSpec = Some spec ∧
      t_Status (task r) ≠ "running" ∧ validateSpec spec = Ok tt ∧ ce_meta env = Some (sp_Meta spec) ∧
      ∃ p, probe (ce_cwd env) (ce_sys env) (ce_fs env) (root r) spec
             (if sp_Archive spec then fs_FileSize (sp_Meta spec) else 0) = Ok p.
Proof.
  unfold control_enter. destruct (decode_request raw) as [[[method tok] payload]|]; [|by intros [= <- <-]; eauto].
  destruct (String.eqb_spec tok (token r)) as [->|]; [|by intros [= <- <-]; eauto]. cbn [negb].
  destruct (bool_decide (method = "probe") || bool_decide (method = "start")) eqn:Hm.
  { intros [= <- <-]. right. exists method, payload. split_and!; [done|constructor|]. intros spec.
    unfold control_task, payload_as. cbv zeta. destruct (payload ≫= decode_TaskSpec) as [sp|]; [|done].
    destruct (_ && (_ || _)); [done|].
    destruct (bool_decide_reflect (t_Status (task r) = "running")) as [|Hidle]; [done|].
    destruct (validateSpec sp) as [[]|] eqn:Hv; [|done].
    destruct (probe _ _ _ _ _ _) as [p|] eqn:Hp; [|done].
    case_bool_decide as Hpr; [done|]. destruct (ce_meta env) as [meta|] eqn:Hme; [|done].
    destruct (bool_decide_reflect (meta = sp_Meta sp)) as [->|]; [|done]. intros [= ->].
    split_and!; try done; [by apply bool_decide_eq_true in Hm|by exists p]. }
  clear Hm. repeat case_decide; subst.
  all: try (intros [= <- <-]; right; eexists _, _; split_and!; [done|constructor|done]).
  - unfold control_cancel. destruct (cancel_id payload); [|by intros [= <- <-]; eauto].
    destruct (_ || _); intros [= <- <-]; right; eexists _, _; (split_and!; [done|by first [apply E_none|apply E_cancel|apply E_cancel_command]|done]).
  - unfold control_cancel. destruct (cancel_id payload); [|by intros [= <- <-]; eauto].
    destruct (_ || _); intros [= <- <-]; right; eexists _, _; (split_and!; [done|by first [apply E_none|apply E_cancel|apply E_cancel_command]|done]).
  - destruct (control_command env payload r) as [[t|e] r1] eqn:Hc; intros [= <- <-].
    + right. eexists _, _. split_and!; [done| |done]. unfold control_command, payload_as in Hc.
      destruct (allowCommands r) eqn:Ha; [|done]. cbn [negb] in Hc.
      destruct (payload ≫= decode_Command) as [c|] eqn:Hd; [|done].
      destruct (blank (c_Text c)) eqn:Hb; [done|]. destruct (resolve _ _ _) as [dir|] eqn:Hr; [|done].
      by eapply E_command.
    + left. split; [|eauto]. unfold control_command in Hc. destruct (negb _); [by injection Hc|].
      destruct (payload_as _ _); [|by injection Hc]. destruct (blank _); [by injection Hc|].
      destruct (resolve _ _ _); [|by injection Hc]. by apply launchCommand_err in Hc.
Qed.

Lemma launch_Ok kind spec r t r' :
  launch kind spec r = (Ok t, r') → stopped r = false ∧ t_Status (task r) ≠ "running".
Proof. unfold launch. destruct (stopped r); [done|]. by case_decide. Qed.

Lemma launchCommand_Ok c r t r' :
  launchCommand c r = (Ok t, r') → stopped r = false ∧ t_Status (commandTask r) ≠ "running".
Proof. unfold launchCommand. destruct (stopped r); [done|]. by case_decide. Qed.

(** ** The agent as a transition system *)

Inductive phase : Type := Open | Closing | Closed.

#[export] Instance phase_eq_dec : EqDecision phase.
Proof. solve_decision. Defined.

(** The agent, the requests that are about to start a download, and the close. *)
Record Node : Type := mkNode { n_agent : agent; n_waiting : list TaskSpec; n_phase : phase }.

Definition with_agent (r : agent) (s : Node) : Node := mkNode r (n_waiting s) (n_phase s).

Inductive agent_step (s : Node) : Node → Prop :=
| S_request env raw v r' :
    control_enter env raw (n_agent s) = (Answer v, r') → agent_step s (with_agent r' s)
| S_admit env raw spec r' :
    control_enter env raw (n_agent s) = (Begin spec, r') →
    agent_step s (mkNode r' (spec :: n_waiting s) (n_phase s))
| S_begin spec l1 l2 :
    n_waiting s = l1 ++ spec :: l2 →
    agent_step s (mkNode (launch "download" spec (n_agent s)).2 (l1 ++ l2) (n_phase s))
| S_progress n spec p :
    (n, spec) ∈ downloads (n_agent s) →
    agent_step s (with_agent (on_progress (sp_Archive spec) p (n_agent s)) s)
| S_download n spec cwd env fs :
    (n, spec) ∈ downloads (n_agent s) →
    agent_step s (with_agent (download_begin cwd env fs spec (n_agent s)).2 s)
| S_downloaded n spec cwd sys run arch dir c fs :
    (n, spec) ∈ downloads (n_agent s) →
    agent_step s (with_agent (download_end cwd sys run arch spec dir c fs (n_agent s)).1.2 s)
| S_task_end n spec err :
    (n, spec) ∈ downloads (n_agent s) → agent_step s (with_agent (launch_end n err (n_agent s)) s)
| S_execute n c writes err over :
    (n, c) ∈ commands (n_agent s) →
    agent_step s (with_agent (execute writes err over (n_agent s)).2 s)
| S_command_end n c err :
    (n, c) ∈ commands (n_agent s) → agent_step s (with_agent (launchCommand_end n err (n_agent s)) s)
| S_cancel : agent_step s (with_agent (cancelTask (n_agent s)) s)
| S_cancel_command : agent_step s (with_agent (cancelCommand (n_agent s)) s)
| S_down : agent_step s (with_agent (set_disconnected true (n_agent s)) s)
| S_close :
    n_phase s = Open → agent_step s (mkNode (set_stopped true (n_agent s)) (n_waiting s) Closing)
| S_closed :
    n_phase s = Closing → downloads (n_agent s) = [] → commands (n_agent s) = [] →
    agent_step s (mkNode (close_end (n_agent s)).1 (n_waiting s) Closed).

(** ** Its specification *)

(** A slot for one job at a time: never used, busy, or what became of the last job. *)
Inductive slot : Type := Idle | Busy (id : string) | Over (id outcome : string).

Record Life : Type := mkLife { lf_task : slot; lf_command : slot; lf_open : bool }.

Definition busy (x : slot) : bool := match x with Busy _ => true | _ => false end.

Inductive life_step : Life → Life → Prop :=
| L_start x c id : busy x = false → life_step (mkLife x c true) (mkLife (Busy id) c true)
| L_end id o c b : o ∈ ["seeding"; "failed"; "cancelled"] →
    life_step (mkLife (Busy id) c b) (mkLife (Over id o) c b)
| L_command x c id : busy c = false → life_step (mkLife x c true) (mkLife x (Busy id) true)
| L_command_end x id o b : o ∈ ["completed"; "failed"; "cancelled"] →
    life_step (mkLife x (Busy id) b) (mkLife x (Over id o) b)
| L_close x c : life_step (mkLife x c true) (mkLife x c false)
| L_ended id o c : busy c = false →
    life_step (mkLife (Over id o) c false) (mkLife (Over id "ended") c false).

Definition slot_of (t : TaskState) : slot :=
  if decide (t_Status t = "idle") then Idle
  else if decide (t_Status t = "running") then Busy (t_ID t) else Over (t_ID t) (t_Status t).

Definition life_of (s : Node) : Life :=
  mkLife (slot_of (task (n_agent s))) (slot_of (commandTask (n_agent s)))
    (bool_decide (n_phase s = Open)).

(** ** The simulation *)

(** Running, with exactly its job; or without any. *)
Definition slot_ok {A} (id_of : A → string) (t : TaskState) (jobs : list (Z * A)) : Prop :=
  if decide (t_Status t = "running") then ∃ n x, jobs = [(n, x)] ∧ id_of x = t_ID t else jobs = [].

Record node_inv (s : Node) : Prop := {
  iv_task : slot_ok sp_ID (task (n_agent s)) (downloads (n_agent s));
  iv_command : slot_ok c_ID (commandTask (n_agent s)) (commands (n_agent s));
  iv_idle : t_Status (task (n_agent s)) = "idle" ↔ t_ID (task (n_agent s)) = "";
  iv_waiting : Forall (λ spec, sp_ID spec ≠ "") (n_waiting s);
  iv_stopped : stopped (n_agent s) = negb (bool_decide (n_phase s = Open));
}.

(** A section that neither starts nor ends a job. *)
Record quiet (r r' : agent) : Prop := {
  q_task : t_Status (task r') = t_Status (task r) ∧ t_ID (task r') = t_ID (task r);
  q_command : t_Status (commandTask r') = t_Status (commandTask r) ∧
              t_ID (commandTask r') = t_ID (commandTask r);
  q_jobs : downloads r' = downloads r ∧ commands r' = commands r;
  q_stopped : stopped r' = stopped r;
}.

Lemma quiet_refl r : quiet r r.
Proof. by split. Qed.

Lemma quiet_cancel c r : quiet r (cancel_ctx c r).
Proof. destruct c; by split. Qed.

Definition simulates (s s' : Node) : Prop :=
  node_inv s' ∧ (life_of s' = life_of s ∨ life_step (life_of s) (life_of s')).

Lemma quiet_simulates s r' w :
  node_inv s → quiet (n_agent s) r' → Forall (λ spec, sp_ID spec ≠ "") w →
  simulates s (mkNode r' w (n_phase s)).
Proof.
  intros [H1 H2 H3 H4 H5] [[Q1 Q2] [Q3 Q4] [Q5 Q6] Q7] Hw. split; [split; cbn; try done|left].
  - unfold slot_ok in *. by rewrite Q1, Q2, Q5.
  - unfold slot_ok in *. by rewrite Q3, Q4, Q6.
  - by rewrite Q1, Q2.
  - by rewrite Q7.
  - unfold life_of, slot_of. cbn. by rewrite Q1, Q2, Q3, Q4.
Qed.

Lemma slot_busy {A} (id_of : A → string) t jobs j :
  slot_ok id_of t jobs → j ∈ jobs → t_Status t = "running" ∧ jobs = [j] ∧ id_of j.2 = t_ID t.
Proof.
  unfold slot_ok. case_decide as Hs.
  - intros (n & x & -> & Hid) ->%list_elem_of_singleton. done.
  - intros -> ?%not_elem_of_nil. done.
Qed.

Lemma remove_only {A} n (x : A) : remove_job n [(n, x)] = [].
Proof. unfold remove_job. by rewrite filter_cons_False by (intros H; by apply H). Qed.

Definition outcome (good : string) (err : option job_error) : string :=
  match err with Some e => if je_cancelled e then "cancelled" else "failed" | None => good end.

Lemma launch_end_task n err r :
  t_Status (task (launch_end n err r)) = outcome "seeding" err ∧
  t_ID (task (launch_end n err r)) = t_ID (task r).
Proof. by destruct err. Qed.

Lemma launchCommand_end_task n err r :
  t_Status (commandTask (launchCommand_end n err r)) = outcome "completed" err ∧
  t_ID (commandTask (launchCommand_end n err r)) = t_ID (commandTask r).
Proof. by destruct err. Qed.

Lemma outcome_member good err : outcome good err ∈ [good; "failed"; "cancelled"].
Proof. destruct err as [[? []]|]; set_solver. Qed.

Lemma slot_over t o : o ≠ "idle" → o ≠ "running" → t_Status t = o → slot_of t = Over (t_ID t) o.
Proof. intros H1 H2 <-. unfold slot_of. by rewrite !decide_False. Qed.

Lemma slot_running t : t_Status t = "running" → slot_of t = Busy (t_ID t).
Proof. intros H. unfold slot_of. by rewrite H. Qed.

Lemma slot_free t : t_Status t ≠ "running" → busy (slot_of t) = false.
Proof. intros H. unfold slot_of. case_decide; [done|]. by rewrite decide_False. Qed.

Lemma begin_simulates s spec w :
  node_inv s → sp_ID spec ≠ "" → Forall (λ spec, sp_ID spec ≠ "") w →
  simulates s (mkNode (launch "download" spec (n_agent s)).2 w (n_phase s)).
Proof.
  intros Hinv Hid Hw. destruct (launch "download" spec (n_agent s)) as [[t|e] r'] eqn:Hl; cbn [snd].
  - destruct (launch_Ok _ _ _ _ _ Hl) as [Hst Hrun]. unfold launch in Hl.
    rewrite Hst, decide_False in Hl by done. injection Hl as <- <-.
    destruct Hinv as [H1 H2 H3 H4 H5]. unfold slot_ok in H1. rewrite decide_False in H1 by done.
    split; [split; cbn; try done|right].
    + unfold slot_ok. cbn. rewrite H1. by eexists _, _.
    + by rewrite <-H5.
    + unfold life_of. cbn. rewrite Hst in H5. symmetry in H5. apply negb_false_iff in H5. rewrite H5.
      apply L_start. by apply slot_free.
  - assert (r' = n_agent s) as ->.
    { unfold launch in Hl. destruct (stopped _); [by injection Hl|]. case_decide; [by injection Hl|done]. }
    apply quiet_simulates; [done|apply quiet_refl|done].
Qed.

Lemma command_simulates s c t r' :
  node_inv s → launchCommand c (n_agent s) = (Ok t, r') → simulates s (with_agent r' s).
Proof.
  intros [H1 H2 H3 H4 H5] Hl. destruct (launchCommand_Ok _ _ _ _ Hl) as [Hst Hrun]. unfold launchCommand in Hl.
  rewrite Hst, decide_False in Hl by done. injection Hl as <- <-.
  unfold slot_ok in H2. rewrite decide_False in H2 by done. split; [split; cbn; try done|right].
  - unfold slot_ok. cbn. rewrite H2. by eexists _, _.
  - by rewrite <-H5.
  - unfold life_of. cbn. rewrite Hst in H5. symmetry in H5. apply negb_false_iff in H5. rewrite H5.
    apply L_command. by apply slot_free.
Qed.

Lemma request_simulates env raw s x r' :
  node_inv s → control_enter env raw (n_agent s) = (x, r') → simulates s (with_agent r' s).
Proof.
  intros Hinv Hc. pose proof (iv_waiting _ Hinv) as Hw.
  destruct (control_enter_cases _ _ _ _ _ Hc) as [[-> _]|(m & p & _ & He & _)].
  { apply quiet_simulates; [done|apply quiet_refl|done]. }
  destruct He.
  - apply quiet_simulates; [done|apply quiet_refl|done].
  - apply quiet_simulates; [done|apply quiet_cancel|done].
  - apply quiet_simulates; [done|apply quiet_cancel|done].
  - by eapply command_simulates.
Qed.

Lemma task_end_simulates s n spec err :
  node_inv s → (n, spec) ∈ downloads (n_agent s) →
  simulates s (with_agent (launch_end n err (n_agent s)) s).
Proof.
  intros [H1 H2 H3 H4 H5] Hin. destruct (slot_busy _ _ _ _ H1 Hin) as (Hrun & Hjobs & Hid).
  destruct (launch_end_task n err (n_agent s)) as [Hs Hi].
  pose proof (outcome_member "seeding" err) as Ho. set (r' := launch_end n err (n_agent s)) in *.
  assert (outcome "seeding" err ≠ "idle" ∧ outcome "seeding" err ≠ "running") as [Hni Hnr]
    by (by destruct err as [[? []]|]).
  assert (downloads r' = []) as Hd by (cbn; rewrite Hjobs; apply remove_only).
  assert (slot_of (task (n_agent s)) = Busy (t_ID (task (n_agent s)))) as Hb by by apply slot_running.
  split; [split|right].
  - unfold slot_ok. cbn [n_agent with_agent]. rewrite Hs, decide_False by done. done.
  - done.
  - cbn [n_agent with_agent]. rewrite Hs, Hi. split; [done|]. intros He. apply H3 in He. congruence.
  - done.
  - done.
  - unfold life_of. cbn [n_agent with_agent n_phase]. rewrite (slot_over _ _ Hni Hnr Hs), Hi, Hb.
    by apply L_end.
Qed.

Lemma command_end_simulates s n c err :
  node_inv s → (n, c) ∈ commands (n_agent s) →
  simulates s (with_agent (launchCommand_end n err (n_agent s)) s).
Proof.
  intros [H1 H2 H3 H4 H5] Hin. destruct (slot_busy _ _ _ _ H2 Hin) as (Hrun & Hjobs & Hid).
  destruct (launchCommand_end_task n err (n_agent s)) as [Hs Hi].
  pose proof (outcome_member "completed" err) as Ho. set (r' := launchCommand_end n err (n_agent s)) in *.
  assert (outcome "completed" err ≠ "idle" ∧ outcome "completed" err ≠ "running") as [Hni Hnr]
    by (by destruct err as [[? []]|]).
  assert (commands r' = []) as Hd by (cbn; rewrite Hjobs; apply remove_only).
  assert (slot_of (commandTask (n_agent s)) = Busy (t_ID (commandTask (n_agent s)))) as Hb by by apply slot_running.
  split; [split|right].
  - done.
  - unfold slot_ok. cbn [n_agent with_agent]. rewrite Hs, decide_False by done. done.
  - done.
  - done.
  - done.
  - unfold life_of. cbn [n_agent with_agent n_phase]. rewrite (slot_over _ _ Hni Hnr Hs), Hi, Hb.
    by apply L_command_end.
Qed.

Lemma closed_simulates s :
  node_inv s → n_phase s = Closing → downloads (n_agent s) = [] → commands (n_agent s) = [] →
  simulates s (mkNode (close_end (n_agent s)).1 (n_waiting s) Closed).
Proof.
  intros [H1 H2 H3 H4 H5] Hph Hd Hc.
  assert (t_Status (task (n_agent s)) ≠ "running") as Hnr.
  { intros E. unfold slot_ok in H1. rewrite decide_True in H1 by done. destruct H1 as (? & ? & H1 & _). congruence. }
  assert (t_Status (commandTask (n_agent s)) ≠ "running") as Hcr.
  { intros E. unfold slot_ok in H2. rewrite decide_True in H2 by done. destruct H2 as (? & ? & H2 & _). congruence. }
  unfold close_end. destruct (is_empty (t_ID (task (n_agent s)))) eqn:Hid; cbn [fst].
  - split; [split; cbn; try done|left; unfold life_of; by rewrite Hph]. by rewrite H5, Hph.
  - apply is_empty_false in Hid. split; [split; cbn; try done|right].
    + by rewrite H5, Hph.
    + unfold life_of. cbn. rewrite Hph.
      assert (t_Status (task (n_agent s)) ≠ "idle") as Hni by (intros E; by apply H3 in E).
      rewrite (slot_over (task (n_agent s)) _ Hni Hnr eq_refl). apply L_ended. by apply slot_free.
Qed.

Lemma step_simulates s s' : node_inv s → agent_step s s' → simulates s s'.
Proof.
  intros Hinv Hstep. pose proof (iv_waiting _ Hinv) as Hw.
  assert (∀ r', quiet (n_agent s) r' → simulates s (with_agent r' s)) as Hquiet
    by (intros; by apply quiet_simulates).
  destruct Hstep.
  - by eapply request_simulates.
  - destruct (control_enter_cases _ _ _ _ _ H) as [[-> [e [=]]]|(m & p & _ & _ & Hb)].
    destruct (Hb spec eq_refl) as (-> & _ & _ & _ & Hv & _). apply quiet_simulates; [done|apply quiet_refl|].
    constructor; [|done]. unfold validateSpec in Hv. destruct (is_empty (sp_ID spec)) eqn:He; [done|].
    by apply is_empty_false.
  - rewrite H in Hw. apply Forall_app in Hw as [Hw1 Hw2]. apply Forall_cons in Hw2 as [Hid Hw2].
    apply begin_simulates; [done|done|by apply Forall_app].
  - apply Hquiet. unfold on_progress. destruct (_ && _); by split.
  - apply Hquiet. unfold download_begin. destruct (resolve _ _ _); [|apply quiet_refl].
    destruct (MkdirAll _ _ _) as [made fs1]. destruct (negb made); [apply quiet_refl|].
    destruct (sp_Archive spec).
    + destruct (_ ≫= _) as [[c q]|]; by split.
    + destruct (Resolve _ _ _ _); apply quiet_refl.
  - apply Hquiet. unfold download_end. destruct run; [destruct (bool_decide _); by split|].
    cbn. destruct (sp_Archive spec); [|by split]. destruct (Extract _ _ _ _ _ _ _ _) as [[] ?]; by split.
  - by eapply task_end_simulates.
  - apply Hquiet. unfold execute. destruct (negb _); by split.
  - by eapply command_end_simulates.
  - apply Hquiet, quiet_cancel.
  - apply Hquiet, quiet_cancel.
  - apply Hquiet. by split.
  - destruct Hinv as [H1 H2 H3 H4 H5]. split; [split; cbn; try done|right].
    unfold life_of. cbn. rewrite H. apply L_close.
  - by apply closed_simulates.
Qed.

Definition start_node (root : chars) (token addr : string) (commands : bool) : Node :=
  mkNode (new_agent root token addr commands) [] Open.

Lemma start_inv root token addr b : node_inv (start_node root token addr b).
Proof. by split. Qed.

(** What the slots say of the jobs. *)
Definition jobs_match {A} (id_of : A → string) (x : slot) (jobs : list (Z * A)) : Prop :=
  match x with
  | Busy id => ∃ n a, jobs = [(n, a)] ∧ id_of a = id
  | _ => jobs = []
  end.

Lemma slot_jobs {A} (id_of : A → string) t jobs :
  slot_ok id_of t jobs → jobs_match id_of (slot_of t) jobs.
Proof.
  unfold slot_ok, slot_of. intros H. destruct (decide (t_Status t = "running")) as [E|E].
  - rewrite E. done.
  - by case_decide.
Qed.

(** ** Properties *)

(** C36. The agent runs at most one download and one command, whatever is asked of it
    and in whatever order jobs end, cancellations come and the close happens. Every
    run of its critical sections is a run of the lifecycle [life_step]: a slot that
    is busy does not start anything, a job ends once with one of its outcomes,
    nothing starts once the close has begun, and only then, with no command running,
    does the last task become ["ended"]. At any time the goroutines are those of the
    busy slots: one for a busy slot, doing the task it names, none for another. *)
Theorem agent_refines_lifecycle (root : chars) (token addr : string) (b : bool) (s : Node) :
  rtc agent_step (start_node root token addr b) s →
  rtc life_step (mkLife Idle Idle true) (life_of s) ∧
  jobs_match sp_ID (lf_task (life_of s)) (downloads (n_agent s)) ∧
  jobs_match c_ID (lf_command (life_of s)) (commands (n_agent s)).
Proof.
  intros Hrun. assert (node_inv s ∧ rtc life_step (mkLife Idle Idle true) (life_of s)) as [Hinv Hlife].
  { remember (start_node root token addr b) as s0 eqn:E.
    assert (node_inv s0 ∧ rtc life_step (mkLife Idle Idle true) (life_of s0)) as H0.
    { subst. split; [apply start_inv|apply rtc_refl]. }
    clear E. induction Hrun as [|s0 s1 s2 Hstep _ IH]; [done|]. apply IH. destruct H0 as [Hinv Hlife].
    destruct (step_simulates _ _ Hinv Hstep) as [Hinv' [-> | Hl]]; split; try done.
    by eapply rtc_r. }
  split; [done|]. destruct Hinv. split; by apply slot_jobs.
Qed.

(** C37. Only an authenticated request changes the agent. If a request leaves it other
    than it was, the request carried the agent's token, and it was one of these:
    ["start"], when no task was running, with a specification that is valid, whose
    destination was probed, and whose file is still the one the sender offers;
    ["command"], where commands are allowed, with a text that is not blank, to run
    in the directory the path resolves to; or a cancellation, which only cancels a
    context. A running command or download is never replaced, and after the close
    nothing is started. *)
Theorem control_guarded (env : ctl_env) (raw : bytes) (r r' : agent) (v : res a_error value) :
  control env raw r = (v, r') → r' ≠ r →
  ∃ method payload, decode_request raw = Some (method, token r, payload) ∧
    (method = "start" ∧ stopped r = false ∧ t_Status (task r) ≠ "running" ∧
       (∃ spec p, payload ≫= decode_TaskSpec = Some spec ∧ validateSpec spec = Ok tt ∧
          probe (ce_cwd env) (ce_sys env) (ce_fs env) (root r) spec
            (if sp_Archive spec then fs_FileSize (sp_Meta spec) else 0) = Ok p ∧
          ce_meta env = Some (sp_Meta spec) ∧ launch "download" spec r = (Ok (task r'), r')) ∨
     method = "command" ∧ allowCommands r = true ∧ stopped r = false ∧
       t_Status (commandTask r) ≠ "running" ∧
       (∃ c dir id, payload ≫= decode_Command = Some c ∧ blank (c_Text c) = false ∧
          resolve (ce_fs env) (root r) (chars_of (c_Directory c)) = Ok dir ∧
          launchCommand (mkCommand id (c_Text c) (string_of dir) (c_Timeout c)) r
          = (Ok (commandTask r'), r')) ∨
     method = "cancel" ∧ r' = cancelTask r ∨
     method = "command.cancel" ∧ r' = cancelCommand r).
Proof.
  unfold control. destruct (control_enter env raw r) as [x r1] eqn:Hc. intros Hv Hne.
  destruct (control_enter_cases _ _ _ _ _ Hc) as [[-> [e ->]]|(m & p & Hd & He & Hb)].
  { by injection Hv as _ <-. }
  exists m, p. split; [done|]. destruct x as [v0|spec].
  - injection Hv as _ <-. destruct He as [| | |c dir id t r2 Hm Hal Hdc Hbl Hres Hl]; [done|auto|auto|].
    right; left. destruct (launchCommand_Ok _ _ _ _ Hl) as [Hst Hrun]. split_and!; try done.
    exists c, dir, id. split_and!; try done. rewrite Hl. f_equal.
    unfold launchCommand in Hl. rewrite Hst, decide_False in Hl by done. by injection Hl as <- <-.
  - left. destruct (Hb spec eq_refl) as (-> & -> & Hdc & Hrun & Hval & Hmeta & [pr Hpr]).
    destruct (launch "download" spec r) as [[t|e] r2] eqn:Hl; injection Hv as _ <-.
    + destruct (launch_Ok _ _ _ _ _ Hl) as [Hst _]. split_and!; try done. exists spec, pr.
      split_and!; try done. rewrite Hl. f_equal. unfold launch in Hl. rewrite Hst, decide_False in Hl by done.
      injection Hl as <- <-.
      done.
    + exfalso. unfold launch in Hl. destruct (stopped r); [by injection Hl|]. by rewrite decide_False in Hl.
Qed.

(** A destination is where the sender's path leads. Relative paths start at the
    working directory; as far as the path exists its links are followed to the real
    place, and the names below, under which nothing exists, are appended. The result
    has no link on it, so that following it again gives the same place. *)
Theorem resolve_real (fs : FS) (root dir p : chars) :
  fs_wf fs → IsAbs root = true → resolve fs root dir = Ok p →
  ∃ es real k, Abs root (match dir with [] => dot | _ => dir end) = abs_path es ∧ (k ≤ length es)%nat ∧
    EvalSymlinks fs (take k es) = Some real ∧ p = abs_path (real ++ drop k es) ∧
    Forall normal_elem (real ++ drop k es) ∧ no_links fs [] (real ++ drop k es) ∧
    ((k < length es)%nat → node_at fs (real ++ take 1 (drop k es)) = None).
Proof. apply resolve_spec. Qed.

(** A command is bounded: it is given between one second and five minutes, and of
    what it writes exactly the first 256 KiB are kept, with a note if and only if
    something was cut; the writer never refuses, so that the output does not stop
    the command. *)
Theorem command_bounded (c : Command) (writes : list bytes) (p : bytes) :
  1 ≤ command_timeout c ≤ 300 ∧
  o_b (written writes) = take (Z.to_nat output_limit) (concat writes) ∧
  (o_truncated (written writes) = true ↔ output_limit < zlen (concat writes)) ∧
  (Write p (written writes)).1 = zlen p.
Proof. split_and!; [apply command_timeout_range..|apply written_spec|apply written_spec|done]. Qed.

(** ** A concrete agent *)

Definition demo_meta : GetFileStatusResp := mkGetFileStatusResp "" "d.tar" 4096 1048576 1.

Definition demo_spec : TaskSpec := mkTaskSpec "t1" "in/new" false true demo_entries demo_meta.

Definition demo_ctl : ctl_env :=
  mkCtlEnv (chars_of "/srv") demo_sys demo_fs (Some demo_meta) "k1" (λ _, None).

Definition demo_request (method token : string) (payload : json) : bytes :=
  to_bytes (print_json (encode_ControlRequest (mkControlRequest "control" method token payload))).

Definition demo_start : bytes := demo_request "start" "secret" (encode_TaskSpec demo_spec).

Definition demo_agent : agent := new_agent (chars_of "/srv") "secret" "10.0.0.1:9" true.

Definition demo_busy : agent := (launch "download" demo_spec demo_agent).2.

Example control_examples :
  let go r method token payload := control demo_ctl (demo_request method token payload) r in
  go demo_agent "start" "wrong" (encode_TaskSpec demo_spec) = (Err AToken, demo_agent) ∧
  go demo_agent "start" "secret" (encode_TaskSpec demo_spec) = (Ok (VTask (task demo_busy)), demo_busy) ∧
  go demo_busy "start" "secret" (encode_TaskSpec demo_spec) = (Ok (VTask (task demo_busy)), demo_busy) ∧
  go demo_busy "probe" "secret" (encode_TaskSpec demo_spec) = (Err ABusy, demo_busy) ∧
  (go demo_agent "command" "secret" (encode_Command (mkCommand "" " ls" "in" 0))).1
    = Ok (VTask (mkTaskState "k1" "command" "running" "正在执行命令" "" "" no_progress)) ∧
  go demo_agent "command" "secret" (encode_Command (mkCommand "" "  " "in" 0)) = (Err AEmptyCommand, demo_agent) ∧
  go demo_agent "reboot" "secret" JNull = (Err (AUnknown "reboot"), demo_agent).
Proof. vm_compute. split_and!; reflexivity. Qed.

Definition demo_done : Node :=
  mkNode (launch_end 0 None demo_busy) [] Open.

Lemma agent_refines_lifecycle_witness :
  rtc life_step (mkLife Idle Idle true) (life_of demo_done) ∧
  jobs_match sp_ID (lf_task (life_of demo_done)) (downloads (n_agent demo_done)) ∧
  jobs_match c_ID (lf_command (life_of demo_done)) (commands (n_agent demo_done)).
Proof.
  apply (agent_refines_lifecycle (chars_of "/srv") "secret" "10.0.0.1:9" true).
  eapply rtc_l; [apply (S_admit _ demo_ctl demo_start demo_spec demo_agent); vm_compute; reflexivity|].
  eapply rtc_l; [apply (S_begin _ demo_spec [] []); reflexivity|].
  eapply rtc_l; [apply (S_task_end _ 0 demo_spec None); vm_compute; left|].
  apply rtc_refl.
Defined.

Lemma control_guarded_witness :
  demo_busy ≠ demo_agent ∧
  ∃ method payload, decode_request demo_start = Some (method, token demo_agent, payload) ∧
    (method = "start" ∧ stopped demo_agent = false ∧ t_Status (task demo_agent) ≠ "running" ∧
       (∃ spec p, payload ≫= decode_TaskSpec = Some spec ∧ validateSpec spec = Ok tt ∧
          probe (ce_cwd demo_ctl) (ce_sys demo_ctl) (ce_fs demo_ctl) (root demo_agent) spec
            (if sp_Archive spec then fs_FileSize (sp_Meta spec) else 0) = Ok p ∧
          ce_meta demo_ctl = Some (sp_Meta spec) ∧
          launch "download" spec demo_agent = (Ok (task demo_busy), demo_busy)) ∨
     method = "command" ∧ allowCommands demo_agent = true ∧ stopped demo_agent = false ∧
       t_Status (commandTask demo_agent) ≠ "running" ∧
       (∃ c dir id, payload ≫= decode_Command = Some c ∧ blank (c_Text c) = false ∧
          resolve (ce_fs demo_ctl) (root demo_agent) (chars_of (c_Directory c)) = Ok dir ∧
          launchCommand (mkCommand id (c_Text c) (string_of dir) (c_Timeout c)) demo_agent
          = (Ok (commandTask demo_busy), demo_busy)) ∨
     method = "cancel" ∧ demo_busy = cancelTask demo_agent ∨
     method = "command.cancel" ∧ demo_busy = cancelCommand demo_agent).
Proof.
  assert (demo_busy ≠ demo_agent) as Hne.
  { intros E. apply (f_equal next_ctx) in E. vm_compute in E. discriminate E. }
  split; [exact Hne|].
  apply (control_guarded demo_ctl demo_start demo_agent demo_busy (Ok (VTask (task demo_busy))));
    [vm_compute; reflexivity|exact Hne].
Defined.

(** A link on the way is followed before anything is appended. *)
Lemma resolve_real_witness :
  ∃ es real k, Abs (chars_of "/srv") (chars_of "out/x/y") = abs_path es ∧ (k ≤ length es)%nat ∧
    EvalSymlinks demo_fs (take k es) = Some real ∧ chars_of "/etc/x/y" = abs_path (real ++ drop k es) ∧
    Forall normal_elem (real ++ drop k es) ∧ no_links demo_fs [] (real ++ drop k es) ∧
    ((k < length es)%nat → node_at demo_fs (real ++ take 1 (drop k es)) = None).
Proof.
  apply (resolve_real demo_fs (chars_of "/srv") (chars_of "out/x/y")).
  - apply demo_fs_wf.
  - reflexivity.
  - vm_compute. reflexivity.
Defined.
