(* ===== verification/GoSilver.v ===== *)
(** * The public API

    pkg/gosilver/gosilver.go: a server around a session, and a client around a
    download with its stream of progress; internal/sender/sender.go, the headless
    sender. The client's channel holds sixteen values; who sends never waits for who
    receives, and the last value sent is the last one there. *)

From S2P Require Import Prelude Text Chunk Float64 Session Model FileNames Client Download.
Local Open Scope string_scope.
Local Open Scope Z_scope.

(** ** Server *)

(** pkg/gosilver/gosilver.go:27-34 [PeerProgress] *)
Record PeerProgress : Type := mkPeerProgress {
  pp_UUID : string; pp_Addr : string; pp_Owned : Z; pp_Total : Z; pp_Percentage : float64;
  pp_MaxSpeed : Z;
}.

(** pkg/gosilver/gosilver.go:56-61 [Server] *)
Record Server : Type := mkServer {
  sv_addr : string; sv_filePath : string; sv_session : option Session; sv_file : option fd;
}.

(** pkg/gosilver/gosilver.go:63-63 [NewServer] *)
Definition NewServer (addr path : string) : Server := mkServer addr path None None.

(** [float64(done) * 100 / float64(total)]. *)
Definition percentage (done total : Z) : float64 :=
  f_div (f_mul (f_of_Z done) (f_of_Z 100)) (f_of_Z total).

(** One row; [other] is what the processor gives for a speed out of range.
    pkg/gosilver/gosilver.go:43-52 [Snapshot] *)
Definition peer_row (other : Z) (p : PeerInfo) : option PeerProgress :=
  if pi_Self p then None else
  let pct := if 0 <? pi_Total p then percentage (pi_Chunks p) (pi_Total p) else f_zero in
  Some (mkPeerProgress (pi_UUID p) (pi_Addr p) (pi_Chunks p) (pi_Total p) pct
          (int64_of_float other (pi_Speed p))).

(** pkg/gosilver/gosilver.go:36-54 [Snapshot] *)
Definition Server_Snapshot (other : Z) (order : list string) (s : Server) : list PeerProgress :=
  match sv_session s with
  | None => []
  | Some ses => omap (peer_row other) (Snapshot ses order)
  end.

Inductive server_error : Type :=
| SrvStarted | SrvOpen | SrvSession (e : sess_error).

(** [opened] is the file [os.Open] gives, [id] the session's UUID, [listen] the
    outcome of listening. pkg/gosilver/gosilver.go:64-85 [Start] *)
Definition Server_Start (opened : option fd) (id : string) (listen : option string) (fs : Files)
    (s : Server) : option server_error * Files * Server :=
  match sv_session s with
  | Some _ => (Some SrvStarted, fs, s)
  | None =>
      match opened with
      | None => (Some SrvOpen, fs, s)
      | Some f =>
          let '(err, ses) := BeSendMain fs f (NewGspSession (sv_addr s) id) in
          let '(err, ses) := match err with None => Start listen ses | Some _ => (err, ses) end in
          match err with
          | Some e => (Some (SrvSession e), delete f (Stop_files fs (Session.Stop ses).2).1, s)
          | None => (None, fs, mkServer (sv_addr s) (sv_filePath s) (Some ses) (Some f))
          end
      end
  end.

(** pkg/gosilver/gosilver.go:86-93 [Port] *)
Definition Server_Port (s : Server) : Z :=
  match sv_session s with None => 0 | Some ses => Port ses end.

(** pkg/gosilver/gosilver.go:94-105 [Stop] *)
Definition Server_Stop (fs : Files) (s : Server) : Files * Server :=
  let fs1 := match sv_session s with
             | Some ses => (Stop_files fs (Session.Stop ses).2).1
             | None => fs
             end in
  let fs2 := match sv_file s with Some f => delete f fs1 | None => fs1 end in
  (fs2, mkServer (sv_addr s) (sv_filePath s) None None).

(** A run of the headless sender until its context ends: the error of [Start], or
    that of the context. internal/sender/sender.go:10-18 [Run] *)
Definition sender_Run (filePath addr : string) (opened : option fd) (id : string)
    (listen : option string) (fs : Files) : option server_error * Files * bool :=
  match Server_Start opened id listen fs (NewServer addr filePath) with
  | (Some e, fs', _) => (Some e, fs', false)
  | (None, fs', s) => (None, (Server_Stop fs' s).1, true)
  end.

(** ** Client *)

(** pkg/gosilver/gosilver.go:15-23 [ProgressInfo] *)
Record ProgressInfo : Type := mkProgressInfo {
  gi_Active : list BlockSource; gi_TotalChunks : Z; gi_Downloaded : Z; gi_Percentage : float64;
  gi_SpeedMbps : Z; gi_Status : string; gi_Error : option string;
}.

Definition idle_info (status : string) : ProgressInfo := mkProgressInfo [] 0 0 f_zero 0 status None.

(** Where the goroutine of [run] is: in the download; in [emit], before the first
    attempt to send, when the channel was full, and when room has been made; or
    between its last [emit] and the end. [fin]: the [emit] is the last one. *)
Inductive runner : Type :=
| R_none
| R_download
| R_emit (p : ProgressInfo) (fin : bool)
| R_full (p : ProgressInfo) (fin : bool)
| R_send (p : ProgressInfo) (fin : bool)
| R_close
| R_done.

(** [ch] is the buffer of the channel, [closed] whether it is closed; [received] is
    what the caller has taken from it.
    pkg/gosilver/gosilver.go:107-119 [Client] *)
Record Client : Type := mkClient {
  cl_status : ProgressInfo; cl_ch : list ProgressInfo; cl_closed : bool;
  cl_cancelled : bool; cl_runner : runner; cl_received : list ProgressInfo;
}.

Definition ch_room : nat := 16.

(** pkg/gosilver/gosilver.go:121-123 [NewClient] *)
Definition NewClient : Client := mkClient (idle_info "idle") [] false false R_none [].

(** pkg/gosilver/gosilver.go:124-139 [StartDownload] *)
Definition StartDownload (c : Client) : bool * Client :=
  if negb (String.eqb (gi_Status (cl_status c)) "idle") then (false, c)
  else (true, mkClient (idle_info "downloading") [] (cl_closed c) false R_download (cl_received c)).

(** The first part of [CancelDownload]; the rest waits for the goroutine.
    pkg/gosilver/gosilver.go:140-156 [CancelDownload] *)
Definition CancelDownload (c : Client) : Client :=
  mkClient (cl_status c) (cl_ch c) (cl_closed c)
    (match cl_runner c with R_none => cl_cancelled c | _ => true end) (cl_runner c) (cl_received c).

(** pkg/gosilver/gosilver.go:157-157 [GetStatus] *)
Definition GetStatus (c : Client) : ProgressInfo := cl_status c.

(** What the callback makes of the progress of a download.
    pkg/gosilver/gosilver.go:215-225 [download] *)
Definition progress_info (p : Progress) : ProgressInfo :=
  let state := if pg_Finished p then "completed" else "downloading" in
  let percent := if 0 <? pg_Total p then percentage (pg_Done p) (pg_Total p) else f_of_Z 100 in
  mkProgressInfo (pg_Active p) (pg_Total p) (pg_Done p) percent (pg_Speed p) state None.

(** What is emitted when the download fails.
    pkg/gosilver/gosilver.go:176-184 [run] *)
Definition failure_info (cancelled : bool) (err : string) (st : ProgressInfo) : ProgressInfo :=
  mkProgressInfo (gi_Active st) (gi_TotalChunks st) (gi_Downloaded st) (gi_Percentage st)
    (gi_SpeedMbps st) (if cancelled then "cancelled" else "failed") (Some err).

(** What happens before [RunTo]: the error that ends the download, or the metadata
    and the file to receive into.
    pkg/gosilver/gosilver.go:193-214 [download] *)
Definition download_setup (started : bool) (meta : option GetFileStatusResp) (registered : bool)
    (default_dir : string) (mkdir : string → bool) (saveDir : string)
    : option (GetFileStatusResp * string) :=
  if negb started then None else
  m ← meta;
  if negb registered then None else
  path ← resolveSavePath default_dir mkdir saveDir (fs_FileName m);
  Some (m, path).

Definition set_runner (r : runner) (c : Client) : Client :=
  mkClient (cl_status c) (cl_ch c) (cl_closed c) (cl_cancelled c) r (cl_received c).
Definition set_ch (ch : list ProgressInfo) (r : runner) (c : Client) : Client :=
  mkClient (cl_status c) ch (cl_closed c) (cl_cancelled c) r (cl_received c).

Definition after (fin : bool) : runner := if fin then R_close else R_download.

(** One step of an [emit]: the status and the attempt to send; the attempt to make
    room; the last send, which would block ([None]) on a full channel.
    pkg/gosilver/gosilver.go:158-171 [emit] *)
Definition emit_step (c : Client) : option Client :=
  match cl_runner c with
  | R_emit p fin =>
      let c1 := mkClient p (cl_ch c) (cl_closed c) (cl_cancelled c) (cl_runner c) (cl_received c) in
      Some (if (length (cl_ch c) <? ch_room)%nat then set_ch (cl_ch c ++ [p])%list (after fin) c1
            else set_runner (R_full p fin) c1)
  | R_full p fin =>
      Some (match cl_ch c with
            | _ :: rest => set_ch rest (R_send p fin) c
            | [] => set_runner (R_send p fin) c
            end)
  | R_send p fin =>
      if (length (cl_ch c) <? ch_room)%nat then Some (set_ch (cl_ch c ++ [p])%list (after fin) c) else None
  | _ => None
  end.

(** The client: what its methods and its goroutine do, and the caller, who receives
    whenever it likes. A download that succeeds reports its end (file Download,
    [final_progress]); one that fails is reported by [run].
    pkg/gosilver/gosilver.go:172-192 [run] *)
Inductive client_step (c : Client) : Client → Prop :=
| C_start c' : StartDownload c = (true, c') → client_step c c'
| C_cancel : client_step c (CancelDownload c)
| C_progress p : cl_runner c = R_download → pg_Finished p = false →
    client_step c (set_runner (R_emit (progress_info p) false) c)
| C_finished p : cl_runner c = R_download → pg_Finished p = true →
    client_step c (set_runner (R_emit (progress_info p) true) c)
| C_failed err : cl_runner c = R_download →
    client_step c (set_runner (R_emit (failure_info (cl_cancelled c) err (cl_status c)) true) c)
| C_emit c' : emit_step c = Some c' → client_step c c'
| C_close : cl_runner c = R_close →
    client_step c (mkClient (cl_status c) (cl_ch c) true (cl_cancelled c) R_done (cl_received c))
| C_receive p rest : cl_ch c = p :: rest →
    client_step c (mkClient (cl_status c) rest (cl_closed c) (cl_cancelled c) (cl_runner c)
                     (cl_received c ++ [p])%list).

(** A server that fails to start is as it was, and its file is closed again. *)
Lemma Server_Start_clean opened id listen fs s e fs' s' :
  Server_Start opened id listen fs s = (Some e, fs', s') →
  s' = s ∧ (fs' = fs ∨ ∃ f, opened = Some f ∧ fs' = delete f fs).
Proof.
  unfold Server_Start. destruct (sv_session s); [by intros [= _ <- <-]; auto|].
  destruct opened as [f|]; [|by intros [= _ <- <-]; auto].
  unfold BeSendMain, Start. destruct (source_check fs f); cbn.
  { intros [= _ <- <-]. split; [done|]. right. by exists f. }
  destruct listen; cbn; [done|]. intros [= _ <- <-]. split; [done|]. right. by exists f.
Qed.

(** ** The client's channel *)

Definition final_status : list string := ["completed"; "failed"; "cancelled"].

Definition sent (c : Client) : list ProgressInfo := (cl_received c ++ cl_ch c)%list.

(** How many steps of its own an [emit] still needs. *)
Definition emit_rank (c : Client) : nat :=
  match cl_runner c with R_emit _ _ => 3 | R_full _ _ => 2 | R_send _ _ => 1 | _ => 0 end.

Definition good_info (p : ProgressInfo) (fin : bool) : Prop :=
  gi_Status p ≠ "idle" ∧ (fin = true → gi_Status p ∈ final_status).

Record client_inv (c : Client) : Prop := {
  ci_room : (length (cl_ch c) ≤ ch_room)%nat;
  ci_runner : match cl_runner c with
    | R_none => gi_Status (cl_status c) = "idle"
    | R_download => gi_Status (cl_status c) ≠ "idle"
    | R_emit p fin => gi_Status (cl_status c) ≠ "idle" ∧ good_info p fin
    | R_full p fin => cl_status c = p ∧ good_info p fin
    | R_send p fin => cl_status c = p ∧ good_info p fin ∧ (length (cl_ch c) < ch_room)%nat
    | R_close | R_done => gi_Status (cl_status c) ∈ final_status ∧ last (sent c) = Some (cl_status c)
    end;
  ci_closed : cl_closed c = match cl_runner c with R_done => true | _ => false end;
}.

Lemma final_not_idle s : s ∈ final_status → s ≠ "idle".
Proof. unfold final_status. set_solver. Qed.

Lemma last_sent l k (p : ProgressInfo) : last (l ++ k ++ [p])%list = Some p.
Proof. by rewrite app_assoc, last_snoc. Qed.

Lemma emit_inv c c' : client_inv c → emit_step c = Some c' → client_inv c'.
Proof.
  intros [H1 H2 H3]. unfold emit_step. destruct (cl_runner c) as [| |p fin|p fin|p fin| |] eqn:Hr; try done.
  - destruct H2 as [Hi [Hp Hf]]. destruct (Nat.ltb_spec (length (cl_ch c)) ch_room) as [Hlt|Hge]; intros [= <-].
    + split; cbn.
      * rewrite length_app. cbn. lia.
      * destruct fin; cbn; [|done]. split; [by apply Hf|]. apply last_sent.
      * rewrite H3. by destruct fin.
    + split; cbn; done.
  - destruct H2 as [Hs [Hp Hf]]. destruct (cl_ch c) as [|q rest] eqn:Hch; intros [= <-].
    + split; cbn; rewrite ?Hch; try done. split_and!; try done. cbn. unfold ch_room. lia.
    + cbn in H1. split; cbn; [lia|by split_and!|done].
  - destruct H2 as (Hs & [Hp Hf] & Hlt). rewrite (proj2 (Nat.ltb_lt _ _) Hlt). intros [= <-].
    split; cbn.
    + rewrite length_app. cbn. lia.
    + destruct fin; cbn; [|by rewrite Hs]. rewrite Hs. split; [by apply Hf|]. apply last_sent.
    + rewrite H3. by destruct fin.
Qed.

Lemma progress_not_idle p : gi_Status (progress_info p) ≠ "idle".
Proof. unfold progress_info. cbn. by destruct (pg_Finished p). Qed.

Lemma client_inv_step c c' : client_inv c → client_step c c' → client_inv c'.
Proof.
  intros Hinv Hstep. pose proof Hinv as [H1 H2 H3]. destruct Hstep as [c' Hs| |p Hr Hp|p Hr Hp|err Hr|c' He|Hr|p rest Hch].
  - unfold StartDownload in Hs. destruct (String.eqb_spec (gi_Status (cl_status c)) "idle") as [Hi|]; [|done].
    injection Hs as <-. split; cbn; [unfold ch_room; lia|done|].
    rewrite H3. destruct (cl_runner c); try done. destruct H2 as [H2 _]. rewrite Hi in H2. set_solver.
  - unfold CancelDownload. split; cbn; done.
  - rewrite Hr in H2. split; cbn; [done| |by rewrite H3, Hr].
    split_and!; try done. split; [apply progress_not_idle|done].
  - rewrite Hr in H2. split; cbn; [done| |by rewrite H3, Hr].
    split; [done|]. split; [apply progress_not_idle|]. intros _. unfold progress_info. rewrite Hp. cbn. set_solver.
  - rewrite Hr in H2. split; cbn; [done| |by rewrite H3, Hr].
    split; [done|]. unfold failure_info. split; cbn; destruct (cl_cancelled c); set_solver.
  - by eapply emit_inv.
  - rewrite Hr in H2. split; cbn; done.
  - split; cbn.
    + rewrite Hch in H1. cbn in H1. lia.
    + destruct (cl_runner c); try done.
      * destruct H2 as (? & ? & H2). rewrite Hch in H2. cbn in H2. split_and!; try done. lia.
      * unfold sent in *. cbn. rewrite Hch in H2. by rewrite <-app_assoc.
      * unfold sent in *. cbn. rewrite Hch in H2. by rewrite <-app_assoc.
    + done.
Qed.

Lemma client_inv_reachable c : rtc client_step NewClient c → client_inv c.
Proof.
  intros Hrun. remember NewClient as c0 eqn:E. assert (client_inv c0) as H0.
  { subst. split; cbn; [unfold ch_room; lia|done|done]. }
  clear E. induction Hrun as [|c0 c1 c2 Hs _ IH]; [done|]. apply IH. by eapply client_inv_step.
Qed.

Lemma emit_step_rank c c' : emit_step c = Some c' → (emit_rank c' < emit_rank c)%nat.
Proof.
  unfold emit_step, emit_rank. destruct (cl_runner c) as [| |p fin|p fin|p fin| |]; try done.
  - destruct (_ <? _)%nat; intros [= <-]; cbn; [destruct fin; cbn|]; lia.
  - destruct (cl_ch c); intros [= <-]; cbn; lia.
  - destruct (_ <? _)%nat; [|done]. intros [= <-]. destruct fin; cbn; lia.
Qed.

(** ** Properties *)

(** C38. Progress reaches the caller. Reporting never waits: whatever the caller
    receives or leaves, and while a report is being made nothing else can lengthen
    it, an [emit] can always take its next step and is over after at most three; the
    channel never holds more than sixteen values, and is closed exactly when the
    download is over. The last value the caller finds in it is then the final
    status, completed, failed or cancelled, however many earlier ones were dropped. *)
Theorem client_delivers (c : Client) :
  rtc client_step NewClient c →
  (length (cl_ch c) ≤ ch_room)%nat ∧ (emit_rank c ≤ 3)%nat ∧
  ((0 < emit_rank c)%nat →
     (∃ c', emit_step c = Some c' ∧ (emit_rank c' < emit_rank c)%nat) ∧
     ∀ c', client_step c c' → (emit_rank c' ≤ emit_rank c)%nat) ∧
  (cl_closed c = true ↔ cl_runner c = R_done) ∧
  (cl_runner c = R_done →
     gi_Status (cl_status c) ∈ final_status ∧ last (sent c) = Some (cl_status c)).
Proof.
  intros Hrun. apply client_inv_reachable in Hrun as [H1 H2 H3].
  assert (emit_rank c ≤ 3)%nat as Hr by (unfold emit_rank; destruct (cl_runner c); lia).
  split_and!; try done.
  - intros Hpos. split.
    + assert (∃ c', emit_step c = Some c') as [c' He].
      { unfold emit_rank in Hpos. unfold emit_step. destruct (cl_runner c); cbn in Hpos; try lia; try by eexists.
        destruct H2 as (_ & _ & H2). rewrite (proj2 (Nat.ltb_lt _ _) H2). by eexists. }
      exists c'. split; [done|by apply emit_step_rank].
    + intros c' Hstep. unfold emit_rank in *.
      destruct Hstep as [c' Hs| |p Hc Hp|p Hc Hp|err Hc|c' He|Hc|p rest Hch]; try (rewrite Hc in *; cbn in *; lia).
      * unfold StartDownload in Hs. destruct (negb _); [done|]. injection Hs as <-. cbn. lia.
      * done.
      * apply emit_step_rank in He. unfold emit_rank in He. lia.
      * done.
  - rewrite H3. by destruct (cl_runner c).
  - intros E. rewrite E in H2. done.
Qed.

(** A download of two reports, of which the caller has taken one. *)
Definition demo_progress (n : Z) : Progress := mkProgress [] "f" 20 n 0 0 (bool_decide (n = 20)).

Definition demo_client : Client :=
  mkClient (progress_info (demo_progress 20)) [progress_info (demo_progress 20)] true false R_done
    [progress_info (demo_progress 1)].

Lemma client_delivers_witness :
  (length (cl_ch demo_client) ≤ ch_room)%nat ∧ (emit_rank demo_client ≤ 3)%nat ∧
  ((0 < emit_rank demo_client)%nat →
     (∃ c', emit_step demo_client = Some c' ∧ (emit_rank c' < emit_rank demo_client)%nat) ∧
     ∀ c', client_step demo_client c' → (emit_rank c' ≤ emit_rank demo_client)%nat) ∧
  (cl_closed demo_client = true ↔ cl_runner demo_client = R_done) ∧
  (cl_runner demo_client = R_done →
     gi_Status (cl_status demo_client) ∈ final_status ∧
     last (sent demo_client) = Some (cl_status demo_client)).
Proof.
  apply (client_delivers demo_client).
  eapply rtc_l; [by apply C_start|]. cbn.
  eapply rtc_l; [by apply (C_progress _ (demo_progress 1))|]. cbn.
  eapply rtc_l; [by apply C_emit|]. cbn.
  eapply rtc_l; [by apply C_receive|]. cbn.
  eapply rtc_l; [by apply (C_finished _ (demo_progress 20))|]. cbn.
  eapply rtc_l; [by apply C_emit|]. cbn.
  eapply rtc_l; [by apply C_close|]. cbn.
  apply rtc_refl.
Defined.
