(* ===== verification/App.v ===== *)
(** * The web application: state and programs

    internal/webui/app.go: the state of the application behind the user interface, and
    the programs its methods are: critical sections of [a.mu] ([Sect]), answers of the
    outside ([Ask]), requests to receivers ([Tell]), waits ([Await]) and the mutexes that are
    held over several sections ([Mutex]). What may be waited for is [awaited]: a context to be
    over, a goroutine, or all goroutines of an agent or a session, to end. *)

From S2P Require Import Prelude Text Json Model Session Paths FileSys Transfer Prepare Tasks.
Local Open Scope string_scope.
Local Open Scope Z_scope.

(** ** State *)

(** internal/webui/app.go:27-36 [Config] *)
Record Config : Type := mkConfig {
  cf_Discover : bool; cf_Mode : string; cf_File : string; cf_SenderAddr : string;
  cf_Listen : string; cf_WorkDir : string; cf_Token : string; cf_AllowCommands : bool;
}.

(** internal/webui/app.go:37-43 [Operation] *)
Record Operation : Type := mkOperation {
  op_ID : string; op_Kind : string; op_Status : string; op_Message : string; op_Started : Z;
}.

(** internal/webui/app.go:44-51 [PeerState] *)
Record PeerState : Type := mkPeerState {
  ps_Info : option PeerInfo; ps_Ready : bool; ps_Probe : string; ps_Warnings : list string;
  ps_Task : option TaskState; ps_Command : option TaskState;
}.

Definition no_peer : PeerState := mkPeerState None false "" [] None None.

(** What is offered: the prepared data, the session that serves it, its identity.
    internal/webui/app.go:52-58 [source] *)
Record source : Type := mkSrc { sr_data : Source; sr_session : Z; sr_generation : string }.

(** internal/webui/distribution.go:13-21 [Distribution] *)
Record Distribution : Type := mkDistribution {
  di_ID : string; di_Active : bool; di_Name : string; di_Target : string; di_Message : string;
  di_Members : Z; di_Excluded : Z;
}.

(** Whom to send to, where, with which secret.
    internal/webui/app.go:413-418 [Dispatch] *)
Record Dispatch : Type := mkDispatch {
  d_IDs : list string; d_Target : string; d_Token : string; d_Overwrite : bool;
}.

(** What a loop of distribution was started with. *)
Record feed : Type := mkFeed { fd_source : source; fd_spec : TaskSpec; fd_dispatch : Dispatch }.

(** The two mutexes that are held over more than one section. [receiverMu]: while the receiver's
    agent starts or is stopped; [hubMu]: while the sender's service starts.
    internal/webui/app.go:70-70 [App] *)
Inductive mutex : Type := receiverMu | hubMu.

#[export] Instance mutex_eq_dec : EqDecision mutex.
Proof. solve_decision. Defined.
#[export] Instance mutex_countable : Countable mutex.
Proof.
  by refine (inj_countable' (λ m, match m with receiverMu => true | hubMu => false end)
               (λ b : bool, if b then receiverMu else hubMu) _); intros [].
Defined.

(** Groups of goroutines that are waited for together: the tasks and commands of an agent
    ([taskWG]), its watch of the centre ([watchWG]), the handlers of its session, and those of a
    sender's session ([wg]). internal/webui/agent.go:53-53 [agent] *)
Inductive group : Type := Jobs | Watching | Serving | Sending.

#[export] Instance group_eq_dec : EqDecision group.
Proof. solve_decision. Defined.
#[export] Instance group_countable : Countable group.
Proof.
  refine (inj_countable' (λ g, match g with
                               | Jobs => (true, true) | Watching => (true, false)
                               | Serving => (false, true) | Sending => (false, false) end)
            (λ '(b, c), if (b : bool) then (if (c : bool) then Jobs else Watching)
                        else if (c : bool) then Serving else Sending) _); by intros [].
Defined.

(** Sessions, agents, contexts and channels are numbered; a goroutine that is started has
    one number for the context it is given and the channel it closes, and an agent's session has
    the number after the agent's. [opDone] and
    [commandDone] stand for [opCancel] and [commandCancel] too. [loops] are the discovery loops
    that have not ended, with what they were started with, [feeds] the loops of
    distribution, [doing] the operations and commands; [cancelled] are the contexts that
    are over and the sessions that were told to stop; [locks] are the mutexes that are held,
    [busy] the groups of goroutines that have not all ended.
    internal/webui/app.go:69-100 [App] *)
Record App : Type := mkApp {
  config : Config;
  hub : option Z; src : option source; agent_of : option Z;
  discovery : option Z; discoveryMessage : string;
  distribution : option Distribution; distributing : option Z;
  probes : gmap string PeerState; probeKey : string; notice : string;
  op : option Operation; opDone : option Z;
  commandOp : option Operation; commandDone : option Z;
  lastReceiver : option (TaskState * TaskState); uploads : list string;
  closed : bool; next_id : Z; loops : gmap Z Config; feeds : gmap Z feed; doing : gset Z; cancelled : gset Z;
  locks : gset mutex; busy : gset (Z * group);
}.

Definition set_config v a : App := mkApp v (hub a) (src a) (agent_of a) (discovery a) (discoveryMessage a)
  (distribution a) (distributing a) (probes a) (probeKey a) (notice a) (op a) (opDone a) (commandOp a)
  (commandDone a) (lastReceiver a) (uploads a) (closed a) (next_id a) (loops a) (feeds a) (doing a)
  (cancelled a) (locks a) (busy a).
Definition set_hub v a : App := mkApp (config a) v (src a) (agent_of a) (discovery a) (discoveryMessage a)
  (distribution a) (distributing a) (probes a) (probeKey a) (notice a) (op a) (opDone a) (commandOp a)
  (commandDone a) (lastReceiver a) (uploads a) (closed a) (next_id a) (loops a) (feeds a) (doing a)
  (cancelled a) (locks a) (busy a).
Definition set_src v a : App := mkApp (config a) (hub a) v (agent_of a) (discovery a) (discoveryMessage a)
  (distribution a) (distributing a) (probes a) (probeKey a) (notice a) (op a) (opDone a) (commandOp a)
  (commandDone a) (lastReceiver a) (uploads a) (closed a) (next_id a) (loops a) (feeds a) (doing a)
  (cancelled a) (locks a) (busy a).
Definition set_agent v a : App := mkApp (config a) (hub a) (src a) v (discovery a) (discoveryMessage a)
  (distribution a) (distributing a) (probes a) (probeKey a) (notice a) (op a) (opDone a) (commandOp a)
  (commandDone a) (lastReceiver a) (uploads a) (closed a) (next_id a) (loops a) (feeds a) (doing a)
  (cancelled a) (locks a) (busy a).
Definition set_discovery v m l a : App := mkApp (config a) (hub a) (src a) (agent_of a) v m (distribution a)
  (distributing a) (probes a) (probeKey a) (notice a) (op a) (opDone a) (commandOp a) (commandDone a)
  (lastReceiver a) (uploads a) (closed a) (next_id a) l (feeds a) (doing a) (cancelled a) (locks a) (busy a).
Definition set_distribution v w a : App := mkApp (config a) (hub a) (src a) (agent_of a) (discovery a)
  (discoveryMessage a) v w (probes a) (probeKey a) (notice a) (op a) (opDone a) (commandOp a) (commandDone a)
  (lastReceiver a) (uploads a) (closed a) (next_id a) (loops a) (feeds a) (doing a) (cancelled a) (locks a)
  (busy a).
Definition set_feeds v a : App := mkApp (config a) (hub a) (src a) (agent_of a) (discovery a)
  (discoveryMessage a) (distribution a) (distributing a) (probes a) (probeKey a) (notice a) (op a) (opDone a)
  (commandOp a) (commandDone a) (lastReceiver a) (uploads a) (closed a) (next_id a) (loops a) v (doing a)
  (cancelled a) (locks a) (busy a).
Definition set_probes v k a : App := mkApp (config a) (hub a) (src a) (agent_of a) (discovery a)
  (discoveryMessage a) (distribution a) (distributing a) v k (notice a) (op a) (opDone a) (commandOp a)
  (commandDone a) (lastReceiver a) (uploads a) (closed a) (next_id a) (loops a) (feeds a) (doing a)
  (cancelled a) (locks a) (busy a).
Definition set_notice v a : App := mkApp (config a) (hub a) (src a) (agent_of a) (discovery a)
  (discoveryMessage a) (distribution a) (distributing a) (probes a) (probeKey a) v (op a) (opDone a)
  (commandOp a) (commandDone a) (lastReceiver a) (uploads a) (closed a) (next_id a) (loops a) (feeds a)
  (doing a) (cancelled a) (locks a) (busy a).
Definition set_op v n a : App := mkApp (config a) (hub a) (src a) (agent_of a) (discovery a)
  (discoveryMessage a) (distribution a) (distributing a) (probes a) (probeKey a) (notice a) v n (commandOp a)
  (commandDone a) (lastReceiver a) (uploads a) (closed a) (next_id a) (loops a) (feeds a) (doing a)
  (cancelled a) (locks a) (busy a).
Definition set_commandOp v n a : App := mkApp (config a) (hub a) (src a) (agent_of a) (discovery a)
  (discoveryMessage a) (distribution a) (distributing a) (probes a) (probeKey a) (notice a) (op a) (opDone a)
  v n (lastReceiver a) (uploads a) (closed a) (next_id a) (loops a) (feeds a) (doing a) (cancelled a)
  (locks a) (busy a).
Definition set_lastReceiver v a : App := mkApp (config a) (hub a) (src a) (agent_of a) (discovery a)
  (discoveryMessage a) (distribution a) (distributing a) (probes a) (probeKey a) (notice a) (op a) (opDone a)
  (commandOp a) (commandDone a) v (uploads a) (closed a) (next_id a) (loops a) (feeds a) (doing a)
  (cancelled a) (locks a) (busy a).
Definition set_uploads v a : App := mkApp (config a) (hub a) (src a) (agent_of a) (discovery a)
  (discoveryMessage a) (distribution a) (distributing a) (probes a) (probeKey a) (notice a) (op a) (opDone a)
  (commandOp a) (commandDone a) (lastReceiver a) v (closed a) (next_id a) (loops a) (feeds a) (doing a)
  (cancelled a) (locks a) (busy a).
Definition set_closed v a : App := mkApp (config a) (hub a) (src a) (agent_of a) (discovery a)
  (discoveryMessage a) (distribution a) (distributing a) (probes a) (probeKey a) (notice a) (op a) (opDone a)
  (commandOp a) (commandDone a) (lastReceiver a) (uploads a) v (next_id a) (loops a) (feeds a) (doing a)
  (cancelled a) (locks a) (busy a).
Definition set_doing v a : App := mkApp (config a) (hub a) (src a) (agent_of a) (discovery a)
  (discoveryMessage a) (distribution a) (distributing a) (probes a) (probeKey a) (notice a) (op a) (opDone a)
  (commandOp a) (commandDone a) (lastReceiver a) (uploads a) (closed a) (next_id a) (loops a) (feeds a) v
  (cancelled a) (locks a) (busy a).
Definition set_cancelled v a : App := mkApp (config a) (hub a) (src a) (agent_of a) (discovery a)
  (discoveryMessage a) (distribution a) (distributing a) (probes a) (probeKey a) (notice a) (op a) (opDone a)
  (commandOp a) (commandDone a) (lastReceiver a) (uploads a) (closed a) (next_id a) (loops a) (feeds a)
  (doing a) v (locks a) (busy a).
Definition set_locks v a : App := mkApp (config a) (hub a) (src a) (agent_of a) (discovery a)
  (discoveryMessage a) (distribution a) (distributing a) (probes a) (probeKey a) (notice a) (op a) (opDone a)
  (commandOp a) (commandDone a) (lastReceiver a) (uploads a) (closed a) (next_id a) (loops a) (feeds a)
  (doing a) (cancelled a) v (busy a).
Definition set_busy v a : App := mkApp (config a) (hub a) (src a) (agent_of a) (discovery a)
  (discoveryMessage a) (distribution a) (distributing a) (probes a) (probeKey a) (notice a) (op a) (opDone a)
  (commandOp a) (commandDone a) (lastReceiver a) (uploads a) (closed a) (next_id a) (loops a) (feeds a)
  (doing a) (cancelled a) (locks a) v.
Definition fresh a : App := mkApp (config a) (hub a) (src a) (agent_of a) (discovery a) (discoveryMessage a)
  (distribution a) (distributing a) (probes a) (probeKey a) (notice a) (op a) (opDone a) (commandOp a)
  (commandDone a) (lastReceiver a) (uploads a) (closed a) (next_id a + 1) (loops a) (feeds a) (doing a)
  (cancelled a) (locks a) (busy a).

Definition set_Mode v c := mkConfig (cf_Discover c) v (cf_File c) (cf_SenderAddr c) (cf_Listen c)
  (cf_WorkDir c) (cf_Token c) (cf_AllowCommands c).
Definition mode (a : App) : string := cf_Mode (config a).

(** [filepath.Abs], where [wd] is what [os.Getwd] answers. *)
Definition AbsIn (wd : option string) (p : string) : option string :=
  if IsAbs (chars_of p) then Some (string_of (Abs [] (chars_of p)))
  else d ← wd; Some (string_of (Abs (chars_of d) (chars_of p))).

Definition known_mode (m : string) : bool := String.eqb m "" || String.eqb m "sender" || String.eqb m "receiver".

(** internal/webui/app.go:103-123 [New] *)
Definition New (c : Config) (wd : option string) : option App :=
  if negb (known_mode (cf_Mode c)) then None else
  let listen := match cf_Listen c with EmptyString => ":0" | l => l end in
  dir ← match cf_WorkDir c with EmptyString => wd | d => Some d end;
  dir ← AbsIn wd dir;
  Some (mkApp (mkConfig (cf_Discover c) (cf_Mode c) (cf_File c) (cf_SenderAddr c) listen dir (cf_Token c)
                 (cf_AllowCommands c))
          None None None None "" None None ∅ "" "" None None None None None [] false 0 ∅ ∅ ∅ ∅ ∅ ∅).

(** ** Programs *)

(** [None]: [context.Background()]. *)
Definition context : Type := option Z.

(** Whether [Err] has an error. *)
Definition Err (c : context) (a : App) : bool :=
  match c with Some n => bool_decide (n ∈ cancelled a) | None => false end.

(** What is waited for: a context, a loop of discovery or of distribution, an operation or a
    command, a group of goroutines. *)
Inductive awaited : Type :=
| Over (c : context)
| LoopGone (n : Z)
| FeedGone (n : Z)
| WorkDone (n : Z)
| GroupGone (n : Z) (g : group).

Definition ready (w : awaited) (a : App) : bool :=
  match w with
  | Over c => Err c a
  | LoopGone n => bool_decide (loops a !! n = None)
  | FeedGone n => bool_decide (feeds a !! n = None)
  | WorkDone n => bool_decide (n ∉ doing a)
  | GroupGone n g => bool_decide ((n, g) ∉ busy a)
  end.

(** [Ret]: the error it returns, if any. [Ask]: what the outside answers, anything of
    the type. [Tell]: the method and the receiver of each request that is sent. [Mutex]: it
    locks, once it is free, or unlocks. *)
Inductive prog : Type :=
| Ret (err : option string)
| Sect (A : Type) (f : App → A * App) (k : A → prog)
| Ask (A : Type) (k : A → prog)
| Tell (requests : list (string * string)) (k : prog)
| Await (w : awaited) (k : prog)
| Mutex (m : mutex) (lock : bool) (k : prog).

Fixpoint bind (p : prog) (q : option string → prog) : prog :=
  match p with
  | Ret e => q e
  | Sect A f k => Sect A f (λ x, bind (k x) q)
  | Ask A k => Ask A (λ x, bind (k x) q)
  | Tell l k => Tell l (bind k q)
  | Await w k => Await w (bind k q)
  | Mutex m lock k => Mutex m lock (bind k q)
  end.

(** Go on unless there is an error. *)
Definition andthen (p q : prog) : prog :=
  bind p (λ e, match e with Some x => Ret (Some x) | None => q end).
Definition seq (p q : prog) : prog := bind p (λ _, q).
Definition look {A} (f : App → A) (k : A → prog) : prog := Sect A (λ a, (f a, a)) k.
Definition act (f : App → App) (k : prog) : prog := Sect unit (λ a, (tt, f a)) (λ _, k).

(** The whole of [p] with the mutex held, which a deferred call unlocks.
    internal/webui/sender.go:14-15 [ensureSender] *)
Definition with_lock (m : mutex) (p : prog) : prog :=
  Mutex m true (bind p (λ e, Mutex m false (Ret e))).

Definition set_lock (m : mutex) (lock : bool) (a : App) : App :=
  set_locks (if lock then {[m]} ∪ locks a else locks a ∖ {[m]}) a.

(** ** Contexts *)

(** Go on unless it is over. *)
Definition unless (c : context) (stop go : prog) : prog := look (Err c) (λ over, if over then stop else go).

Definition cancel_ctx (n : Z) (a : App) : App := set_cancelled ({[n]} ∪ cancelled a) a.

Definition canceled : string := "context canceled".

(** ** Groups of goroutines *)

(** Goroutines of the group start. *)
Definition work (n : Z) (g : group) (a : App) : App := set_busy ({[(n, g)]} ∪ busy a) a.

(** They have all ended. *)
Definition rest (n : Z) (g : group) (a : App) : App := set_busy (busy a ∖ {[(n, g)]}) a.

(** It tells the session, whose connections it closes, and waits for its goroutines.
    internal/gsp_sdk/server/session.go:208-233 [Stop] *)
Definition stop_session (n : Z) (g : group) (k : prog) : prog :=
  act (cancel_ctx n) (Await (GroupGone n g) k).

(** Its context is over, so are those of its task and its command, and the client is closed; its
    jobs, then its session, then its watch are waited for. What it does to its task and its
    cache is in file Agent. internal/webui/agent.go:57-73 [close] *)
Definition close_agent (n : Z) (k : prog) : prog :=
  act (cancel_ctx n) (Await (GroupGone n Jobs) (stop_session (n + 1) Serving (Await (GroupGone n Watching) k))).

(** If there is one. *)
Definition close_opt (r : option Z) (k : prog) : prog := match r with Some n => close_agent n k | None => k end.
Definition stop_opt (h : option Z) (k : prog) : prog := match h with Some n => stop_session n Sending k | None => k end.
