(* ===== verification/Dispatch.v ===== *)
(** * The web application: talking to the receivers

    internal/webui/app.go, tasks.go, distribution.go and agent.go ([App.command]): what is
    sent, the key that binds a probe to it, probing, dispatching, following the tasks,
    commands and the continuous distribution, as programs on the state of file App. What is sent
    by several goroutines at a time is a selection, in any order, of what is to be sent. *)

From S2P Require Import Prelude Text Json Model Session Transfer Prepare Tasks App.
Local Open Scope string_scope.
Local Open Scope Z_scope.
Local Open Scope list_scope.

(** ** What is sent *)

(** What the key is the JSON of. *)
Record Key : Type := mkKey { k_Spec : TaskSpec; k_Dispatch : Dispatch }.

(** internal/webui/app.go:413-418 [Dispatch] *)
Definition encode_Dispatch (d : Dispatch) : json :=
  JObj ([("ids", match d_IDs d with [] => JNull | l => JArr (List.map JStr l) end)]
    ++ [("target", JStr (d_Target d))]
    ++ [("token", JStr (d_Token d))]
    ++ [("overwrite", JBool (d_Overwrite d))]).

(** An element of a list of strings: null leaves it empty. *)
Definition dec_element (j : json) : option string := match j with JNull => Some "" | _ => dec_string j end.

(** internal/webui/app.go:413-418 [Dispatch] *)
Definition decode_Dispatch (j : json) : option Dispatch :=
  ids ← field (dec_slice dec_element) "ids" [] j;
  target ← text "target" "" j;
  token ← text "token" "" j;
  overwrite ← flag "overwrite" false j;
  Some (mkDispatch ids target token overwrite).

Definition Dispatch_ok (d : Dispatch) : Prop :=
  Forall str_ok (d_IDs d) ∧ str_ok (d_Target d) ∧ str_ok (d_Token d).

Lemma dec_strings l : dec_slice dec_element (JArr (List.map JStr l)) = Some l.
Proof. cbn. induction l as [|x l IH]; [done|]. cbn. by rewrite IH. Qed.

#[export, refine] Instance Dispatch_message : Message Dispatch := {|
  encode := encode_Dispatch; decode := decode_Dispatch; msg_ok := Dispatch_ok;
|}.
Proof.
  - intros [ids target token ow] _. unfold encode_Dispatch, decode_Dispatch. destruct ids as [|x ids].
    + decode_fields.
    + pose proof (dec_strings (x :: ids)) as Hs. revert Hs. cbn [d_IDs d_Target d_Token d_Overwrite].
      generalize (dec_slice dec_element), (List.map JStr (x :: ids)). intros dec l Hs. decode_fields. by rewrite Hs.
  - intros [ids target token ow] (Hi & Ht & Hk). cbn in Hi, Ht, Hk. unfold encode_Dispatch.
    cbn [d_IDs d_Target d_Token d_Overwrite]. constructor. intros k j Hin.
    apply elem_of_cons in Hin as [Hin|Hin].
    + simplify_eq. split; [reflexivity|]. destruct ids as [|x ids]; [constructor|]. constructor.
      intros j Hj. apply list_elem_of_In, List.in_map_iff in Hj as (s & <- & Hs%list_elem_of_In).
      constructor. rewrite Forall_forall in Hi. by apply Hi.
    + cbn in Hin. repeat (apply elem_of_cons in Hin as [Hin|Hin];
        [simplify_eq; split; [reflexivity|by constructor]|]). by apply elem_of_nil in Hin.
Defined.

#[export, refine] Instance Key_message : Message Key := {|
  encode k := JObj [("Spec", encode_TaskSpec (k_Spec k)); ("Dispatch", encode_Dispatch (k_Dispatch k))];
  decode j :=
    spec ← field decode_TaskSpec "Spec" (mkTaskSpec "" "" false false [] no_meta) j;
    dispatch ← field decode_Dispatch "Dispatch" (mkDispatch [] "" "" false) j;
    Some (mkKey spec dispatch);
  msg_ok k := msg_ok (k_Spec k) ∧ msg_ok (k_Dispatch k);
|}.
Proof.
  - intros [s d] [Hs Hd]. cbn [k_Spec k_Dispatch] in *.
    pose proof (decode_encode s Hs) as Es. pose proof (decode_encode d Hd) as Ed. revert Es Ed.
    cbn [encode decode TaskSpec_message Dispatch_message].
    assert (∃ l, encode_TaskSpec s = JObj l) as [ls ->] by (eexists; reflexivity).
    assert (∃ l, encode_Dispatch d = JObj l) as [ld ->] by (eexists; reflexivity).
    generalize decode_TaskSpec, decode_Dispatch. intros f g Es Ed. decode_fields. rewrite Es. cbn. by rewrite Ed.
  - intros [s d] [Hs Hd]. cbn [k_Spec k_Dispatch] in *.
    pose proof (encode_ok s Hs) as Es. pose proof (encode_ok d Hd) as Ed. cbn in Es, Ed.
    constructor. intros k j Hin.
    apply elem_of_cons in Hin as [Hin|Hin]; [|apply elem_of_cons in Hin as [Hin|Hin]].
    + simplify_eq. by split.
    + simplify_eq. by split.
    + by apply elem_of_nil in Hin.
Defined.

(** [sort.Strings] *)
Definition str_le (a b : string) : Prop := String.leb a b = true.
#[export] Instance str_le_dec : RelDecision str_le := λ a b, decide (String.leb a b = true).
Definition sort_strings (l : list string) : list string := merge_sort str_le l.

(** internal/webui/app.go:429-435 [spec] *)
Definition fingerprint (spec : TaskSpec) (d : Dispatch) : string :=
  let d' := mkDispatch (sort_strings (d_IDs d)) (d_Target d) (d_Token d) (d_Overwrite d) in
  string_of (print_json (encode (mkKey spec d'))).

(** What is sent of [s], as the session describes its file in [meta].
    internal/webui/app.go:427-428 [spec] *)
Definition make_spec (s : source) (meta : GetFileStatusResp) (d : Dispatch) : TaskSpec :=
  mkTaskSpec (sr_generation s) (d_Target d) (d_Overwrite d) (s_Archive (sr_data s)) (s_Entries (sr_data s))
    (mkGetFileStatusResp "" (fs_FileName meta) (fs_FileSize meta) (fs_ChunkSize meta) (fs_ChunkNum meta)).

(** internal/webui/app.go:420-437 [spec] *)
Definition spec (d : Dispatch) (k : source → TaskSpec → string → prog) : prog :=
  look src (λ s,
    match s with
    | None => Ret (Some "发送服务尚未启动")
    | Some s => Ask GetFileStatusResp (λ meta,
        let sp := make_spec s meta d in k s sp (fingerprint sp d))
    end).

(** internal/webui/app.go:438-445 [selected] *)
Definition selected (ids : list string) (id : string) : bool := existsb (String.eqb id) ids.

(** ** Peers *)

Definition ps_UUID (p : PeerState) : string := match ps_Info p with Some i => pi_UUID i | None => "" end.
Definition of_peer (i : PeerInfo) : PeerState := mkPeerState (Some i) false "" [] None None.
Definition set_Task t p := mkPeerState (ps_Info p) (ps_Ready p) (ps_Probe p) (ps_Warnings p) t (ps_Command p).
Definition set_Command t p := mkPeerState (ps_Info p) (ps_Ready p) (ps_Probe p) (ps_Warnings p) (ps_Task p) t.
Definition set_probe ready probe warnings p :=
  mkPeerState (ps_Info p) ready probe warnings (ps_Task p) (ps_Command p).

Definition failed_task (id kind error : string) : TaskState :=
  mkTaskState id kind "failed" "" error "" no_progress.

Definition running (t : option TaskState) : bool :=
  match t with Some t => String.eqb (t_Status t) "running" | None => false end.

(** internal/webui/tasks.go:45-59 [storePeer] *)
Definition storePeer (p : PeerState) (command : bool) (a : App) : App :=
  let old := default no_peer (probes a !! ps_UUID p) in
  let new := if command
             then mkPeerState (ps_Info p) (ps_Ready old) (ps_Probe old) (ps_Warnings old) (ps_Task old) (ps_Command p)
             else mkPeerState (ps_Info p) (ps_Ready p) (ps_Probe p) (ps_Warnings p) (ps_Task p) (ps_Command old) in
  set_probes (<[ps_UUID p := new]> (probes a)) (probeKey a) a.

(** Peers are remembered under their own identifiers. *)
Definition keyed (probes : gmap string PeerState) : Prop := ∀ id p, probes !! id = Some p → ps_UUID p = id.

(** One critical section per peer. *)
Definition store_all (l : list PeerState) (command : bool) (k : prog) : prog :=
  foldr (λ p, act (storePeer p command)) k l.

Definition peers_of (m : gmap string PeerState) : list PeerState := (map_to_list m).*2.
Definition count (f : PeerState → bool) (l : list PeerState) : Z := zlen (List.filter f l).

(** ** Requests side by side *)

(** At most eight of the goroutines that make the requests have their turn at a time, in any
    order; those whose turn has not come when the context is over make none.
    internal/webui/app.go:544-548 [dispatch] *)
Definition turns (reqs : list (string * string)) : Type := { l : list (string * string) | l ⊆+ reqs }.

#[export] Instance turns_inhabited reqs : Inhabited (turns reqs).
Proof. constructor. by exists reqs. Defined.

(** Every one has had its turn. *)
Definition all_turns {reqs} (t : turns reqs) : bool := bool_decide (length (`t) = length reqs).

(** What is answered, also an error, to a request that was made; a goroutine whose turn comes after
    the context is over makes none. internal/webui/app.go:544-552 [dispatch] *)
Definition answered {reqs A} (t : turns reqs) (method : string) (call : string → A) (u : string) : option A :=
  if bool_decide ((method, u) ∈ `t) then Some (call u) else None.

Lemma all_turns_perm {reqs} (t : turns reqs) : all_turns t = true → `t ≡ₚ reqs.
Proof. intros H%bool_decide_eq_true. apply submseteq_length_Permutation; [apply (proj2_sig t)|lia]. Qed.

(** ** Probing *)

(** The error or the answer of a request. *)
Definition reply (A : Type) : Type := string + A.

(** internal/webui/app.go:472-483 [probe] *)
Definition probed (i : PeerInfo) (r : reply Probe) : PeerState :=
  match r with
  | inl e => mkPeerState (Some i) false e [] None None
  | inr p => mkPeerState (Some i) (p_Ready p) (string_of (p_Target p)) (List.map string_of (p_Warnings p)) None None
  end.

(** internal/webui/app.go:459-462 [probe] *)
Definition to_probe (ids : list string) (peers : list PeerInfo) : list PeerInfo :=
  List.filter (λ i, negb (pi_Self i) && selected ids (pi_UUID i)) peers.

(** internal/webui/app.go:458-488 [probe] *)
Definition probe_results (ids : list string) (peers : list PeerInfo) (call : PeerInfo → reply Probe)
    : gmap string PeerState :=
  foldl (λ m i, <[pi_UUID i := probed i (call i)]> m) ∅ (to_probe ids peers).

(** internal/webui/app.go:494-499 [probe] *)
Definition merge_probes (results old : gmap string PeerState) : gmap string PeerState :=
  map_imap (λ id p, let o := default no_peer (old !! id) in
                    Some (set_Task (ps_Task o) (set_Command (ps_Command o) p))) results ∪ old.

(** internal/webui/app.go:446-512 [probe] *)
Definition probe (c : context) (d : Dispatch) : prog :=
  spec d (λ s sp fp,
    if bool_decide (d_IDs d = []) then Ret (Some "请至少选择一台接收机器") else
    Ask (list PeerInfo) (λ peers,
    Ask (turns (List.map (λ i, ("probe", pi_UUID i)) (to_probe (d_IDs d) peers))) (λ t, Tell (`t) (
    Ask (PeerInfo → reply Probe) (λ call,
    if negb (all_turns t) then Await (Over c) (Ret (Some canceled)) else
    unless c (Ret (Some canceled)) (
    let results := probe_results (d_IDs d) peers call in
    act (λ a, set_probes (merge_probes results (probes a)) fp a)
      (let ready := count ps_Ready (peers_of results) in
       act (set_notice ("预探测完成：" +:+ decimal ready +:+ " 台可参与，" +:+
                        decimal (zlen (d_IDs d) - ready) +:+ " 台排除")) (Ret None)))))))).

(** ** Following tasks *)

(** The task it follows: of the commands or of the files. *)
Definition task_of (commands : bool) (p : PeerState) : option TaskState :=
  if commands then ps_Command p else ps_Task p.

Definition set_task_of (commands : bool) (t : TaskState) (p : PeerState) : PeerState :=
  if commands then set_Command (Some t) p else set_Task (Some t) p.

(** The state of a running task after a request, if it was made.
    internal/webui/tasks.go:103-114 [monitor] *)
Definition follow (commands : bool) (r : option (reply TaskState)) (p : PeerState) : PeerState :=
  match task_of commands p, r with
  | Some t, Some r =>
      if running (Some t) then
        set_task_of commands
          (match r with
           | inl e => failed_task (t_ID t) (t_Kind t) e
           | inr st => if String.eqb (t_ID st) (t_ID t) then st
                       else failed_task (t_ID t) (t_Kind t) "设备已切换到其他任务"
           end) p
      else p
  | _, _ => p
  end.

(** internal/webui/tasks.go:85-120 [monitor] *)
Definition follow_all (commands : bool) (call : string → option (reply TaskState))
    (peers : gmap string PeerState) : gmap string PeerState :=
  map_imap (λ id p, Some (follow commands (call id) p)) peers.

(** internal/webui/tasks.go:127-133 [monitor] *)
Definition did_fail (commands : bool) (p : PeerState) : bool :=
  match task_of commands p with
  | Some t => String.eqb (t_Status t) "failed" || String.eqb (t_Status t) "cancelled"
  | None => false
  end.

(** A request to cancel, to the peers that have a task.
    internal/webui/app.go:585-602 [cancelRemote] *)
Definition cancelRemote (peers : gmap string PeerState) : list (string * string) :=
  omap (λ p, match ps_Task p with
             | Some t => if is_empty (t_ID t) then None else Some ("cancel", ps_UUID p)
             | None => None
             end) (peers_of peers).

(** internal/webui/tasks.go:150-171 [cancelRemoteKind] *)
Definition cancelRemoteKind (commands : bool) (peers : gmap string PeerState) : list (string * string) :=
  if negb commands then cancelRemote peers else
  omap (λ p, match ps_Command p with
             | Some t => if is_empty (t_ID t) then None else Some ("command.cancel", ps_UUID p)
             | None => None
             end) (peers_of peers).

(** [rounds] rounds; then it waits for its context.
    internal/webui/tasks.go:60-149 [monitor] *)
Fixpoint monitor (rounds : nat) (c : context) (commands : bool) (peers : gmap string PeerState) : prog :=
  let stop peers := Tell (cancelRemoteKind commands peers) (Ret (Some canceled)) in
  match rounds with
  | O => Await (Over c) (stop peers)
  | S rounds' =>
      unless c (stop peers) (
      let all_done := forallb (λ p, negb (running (task_of commands p))) (peers_of peers) in
      let method := if commands then "command.status" else "status" in
      Ask (turns (List.map (λ '(u, _), (method, u))
                    (List.filter (λ '(_, p), running (task_of commands p)) (map_to_list peers)))) (λ t,
      Tell (`t) (Ask (string → reply TaskState) (λ call,
         let peers := follow_all commands (answered t method call) peers in
         store_all (peers_of peers) commands
           (if all_done then
              let failed := count (did_fail commands) (peers_of peers) in
              Ret (if 0 <? failed then Some (decimal failed +:+ " 台机器执行失败，请查看设备详情") else None)
            else if negb (all_turns t) then Await (Over c) (stop peers)
            else unless c (stop peers) (monitor rounds' c commands peers))))))
  end.

(** ** Dispatching *)

(** internal/webui/app.go:537-540 [dispatch] *)
Definition to_start (d : Dispatch) (probes : gmap string PeerState) : gmap string PeerState :=
  filter (λ '(id, p), ps_Ready p && selected (d_IDs d) id = true) probes.

(** internal/webui/app.go:552-562 [dispatch] *)
Definition started (id : string) (r : reply TaskState) (p : PeerState) : PeerState :=
  match r with
  | inr st => set_Task (Some st) p
  | inl e => set_Task (Some (failed_task id "" e)) (set_probe false e (ps_Warnings p) p)
  end.

(** Each peer that is selected and ready has its state after the request, if it was made.
    internal/webui/app.go:537-566 [dispatch] *)
Definition start_all (d : Dispatch) (id : string) (call : string → option (reply TaskState))
    (probes : gmap string PeerState) : gmap string PeerState :=
  map_imap (λ u p,
    Some (if ps_Ready p && selected (d_IDs d) u then
            match call u with Some r => started id r p | None => p end
          else p)) probes.

(** internal/webui/app.go:555-557 [dispatch] *)
Definition sent_count (d : Dispatch) (call : string → option (reply TaskState)) (probes : gmap string PeerState) : Z :=
  zlen (List.filter (λ '(u, _), match call u with Some (inr _) => true | _ => false end)
          (map_to_list (to_start d probes))).

(** internal/webui/app.go:573-576 [dispatch] *)
Definition merge_started (new old : gmap string PeerState) : gmap string PeerState :=
  map_imap (λ id p, Some (set_Command (ps_Command (default no_peer (old !! id))) p)) new ∪ old.

(** internal/webui/app.go:513-584 [dispatch] *)
Definition dispatch (rounds : nat) (c : context) (d : Dispatch) : prog :=
  spec d (λ s sp fp,
    look (λ a, (match distribution a with Some x => di_Active x | None => false end,
                String.eqb (probeKey a) fp, probes a)) (λ '(active, valid, ps),
      if (active : bool) then Ret (Some "无条件分发已开启，请先停止接纳新设备") else
      if negb valid then Ret (Some "文件、目标位置或选择已变化，请先重新预探测") else
      Ask string (λ id,
      Ask (turns (List.map (λ '(u, _), ("start", u)) (map_to_list (to_start d ps)))) (λ t,
      Tell (`t) (Ask (string → reply TaskState) (λ call,
         let called := answered t "start" call in
         let new := start_all d id called ps in
         let stop := Tell (cancelRemote new) (Ret (Some canceled)) in
         if negb (all_turns t) then Await (Over c) stop else
         unless c stop (
           let sent := sent_count d called ps in
           act (λ a, set_notice ("已启动 " +:+ decimal sent +:+ " 台机器；未通过预探测的机器不参与")
                       (set_probes (merge_started new (probes a)) "" a))
             (if sent =? 0 then Ret (Some "没有可启动的机器，请查看预探测结果")
              else monitor rounds c false new)))))))).

(** ** Commands *)

(** internal/webui/agent.go:388-391 [App.command] *)
Definition commanded (id : string) (i : PeerInfo) (r : reply TaskState) : PeerState :=
  set_Command (Some (match r with inr st => st | inl e => failed_task id "command" e end)) (of_peer i).

(** internal/webui/agent.go:378-393 [App.command] *)
Definition command_peers (ids : list string) (id : string) (peers : list PeerInfo)
    (call : PeerInfo → reply TaskState) : gmap string PeerState :=
  foldl (λ m i, <[pi_UUID i := commanded id i (call i)]> m) ∅ (to_probe ids peers).

(** internal/webui/agent.go:368-401 [App.command] *)
Definition command (rounds : nat) (c : context) (d : Dispatch) : prog :=
  look hub (λ h,
    match h with
    | None => Ret (Some "请先启动发送服务并连接接收端")
    | Some _ =>
        if bool_decide (d_IDs d = []) then Ret (Some "请先选择接收机器") else
        Ask string (λ id, Ask (list PeerInfo) (λ peers,
        Tell (List.map (λ i, ("command", pi_UUID i)) (to_probe (d_IDs d) peers))
          (Ask (PeerInfo → reply TaskState) (λ call,
           let states := command_peers (d_IDs d) id peers call in
           if bool_decide (states = ∅) then Ret (Some "所选机器均已离线") else
           store_all (peers_of states) true (monitor rounds c true states)))))
    end).

(** ** Continuous distribution *)

Definition stop_note : string := "已停止接纳新设备，已接收节点继续做种".

Definition inactive (note : string) (d : Distribution) : Distribution :=
  mkDistribution (di_ID d) false (di_Name d) (di_Target d) note (di_Members d) (di_Excluded d).

(** It cancels the loop and waits for it.
    internal/webui/distribution.go:50-66 [stopDistribution] *)
Definition stopDistribution : prog :=
  Sect (option Z) (λ a, (distributing a, set_distribution (inactive stop_note <$> distribution a) None a))
    (λ d, match d with
          | Some n => act (cancel_ctx n) (Await (FeedGone n) (Ret None))
          | None => Ret None
          end).

(** internal/webui/distribution.go:174-181 [pauseDistribution] *)
Definition pauseDistribution : prog :=
  act (λ a, set_distribution (inactive "停止接纳新设备，已参与机器继续接收与做种" <$> distribution a)
              (distributing a) a) (Ret None).

(** internal/webui/distribution.go:23-49 [startDistribution] *)
Definition startDistribution (d : Dispatch) : prog :=
  spec d (λ s sp _,
    look (λ a, (match distribution a with Some x => di_Active x | None => false end,
                bool_decide (is_Some (distributing a)))) (λ '(already, old),
      if (already : bool) then Ret (Some "无条件分发已经开启，请先停止接纳新设备") else
      let start :=
        Ask string (λ id,
          act (λ a,
            let sp := mkTaskSpec id (sp_Target sp) (sp_Overwrite sp) (sp_Archive sp) (sp_Entries sp) (sp_Meta sp) in
            let n := next_id a in
            set_feeds (<[n := mkFeed s sp d]> (feeds a))
              (set_probes (probes a) ""
                (set_distribution
                   (Some (mkDistribution id true (s_Name (sr_data s)) (d_Target d)
                            "持续接纳当前及后续上线设备" 0 0))
                   (Some n) (fresh a)))) (Ret None)) in
      if (old : bool) then seq stopDistribution start else start)).

(** What a round does with a peer that is on line: nothing, or it asks for the state of
    the member, or admits the newcomer.
    internal/webui/distribution.go:78-93 [distributionLoop] *)
Definition feed_todo (accepting : bool) (members : gmap string PeerState) (i : PeerInfo)
    : option (bool * PeerState) :=
  if pi_Self i then None else
  match members !! pi_UUID i with
  | Some p =>
      if running (ps_Task p)
      then Some (true, mkPeerState (Some i) (ps_Ready p) (ps_Probe p) (ps_Warnings p) (ps_Task p) (ps_Command p))
      else None
  | None => if accepting then Some (false, of_peer i) else None
  end.

(** internal/webui/distribution.go:105-130 [distributionLoop] *)
Definition feed_peer (id : string) (probe : reply Probe) (start status : reply TaskState)
    (seen : bool) (p : PeerState) : PeerState :=
  if seen then
    match status with
    | inl e => set_Task (Some (failed_task id "download" e)) p
    | inr st => if String.eqb (t_ID st) id then set_Task (Some st) p else p
    end
  else
    match probe with
    | inl e => set_probe (ps_Ready p) e (ps_Warnings p) p
    | inr r =>
        let p := set_probe (p_Ready r) (string_of (p_Target r)) (List.map string_of (p_Warnings r)) p in
        match start with
        | inl e => set_Task (Some (failed_task id "download" e)) (set_probe false e (ps_Warnings p) p)
        | inr st => set_Task (Some st) p
        end
    end.

(** The requests of a round to one peer. *)
Definition feed_requests (i : PeerInfo) (probe : reply Probe) (seen : bool) : list (string * string) :=
  if seen then [("status", pi_UUID i)]
  else ("probe", pi_UUID i) :: match probe with inr _ => [("start", pi_UUID i)] | inl _ => [] end.

(** What the peers answer in a round, and which of them before the loop was stopped. *)
Record answers : Type := mkAnswers {
  an_probe : PeerInfo → reply Probe; an_start : PeerInfo → reply TaskState;
  an_status : PeerInfo → reply TaskState; an_done : PeerInfo → bool;
}.

(** The peers the round has an answer of. internal/webui/distribution.go:78-139 [distributionLoop] *)
Definition feed_round (accepting : bool) (id : string) (members : gmap string PeerState)
    (an : answers) (peers : list PeerInfo) : list PeerState :=
  omap (λ i,
    '(seen, p) ← feed_todo accepting members i;
    if an_done an i then Some (feed_peer id (an_probe an i) (an_start an i) (an_status an i) seen p)
    else None) peers.

(** internal/webui/distribution.go:152-163 [distributionLoop] *)
Definition feed_note (id : string) (admitted excluded : Z) (a : App) : App :=
  match distribution a with
  | Some x =>
      if String.eqb (di_ID x) id then
        let note := if di_Active x
                    then "持续接纳新设备：" +:+ decimal admitted +:+ " 台已加入，" +:+ decimal excluded +:+
                         " 台不可用已排除"
                    else "停止接纳新设备；" +:+ decimal admitted +:+ " 台已加入，接收与做种继续" in
        set_notice note
          (set_distribution (Some (mkDistribution (di_ID x) (di_Active x) (di_Name x) (di_Target x) note
                                     admitted excluded)) (distributing a) a)
      else a
  | None => a
  end.

(** The loop ends and closes its channel. *)
Definition feed_end (n : Z) : prog := act (λ a, set_feeds (delete n (feeds a)) a) (Ret None).

(** The session's snapshot has no identifier twice. *)
Record online : Type := mkOnline { on_peers : list PeerInfo; on_distinct : NoDup (List.map pi_UUID on_peers) }.

(** Whether the distribution [id] admits newcomers.
    internal/webui/distribution.go:70-72 [distributionLoop] *)
Definition accepts (id : string) (a : App) : bool :=
  match distribution a with Some x => String.eqb (di_ID x) id && di_Active x | None => false end.

(** Whether every peer the round has to do with has answered. *)
Definition all_answered (accepting : bool) (members : gmap string PeerState) (an : answers) (peers : list PeerInfo)
    : bool :=
  forallb (λ i, match feed_todo accepting members i with Some _ => an_done an i | None => true end) peers.

(** The requests of a round to one peer, none if there is nothing to do with it.
    internal/webui/distribution.go:78-130 [distributionLoop] *)
Definition machine_requests (accepting : bool) (members : gmap string PeerState) (an : answers) (i : PeerInfo)
    : list (string * string) :=
  match feed_todo accepting members i with
  | Some (seen, _) => feed_requests i (an_probe an i) seen
  | None => []
  end.

Definition to_machine (u : string) (l : list (string * string)) : list (string * string) := filter (λ r, r.2 = u) l.

(** What a round sends: its goroutines, up to eight at a time, each with one machine, make their
    requests in any order; each makes its own in their order, all of them if it comes to its
    end, which only a context that is over prevents.
    internal/webui/distribution.go:92-139 [distributionLoop] *)
Record schedule (accepting : bool) (members : gmap string PeerState) (an : answers) (on : online) : Type :=
  mkSchedule {
    sd_sent : list (string * string);
    sd_known r : r ∈ sd_sent → ∃ i, i ∈ on_peers on ∧ r.2 = pi_UUID i;
    sd_each i : i ∈ on_peers on → to_machine (pi_UUID i) sd_sent `prefix_of` machine_requests accepting members an i;
    sd_all i : i ∈ on_peers on → an_done an i = true →
      to_machine (pi_UUID i) sd_sent = machine_requests accepting members an i;
  }.
Arguments sd_sent {_ _ _ _} _.

(** One after the other, for example. *)
Definition in_turn accepting members an (peers : list PeerInfo) : list (string * string) :=
  i ← peers; machine_requests accepting members an i.

Lemma machine_requests_to accepting members an i r :
  r ∈ machine_requests accepting members an i → r.2 = pi_UUID i.
Proof.
  unfold machine_requests, feed_requests. destruct (feed_todo _ _ _) as [[[|] ?]|]; [|destruct (an_probe an i)|];
    intros Hr; repeat (apply elem_of_cons in Hr as [->|Hr]; [done|]); by apply elem_of_nil in Hr.
Qed.

Lemma to_machine_own u l : (∀ r, r ∈ l → r.2 = u) → to_machine u l = l.
Proof.
  intros Hl. unfold to_machine. induction l as [|r l IH]; [done|]. rewrite filter_cons_True by (apply Hl; left).
  f_equal. apply IH. intros r' Hr'. apply Hl. by right.
Qed.

Lemma to_machine_other u l : (∀ r, r ∈ l → r.2 ≠ u) → to_machine u l = [].
Proof.
  intros Hl. unfold to_machine. induction l as [|r l IH]; [done|]. rewrite filter_cons_False by (apply Hl; left).
  apply IH. intros r' Hr'. apply Hl. by right.
Qed.

Lemma in_turn_to accepting members an peers i :
  NoDup (List.map pi_UUID peers) → i ∈ peers →
  to_machine (pi_UUID i) (in_turn accepting members an peers) = machine_requests accepting members an i.
Proof.
  induction peers as [|j peers IH]; intros Hnd Hi; [by apply elem_of_nil in Hi|].
  apply NoDup_cons in Hnd as [Hj Hnd]. cbn. unfold to_machine. rewrite filter_app.
  fold (to_machine (pi_UUID i)).
  apply elem_of_cons in Hi as [-> |Hi].
  - change (filter (λ r, r.2 = pi_UUID j) ?l) with (to_machine (pi_UUID j) l).
    rewrite to_machine_own by (intros r; apply machine_requests_to).
    rewrite to_machine_other, app_nil_r; [done|].
    intros r (k & Hr & Hk)%list_elem_of_bind. apply machine_requests_to in Hr as ->. intros E. apply Hj.
    rewrite <-E. apply list_elem_of_In, List.in_map, list_elem_of_In, Hk.
  - change (filter (λ r, r.2 = pi_UUID i) ?l) with (to_machine (pi_UUID i) l).
    rewrite to_machine_other; [by apply IH|]. intros r ->%machine_requests_to E. apply Hj. rewrite E.
    apply list_elem_of_In, List.in_map, list_elem_of_In, Hi.
Qed.

#[export] Instance schedule_inhabited accepting members an on : Inhabited (schedule accepting members an on).
Proof.
  constructor. refine (mkSchedule _ _ _ _ (in_turn accepting members an (on_peers on)) _ _ _).
  - intros r (i & Hr & Hi)%list_elem_of_bind. exists i. split; [done|]. by apply machine_requests_to in Hr.
  - intros i Hi. rewrite in_turn_to; [done|apply on_distinct|done].
  - intros i Hi _. apply in_turn_to; [apply on_distinct|done].
Defined.

(** [rounds] rounds; then it waits for its context. A request is given up only once its
    context is over. internal/webui/distribution.go:67-172 [distributionLoop] *)
Fixpoint distributionLoop (rounds : nat) (n : Z) (f : feed) (members : gmap string PeerState) : prog :=
  match rounds with
  | O => Await (Over (Some n)) (feed_end n)
  | S rounds' =>
      let id := sp_ID (fd_spec f) in
      unless (Some n) (feed_end n) (
      look (accepts id) (λ accepting,
        Ask online (λ on, Ask answers (λ an,
        let peers := on_peers on in
        Ask (schedule accepting members an on) (λ sent, Tell (sd_sent sent) (
        let new := feed_round accepting id members an peers in
        let members' := foldl (λ m p, <[ps_UUID p := p]> m) members new in
        store_all new false
          (if negb (all_answered accepting members an peers) then Await (Over (Some n)) (feed_end n) else
           unless (Some n) (feed_end n) (
           let admitted := count ps_Ready (peers_of members') in
           act (feed_note id admitted (zlen (peers_of members') - admitted))
             (unless (Some n) (feed_end n) (distributionLoop rounds' n f members'))))))))))
  end.
