(* ===== verification/Typed.v ===== *)
(** * What is read is well typed

    Whatever bytes come from a connection or from the page, a message that is accepted has
    integers of the width of their fields and text that is valid UTF-8: the reader of
    JSON replaces what is not, and refuses numbers out of range. The law is stated once
    for JSON and carried to each message type by an instance. *)

From S2P Require Import Prelude Text Json Model Session Transfer Prepare Download Tasks Discovery App Dispatch.
Local Open Scope string_scope.
Local Open Scope Z_scope.
Local Open Scope list_scope.

(** ** Valid text *)












(** ** Trees of valid text *)

Inductive text_ok : json → Prop :=
| text_null : text_ok JNull
| text_bool b : text_ok (JBool b)
| text_num l : text_ok (JNum l)
| text_str s : str_ok s → text_ok (JStr s)
| text_arr l : Forall text_ok l → text_ok (JArr l)
| text_obj ms : Forall (λ m, str_ok m.1 ∧ text_ok m.2) ms → text_ok (JObj ms).




(** ** The law *)

(** What a decoder gives for valid text has the property [P]. *)
Definition decodes {A} (dec : json → option A) (P : A → Prop) : Prop := ∀ j a, text_ok j → dec j = Some a → P a.

Class Typed (A : Type) `{Message A} : Prop := decode_typed : decodes decode msg_ok.

Lemma decodes_string : decodes dec_string str_ok.
Proof. intros j s Hj. by destruct Hj; intros [= <-]. Qed.

Lemma decodes_int : decodes dec_int int_ok.
Proof.
  intros j z _. unfold dec_int, int_ok. destruct j; try done. unfold ParseInt, Atoi.
  set (o := match lit with [] => _ | _ => _ end). destruct o as [neg ds]. destruct (all_digits ds); [|done].
  destruct (in_int64 _) eqn:E; [|done]. by intros [= <-].
Qed.

Lemma digits_nonneg l a : forallb is_digit l = true → 0 ≤ a → 0 ≤ fold_left (λ a c, a * 10 + (code c - 48)) l a.
Proof.
  revert a. induction l as [|c l IH]; intros a Hd Ha; [done|]. cbn in *. apply andb_true_iff in Hd as [Hc Hd].
  apply IH; [done|]. unfold is_digit in Hc. lia.
Qed.

Lemma decodes_uint32 : decodes dec_uint32 crc_ok.
Proof.
  intros j z _. unfold dec_uint32, crc_ok. destruct j; try done. unfold ParseUint32.
  destruct (all_digits lit) eqn:Hd; [|done]. destruct (Z.ltb_spec (digits_value lit) (2 ^ 32)); [|done].
  intros [= <-]. split; [|done]. apply digits_nonneg; [|lia]. by destruct lit.
Qed.

Lemma decodes_slice {A} (dec : json → option A) P : decodes dec P → decodes (dec_slice dec) (Forall P).
Proof.
  intros Hd j l Hj. destruct Hj as [| | | |js Hjs|]; try done. cbn. intros Hl. apply mapM_Some in Hl.
  induction Hl as [|y x js l Hy Hl IH]; [constructor|]. apply Forall_cons in Hjs as [? ?]. constructor; [by eapply Hd|by apply IH].
Qed.

Lemma decodes_field {A} (dec : json → option A) P name zero j a :
  decodes dec P → P zero → text_ok j → field dec name zero j = Some a → P a.
Proof.
  intros Hd Hz Hj. destruct Hj as [| | | | |ms Hms]; try done; [by intros [= <-]|]. cbn.
  assert (∀ ms acc, Forall (λ m, str_ok m.1 ∧ text_ok m.2) ms → (∀ x, acc = Some x → P x) →
    fold_left (λ acc m, match acc with None => None | Some _ =>
      if same_name m.1 name then match m.2 with JNull => acc | v => dec v end else acc end) ms acc = Some a → P a) as Hgo.
  { clear ms Hms. induction ms as [|[k v] ms IH]; intros acc Hms Hacc; [apply Hacc|].
    apply Forall_cons in Hms as [[_ Hv] Hms]. cbn [fold_left fst snd]. apply IH; [done|].
    destruct acc as [y|]; [|done]. destruct (same_name k name); [|done].
    destruct v; try (intros x Hx; by eapply Hd); done. }
  apply Hgo; [done|]. by intros x [= <-].
Qed.

Lemma decodes_bool : decodes dec_bool (λ _, True).
Proof. done. Qed.

Lemma decodes_element : decodes dec_element str_ok.
Proof. intros j s Hj. destruct j; try done; [by intros [= <-]|]. by apply decodes_string. Qed.

Lemma no_progress_ok : Progress_ok no_progress.
Proof. split_and!; try constructor; vm_compute; done. Qed.

Lemma no_spec_ok : TaskSpec_ok (mkTaskSpec "" "" false false [] no_meta).
Proof. split_and!; try constructor; vm_compute; done. Qed.

Lemma no_meta_ok : GetFileStatusResp_ok no_meta.
Proof. split_and!; vm_compute; done. Qed.

Lemma zero_crc_ok : crc_ok 0.
Proof. unfold crc_ok. lia. Qed.

#[local] Arguments field : simpl never.

Create HintDb typed.
#[export] Hint Resolve decodes_string decodes_int decodes_uint32 decodes_bool decodes_slice decodes_element : typed.
#[export] Hint Resolve no_progress_ok no_spec_ok no_meta_ok zero_crc_ok Forall_nil_2 : typed.
#[export] Hint Extern 1 (str_ok "") => reflexivity : typed.
#[export] Hint Extern 1 (int_ok 0) => reflexivity : typed.

(** The fields are read one after the other; each is of its type. *)
Ltac read_fields :=
  intros j a Hj Ha; cbn in Ha;
  try match type of Ha with ?f j = _ => unfold f in Ha end; unfold text, num, crc, flag in Ha;
  repeat match type of Ha with
  | mbind _ _ = Some _ =>
      let x := fresh "x" in let Hx := fresh "Hx" in apply bind_Some in Ha as (x & Hx & Ha)
  end;
  injection Ha as <-;
  match goal with |- @msg_ok _ ?M ?a => let f := eval hnf in (@msg_ok _ M) in change (f a); cbv beta end;
  repeat match goal with |- _ ∧ _ => split end;
  match goal with |- ?P ?x => let y := eval cbn in x in change (P y) end;
  (eapply decodes_field; [| |exact Hj|eassumption]); eauto with typed.

(** ** Each message *)

#[export] Instance BaseJson_typed : Typed BaseJson.
Proof. read_fields. Qed.

#[export] Instance GetChunkReq_typed : Typed GetChunkReq.
Proof. read_fields. Qed.

#[export] Instance GetChunkResp_typed : Typed GetChunkResp.
Proof. read_fields. Qed.

#[export] Instance GetFileStatusResp_typed : Typed GetFileStatusResp.
Proof. read_fields. Qed.
#[export] Hint Extern 1 (decodes decode_GetFileStatusResp _) => exact (decode_typed (A := GetFileStatusResp)) : typed.

#[export] Instance WantChunkReq_typed : Typed WantChunkReq.
Proof. read_fields. Qed.

#[export] Instance SourceCandidate_typed : Typed SourceCandidate.
Proof. read_fields. Qed.
#[export] Hint Extern 1 (decodes decode_SourceCandidate _) => exact (decode_typed (A := SourceCandidate)) : typed.

#[export] Instance WantChunkResp_typed : Typed WantChunkResp.
Proof. read_fields. Qed.

#[export] Instance ReportChunkReq_typed : Typed ReportChunkReq.
Proof. read_fields. Qed.

#[export] Instance PeerRegReq_typed : Typed PeerRegReq.
Proof. read_fields. Qed.

#[export] Instance ControlMsg_typed : Typed ControlMsg.
Proof. read_fields. Qed.

#[export] Instance PushStart_typed : Typed PushStart.
Proof. read_fields. Qed.

#[export] Instance PeerReportReq_typed : Typed PeerReportReq.
Proof. read_fields. Qed.

#[export] Instance NodeStatusMsg_typed : Typed NodeStatusMsg.
Proof. read_fields. Qed.

#[export] Instance Entry_typed : Typed Entry.
Proof. read_fields. Qed.
#[export] Hint Extern 1 (decodes decode_Entry _) => exact (decode_typed (A := Entry)) : typed.

#[export] Instance BlockSource_typed : Typed BlockSource.
Proof. read_fields. Qed.
#[export] Hint Extern 1 (decodes decode_BlockSource _) => exact (decode_typed (A := BlockSource)) : typed.

#[export] Instance Progress_typed : Typed Progress.
Proof. read_fields. Qed.
#[export] Hint Extern 1 (decodes decode_Progress _) => exact (decode_typed (A := Progress)) : typed.

#[export] Instance TaskSpec_typed : Typed TaskSpec.
Proof. read_fields. Qed.
#[export] Hint Extern 1 (decodes decode_TaskSpec _) => exact (decode_typed (A := TaskSpec)) : typed.

#[export] Instance TaskState_typed : Typed TaskState.
Proof. read_fields. Qed.

#[export] Instance Command_typed : Typed Command.
Proof. read_fields. Qed.

#[export] Instance Dispatch_typed : Typed Dispatch.
Proof. read_fields. Qed.

#[export] Instance AnnounceInfo_typed : Typed AnnounceInfo.
Proof. read_fields. Qed.

(** ** What is accepted *)





