(* ===== verification/Delivery.v ===== *)
(** * A folder from one machine to another

    The parts together: internal/transfer/files.go prepares a folder on the sender (file
    Prepare), internal/webui/app.go makes a task of it (file Dispatch), the receiver's agent
    resolves the destination and extracts (internal/webui/agent.go, file Agent) what
    internal/receiver/download.go fetched in chunks (file Download). *)

From S2P Require Import Prelude Text Codec Json Model Session Chunk Paths FileSys Transfer Extraction Prepare.
From S2P Require Import Client Download Tasks Agent AgentInv App Dispatch.
Local Open Scope string_scope.
Local Open Scope Z_scope.
Local Open Scope list_scope.

(** What the reader of archive/tar is for a file's bytes: the entries it delivers and how
    it ends, [None] when it cannot be opened. *)
Definition untar : Type := bytes → option (list tar_entry * option t_error).

(** The documented behaviour of archive/tar: what the writer wrote for the members is read back. *)
Definition archives (rd : untar) (data : bytes) (ms : list member) : Prop :=
  ∃ hs fin, rd data = Some (hs, fin) ∧ Forall2 reads_back ms hs.

(** The archive the agent opens: the file the download left under the name.
    internal/transfer/files.go:359-364 [Extract] *)
Definition open_archive (rd : untar) (target : chars) (names : Names) (fs : Files)
    : option (list tar_entry * option t_error) :=
  h ← names !! string_of target; f ← fs !! h; rd (f_data f).

(** Extraction into an absolute place, with no root: the manifest is there. *)
Lemma extracted cwd sys hs fin d entries ow fs fs' :
  fs_wf fs → Forall normal_elem d →
  Extract cwd sys (Some (hs, fin)) [] (abs_path d) entries ow fs = (None, fs') →
  ∃ es, es ≡ₚ entries ∧ all_done fs' [] d hs es.
Proof.
  intros Hwf Hd Hx. assert (real_root cwd fs [] = Some []) as Hroot by reflexivity.
  destruct (Extract_ok _ _ _ _ _ _ _ _ _ _ _ Hwf Hroot (eq_refl _) Hx) as (ts & es & Hres & Hn & Hp & Hall).
  exists es. split; [done|]. apply Resolve_abs in Hres; [|done]. cbn [app] in Hres, Hn.
  by apply abs_path_inj in Hres as <-.
Qed.

(** The destination is settled before anything is fetched, and it is not touched by what
    is: a folder is received into a cache below it. *)
Lemma begin_dir cwd env fs spec r dir target c fs1 r1 :
  fs_wf fs → IsAbs (root r) = true →
  download_begin cwd env fs spec r = (Ok (dir, target, c), fs1, r1) →
  resolve fs (root r) (chars_of (sp_Target spec)) = Ok dir ∧ ∃ d, dir = abs_path d ∧ Forall normal_elem d.
Proof.
  intros Hwf Hroot Hb. unfold download_begin in Hb.
  destruct (resolve fs (root r) (chars_of (sp_Target spec))) as [dir'|] eqn:Hres; [|done].
  assert (dir' = dir) as ->.
  { revert Hb. destruct (MkdirAll _ _ _) as [[|] fs2]; [cbn [negb]|done]. repeat case_match; intros; simplify_eq; done. }
  split; [done|]. destruct (resolve_spec _ _ _ _ Hwf Hroot Hres) as (es & real & k & _ & _ & _ & -> & Hn & _).
  eauto.
Qed.

(** C1. A folder arrives on the other machine as it was sent, through all the parts. The
    sender prepared it, and its task names the entries and the size of the archive; the
    receiver's agent began the download of the task; its [RunTo] returned no error, whatever
    the shuffle, the failures and retries, the interleaving of its workers, with providers
    that deliver chunks of the archive; and the agent's extraction of the file under the
    target's name returned no error, whatever had happened to the receiver's tree meanwhile.
    Then below the place where the task's target leads, every directory of the sender's
    folder is a directory, and every file has the sender's bytes at the same path, with
    its permissions reduced by the mask. archive/tar is the reader [rd], which reads back
    what was written. *)
Theorem folder_delivered (rd : untar) (cwd : chars) (io : prepare_io) (src : FS) (folder : chars)
    (temps temps' : list chars) (s : Source) (ms : list member) (data : bytes)
    (n : Z) (gen : string) (meta : GetFileStatusResp) (d : Dispatch)
    (cwd' : chars) (env : dl_env) (sys : Sys) (r r1 r2 r3 : agent) (dir target cache : chars)
    (fs0 fs1 fs2 fs3 : FS) (gone : list chars)
    (a : string) (g : GspSdk) (on user trunc removed0 : bool) (h : fd) (tmp : string) (x1 x2 : Z) (fds fds' : Files)
    (names names1 names_lstat names2 names' : Names) (se se' : Session) (P : Params) (st0 st : Dl)
    (out : Files * Names * Session) (synced user2 lstat_fails renamed removed : bool) :
  fs_wf src → fs_named src → IsAbs cwd = true →
  Prepare cwd io src folder temps = (Ok (s, ms), temps') → s_Archive s = true → archives rd data ms →
  let spec := make_spec (mkSrc s n gen) meta d in
  zlen data = fs_FileSize meta →
  fs_wf fs0 → IsAbs (root r) = true →
  download_begin cwd' env fs0 spec r = (Ok (dir, target, cache), fs1, r1) →
  start_ok (sp_Meta spec) h x1 x2 se →
  RunTo_begin a g (sp_Meta spec) on user (Some (h, tmp)) trunc removed0 x1 x2 fds names se = (Ok (P, st0, names1), out) →
  rtc (any_step (λ i b, b = chunk_bytes data i) P) st0 st → joined st = true →
  RunTo_end h tmp (string_of target) synced user2 (Some (sp_Overwrite spec)) lstat_fails renamed removed names_lstat names2 st
    = (None, (fds', names', se')) →
  fs_wf fs2 →
  download_end cwd' sys None (open_archive rd target names' fds') spec dir cache fs2 r2 = (None, fs3, r3, gone) →
  ∃ base place_of, place src (elems_of (Abs cwd folder)) = Some base ∧
    resolve fs0 (root r) (chars_of (d_Target d)) = Ok (abs_path place_of) ∧
    ∀ rel node, node_at src (base ++ rel) = Some node →
      node_at fs3 (place_of ++ chars_of (s_Name s) :: rel) = match node with
        | NFile bs mode _ => Some (NFile bs (Z.land mode 0x1ed) true)
        | _ => Some NDir
        end.
Proof.
  intros Hwf Hnm Hc Hp Harch (hs & fin & Hrd & Hback) spec Hlen Hwf0 Hroot Hbegin Hso Hrun0 Hrun Hj Hend Hwf2 Hdone.
  destruct (begin_dir _ _ _ _ _ _ _ _ _ _ Hwf0 Hroot Hbegin) as (Hres & dst & -> & Hdst).
  assert (names' !! string_of target = Some h ∧ f_data <$> fds' !! h = Some data) as [Htarget Hdata]
    by (eapply copied_source; [exact Hso|exact Hlen|exact Hrun0|exact Hrun|exact Hj|exact Hend]).
  apply fmap_Some in Hdata as (f & Hf & ->).
  unfold download_end, open_archive in Hdone. rewrite Htarget in Hdone. cbn [mbind option_bind] in Hdone.
  rewrite Hf in Hdone. cbn [mbind option_bind] in Hdone. rewrite Hrd in Hdone.
  destruct (pruneCaches _ _) as [r' gone']. replace (sp_Archive spec) with true in Hdone by done.
  destruct (Extract _ _ _ _ _ _ _ _) as [[e|] fs'] eqn:Hx; [done|]. injection Hdone as -> _ _.
  destruct (extracted _ _ _ _ _ _ _ _ _ Hwf2 Hdst Hx) as (es & Hperm & Hall).
  destruct (Prepare_spec _ _ _ _ _ _ _ _ Hwf Hnm Hc Hp) as (x & base & n0 & -> & _ & Hpl & _ & _ & Hmf & Har).
  exists base, dst. split_and!; [done|done|]. intros rel m Hm. rewrite chars_of_string.
  by apply (restored _ _ _ _ _ _ _ [] dst _ rel m Hmf (Har Harch) Hback Hperm Hall).
Qed.

(** ** A concrete delivery *)

(** The archive of the folder of file Prepare is the two bytes the download of file
    Download fetches; the reader knows that one file. *)
Definition demo_untar : untar := λ b, if bool_decide (b = Download.demo_chunk) then Some (demo_archive, None) else None.

Definition demo_task : TaskSpec :=
  make_spec (mkSrc demo_prepared 0 "g") Download.demo_meta (mkDispatch ["p"%string] "in" "k" false).

Definition demo_agent : agent := new_agent (chars_of "/srv") "k" "10.0.0.1:5555" false.
Definition demo_begun := download_begin (chars_of "/") (mkDlEnv 10 (Some (chars_of ".cache"))) Transfer.demo_fs demo_task demo_agent.
Definition demo_received :=
  RunTo_end 7 "x.part" "/srv/in/.cache/a.bin" true false (Some false) false true true ∅ {["x.part"%string := 7%positive]} demo_st.
Definition demo_extracted :=
  download_end (chars_of "/") demo_sys None
    (open_archive demo_untar (chars_of "/srv/in/.cache/a.bin") demo_received.2.1.2 demo_received.2.1.1)
    demo_task (chars_of "/srv/in") (chars_of "/srv/in/.cache") demo_begun.1.2 demo_begun.2.

Lemma folder_delivered_witness :
  demo_extracted.1.1.1 = None ∧
  ∃ base place_of, place Prepare.demo_src (elems_of (Abs (chars_of "/home") (chars_of "d"))) = Some base ∧
    resolve Transfer.demo_fs (chars_of "/srv") (chars_of "in") = Ok (abs_path place_of) ∧
    ∀ rel node, node_at Prepare.demo_src (base ++ rel) = Some node →
      node_at demo_extracted.1.1.2 (place_of ++ chars_of "d" :: rel) = match node with
        | NFile bs mode _ => Some (NFile bs (Z.land mode 0x1ed) true)
        | _ => Some NDir
        end.
Proof.
  split; [vm_compute; reflexivity|].
  eapply (folder_delivered demo_untar (chars_of "/home") demo_io Prepare.demo_src (chars_of "d") []
    [chars_of "/tmp/b"] demo_prepared demo_members Download.demo_chunk 0 "g" Download.demo_meta (mkDispatch ["p"%string] "in" "k" false)
    (chars_of "/") (mkDlEnv 10 (Some (chars_of ".cache"))) demo_sys demo_agent demo_begun.2 demo_begun.2
    demo_extracted.1.2 (chars_of "/srv/in") (chars_of "/srv/in/.cache/a.bin") (chars_of "/srv/in/.cache")
    Transfer.demo_fs demo_begun.1.2 demo_begun.1.2 demo_extracted.1.1.2 demo_extracted.2
    "10.0.0.1:5555" Download.demo_sdk true false true true 7 "x.part" 0 0 ∅ demo_received.2.1.1
    ∅ _ ∅ {["x.part"%string := 7%positive]} demo_received.2.1.2 (NewGspSession "" "me") demo_received.2.2 demo_P demo_st0 demo_st
    Download.demo_begin.2 true false false true true).
  - apply fs_wfb_wf. vm_compute. reflexivity.
  - apply fs_namedb_named. vm_compute. reflexivity.
  - reflexivity.
  - apply demo_prepare.
  - reflexivity.
  - exists demo_archive, None. split; [vm_compute; reflexivity|repeat constructor].
  - reflexivity.
  - apply Transfer.demo_fs_wf.
  - reflexivity.
  - vm_compute. reflexivity.
  - apply demo_start_ok.
  - vm_compute. reflexivity.
  - apply Download.demo_run.
  - vm_compute. reflexivity.
  - vm_compute. reflexivity.
  - apply fs_wfb_wf. vm_compute. reflexivity.
  - vm_compute. reflexivity.
Defined.
