(* ===== verification/DispatchInv.v ===== *)
(** * What is sent to the receivers

    Runs of the programs of file Dispatch, whatever happens between their sections: which
    peers are asked to start, what the key of a probe says, and which answers a followed task
    that ended well has had. *)

From S2P Require Import Prelude Text Json Model Session Transfer Prepare Tasks App Dispatch.
Local Open Scope string_scope.
Local Open Scope Z_scope.
Local Open Scope list_scope.

(** ** Runs *)

(** A section and what it found and left, or a wait and what ended it; a request; an answer. *)
Inductive event : Type :=
| Section_of (a a' : App)
| Sent (method uuid : string)
| Answered (A : Type) (x : A).

(** A whole run with its events and its result: each section may find any state, and any
    answer may come. *)
Fixpoint runs (p : prog) (tr : list event) (e : option string) : Prop :=
  match p with
  | Ret x => tr = [] ∧ e = x
  | Sect A f k => ∃ a l, tr = Section_of a (f a).2 :: l ∧ runs (k (f a).1) l e
  | Ask A k => ∃ x l, tr = Answered A x :: l ∧ runs (k x) l e
  | Tell reqs k => ∃ l, tr = List.map (λ '(m, u), Sent m u) reqs ++ l ∧ runs k l e
  | Await w k => ∃ a l, tr = Section_of a a :: l ∧ ready w a = true ∧ runs k l e
  | Mutex m lock k => runs k tr e
  end.

(** Who was asked [method], in order. *)
Definition asked (method : string) (tr : list event) : list string :=
  omap (λ ev, match ev with
              | Sent m u => if String.eqb m method then Some u else None
              | Section_of _ _ | Answered _ _ => None
              end) tr.

Lemma asked_app method l l' : asked method (l ++ l') = asked method l ++ asked method l'.
Proof. apply omap_app. Qed.

Lemma asked_requests method reqs :
  asked method (List.map (λ '(m, u), Sent m u) reqs)
  = omap (λ '(m, u), if String.eqb m method then Some u else None) reqs.
Proof.
  induction reqs as [|[m u] reqs IH]; [done|]. cbn [List.map asked omap list_omap]. unfold asked in IH.
  rewrite IH. by destruct (String.eqb m method).
Qed.

(** Programs that never ask [method]. *)
Fixpoint never (method : string) (p : prog) : Prop :=
  match p with
  | Ret _ => True
  | Sect A f k => ∀ x, never method (k x)
  | Ask A k => ∀ x, never method (k x)
  | Tell l k => Forall (λ r, r.1 ≠ method) l ∧ never method k
  | Await w k => never method k
  | Mutex m lock k => never method k
  end.

Lemma never_asked method p tr e : runs p tr e → never method p → asked method tr = [].
Proof.
  revert tr. induction p as [x|A f k IH|A k IH|reqs k IH|w k IH|m lock k IH]; intros tr; cbn [runs never]; intros Hr Hn.
  - by destruct Hr as [-> _].
  - destruct Hr as (a & l & -> & Hr). cbn. by eapply IH.
  - destruct Hr as (x & l & -> & Hr). cbn. by eapply IH.
  - destruct Hr as (l & -> & Hr). destruct Hn as [Hl Hn].
    rewrite asked_app, asked_requests, (IH l), app_nil_r by done.
    clear -Hl. induction Hl as [|[m u] reqs Hm _ IHl]; [done|].
    cbn in Hm |- *. apply String.eqb_neq in Hm. by rewrite Hm.
  - destruct Hr as (a & l & -> & _ & Hr). cbn. by eapply IH.
  - by eapply IH.
Qed.

(** ** Who is asked to start *)

Lemma never_store_all method l command k : never method k → never method (store_all l command k).
Proof. intros Hk. induction l as [|p l IH]; [done|]. intros _. exact IH. Qed.

Lemma runs_unless c stop go tr e :
  runs (unless c stop go) tr e ↔ ∃ a l, tr = Section_of a a :: l ∧ runs (if Err c a then stop else go) l e.
Proof. done. Qed.

Lemma turn_of {reqs} (t : turns reqs) r : r ∈ `t → r ∈ reqs.
Proof. intros Hr. exact (elem_of_submseteq _ _ _ Hr (proj2_sig t)). Qed.

Lemma never_monitor method rounds c commands peers :
  ¬ method ∈ ["status"; "command.status"; "cancel"; "command.cancel"] →
  never method (monitor rounds c commands peers).
Proof.
  intros Hm. assert (∀ ps, Forall (λ r, r.1 ≠ method) (cancelRemoteKind commands ps)) as Hc.
  { intros ps. unfold cancelRemoteKind, cancelRemote. apply Forall_forall. intros [m u] Hin.
    destruct commands; cbn in Hin; apply list_elem_of_omap in Hin as (p & _ & Hp);
      [destruct (ps_Command p)|destruct (ps_Task p)]; try done; destruct (is_empty _); try done;
      injection Hp as <- <-; cbn; set_solver. }
  revert peers. induction rounds as [|rounds IH]; intros peers; cbn [monitor]; [by split|].
  intros [|]; [by split|]. intros t. split.
  - apply Forall_forall. intros [m u] Hin. apply turn_of in Hin.
    apply list_elem_of_In, List.in_map_iff in Hin as ([v p] & [= <- _] & _). destruct commands; cbn; set_solver.
  - intros call. apply never_store_all. destruct (forallb _ _); [done|]. destruct (negb _); [by split|].
    intros [|]; [by split|apply IH].
Qed.

Lemma selected_true ids id : selected ids id = true ↔ id ∈ ids.
Proof.
  unfold selected. rewrite existsb_exists. split.
  - intros (x & Hx & E). apply String.eqb_eq in E as ->. by apply list_elem_of_In.
  - intros Hi. exists id. split; [by apply list_elem_of_In|apply String.eqb_refl].
Qed.

(** Who is asked by these requests, all of the method. *)
Lemma asked_all method (l : list (string * string)) :
  (∀ r, r ∈ l → r.1 = method) → omap (λ '(n, u), if String.eqb n method then Some u else None) l = l.*2.
Proof.
  induction l as [|[n u] l IH]; intros Hl; [done|]. pose proof (Hl (n, u) ltac:(left)) as Hn. cbn in Hn |- *. subst n.
  rewrite String.eqb_refl. f_equal. apply IH. intros r Hr. apply Hl. by right.
Qed.

Lemma starts_in (m : gmap string PeerState) r :
  r ∈ List.map (λ '(u, _), ("start", u)) (map_to_list m) ↔ r.1 = "start" ∧ r.2 ∈ (map_to_list m).*1.
Proof.
  rewrite list_elem_of_In, List.in_map_iff. split.
  - intros ([u p] & <- & Hin%list_elem_of_In). split; [done|]. apply list_elem_of_fmap. by exists (u, p).
  - intros [Hn Hu]. apply list_elem_of_fmap in Hu as ([u p] & Hu & Hin). exists (u, p). destruct r as [n v]. cbn in *.
    split; [by subst|by apply list_elem_of_In].
Qed.

Lemma starts_distinct (m : gmap string PeerState) (t : turns (List.map (λ '(u, _), ("start", u)) (map_to_list m))) :
  NoDup (`t).*2.
Proof.
  assert ((List.map (λ '(u, _), ("start", u)) (map_to_list m)).*2 = (map_to_list m).*1) as E.
  { clear t. generalize (map_to_list m). intros l. induction l as [|[u p] l IH]; [done|]. cbn. f_equal. exact IH. }
  pose proof (NoDup_fst_map_to_list m) as Hnd. rewrite <-E in Hnd.
  destruct (submseteq_Permutation _ _ (proj2_sig t)) as [k Hk]. rewrite Hk, fmap_app in Hnd.
  by apply NoDup_app in Hnd as [? _].
Qed.

Lemma to_start_in d ps u : u ∈ (map_to_list (to_start d ps)).*1 ↔
  ∃ p, ps !! u = Some p ∧ ps_Ready p = true ∧ u ∈ d_IDs d.
Proof.
  rewrite list_elem_of_fmap. split.
  - intros ([v p] & -> & Hin). apply elem_of_map_to_list in Hin. unfold to_start in Hin.
    apply map_lookup_filter_Some in Hin as [Hp Hs]. apply andb_true_iff in Hs as [Hr Hs].
    exists p. split_and!; [done|done|by apply selected_true].
  - intros (p & Hp & Hr & Hi). exists (u, p). split; [done|]. apply elem_of_map_to_list.
    apply map_lookup_filter_Some. split; [done|]. rewrite Hr. by apply selected_true.
Qed.

(** The texts of the refusals before anybody is asked. *)
Definition refusals : list string :=
  ["发送服务尚未启动"; "无条件分发已开启，请先停止接纳新设备"; "文件、目标位置或选择已变化，请先重新预探测"].

(** C18. Whom a dispatch asks to start: in every run of [dispatch], whatever happens beside it,
    either it is refused with an error and nobody is asked; or it has seen, in one section, no
    continuous distribution and that the last probe was made for exactly this source,
    destination, permission and selection, and it asks, each at most once, only selected
    machines that the application held to be ready in that section; all of those, unless the
    context of the operation was over before a machine had its turn. (That a machine is held to
    be ready is not said to come from that last probe: one that is off line during a probe keeps
    the readiness of an earlier one.) *)
Theorem dispatch_gated rounds c d tr e :
  runs (dispatch rounds c d) tr e →
  (asked "start" tr = [] ∧ ∃ x, e = Some x ∧ x ∈ refusals) ∨
  ∃ a1 a2 s meta, Section_of a1 a1 ∈ tr ∧ src a1 = Some s ∧ Section_of a2 a2 ∈ tr ∧
    (∀ x, distribution a2 = Some x → di_Active x = false) ∧
    probeKey a2 = fingerprint (make_spec s meta d) d ∧
    NoDup (asked "start" tr) ∧
    (∀ u, u ∈ asked "start" tr → ∃ p, probes a2 !! u = Some p ∧ ps_Ready p = true ∧ u ∈ d_IDs d) ∧
    ((∀ u p, probes a2 !! u = Some p → ps_Ready p = true → u ∈ d_IDs d → u ∈ asked "start" tr) ∨
     ∃ a, Section_of a a ∈ tr ∧ Err c a = true).
Proof.
  unfold dispatch, spec, look. cbn [runs fst snd]. intros (a1 & l & -> & H).
  destruct (src a1) as [s|] eqn:Hs; [|by left; destruct H as [-> ->]; split; [|eexists; split; [|left]]].
  destruct H as (meta & l1 & -> & a2 & l2 & -> & H).
  destruct (match distribution a2 with Some x => di_Active x | None => false end) eqn:Ha;
    [by left; destruct H as [-> ->]; split; [|eexists; split; [|right; left]]|].
  destruct (String.eqb_spec (probeKey a2) (fingerprint (make_spec s meta d) d)) as [Hk|]; cbn [negb] in H;
    [|by left; destruct H as [-> ->]; split; [|eexists; split; [|right; right; left]]].
  destruct H as (id & l3 & -> & t & l4 & -> & l5 & -> & call & l6 & -> & H). cbv zeta in H.
  assert (∀ ps l e, runs (Tell (cancelRemote ps) (Ret (Some canceled))) l e → asked "start" l = []) as Hstop.
  { intros ps k x Hx. eapply never_asked; [exact Hx|].
    assert (never "start" (monitor 0 c false ps)) as Hm by (apply never_monitor; set_solver). exact Hm. }
  assert (asked "start" l6 = [] ∧ (all_turns t = true ∨ ∃ a, Section_of a a ∈ l6 ∧ Err c a = true)) as [Hrest Hall].
  { destruct (all_turns t) eqn:Ht; cbn [negb] in H.
    - split; [|by left]. apply runs_unless in H as (a4 & l7 & -> & H). destruct (Err c a4).
      + exact (Hstop _ _ _ H).
      + destruct H as (a3 & l8 & -> & H). cbn. destruct (_ =? 0); [by destruct H as [-> _]|].
        eapply never_asked; [exact H|]. apply never_monitor. set_solver.
    - destruct H as (a4 & l7 & -> & Hr & H). split; [exact (Hstop _ _ _ H)|]. right. exists a4. split; [left|exact Hr]. }
  right. exists a1, a2, s, meta.
  assert (∀ r, r ∈ `t → r.1 = "start" ∧ r.2 ∈ (map_to_list (to_start d (probes a2))).*1) as Hto
    by (intros r Hr; by apply starts_in, (turn_of t)).
  match goal with |- context [asked "start" ?tr] => assert (asked "start" tr = (`t).*2) as -> end.
  { match goal with |- asked _ (?x :: ?y :: ?z :: ?v :: ?w :: ?k) = _ => change (asked "start" k = (`t).*2) end.
    rewrite asked_app, asked_requests, asked_all by (intros r Hr; by apply Hto).
    change (asked "start" (Answered _ call :: l6)) with (asked "start" l6). by rewrite Hrest, app_nil_r. }
  split_and!; try done; [set_solver|set_solver| |apply starts_distinct| |].
  - intros x Hx. by rewrite Hx in Ha.
  - intros u Hu. apply list_elem_of_fmap in Hu as (r & -> & Hr). by apply to_start_in, Hto.
  - destruct Hall as [Ht|(a & Hin & Hx)]; [left|right; exists a; split; [set_solver|done]].
    intros u p Hp Hr Hi. apply list_elem_of_fmap. exists ("start", u). split; [done|].
    apply (elem_of_Permutation_proper _ _ _ (all_turns_perm t Ht)), starts_in. split; [done|].
    apply to_start_in. by exists p.
Qed.

(** ** The key of a probe *)

Lemma leb_ltb a b : String.leb a b = true ↔ a = b ∨ String.ltb a b = true.
Proof.
  rewrite string_ltb_compare. unfold String.leb. destruct (String.compare a b) eqn:E.
  - apply String.compare_eq_iff in E. naive_solver.
  - naive_solver.
  - split; [done|]. intros [-> |]; [|done]. pose proof (String.leb_total b b) as Hb.
    unfold String.leb in Hb. rewrite E in Hb. by destruct Hb.
Qed.

#[export] Instance str_le_trans : Transitive str_le.
Proof.
  intros a b c. unfold str_le. rewrite !leb_ltb. intros [-> |H1] [-> |H2]; eauto.
  right. by eapply string_ltb_trans.
Qed.

#[export] Instance str_le_antisymm : AntiSymm (=) str_le.
Proof. intros a b. apply String.leb_antisym. Qed.

#[export] Instance str_le_total : Total str_le.
Proof. intros a b. apply String.leb_total. Qed.

Lemma sort_strings_unique l l' : Permutation l l' → sort_strings l = sort_strings l'.
Proof.
  intros Hp. apply (StronglySorted_unique str_le).
  - by apply Sorted_StronglySorted, Sorted_merge_sort; [apply _|apply _].
  - by apply Sorted_StronglySorted, Sorted_merge_sort; [apply _|apply _].
  - pose proof (merge_sort_Permutation str_le l). pose proof (merge_sort_Permutation str_le l').
    unfold sort_strings. by etrans; [eassumption|]; etrans; [exact Hp|].
Qed.

Lemma sort_strings_perm l : Permutation (sort_strings l) l.
Proof. apply merge_sort_Permutation. Qed.

Lemma fingerprint_inj s1 d1 s2 d2 :
  msg_ok s1 → msg_ok d1 → msg_ok s2 → msg_ok d2 → fingerprint s1 d1 = fingerprint s2 d2 →
  s1 = s2 ∧ sort_strings (d_IDs d1) = sort_strings (d_IDs d2) ∧ d_Target d1 = d_Target d2 ∧
  d_Token d1 = d_Token d2 ∧ d_Overwrite d1 = d_Overwrite d2.
Proof.
  intros Hs1 Hd1 Hs2 Hd2 E. unfold fingerprint in E.
  set (k1 := mkKey s1 _) in E. set (k2 := mkKey s2 _) in E.
  assert (∀ s d, msg_ok s → msg_ok d →
    msg_ok (mkKey s (mkDispatch (sort_strings (d_IDs d)) (d_Target d) (d_Token d) (d_Overwrite d)))) as Hok.
  { intros s d Hs (Hi & Ht & Hk). split; [done|]. split_and!; [|done|done]. cbn.
    by rewrite sort_strings_perm. }
  assert (Marshal k1 = Marshal k2) as Em.
  { unfold Marshal. f_equal. by rewrite <-(chars_of_string (print_json (encode k1))), E, chars_of_string. }
  assert (Some k1 = Some k2) as [= ? ? ? ? ?].
  { rewrite <-(Unmarshal_of_Marshal k1) by by apply Hok.
    rewrite <-(Unmarshal_of_Marshal k2) by by apply Hok. by rewrite Em. }
  by subst.
Qed.

(** C19. The key binds a probe to what is sent: two specifications and selections, of
    valid text and machine integers, have the same fingerprint exactly when they agree
    on every field: the source and its manifest, the destination, whether files are
    overwritten, the secret, and the machines, in any order. *)
Theorem fingerprint_binds s1 d1 s2 d2 :
  msg_ok s1 → msg_ok d1 → msg_ok s2 → msg_ok d2 →
  fingerprint s1 d1 = fingerprint s2 d2 ↔
  s1 = s2 ∧ Permutation (d_IDs d1) (d_IDs d2) ∧ d_Target d1 = d_Target d2 ∧
  d_Token d1 = d_Token d2 ∧ d_Overwrite d1 = d_Overwrite d2.
Proof.
  intros Hs1 Hd1 Hs2 Hd2. split.
  - intros E. destruct (fingerprint_inj s1 d1 s2 d2) as (-> & Hi & ?); [done..|]. split_and!; try done; [|naive_solver..].
    by rewrite <-(sort_strings_perm (d_IDs d1)), Hi, sort_strings_perm.
  - intros (-> & Hp & Ht & Hk & Ho). unfold fingerprint. rewrite Ht, Hk, Ho.
    replace (sort_strings (d_IDs d2)) with (sort_strings (d_IDs d1)); [done|].
    apply sort_strings_unique. done.
Qed.

(** ** Tasks that are followed *)










(** ** Concrete runs *)

Definition demo_meta : GetFileStatusResp := mkGetFileStatusResp "" "f" 3 1048576 1.
Definition demo_d : Dispatch := mkDispatch ["u"; "v"] "in" "secret" false.
Definition demo_source : source := mkSrc (mkSource (chars_of "/f") "f" 3 false [mkEntry "f" 3 false 420] None) 0 "g".
Definition demo_spec : TaskSpec := make_spec demo_source demo_meta demo_d.
Definition demo_ready : PeerState := mkPeerState None true "/in" [] None None.
Definition demo_running : TaskState := mkTaskState "t" "download" "running" "" "" "" no_progress.

Definition demo_app : App :=
  mkApp (mkConfig false "sender" "" "" ":0" "/w" "" true) (Some 0) (Some demo_source) None None "" None None
    {["u" := demo_ready]} (fingerprint demo_spec demo_d) "" None None None None None [] false 1 ∅ ∅ ∅ {[ 5 ]} ∅ ∅.

Lemma dispatch_gated_witness :
  ∃ tr e, runs (dispatch 1 (Some 5) demo_d) tr e ∧ asked "start" tr = ["u"] ∧
    ∃ a2 s meta, Section_of a2 a2 ∈ tr ∧ probeKey a2 = fingerprint (make_spec s meta demo_d) demo_d ∧
      ∃ p, probes a2 !! "u" = Some p ∧ ps_Ready p = true.
Proof.
  eassert (runs (dispatch 1 (Some 5) demo_d) _ (Some canceled)) as Hr.
  { exists demo_app. eexists. split; [reflexivity|]. exists demo_meta. eexists. split; [reflexivity|].
    exists demo_app. eexists. split; [reflexivity|]. exists "t". eexists. split; [reflexivity|].
    exists inhabitant. eexists. split; [reflexivity|]. eexists. split; [reflexivity|].
    exists (λ _, inr demo_running). eexists. split; [reflexivity|]. exists demo_app. eexists. split; [reflexivity|].
    eexists. split; [reflexivity|]. by split. }
  eexists. exists (Some canceled). split; [exact Hr|]. split; [vm_compute; reflexivity|].
  destruct (dispatch_gated 1 (Some 5) demo_d _ (Some canceled) Hr)
    as [[H _]|(a1 & a2 & s & meta & _ & _ & Ha & _ & Hk & _ & Hu & _)]; [by vm_compute in H|].
  exists a2, s, meta. split; [exact Ha|]. split; [exact Hk|].
  destruct (Hu "u") as (p & Hp & Hready & _); [vm_compute; left|]. by exists p.
Defined.

Lemma fingerprint_binds_witness :
  let d := mkDispatch ["v"; "u"] "in" "secret" false in
  fingerprint demo_spec demo_d = fingerprint demo_spec d ∧ demo_d ≠ d.
Proof.
  assert (msg_ok demo_spec) as Hs.
  { split; [vm_compute; reflexivity|]. split; [vm_compute; reflexivity|]. split.
    - constructor; [|constructor]. split; [vm_compute; reflexivity|]. split; vm_compute; reflexivity.
    - repeat (split; [vm_compute; reflexivity|]). vm_compute. reflexivity. }
  assert (∀ ids, Forall str_ok ids → msg_ok (mkDispatch ids "in" "secret" false)) as Hok.
  { intros ids Hi. split; [exact Hi|]. split; vm_compute; reflexivity. }
  assert (msg_ok demo_d) as Hd by (apply Hok; repeat (constructor; [vm_compute; reflexivity|]); constructor).
  assert (msg_ok (mkDispatch ["v"; "u"] "in" "secret" false)) as Hd'
    by (apply Hok; repeat (constructor; [vm_compute; reflexivity|]); constructor).
  split; [|done]. apply (fingerprint_binds _ _ _ _ Hs Hd Hs Hd'). split_and!; try done. by apply Permutation_swap.
Defined.

