(* ===== verification/Web.v ===== *)
(** * The web application: modes

    internal/webui/sender.go, discovery.go and the modes of app.go: starting and stopping
    the sender's service and the receiver's agent, each under its mutex, with the waits for what
    they replace or stop, the discovery loop and the choice of a mode, as programs on the state
    of file App. *)

From S2P Require Import Prelude Text Json Model Session Transfer Prepare Tasks App Dispatch.
Local Open Scope string_scope.
Local Open Scope Z_scope.

(** ** The sender *)

(** [hubMu] is held over all of it. The session has its number, and its goroutines, from
    [Start] on; it is stopped if the context is over meanwhile.
    internal/webui/sender.go:13-57 [ensureSender] *)
Definition ensureSender (x : context) (listen : string) : prog :=
  with_lock hubMu (look (λ a, (closed a, mode a, hub a)) (λ '(c, m, h),
    if (c : bool) then Ret (Some canceled) else
    if String.eqb m "receiver" then Ret (Some "当前实例是接收模式") else
    match h with
    | Some _ => Ret None
    | None =>
        let listen := if is_empty listen then ":0" else listen in
        Ask bool (λ started, if negb started then Ret (Some "listen") else
        Sect Z (λ a, (next_id a, work (next_id a) Sending (fresh a))) (λ n,
        Ask bool (λ published, unless x (stop_session n Sending (Ret (Some canceled)))
          (act (λ a,
            let c := config a in
            let note := "发送服务已就绪：可以直接执行命令，或选择文件分发" in
            set_notice (if (published : bool) then note else (note +:+ "；自动发现不可用，可手动直连"))
              (set_config (mkConfig (cf_Discover c) "sender" (cf_File c) (cf_SenderAddr c) listen
                             (cf_WorkDir c) (cf_Token c) (cf_AllowCommands c))
                 (set_hub (Some n) a)))
            (Ret None)))))
    end)).

(** A peer after the source has changed. internal/webui/app.go:271-276 [startSource] *)
Definition unprobed (p : PeerState) : PeerState :=
  mkPeerState (ps_Info p) false "" [] (ps_Task p) (ps_Command p).

(** [Prepare], opening the file, [BeSendMain] and the fresh identity are asked.
    internal/webui/app.go:231-284 [startSource] *)
Definition startSource (x : context) (path listen : string) : prog :=
  look (λ a, (mode a, src a)) (λ '(m, s),
    if String.eqb m "receiver" then Ret (Some "当前实例是接收模式，不能同时启动分发服务") else
    match s with
    | Some _ => Ret (Some "请先停止当前发送服务")
    | None =>
        Ask (option Source) (λ data,
        match data with
        | None => Ret (Some "prepare")
        | Some data =>
            Ask bool (λ opened, if negb opened then Ret (Some "open") else
            andthen (ensureSender x listen)
              (look hub (λ h,
                match h with
                | None => Ret (Some "no session")
                | Some ses =>
                    Ask bool (λ sending, if negb sending then Ret (Some "send") else
                    Ask string (λ generation, unless x (Ret (Some canceled))
                      (act (λ a,
                        let c := config a in
                        set_notice "文件已准备，接收端可参与分发，也可独立执行命令"
                          (set_config (mkConfig (cf_Discover c) "sender" path (cf_SenderAddr c) listen
                                         (cf_WorkDir c) (cf_Token c) (cf_AllowCommands c))
                             (set_probes (unprobed <$> probes a) ""
                                (set_src (Some (mkSrc data ses generation)) a))))
                        (Ret None))))
                end)))
        end)
    end).

(** internal/webui/sender.go:58-69 [stopFile] *)
Definition stopFile : prog :=
  seq stopDistribution (act (λ a, set_probes (probes a) "" (set_src None a)) (Ret None)).

(** ** The receiver *)

(** Once the address is known: the working directory, the session and the sender's answers
    are asked. The agent and its session have their numbers when they are made; the agent is
    closed, and waited for, when anything fails or the context is over; its watch of the centre
    starts once it is the application's. internal/webui/app.go:304-364 [startAgent] *)
Definition startAgent_at (x : context) (c : Config) (addr : string) : prog :=
  unless x (Ret (Some canceled)) (
  look (λ a, cf_WorkDir (config a)) (λ baseline,
  Ask (option string) (λ root,
    match root with
    | None => Ret (Some "程序工作目录不可用")
    | Some root =>
        Sect Z (λ a, (next_id a, fresh (fresh a))) (λ n,
        let fail e := close_agent n (Ret (Some e)) in
        Ask bool (λ started, if negb started then fail "listen" else
        act (work (n + 1) Serving) (
        Ask bool (λ answered, if negb answered then fail "连接发送端失败" else
        Ask bool (λ registered, if negb registered then fail "register" else
        unless x (fail canceled) (
          act (λ a,
            let f := config a in
            set_config (mkConfig (cf_Discover f) "receiver" (cf_File f) addr (cf_Listen f) root
                          (cf_Token c) (cf_AllowCommands c))
              (set_agent (Some n) a))
            (act (work n Watching) (Ret None))))))))
    end))).

(** [receiverMu] is held over all of it. The previous agent goes first, and is waited for; the
    lookup is asked. internal/webui/app.go:285-364 [startAgent] *)
Definition startAgent (x : context) (c : Config) : prog :=
  with_lock receiverMu (
  Sect (bool * option Z) (λ a, if String.eqb (mode a) "sender" then ((false, None), a)
                               else ((true, agent_of a), set_agent None a))
    (λ '(allowed, previous),
    if negb allowed then Ret (Some "当前实例是分发模式，不能同时启动接收服务") else
    close_opt previous (
    if cf_Discover c || is_empty (cf_SenderAddr c)
    then Ask (option string) (λ found,
           match found with
           | None => Ret (Some "自动发现失败，请填写发送端地址")
           | Some addr => startAgent_at x c addr
           end)
    else startAgent_at x c (cf_SenderAddr c)))).

(** It cancels the loop and waits for it. internal/webui/discovery.go:42-57 [stopDiscovery] *)
Definition stopDiscovery (k : prog) : prog :=
  Sect (option Z) (λ a, (discovery a, set_discovery None (discoveryMessage a) (loops a) a)) (λ d,
    let rest := act (λ a, set_discovery (discovery a) "自动发现已停止" (loops a) a) k in
    match d with
    | Some n => act (cancel_ctx n) (Await (LoopGone n) rest)
    | None => rest
    end).

(** internal/webui/discovery.go:12-41 [startDiscovery] *)
Definition startDiscovery (c : Config) : prog :=
  look (λ a, (closed a, mode a)) (λ '(cl, m),
    if (cl : bool) then Ret (Some canceled) else
    if String.eqb m "sender" then Ret (Some "当前实例是分发模式") else
    stopDiscovery
      (Sect bool (λ a,
         if closed a then (false, a) else
         let f := config a in
         let n := next_id a in
         (true, set_discovery (Some n) "正在自动发现发送端…" (<[n := c]> (loops a))
            (set_config (mkConfig (cf_Discover f) "receiver" (cf_File f) (cf_SenderAddr f) (cf_Listen f)
                           (cf_WorkDir f) (cf_Token c) (cf_AllowCommands c)) (fresh a))))
         (λ ok, Ret (if (ok : bool) then None else Some canceled)))).

(** internal/webui/discovery.go:58-58 [discoveryNote] *)
Definition discoveryNote (note : string) (k : prog) : prog :=
  act (λ a, set_discovery (discovery a) note (loops a) a) k.

Definition with_sender (addr : string) (c : Config) : Config :=
  mkConfig false (cf_Mode c) (cf_File c) addr (cf_Listen c) (cf_WorkDir c) (cf_Token c) (cf_AllowCommands c).

(** The loop ends and closes its channel. *)
Definition loop_end (n : Z) : prog :=
  act (λ a, set_discovery (discovery a) (discoveryMessage a) (delete n (loops a)) a) (Ret None).

(** [rounds] rounds, then it waits for its context; whether the agent is connected, the
    lookup and the health check are asked. internal/webui/discovery.go:71-129 [discoverLoop] *)
Fixpoint discover_rounds (rounds : nat) (n : Z) (c : Config) : prog :=
  let x := Some n in
  match rounds with
  | O => Await (Over x) (loop_end n)
  | S rounds' =>
      let again := unless x (loop_end n) (discover_rounds rounds' n c) in
      unless x (loop_end n) (
      look agent_of (λ current,
      Ask bool (λ live,
        let connected := match current with Some _ => (live : bool) | None => false end in
        let search :=
          Ask (option string) (λ addr, unless x (loop_end n) (
            if connected then
              Ask bool (λ healthy, unless x (loop_end n)
                (discoveryNote (if (healthy : bool)
                               then match addr with
                                    | None => "已保持当前连接，持续轮询发现发送端"
                                    | Some _ => "已连接，持续检测发送端在线状态" end
                               else "连接已失效，将自动重新发现") again))
            else
              match addr with
              | None => discoveryNote "等待发送端上线；2 秒后继续发现。" again
              | Some addr =>
                  bind (startAgent x (with_sender addr c)) (λ e,
                    match e with
                    | Some _ => unless x (loop_end n) (discoveryNote "连接暂未成功，将自动重试" again)
                    | None => discoveryNote ("已自动连接 " +:+ addr +:+ "；持续发现，断开后自动重连") again
                    end)
              end)) in
        if connected then search else discoveryNote "正在搜索发送端；找到后将自动连接…" search)))
  end.

(** internal/webui/discovery.go:59-129 [discoverLoop] *)
Definition discoverLoop (rounds : nat) (n : Z) (c : Config) : prog :=
  look agent_of (λ initial,
    match initial with
    | None =>
        if negb (is_empty (cf_SenderAddr c)) && negb (cf_Discover c) then
          bind (startAgent (Some n) c) (λ e,
            match e with
            | Some _ => unless (Some n) (discover_rounds rounds n c)
                          (discoveryNote "直连未成功，将继续自动发现" (discover_rounds rounds n c))
            | None => discover_rounds rounds n c
            end)
        else discover_rounds rounds n c
    | Some _ => discover_rounds rounds n c
    end).

(** ** Modes and roles *)

(** A sender's session is stopped and waited for. A receiver's agent too, once no discovery loop
    is left and with [receiverMu] held; of one that was there the last state of its tasks,
    which is asked, is kept. internal/webui/app.go:365-411 [stopRole] *)
Definition stopRole (role : string) : prog :=
  if String.eqb role "sender" then
    seq stopDistribution
      (Sect (option Z) (λ a, (hub a, set_hub None (set_src None (set_probes ∅ "" a))))
         (λ h, stop_opt h (Ret None)))
  else
    stopDiscovery (with_lock receiverMu (
      Sect (option Z) (λ a, (agent_of a, set_agent None a)) (λ r,
      match r with
      | None => Ret None
      | Some n => close_agent n
          (Ask (TaskState * TaskState) (λ tasks, act (set_lastReceiver (Some tasks)) (Ret None)))
      end))).

(** internal/webui/app.go:706-728 [selectMode] *)
Definition selectMode (m : string) : prog :=
  if negb (String.eqb m "" || String.eqb m "sender" || String.eqb m "receiver")
  then Ret (Some "请选择分发或接收模式") else
  Sect (option Config) (λ a,
    if bool_decide (is_Some (hub a)) || bool_decide (is_Some (src a)) || bool_decide (is_Some (agent_of a))
       || bool_decide (is_Some (discovery a))
    then (None, a)
    else let a' := set_notice "" (set_probes ∅ "" (set_config (set_Mode m (config a)) a)) in
         (Some (config a'), a'))
    (λ c, match c with
          | None => Ret (Some "请先停止当前服务，再切换模式")
          | Some c =>
              if String.eqb m "receiver" then startDiscovery c
              else if String.eqb m "sender" then ensureSender None (cf_Listen c)
              else Ret None
          end).
