(* ===== verification/Operations.v ===== *)
(** * The web application: operations

    internal/webui/app.go, tasks.go and http.go: the one operation and the one command that
    run at a time and how they begin, are cancelled and end, the actions of the user,
    closing the application, and all of it as a transition system beside the discovery
    loops, the loops of distribution and the goroutines of agents and sessions. *)

From S2P Require Import Prelude Text Json Model Session Transfer Prepare Tasks App Dispatch Web.
Local Open Scope string_scope.
Local Open Scope Z_scope.

(** ** Operations *)

Definition is_running (o : option Operation) : bool :=
  match o with Some o => String.eqb (op_Status o) "running" | None => false end.

(** [id] and [now] are the fresh key and the clock. The number is that of its context and
    of the channel it closes. internal/webui/app.go:174-188 [begin] *)
Definition begin (kind id : string) (now : Z) (a : App) : (string + Z) * App :=
  if closed a then (inl "use of closed network connection", a) else
  if is_running (op a) then (inl "已有操作正在执行，可先取消", a) else
  let n := next_id a in
  (inr n, set_doing ({[n]} ∪ doing a)
            (set_op (Some (mkOperation id kind "running" "正在处理…" now)) (Some n) (fresh a))).

(** internal/webui/tasks.go:12-25 [beginCommand] *)
Definition beginCommand (id : string) (now : Z) (a : App) : (string + Z) * App :=
  if closed a then (inl canceled, a) else
  if is_running (commandOp a) then (inl "已有命令正在执行", a) else
  let n := next_id a in
  (inr n, set_doing ({[n]} ∪ doing a)
            (set_commandOp (Some (mkOperation id "command" "running" "正在执行命令" now)) (Some n) (fresh a))).

(** What it has become with the error [e]; [wraps]: an error of the outside that is
    [context.Canceled] by [errors.Is] under another text.
    internal/webui/app.go:195-204 [begin] *)
Definition ended (done : string) (e : option string) (wraps : bool) (o : Operation) : Operation :=
  let '(status, message) :=
    match e with
    | None => ("completed", done)
    | Some m => (if String.eqb m canceled || wraps then "cancelled" else "failed", m)
    end in
  mkOperation (op_ID o) (op_Kind o) status message (op_Started o).

(** The deferred calls, which follow the unlock: its context is over, its channel is closed. They
    touch nothing that a section reads but the channel, so that they are one step with it. *)
Definition leave (n : Z) (a : App) : App := set_doing (doing a ∖ {[n]}) (cancel_ctx n a).

(** internal/webui/app.go:193-205 [begin] *)
Definition end_op (n : Z) (e : option string) (wraps : bool) (a : App) : App :=
  leave n (set_op (ended "操作完成" e wraps <$> op a) (opDone a) a).

(** internal/webui/tasks.go:30-39 [beginCommand] *)
Definition end_command (n : Z) (e : option string) (wraps : bool) (a : App) : App :=
  leave n (set_commandOp (ended "命令执行完成" e wraps <$> commandOp a) (commandDone a) a).

Definition op_end (fin : Z → option string → bool → App → App) (n : Z) (e : option string) : prog :=
  Ask bool (λ wraps, act (fin n e wraps) (Ret e)).

(** internal/webui/app.go:189-205 [begin] *)
Definition operation (n : Z) (fn : context → prog) : prog := bind (fn (Some n)) (op_end end_op n).

(** internal/webui/tasks.go:26-40 [beginCommand] *)
Definition command_operation (n : Z) (fn : context → prog) : prog := bind (fn (Some n)) (op_end end_command n).

Definition cancel_opt (n : option Z) (a : App) : App := match n with Some n => cancel_ctx n a | None => a end.

(** The agent's task, or command, is cancelled too ([Agent]).
    internal/webui/app.go:208-230 [cancel] *)
Definition cancel (command : bool) (a : App) : App :=
  cancel_opt (if command then commandDone a else opDone a) a.

(** An upload stays until the application is closed, unless it is.
    internal/webui/http.go:421-429 [upload] *)
Definition keep_upload (temp : string) (a : App) : option App :=
  if closed a then None else Some (set_uploads (uploads a ++ [temp])%list a).

(** ** Closing *)

Definition wait (n : option Z) (k : prog) : prog :=
  match n with Some n => Await (WorkDone n) k | None => k end.

(** The agent is closed, the sender's session stopped; each is waited for. What closes the
    source waits for nothing. internal/webui/app.go:147-173 [Close] *)
Definition close_rest : prog :=
  seq stopDistribution
    (stopDiscovery (Sect (option Z * option Z * list string)
      (λ a, ((agent_of a, hub a, uploads a), set_src None (set_agent None (set_hub None a))))
      (λ '(r, h, dirs), close_opt r (stop_opt h (Tell (List.map (λ p, ("RemoveAll", p)) dirs) (Ret None)))))).

(** internal/webui/app.go:124-173 [Close] *)
Definition Close : prog :=
  Sect (option (option Z * option Z)) (λ a,
    if closed a then (None, a)
    else (Some (opDone a, commandDone a),
          cancel_opt (commandDone a) (cancel_opt (opDone a) (set_closed true a))))
    (λ r, match r with
          | None => Ret None
          | Some (done, commandDone) => wait done (wait commandDone close_rest)
          end).

(** ** Actions *)

(** An operation with its kind, or a start beside the operations.
    internal/webui/app.go:677-696 [AutoStart] *)
Definition AutoStart (c : Config) : option (string * (context → prog) + prog) :=
  if String.eqb (cf_Mode c) "sender" then
    Some (inl ("sender.start", λ x,
      andthen (ensureSender x (cf_Listen c))
        (if negb (is_empty (cf_File c)) then startSource x (cf_File c) (cf_Listen c) else Ret None)))
  else if String.eqb (cf_Mode c) "receiver" then Some (inr (startDiscovery c))
  else None.

(** internal/webui/http.go:133-141 [actionRequest] *)
Record actionRequest : Type := mkAction {
  ar_Mode : string; ar_Action : string; ar_Path : string; ar_Listen : string; ar_Config : Config;
  ar_Dispatch : Dispatch; ar_Command : Command;
}.

(** [None]: an unknown action. Tasks are followed for [rounds] rounds.
    internal/webui/http.go:143-196 [action] *)
Definition action (rounds : nat) (r : actionRequest) : option (context → prog) :=
  let named s := String.eqb (ar_Action r) s in
  if named "mode.select" then Some (λ _, selectMode (ar_Mode r))
  else if named "mode.reset" then Some (λ _, selectMode "")
  else if named "sender.start" then
    let listen := if is_empty (ar_Listen r) then ":0" else ar_Listen r in
    Some (λ x, if is_empty (ar_Path r) then ensureSender x listen else startSource x (ar_Path r) listen)
  else if named "receiver.start" then Some (λ _, startDiscovery (ar_Config r))
  else if named "receiver.manual" then
    let c := with_sender (cf_SenderAddr (ar_Config r)) (ar_Config r) in
    Some (λ x, stopDiscovery (andthen (startAgent x c) (startDiscovery c)))
  else if named "file.stop" then Some (λ _, stopFile)
  else if named "dispatch.auto" then Some (λ _, startDistribution (ar_Dispatch r))
  else if named "dispatch.stop" then Some (λ _, pauseDistribution)
  else if named "sender.stop" then Some (λ _, stopRole "sender")
  else if named "receiver.stop" then Some (λ _, stopRole "receiver")
  else if named "probe" then Some (λ x, probe x (ar_Dispatch r))
  else if named "dispatch" then Some (λ x, dispatch rounds x (ar_Dispatch r))
  else if named "command" then Some (λ x, command rounds x (ar_Dispatch r))
  else None.

(** ** The application as a transition system *)

(** The goroutines of the operation, of the command, of [AutoStart] while it starts a
    receiver and of [Close], each [Ret] when there is none; [threads]: the discovery
    loops; [feeders]: the loops of distribution. *)
Record World : Type := mkWorld {
  w_app : App; w_main : prog; w_cmd : prog; w_auto : prog; w_close : prog;
  w_threads : gmap Z prog; w_feeders : gmap Z prog;
}.

Definition idle : prog := Ret None.
Definition is_ret (p : prog) : Prop := ∃ e, p = Ret e.

(** One step of a program. *)
Definition prog_step (a : App) (p : prog) (a' : App) (p' : prog) : Prop :=
  match p with
  | Ret _ => False
  | Sect A f k => a' = (f a).2 ∧ p' = k (f a).1
  | Ask A k => a' = a ∧ ∃ x, p' = k x
  | Tell l k => a' = a ∧ p' = k
  | Await w k => a' = a ∧ ready w a = true ∧ p' = k
  | Mutex m lock k => (lock = true → m ∉ locks a) ∧ a' = set_lock m lock a ∧ p' = k
  end.

(** Who makes a step. *)
Inductive process : Type :=
| User | Main | Cmd | Auto | Closer | Thread (n : Z) | Feeder (n : Z) | Group (n : Z) (g : group).

(** The user, who acts, cancels, uploads and closes, at any time, and the outside, which gives an
    agent that serves and is not told to stop something to do, and ends groups of goroutines when
    it likes; a goroutine that goes on; a loop that starts, when [loops] or [feeds] have it, or
    is gone; a group of goroutines that was told to end and does. Once the application is closed
    [Close] returns at once. *)
Inductive app_step (w : World) : process → World → Prop :=
| W_begin rounds r id now fn n a' :
    action rounds r = Some fn → ar_Action r ≠ "command" → begin (ar_Action r) id now (w_app w) = (inr n, a') →
    app_step w User (mkWorld a' (operation n fn) (w_cmd w) (w_auto w) (w_close w) (w_threads w) (w_feeders w))
| W_begin_command rounds r id now fn n a' :
    action rounds r = Some fn → ar_Action r = "command" → beginCommand id now (w_app w) = (inr n, a') →
    app_step w User (mkWorld a' (w_main w) (command_operation n fn) (w_auto w) (w_close w) (w_threads w) (w_feeders w))
| W_cancel command :
    app_step w User (mkWorld (cancel command (w_app w)) (w_main w) (w_cmd w) (w_auto w) (w_close w)
                       (w_threads w) (w_feeders w))
| W_upload temp a' :
    keep_upload temp (w_app w) = Some a' →
    app_step w User (mkWorld a' (w_main w) (w_cmd w) (w_auto w) (w_close w) (w_threads w) (w_feeders w))
| W_close :
    closed (w_app w) = false → is_ret (w_close w) →
    app_step w User (mkWorld (w_app w) (w_main w) (w_cmd w) (w_auto w) Close (w_threads w) (w_feeders w))
| W_job n :
    (n + 1, Serving) ∈ busy (w_app w) → n ∉ cancelled (w_app w) →
    app_step w User (mkWorld (work n Jobs (w_app w)) (w_main w) (w_cmd w) (w_auto w) (w_close w)
                       (w_threads w) (w_feeders w))
| W_left n g :
    app_step w User (mkWorld (rest n g (w_app w)) (w_main w) (w_cmd w) (w_auto w) (w_close w)
                       (w_threads w) (w_feeders w))
| W_group n g :
    (n, g) ∈ busy (w_app w) → n ∈ cancelled (w_app w) →
    app_step w (Group n g) (mkWorld (rest n g (w_app w)) (w_main w) (w_cmd w) (w_auto w) (w_close w)
                              (w_threads w) (w_feeders w))
| W_main a' p' :
    prog_step (w_app w) (w_main w) a' p' →
    app_step w Main (mkWorld a' p' (w_cmd w) (w_auto w) (w_close w) (w_threads w) (w_feeders w))
| W_cmd a' p' :
    prog_step (w_app w) (w_cmd w) a' p' →
    app_step w Cmd (mkWorld a' (w_main w) p' (w_auto w) (w_close w) (w_threads w) (w_feeders w))
| W_auto a' p' :
    prog_step (w_app w) (w_auto w) a' p' →
    app_step w Auto (mkWorld a' (w_main w) (w_cmd w) p' (w_close w) (w_threads w) (w_feeders w))
| W_closer a' p' :
    prog_step (w_app w) (w_close w) a' p' →
    app_step w Closer (mkWorld a' (w_main w) (w_cmd w) (w_auto w) p' (w_threads w) (w_feeders w))
| W_spawn n c rounds :
    loops (w_app w) !! n = Some c → w_threads w !! n = None →
    app_step w (Thread n) (mkWorld (w_app w) (w_main w) (w_cmd w) (w_auto w) (w_close w)
                             (<[n := discoverLoop rounds n c]> (w_threads w)) (w_feeders w))
| W_thread n p a' p' :
    w_threads w !! n = Some p → prog_step (w_app w) p a' p' →
    app_step w (Thread n) (mkWorld a' (w_main w) (w_cmd w) (w_auto w) (w_close w) (<[n := p']> (w_threads w))
                             (w_feeders w))
| W_thread_end n e :
    w_threads w !! n = Some (Ret e) →
    app_step w (Thread n) (mkWorld (w_app w) (w_main w) (w_cmd w) (w_auto w) (w_close w) (delete n (w_threads w))
                             (w_feeders w))
| W_feed n f rounds :
    feeds (w_app w) !! n = Some f → w_feeders w !! n = None →
    app_step w (Feeder n) (mkWorld (w_app w) (w_main w) (w_cmd w) (w_auto w) (w_close w) (w_threads w)
                             (<[n := distributionLoop rounds n f ∅]> (w_feeders w)))
| W_feeder n p a' p' :
    w_feeders w !! n = Some p → prog_step (w_app w) p a' p' →
    app_step w (Feeder n) (mkWorld a' (w_main w) (w_cmd w) (w_auto w) (w_close w) (w_threads w)
                             (<[n := p']> (w_feeders w)))
| W_feeder_end n e :
    w_feeders w !! n = Some (Ret e) →
    app_step w (Feeder n) (mkWorld (w_app w) (w_main w) (w_cmd w) (w_auto w) (w_close w) (w_threads w)
                             (delete n (w_feeders w))).

Definition step (w w' : World) : Prop := ∃ P, app_step w P w'.

Definition fresh_world (a : App) : World := mkWorld a idle idle idle idle ∅ ∅.

(** The program [p] alone, until it ends. *)
Inductive alone : App → prog → App → option string → Prop :=
| alone_ret a e : alone a (Ret e) a e
| alone_step a p a' p' b e : prog_step a p a' p' → alone a' p' b e → alone a p b e.

(** After [AutoStart], with the configuration the application was made with: nothing to
    do, an operation begun, or a discovery loop started before anything else happens. *)
Inductive started (a : App) : World → Prop :=
| S_idle : AutoStart (config a) = None → started a (fresh_world a)
| S_operation kind fn id now n a' :
    AutoStart (config a) = Some (inl (kind, fn)) → begin kind id now a = (inr n, a') →
    started a (mkWorld a' (operation n fn) idle idle idle ∅ ∅)
| S_discovery p b e :
    AutoStart (config a) = Some (inr p) → alone a p b e → started a (fresh_world b).
