(* ===== verification/Feed.v ===== *)
(** * The web application: whom the continuous distribution asks

    internal/webui/distribution.go ([distributionLoop], file Dispatch): the requests a loop
    sends over all its rounds, in whatever order its goroutines send those of a round, whatever
    the state of the application it meets, the machines that are on line and what they answer. *)

From S2P Require Import Prelude Text Float64 Json Model Session Transfer Prepare Tasks App Dispatch Operations.
Local Open Scope string_scope.
Local Open Scope Z_scope.
Local Open Scope list_scope.

(** ** The requests of a program *)

Abbreviation requests := (list (string * string)).

(** The requests a step sends. *)
Definition told (p : prog) : requests := match p with Tell l _ => l | _ => [] end.

(** The requests a program sends in some steps, in states with [φ], which others may change
    between the steps. *)
Inductive emits (φ : App → Prop) : prog → requests → prog → Prop :=
| em_none p : emits φ p [] p
| em_step a a' p p' l q : φ a → prog_step a p a' p' → emits φ p' l q → emits φ p (told p ++ l) q.

(** After the requests [h], all that a program can send keeps [Q] of the history. *)
Fixpoint says (φ : App → Prop) (Q : requests → Prop) (h : requests) (p : prog) : Prop :=
  match p with
  | Ret _ => True
  | Sect A f k => ∀ a, φ a → says φ Q h (k (f a).1)
  | Ask A k => ∀ x, says φ Q h (k x)
  | Tell l k => Q (h ++ l) ∧ says φ Q (h ++ l) k
  | Await w k => ∀ a, φ a → ready w a = true → says φ Q h k
  | Mutex m lock k => says φ Q h k
  end.

Lemma says_emits φ Q h p l q : says φ Q h p → Q h → emits φ p l q → Q (h ++ l).
Proof.
  intros Hs HQ He. revert h Hs HQ. induction He as [p|a a' p p' l q Ha Hstep He IH]; intros h Hs HQ.
  - by rewrite app_nil_r.
  - rewrite app_assoc. destruct p as [e|A f k|A k|r k|w k|m lock k]; cbn in Hs, Hstep; [done|..]; cbn [told].
    + destruct Hstep as [-> ->]. rewrite app_nil_r. apply IH; [by apply Hs|done].
    + destruct Hstep as [-> [x ->]]. rewrite app_nil_r. apply IH; [apply Hs|done].
    + destruct Hstep as [-> ->], Hs. by apply IH.
    + destruct Hstep as (-> & Hc & ->). rewrite app_nil_r. apply IH; [by eapply Hs|done].
    + destruct Hstep as (_ & -> & ->). rewrite app_nil_r. by apply IH.
Qed.

(** A step that sends nothing; one that does. *)
Lemma em_silent (φ : App → Prop) a a' p p' l q :
  told p = [] → φ a → prog_step a p a' p' → emits φ p' l q → emits φ p l q.
Proof. intros Ht Ha Hs He. pose proof (em_step _ _ _ _ _ _ _ Ha Hs He) as H. by rewrite Ht in H. Qed.

Lemma em_tell (φ : App → Prop) a r k l q : φ a → emits φ k l q → emits φ (Tell r k) (r ++ l) q.
Proof. intros Ha. by apply (em_step _ a a). Qed.

Lemma emits_weaken φ (ψ : App → Prop) p l q : (∀ a, φ a → ψ a) → emits φ p l q → emits ψ p l q.
Proof. intros H. induction 1; econstructor; eauto. Qed.

Section says.
Context (φ : App → Prop) (Q : requests → Prop) (h : requests).

Lemma says_act f k : says φ Q h k → says φ Q h (act f k).
Proof. by intros Hk a _. Qed.

Lemma says_look A (f : App → A) k : (∀ a, φ a → says φ Q h (k (f a))) → says φ Q h (look f k).
Proof. done. Qed.

Lemma says_unless c stop go : says φ Q h stop → says φ Q h go → says φ Q h (unless c stop go).
Proof. intros Hs Hg a _. by destruct (Err c a). Qed.

Lemma says_store_all l command k : says φ Q h k → says φ Q h (store_all l command k).
Proof. intros Hk. induction l as [|p l IH]; [done|]. by intros a _. Qed.

Lemma says_feed_end n : says φ Q h (feed_end n).
Proof. done. Qed.
End says.

(** ** One machine *)

(** All that a machine is sent: nothing; a probe; a probe, a start, then requests for its state. *)
Definition history (u : string) (l : requests) : Prop :=
  l = [] ∨ l = [("probe", u)] ∨ ∃ k, l = ("probe", u) :: ("start", u) :: replicate k ("status", u).

Definition begun (u : string) (l : requests) : Prop :=
  ∃ k, l = ("probe", u) :: ("start", u) :: replicate k ("status", u).

Definition fed (h : requests) : Prop := ∀ u, history u (to_machine u h).

(** A loop with these members after these requests. *)
Record feeding (M : gmap string PeerState) (h : requests) : Prop := {
  fi_known u : M !! u = None → to_machine u h = [];
  fi_running u p : M !! u = Some p → running (ps_Task p) = true → begun u (to_machine u h);
  fi_fed : fed h;
}.

Lemma to_machine_app u h l : to_machine u (h ++ l) = to_machine u h ++ to_machine u l.
Proof. apply filter_app. Qed.

(** What is sent before another of its requests. *)
Lemma to_machine_split u m l1 l2 :
  to_machine u (l1 ++ (m, u) :: l2) = to_machine u l1 ++ (m, u) :: to_machine u l2.
Proof. rewrite to_machine_app. f_equal. unfold to_machine. by rewrite filter_cons_True. Qed.

Lemma to_machine_in u r l : r ∈ to_machine u l ↔ r.2 = u ∧ r ∈ l.
Proof. unfold to_machine. by rewrite list_elem_of_filter. Qed.

Lemma history_start u l1 l2 : history u (l1 ++ ("start", u) :: l2) → ("probe", u) ∈ l1.
Proof.
  intros [E|[E|[k E]]]; destruct l1 as [|r l1]; try done; injection E as -> E; [by destruct l1|by left].
Qed.

Lemma history_status u l1 l2 : history u (l1 ++ ("status", u) :: l2) → ("start", u) ∈ l1.
Proof.
  intros [E|[E|[k E]]]; destruct l1 as [|r l1]; try done; injection E as -> E; [by destruct l1|].
  destruct l1 as [|r l1]; [done|]. injection E as -> _. right. left.
Qed.

Lemma history_once u l r :
  history u l → r = ("probe", u) ∨ r = ("start", u) → (length (filter (λ x, x = r) l) ≤ 1)%nat.
Proof.
  assert (∀ k, r.1 ≠ "status" → filter (λ x, x = r) (replicate k ("status", u)) = []) as Hrep.
  { intros k Hr. induction k as [|k IH]; [done|]. cbn [replicate]. rewrite filter_cons_False; [done|]. by intros <-. }
  intros [-> |[-> |[k ->]]] [-> | ->]; cbn; repeat (case_decide; cbn); rewrite ?Hrep by done; cbn; try lia; done.
Qed.

(** The requests to one machine are found among them all. *)
Lemma once_in u l r : r.2 = u → filter (λ x, x = r) l = filter (λ x, x = r) (to_machine u l).
Proof. intros Hr. unfold to_machine. rewrite list_filter_filter_l; [done|]. by intros x ->. Qed.

(** ** One round *)

Lemma feed_todo_id accepting M i seen p : feed_todo accepting M i = Some (seen, p) → ps_UUID p = pi_UUID i.
Proof. unfold feed_todo. repeat case_match; by intros [= <- <-]. Qed.

Lemma feed_peer_id id pr st ss seen p : ps_UUID (feed_peer id pr st ss seen p) = ps_UUID p.
Proof. unfold feed_peer. by repeat case_match. Qed.

(** What there is to do with a machine: nothing, a request for the state of a member that runs,
    or a newcomer's probe. *)
Lemma feed_todo_cases accepting M i :
  match feed_todo accepting M i with
  | None => True
  | Some (true, _) => ∃ p, M !! pi_UUID i = Some p ∧ running (ps_Task p) = true
  | Some (false, _) => M !! pi_UUID i = None ∧ accepting = true
  end.
Proof.
  unfold feed_todo. destruct (pi_Self i); [done|]. destruct (M !! pi_UUID i) as [p|].
  - destruct (running (ps_Task p)) eqn:E; [|done]. by exists p.
  - by destruct accepting.
Qed.

Lemma prefix_cases {A} (l : list A) x k : l `prefix_of` x :: k → l = [] ∨ ∃ l', l = x :: l' ∧ l' `prefix_of` k.
Proof. destruct l as [|y l]; [by left|]. intros H. right. exists l. split; [f_equal; by eapply prefix_cons_inv_1|by eapply prefix_cons_inv_2]. Qed.

(** The members a round does not know of are not sent anything. *)
Lemma schedule_other accepting M an on (sc : schedule accepting M an on) u :
  (∀ i, i ∈ on_peers on → pi_UUID i = u → feed_todo accepting M i = None) → to_machine u (sd_sent sc) = [].
Proof.
  intros Hn. destruct (decide (u ∈ pi_UUID <$> on_peers on)) as [(i & -> & Hi)%list_elem_of_fmap|Ho].
  - pose proof (sd_each _ _ _ _ sc i Hi) as Hp. unfold machine_requests in Hp. rewrite Hn in Hp by done.
    by apply prefix_nil_inv in Hp.
  - apply to_machine_other. intros r Hr <-. apply Ho. destruct (sd_known _ _ _ _ sc r Hr) as (i & ? & ?).
    apply list_elem_of_fmap. by exists i.
Qed.

Lemma fed_round accepting M an on (sc : schedule accepting M an on) h : feeding M h → fed (h ++ sd_sent sc).
Proof.
  intros [Hk Hr Hf] u. rewrite to_machine_app.
  destruct (decide (u ∈ pi_UUID <$> on_peers on)) as [(i & -> & Hi)%list_elem_of_fmap|Ho].
  2:{ rewrite schedule_other, app_nil_r; [apply Hf|]. intros i ? <-. destruct Ho. apply list_elem_of_fmap. by exists i. }
  pose proof (sd_each _ _ _ _ sc i Hi) as Hp. unfold machine_requests in Hp.
  pose proof (feed_todo_cases accepting M i) as Hc.
  destruct (feed_todo accepting M i) as [[[|] p]|]; cbn [feed_requests] in Hp.
  - destruct Hc as (q & Hq & Hrun). destruct (Hr _ _ Hq Hrun) as [k E]. right. right.
    apply prefix_cases in Hp as [-> |(l & -> & ->%prefix_nil_inv)].
    + rewrite app_nil_r. by exists k.
    + exists (S k). by rewrite E, replicate_S_end.
  - destruct Hc as [Hm _]. rewrite (Hk _ Hm). cbn [app].
    apply prefix_cases in Hp as [-> |(l & -> & Hp)]; [by left|right].
    destruct (an_probe an i); [apply prefix_nil_inv in Hp as ->; by left|].
    apply prefix_cases in Hp as [-> |(l' & -> & ->%prefix_nil_inv)]; [by left|right; by exists O].
  - apply prefix_nil_inv in Hp as ->. rewrite app_nil_r. apply Hf.
Qed.

(** The members after a round whose machines have all answered. *)
Lemma round_members accepting id M0 an peers (M : gmap string PeerState) u :
  all_answered accepting M0 an peers = true → NoDup (List.map pi_UUID peers) →
  let M' := foldl (λ m p, <[ps_UUID p := p]> m) M (feed_round accepting id M0 an peers) in
  (∃ i seen p, i ∈ peers ∧ pi_UUID i = u ∧ an_done an i = true ∧ feed_todo accepting M0 i = Some (seen, p) ∧
     M' !! u = Some (feed_peer id (an_probe an i) (an_start an i) (an_status an i) seen p)) ∨
  ((∀ i, i ∈ peers → pi_UUID i = u → feed_todo accepting M0 i = None) ∧ M' !! u = M !! u).
Proof.
  revert M. induction peers as [|i peers IH]; intros M; cbn.
  { intros _ _. right. split; [|done]. intros i Hi. by apply elem_of_nil in Hi. }
  intros [Hi Ha]%andb_true_iff [Hni Hnd]%NoDup_cons.
  assert (∀ j, j ∈ peers → pi_UUID j ≠ pi_UUID i) as Hne.
  { intros j Hj E. apply Hni. rewrite <-E. apply list_elem_of_In, List.in_map, list_elem_of_In, Hj. }
  destruct (feed_todo accepting M0 i) as [[seen p]|] eqn:Ht; cbn.
  - rewrite Hi. cbn. set (q := feed_peer _ _ _ _ _ _).
    assert (ps_UUID q = pi_UUID i) as Eq by (subst q; by rewrite feed_peer_id, (feed_todo_id _ _ _ _ _ Ht)).
    destruct (IH (<[ps_UUID q := q]> M) Ha Hnd) as [(j & s & r & Hj & <- & ? & ? & E)|[Hn E]].
    + left. exists j, s, r. split_and!; try done. by right.
    + destruct (decide (u = pi_UUID i)) as [-> |Hu].
      * left. exists i, seen, p. split_and!; try done; [by left|]. etrans; [exact E|]. rewrite Eq. apply lookup_insert_eq.
      * right. split; [|etrans; [exact E|]; by rewrite Eq, lookup_insert_ne]. intros j [->|Hj]%elem_of_cons Hju; [done|by apply Hn].
  - destruct (IH M Ha Hnd) as [(j & s & r & Hj & <- & ? & ? & E)|[Hn E]].
    + left. exists j, s, r. split_and!; try done. by right.
    + right. split; [|done]. intros j [->|Hj]%elem_of_cons Hju; [done|by apply Hn].
Qed.

Lemma feeding_round id accepting M an on (sc : schedule accepting M an on) h :
  feeding M h → all_answered accepting M an (on_peers on) = true →
  feeding (foldl (λ m p, <[ps_UUID p := p]> m) M (feed_round accepting id M an (on_peers on))) (h ++ sd_sent sc).
Proof.
  intros Hfd Ha. pose proof (fed_round _ _ _ _ sc h Hfd) as Hf'. destruct Hfd as [Hk Hr Hf].
  split; [| |done]; intros u; rewrite to_machine_app;
    destruct (round_members accepting id M an (on_peers on) M u Ha (on_distinct on))
      as [(i & seen & p & Hi & <- & Hd & Ht & E)|[Hn E]]; rewrite E; clear E.
  - done.
  - intros Hm. by rewrite (Hk _ Hm), (schedule_other _ _ _ _ sc).
  - intros q [= <-] Hrun. rewrite (sd_all _ _ _ _ sc i Hi Hd). unfold machine_requests. rewrite Ht.
    pose proof (feed_todo_cases accepting M i) as Hc. rewrite Ht in Hc. destruct seen; cbn [feed_requests].
    + destruct Hc as (q & Hq & Hq'). destruct (Hr _ _ Hq Hq') as [k ->]. exists (S k). by rewrite replicate_S_end.
    + destruct Hc as [Hm _]. rewrite (Hk _ Hm). exists O. cbn [replicate app].
      unfold feed_peer in Hrun. destruct (an_probe an i); [|done].
      unfold feed_todo in Ht. repeat case_match; simplify_eq.
  - intros q Hq Hrun. rewrite (schedule_other _ _ _ _ sc), app_nil_r by done. by eapply Hr.
Qed.

Lemma says_distributionLoop φ rounds n f M h : feeding M h → says φ fed h (distributionLoop rounds n f M).
Proof.
  revert M h. induction rounds as [|rounds IH]; intros M h Hf; [done|]. cbn [distributionLoop].
  apply says_unless; [done|]. apply says_look. intros a _. generalize (accepts (sp_ID (fd_spec f)) a).
  intros accepting on an sc. split; [by apply fed_round|]. apply says_store_all.
  destruct (all_answered _ _ _ _) eqn:Hall; [cbn [negb]|done]. apply says_unless; [done|]. apply says_act, says_unless; [done|].
  apply IH. by apply feeding_round.
Qed.

(** While nothing is accepted, only members that were there are asked, for their state. *)
Lemma paused_distributionLoop rounds n f (M0 M : gmap string PeerState) h :
  let φ a := accepts (sp_ID (fd_spec f)) a = false in
  let Q h := ∀ r, r ∈ h → r.1 = "status" ∧ is_Some (M0 !! r.2) in
  (∀ u, is_Some (M !! u) → is_Some (M0 !! u)) → Q h → says φ Q h (distributionLoop rounds n f M).
Proof.
  intros φ Q. revert M h. induction rounds as [|rounds IH]; intros M h HM Hh; [done|]. cbn [distributionLoop].
  apply says_unless; [done|]. apply says_look. intros a Ha. unfold φ in Ha. rewrite Ha. intros on an sc.
  assert (Q (h ++ sd_sent sc)) as HQ.
  { intros r Hr. apply elem_of_app in Hr as [Hr|Hr]; [by apply Hh|].
    destruct (sd_known _ _ _ _ sc r Hr) as (i & Hi & E). pose proof (sd_each _ _ _ _ sc i Hi) as [l Hl].
    assert (r ∈ machine_requests false M an i) as Hin.
    { rewrite Hl. apply elem_of_app. left. by apply to_machine_in. }
    pose proof (feed_todo_cases false M i) as Hc. unfold machine_requests in Hin.
    destruct (feed_todo false M i) as [[[|] p]|]; [|by destruct Hc|by apply elem_of_nil in Hin].
    apply list_elem_of_singleton in Hin as ->. destruct Hc as (q & Hq & _). split; [done|]. apply HM. by exists q. }
  split; [done|]. apply says_store_all. destruct (all_answered _ _ _ _) eqn:Hall; [cbn [negb]|done].
  apply says_unless; [done|]. apply says_act, says_unless; [done|]. apply IH; [|done]. intros u.
  destruct (round_members false (sp_ID (fd_spec f)) M an (on_peers on) M u Hall (on_distinct on))
    as [(i & seen & p & Hi & <- & _ & Ht & _)|[_ ->]]; [|by apply HM].
  intros _. pose proof (feed_todo_cases false M i) as Hc. rewrite Ht in Hc.
  destruct seen; [|by destruct Hc]. destruct Hc as (q & Hq & _). apply HM. by exists q.
Qed.

(** ** Properties *)

(** C21. The continuous distribution disturbs no machine: over all its rounds, whatever the
    operations, the cancellation and [Close] do to the application between its steps,
    whoever comes and goes, whatever the machines answer and however the goroutines of a round
    interleave, a loop probes a machine at most once and asks it to start at most once, after
    its probe; it asks for the state of a machine only after it asked it to start. And in rounds
    that find the distribution paused, replaced or gone it admits nobody, whoever was admitted
    before: it only asks for the state of those that were. *)
Theorem feeds_once (rounds : nat) (n : Z) (f : feed) (φ : App → Prop) :
  (∀ (l : requests) (q : prog), emits φ (distributionLoop rounds n f ∅) l q →
    ∀ u, (length (filter (λ r, r = ("probe", u)) l) ≤ 1)%nat ∧ (length (filter (λ r, r = ("start", u)) l) ≤ 1)%nat ∧
      (∀ l1 l2, l = l1 ++ ("start", u) :: l2 → ("probe", u) ∈ l1) ∧
      (∀ l1 l2, l = l1 ++ ("status", u) :: l2 → ("start", u) ∈ l1)) ∧
  ((∀ a, φ a → accepts (sp_ID (fd_spec f)) a = false) →
    ∀ (M : gmap string PeerState) (l : requests) (q : prog), emits φ (distributionLoop rounds n f M) l q →
    ∀ r, r ∈ l → r.1 = "status" ∧ is_Some (M !! r.2)).
Proof.
  split.
  - intros l q He u. assert (feeding ∅ []) as Hf by (split; [done|done|by left]).
    pose proof (says_emits _ _ _ _ _ _ (says_distributionLoop φ rounds n f ∅ [] Hf) (fi_fed _ _ Hf) He u) as Hh.
    cbn [app] in Hh. rewrite (once_in u l ("probe", u)), (once_in u l ("start", u)) by done. split_and!; [eapply history_once; eauto..| |];
      intros l1 l2 ->; rewrite to_machine_split in Hh.
    + by apply history_start in Hh as [_ ?]%to_machine_in.
    + by apply history_status in Hh as [_ ?]%to_machine_in.
  - intros Hφ M l q He r Hr. apply (emits_weaken _ _ _ _ _ Hφ) in He.
    assert (∀ x, x ∈ @nil (string * string) → x.1 = "status" ∧ is_Some (M !! x.2)) as Hnil by (by intros x Hx%elem_of_nil).
    exact (says_emits _ _ [] _ _ _ (paused_distributionLoop rounds n f M M [] (λ _ H, H) Hnil) Hnil He r Hr).
Qed.

(** The snapshot of a session, in whatever order its map is traversed, is what a round asks for. *)
Lemma Snapshot_distinct s order : NoDup order → NoDup (List.map pi_UUID (Snapshot s order)).
Proof.
  intros Hnd. assert (∃ ids, List.map pi_UUID (Snapshot s order) = ids ∧ sublist ids order) as (ids & -> & Hs).
  2:{ by eapply sublist_NoDup. }
  eexists. split; [reflexivity|]. clear Hnd. unfold Snapshot. induction order as [|id order IH]; cbn; [constructor|].
  destruct (Peers s !! id) as [p|]; cbn; by constructor.
Qed.

Definition demo_feed : feed :=
  mkFeed (mkSrc (mkSource (chars_of "/f") "f" 3 false [mkEntry "f" 3 false 420] None) 0 "g")
    (mkTaskSpec "t" "in" false false [mkEntry "f" 3 false 420] no_meta) (mkDispatch [] "in" "k" false).

(** A machine [u] is on line beside the sender [me]. *)
Definition demo_peers : list PeerInfo :=
  [mkPeerInfo "me" "" 0 0 f_zero 0 0 true true; mkPeerInfo "u" "10.0.0.2:7" 0 0 f_zero 0 0 false true].

Lemma demo_distinct : NoDup (List.map pi_UUID demo_peers).
Proof. repeat constructor; set_solver. Qed.

Definition demo_online : online := mkOnline demo_peers demo_distinct.

Definition demo_answers : answers :=
  mkAnswers (λ _, inr (mkProbe true (chars_of "/in") [] 3))
    (λ _, inr (mkTaskState "t" "download" "running" "" "" "" no_progress)) (λ _, inl "") (λ _, true).

Definition demo_sending : App :=
  mkApp (mkConfig false "sender" "" "" ":0" "/w" "" true) (Some 0) None None None ""
    (Some (mkDistribution "t" true "f" "in" "" 0 0)) (Some 2) ∅ "" "" None None None None None [] false 3 ∅ ∅ ∅ ∅ ∅ ∅.

Definition demo_schedule : schedule true ∅ demo_answers demo_online := inhabitant.

Lemma demo_sent : sd_sent demo_schedule = [("probe", "u"); ("start", "u")].
Proof. vm_compute. reflexivity. Qed.

Lemma feeds_once_witness :
  ∃ l q, emits (λ _, True) (distributionLoop 1 2 demo_feed ∅) l q ∧ l = [("probe", "u"); ("start", "u")] ∧
    ("probe", "u") ∈ [("probe", "u")] ∧ (length (filter (λ r, r = ("start", "u")) l) ≤ 1)%nat.
Proof.
  assert (∃ q, emits (λ _, True) (distributionLoop 1 2 demo_feed ∅) [("probe", "u"); ("start", "u")] q) as [q Hq].
  { eexists. change [("probe", "u"); ("start", "u")] with ([("probe", "u"); ("start", "u")] ++ @nil (string * string)).
    eapply (em_silent _ demo_sending demo_sending); [reflexivity|done|by split|].
    eapply (em_silent _ demo_sending demo_sending); [reflexivity|done|by split|].
    eapply (em_silent _ demo_sending demo_sending); [reflexivity|done|split; [done|by exists demo_online]|].
    eapply (em_silent _ demo_sending demo_sending); [reflexivity|done|split; [done|by exists demo_answers]|].
    eapply (em_silent _ demo_sending demo_sending); [reflexivity|done|split; [done|by exists demo_schedule]|].
    rewrite <-demo_sent. apply (em_tell _ demo_sending); [done|]. apply em_none. }
  exists [("probe", "u"); ("start", "u")], q. split; [exact Hq|]. split; [reflexivity|].
  destruct (proj1 (feeds_once 1 2 demo_feed (λ _, True)) _ q Hq "u") as (_ & Hs & Hp & _).
  split; [by apply (Hp [("probe", "u")] [])|exact Hs].
Defined.
