(* ===== verification/Conduct.v ===== *)
(** * How the programs of the application behave

    Every program of files Dispatch and Web leaves the operations to the operations, never
    takes a cancellation back, gives new goroutines new numbers, and waits only for its
    own context, for a loop it has cancelled or for goroutines it has told to end; what it locks
    it unlocks, and with a mutex held it waits only for the last ([brief]); peers stay under
    their own identifiers. *)

From S2P Require Import Prelude Text Json Model Session Transfer Prepare Tasks App Dispatch Web Operations.
Local Open Scope string_scope.
Local Open Scope Z_scope.

(** What any section of a program but the last of an operation leaves as it is. *)
Record frame (a a' : App) : Prop := {
  fr_op : op a' = op a ∧ opDone a' = opDone a;
  fr_command : commandOp a' = commandOp a ∧ commandDone a' = commandDone a;
  fr_doing : doing a' = doing a;
  fr_closed : closed a' = closed a;
  fr_cancelled : cancelled a ⊆ cancelled a';
  fr_next : next_id a ≤ next_id a';
  fr_loops m : m < next_id a → loops a !! m = None → loops a' !! m = None;
  fr_feeds m : m < next_id a → feeds a !! m = None → feeds a' !! m = None;
  fr_keyed : keyed (probes a) → keyed (probes a');
}.

Lemma frame_refl a : frame a a.
Proof. by split. Qed.

(** A section also leaves the mutexes alone. *)
Record leaves (a a' : App) : Prop := {
  lv_frame : frame a a';
  lv_locks : locks a' = locks a;
}.

Lemma leaves_refl a : leaves a a.
Proof. split; [apply frame_refl|done]. Qed.

(** Each field is as it was. *)
Ltac quiet := split; [split; cbn; try done; try lia; try set_solver|done].

(** What a program with context [x] may wait for, once the contexts in [C] are over: its own; a
    group of goroutines that was told to end; or, when it may stop others, a loop it has
    cancelled. *)
Definition wakes (stops : bool) (x : context) (C : gset Z) (w : awaited) : Prop :=
  match w with
  | Over c => c = x ∧ is_Some x
  | LoopGone n | FeedGone n => stops = true ∧ n ∈ C
  | WorkDone _ => False
  | GroupGone n _ => n ∈ C
  end.

(** It holds [m] and comes to unlock it whatever it is answered: on the way it locks nothing, and
    waits only for groups of goroutines that were told to end. *)
Fixpoint releases (m : mutex) (C : gset Z) (p : prog) : Prop :=
  match p with
  | Ret _ => False
  | Sect A f k => ∀ a, C ⊆ cancelled a →
      cancelled a ⊆ cancelled (f a).2 ∧ releases m (cancelled (f a).2) (k (f a).1)
  | Ask A k => inhabited A ∧ ∀ y, releases m C (k y)
  | Tell l k => releases m C k
  | Await w k => match w with GroupGone n _ => n ∈ C | _ => False end ∧ releases m C k
  | Mutex m' lock k => m' = m ∧ lock = false
  end.

Fixpoint tame_at (stops : bool) (x : context) (C : gset Z) (p : prog) : Prop :=
  match p with
  | Ret _ => True
  | Sect A f k => ∀ a, C ⊆ cancelled a → keyed (probes a) →
      leaves a (f a).2 ∧ tame_at stops x (cancelled (f a).2) (k (f a).1)
  | Ask A k => inhabited A ∧ ∀ y, tame_at stops x C (k y)
  | Tell l k => tame_at stops x C k
  | Await w k => wakes stops x C w ∧ tame_at stops x C k
  | Mutex m lock k => (lock = true → releases m C k) ∧ tame_at stops x C k
  end.

Definition tame (stops : bool) (x : context) (p : prog) : Prop := ∀ C, tame_at stops x C p.

Lemma releases_mono m C C' p : releases m C p → C ⊆ C' → releases m C' p.
Proof.
  revert C C'. induction p as [e|A f k IH|A k IH|l k IH|w k IH|m' lock k IH]; intros C C'; cbn; intros Hp HC.
  - done.
  - intros a Ha. apply Hp. set_solver.
  - destruct Hp as [? Hp]. split; [done|]. intros y. by eapply IH.
  - by eapply IH.
  - destruct Hp as [Hw Hp]. split; [destruct w; set_solver|by eapply IH].
  - done.
Qed.

Lemma tame_at_mono stops x C C' p : tame_at stops x C p → C ⊆ C' → tame_at stops x C' p.
Proof.
  revert C C'. induction p as [e|A f k IH|A k IH|l k IH|w k IH|m lock k IH]; intros C C'; cbn; intros Hp HC.
  - done.
  - intros a Ha. apply Hp. set_solver.
  - destruct Hp as [? Hp]. split; [done|]. intros y. by eapply IH.
  - by eapply IH.
  - destruct Hp as [Hw Hp]. split; [|by eapply IH]. destruct w; set_solver.
  - destruct Hp as [Hr Hp]. split; [|by eapply IH]. intros E. eapply releases_mono; [by apply Hr|done].
Qed.

Lemma frame_set_lock m lock a : frame a (set_lock m lock a).
Proof. by split. Qed.

(** A step keeps the frame, and what is left of the program is as tame. *)
Lemma tame_step stops x C p a a' p' :
  tame_at stops x C p → C ⊆ cancelled a → keyed (probes a) → prog_step a p a' p' →
  frame a a' ∧ tame_at stops x (cancelled a') p'.
Proof.
  intros Hp HC Hk Hs. destruct p as [e|A f k|A k|l k|w k|m lock k]; cbn in Hp, Hs.
  - done.
  - destruct Hs as [-> ->]. destruct (Hp a HC Hk) as [[? _] ?]. done.
  - destruct Hs as [-> [y ->]], Hp as [_ Hp]. split; [apply frame_refl|]. by eapply tame_at_mono.
  - destruct Hs as [-> ->]. split; [apply frame_refl|]. by eapply tame_at_mono.
  - destruct Hs as (-> & _ & ->), Hp as [_ Hp]. split; [apply frame_refl|]. by eapply tame_at_mono.
  - destruct Hs as (_ & -> & ->), Hp as [_ Hp]. split; [apply frame_set_lock|]. by eapply tame_at_mono.
Qed.

(** What it holds, it will release, or has just released. *)
Lemma releases_step m C p a a' p' :
  releases m C p → C ⊆ cancelled a → prog_step a p a' p' → m ∉ locks a' ∨ releases m (cancelled a') p'.
Proof.
  intros Hp HC Hs. destruct p as [e|A f k|A k|l k|w k|m' lock k]; cbn in Hp, Hs.
  - done.
  - destruct Hs as [-> ->]. right. by apply Hp.
  - destruct Hs as [-> [y ->]], Hp as [_ Hp]. right. by eapply releases_mono.
  - destruct Hs as [-> ->]. right. by eapply releases_mono.
  - destruct Hs as (-> & _ & ->), Hp as [_ Hp]. right. by eapply releases_mono.
  - destruct Hs as (_ & -> & ->), Hp as [-> ->]. left. cbn. set_solver.
Qed.

Lemma releases_bind m C p q : releases m C p → releases m C (bind p q).
Proof.
  revert C. induction p as [e|A f k IH|A k IH|l k IH|w k IH|m' lock k IH]; intros C; cbn; intros Hp.
  - done.
  - intros a Ha. destruct (Hp a Ha). split; [done|by apply IH].
  - destruct Hp as [? Hp]. split; [done|]. intros y. by apply IH.
  - by apply IH.
  - destruct Hp as [? Hp]. split; [done|by apply IH].
  - done.
Qed.

(** ** Peers under their own identifiers *)

Lemma keyed_empty : keyed ∅.
Proof. intros id p Hp. by rewrite lookup_empty in Hp. Qed.

Lemma keyed_insert m id p : keyed m → ps_UUID p = id → keyed (<[id := p]> m).
Proof. intros Hm Hp i q [[<- <-]|[_ Hq]]%lookup_insert_Some; [done|by apply Hm]. Qed.

Lemma keyed_union m m' : keyed m → keyed m' → keyed (m ∪ m').
Proof. intros Hm Hm' i q [Hq|[_ Hq]]%lookup_union_Some_raw; [by apply Hm|by apply Hm']. Qed.

Lemma keyed_imap f m : keyed m → (∀ id p q, f id p = Some q → ps_UUID q = ps_UUID p) → keyed (map_imap f m).
Proof.
  intros Hm Hf i q Hq. rewrite map_lookup_imap in Hq. destruct (m !! i) as [p|] eqn:E; [|done].
  cbn in Hq. rewrite (Hf _ _ _ Hq). by apply Hm.
Qed.

Lemma keyed_fmap f m : keyed m → (∀ p, ps_UUID (f p) = ps_UUID p) → keyed (f <$> m).
Proof. intros Hm Hf i q Hq. apply lookup_fmap_Some in Hq as (p & <- & Hp). rewrite Hf. by apply Hm. Qed.

Lemma storePeer_keyed p command a : keyed (probes a) → keyed (probes (storePeer p command a)).
Proof. intros Hk. apply keyed_insert; [done|]. by destruct command. Qed.

Lemma probe_results_keyed ids peers call : keyed (probe_results ids peers call).
Proof.
  unfold probe_results. generalize keyed_empty. generalize (∅ : gmap string PeerState).
  induction (to_probe ids peers) as [|i l IH]; intros m Hm; [done|]. cbn. apply IH, keyed_insert; [done|].
  unfold probed. by destruct (call i).
Qed.

Lemma merge_probes_keyed results old : keyed results → keyed old → keyed (merge_probes results old).
Proof. intros Hr Ho. apply keyed_union; [|done]. apply keyed_imap; [done|]. by intros id p q [= <-]. Qed.

Lemma start_all_keyed d id call m : keyed m → keyed (start_all d id call m).
Proof.
  intros Hm. apply keyed_imap; [done|]. intros u p q [= <-]. destruct (_ && _); [|done].
  destruct (call u) as [[e|st]|]; done.
Qed.

Lemma merge_started_keyed new old : keyed new → keyed old → keyed (merge_started new old).
Proof. intros Hr Ho. apply keyed_union; [|done]. apply keyed_imap; [done|]. by intros id p q [= <-]. Qed.

Lemma frame_storePeer p command a : frame a (storePeer p command a).
Proof. split; try done. apply storePeer_keyed. Qed.

(** ** Each program *)

Section tame.
Context (stops : bool) (x : context).

Lemma tame_ret e : tame stops x (Ret e).
Proof. done. Qed.

Lemma tame_sect A (f : App → A * App) k :
  (∀ a, leaves a (f a).2) → (∀ y, tame stops x (k y)) → tame stops x (Sect A f k).
Proof. intros Hf Hk C a _ _. split; [done|]. apply Hk. Qed.

Lemma tame_look A (f : App → A) k : (∀ y, tame stops x (k y)) → tame stops x (look f k).
Proof. intros Hk. apply tame_sect; [intros; apply leaves_refl|done]. Qed.

Lemma tame_unless c stop go : tame stops x stop → tame stops x go → tame stops x (unless c stop go).
Proof. intros Hs Hg. apply tame_look. by intros [|]. Qed.

Lemma tame_act f k : (∀ a, leaves a (f a)) → tame stops x k → tame stops x (act f k).
Proof. intros Hf Hk. by apply tame_sect. Qed.

Lemma tame_ask A k : Inhabited A → (∀ y, tame stops x (k y)) → tame stops x (Ask A k).
Proof. intros [y] Hk C. split; [by constructor|]. intros z. apply Hk. Qed.

Lemma tame_tell l k : tame stops x k → tame stops x (Tell l k).
Proof. intros Hk C. apply Hk. Qed.

Lemma tame_own n k : x = Some n → tame stops x k → tame stops x (Await (Over x) k).
Proof. intros -> Hk C. split; [|apply Hk]. by split; [|eexists]. Qed.

Lemma tame_bind p q : tame stops x p → (∀ e, tame stops x (q e)) → tame stops x (bind p q).
Proof.
  intros Hp Hq C. specialize (Hp C). revert C Hp.
  induction p as [e|A f k IH|A k IH|l k IH|w k IH|m lock k IH]; intros C; cbn; intros Hp.
  - apply Hq.
  - intros a Ha Hka. destruct (Hp a Ha Hka) as [? Hk]. split; [done|]. by apply IH.
  - destruct Hp as [? Hp]. split; [done|]. intros y. by apply IH.
  - by apply IH.
  - destruct Hp as [? Hp]. split; [done|]. by apply IH.
  - destruct Hp as [Hr Hp]. split; [|by apply IH]. intros E. by apply releases_bind, Hr.
Qed.

Lemma tame_store_all l command k : tame stops x k → tame stops x (store_all l command k).
Proof. intros Hk. induction l as [|p l IH]; [done|]. apply tame_act; [intros; split; [apply frame_storePeer|done]|exact IH]. Qed.

Lemma tame_spec d k : (∀ s sp fp, tame stops x (k s sp fp)) → tame stops x (spec d k).
Proof.
  intros Hk. apply tame_look. intros [s|]; [|apply tame_ret]. apply tame_ask; [exact (populate no_meta)|].
  intros meta. apply Hk.
Qed.
End tame.

(** ** With a mutex held *)

(** A part of a program that may run with a mutex held: on every way to its end it only waits for
    groups of goroutines it has told to end. *)
Fixpoint brief (C : gset Z) (p : prog) : Prop :=
  match p with
  | Ret _ => True
  | Sect A f k => ∀ a, C ⊆ cancelled a →
      cancelled a ⊆ cancelled (f a).2 ∧ leaves a (f a).2 ∧ brief (cancelled (f a).2) (k (f a).1)
  | Ask A k => inhabited A ∧ ∀ y, brief C (k y)
  | Tell l k => brief C k
  | Await w k => match w with GroupGone n _ => n ∈ C | _ => False end ∧ brief C k
  | Mutex _ _ _ => False
  end.

Lemma brief_mono C C' p : brief C p → C ⊆ C' → brief C' p.
Proof.
  revert C C'. induction p as [e|A f k IH|A k IH|l k IH|w k IH|m lock k IH]; intros C C'; cbn; intros Hp HC.
  - done.
  - intros a Ha. apply Hp. set_solver.
  - destruct Hp as [? Hp]. split; [done|]. intros y. by eapply IH.
  - by eapply IH.
  - destruct Hp as [Hw Hp]. split; [destruct w; set_solver|by eapply IH].
  - done.
Qed.

Lemma brief_releases m C p : brief C p → releases m C (bind p (λ e, Mutex m false (Ret e))).
Proof.
  revert C. induction p as [e|A f k IH|A k IH|l k IH|w k IH|m' lock k IH]; intros C; cbn; intros Hp.
  - done.
  - intros a Ha. destruct (Hp a Ha) as (? & _ & ?). split; [done|by apply IH].
  - destruct Hp as [? Hp]. split; [done|]. intros y. by apply IH.
  - by apply IH.
  - destruct Hp as [? Hp]. split; [done|by apply IH].
  - done.
Qed.

Lemma brief_tame stops x m C p : brief C p → tame_at stops x C (bind p (λ e, Mutex m false (Ret e))).
Proof.
  revert C. induction p as [e|A f k IH|A k IH|l k IH|w k IH|m' lock k IH]; intros C; cbn; intros Hp.
  - by split.
  - intros a Ha _. destruct (Hp a Ha) as (_ & ? & ?). split; [done|by apply IH].
  - destruct Hp as [? Hp]. split; [done|]. intros y. by apply IH.
  - by apply IH.
  - destruct Hp as [Hw Hp]. split; [by destruct w|by apply IH].
  - done.
Qed.

(** What locks, does what is brief, and unlocks. *)
Lemma tame_with_lock stops x m p : (∀ C, brief C p) → tame stops x (with_lock m p).
Proof. intros Hp C. split; [intros _; by apply brief_releases|by apply brief_tame]. Qed.

Lemma brief_sect C A (f : App → A * App) k :
  (∀ a, leaves a (f a).2) → (∀ C y, brief C (k y)) → brief C (Sect A f k).
Proof. intros Hf Hk a _. split; [apply (fr_cancelled _ _ (lv_frame _ _ (Hf a)))|split; [done|apply Hk]]. Qed.

Lemma brief_look C A (f : App → A) k : (∀ C y, brief C (k y)) → brief C (look f k).
Proof. intros Hk. apply brief_sect; [intros; apply leaves_refl|done]. Qed.

Lemma brief_act C f k : (∀ a, leaves a (f a)) → (∀ C, brief C k) → brief C (act f k).
Proof. intros Hf Hk. by apply brief_sect. Qed.

Lemma brief_unless C c stop go : (∀ C, brief C stop) → (∀ C, brief C go) → brief C (unless c stop go).
Proof. intros Hs Hg. apply brief_look. by intros D [|]. Qed.

Lemma brief_ask C A k : Inhabited A → (∀ y, brief C (k y)) → brief C (Ask A k).
Proof. intros [y] Hk. split; [by constructor|done]. Qed.

Lemma leaves_cancel n a : leaves a (cancel_ctx n a).
Proof. split; [|done]. split; try done. cbn. set_solver. Qed.

Lemma leaves_work n g a : leaves a (work n g a).
Proof. split; [|done]. by split. Qed.

(** The waits for an agent and a session that are stopped; for those that are not there. *)
Lemma brief_stop_session C n g k : (∀ C, brief C k) → brief C (stop_session n g k).
Proof.
  intros Hk a _. split; [cbn; set_solver|split; [apply leaves_cancel|]]. cbn. split; [set_solver|apply Hk].
Qed.

Lemma brief_close_agent C n k : (∀ C, brief C k) → brief C (close_agent n k).
Proof.
  intros Hk a _. split; [cbn; set_solver|split; [apply leaves_cancel|]]. cbn. split; [set_solver|].
  intros b Hb. split; [set_solver|split; [apply leaves_cancel|]].
  split; [set_solver|]. split; [set_solver|apply Hk].
Qed.

Lemma brief_close_opt C r k : (∀ C, brief C k) → brief C (close_opt r k).
Proof. intros Hk. destruct r; [by apply brief_close_agent|apply Hk]. Qed.

(** Without a mutex. *)
Lemma tame_stop_session stops x n g k : tame stops x k → tame stops x (stop_session n g k).
Proof. intros Hk C a _ _. split; [apply leaves_cancel|]. cbn. split; [set_solver|apply Hk]. Qed.

Lemma tame_close_agent stops x n k : tame stops x k → tame stops x (close_agent n k).
Proof.
  intros Hk C a _ _. split; [apply leaves_cancel|]. cbn. split; [set_solver|].
  intros b Hb _. split; [apply leaves_cancel|]. cbn. split; [set_solver|]. split; [set_solver|apply Hk].
Qed.

#[export] Instance TaskState_inhabited : Inhabited TaskState := populate (failed_task "" "" "").
#[export] Instance reply_inhabited A : Inhabited (reply A) := populate (inl "").
#[export] Instance answers_inhabited : Inhabited answers :=
  populate (mkAnswers (λ _, inl "") (λ _, inl "") (λ _, inl "") (λ _, false)).
#[export] Instance online_inhabited : Inhabited online := populate (mkOnline [] NoDup_nil_2).
#[export] Instance source_data_inhabited : Inhabited Source := populate (mkSource [] "" 0 false [] None).

(** The cases of a program, each by the lemma on its first part. *)
Ltac tame_cases :=
  repeat first
    [ assumption
    | match goal with
      | |- ∀ _, _ => intro
      | |- tame _ _ (Ret _) => apply tame_ret
      | |- tame _ _ (store_all _ _ _) => apply tame_store_all
      | |- tame _ _ (Tell _ _) => apply tame_tell
      | |- tame _ _ (unless _ _ _) => apply tame_unless
      | |- tame _ _ (Await (Over _) _) => eapply tame_own; [reflexivity|]
      | |- tame _ _ (spec _ _) => apply tame_spec
      | |- tame _ _ (look _ _) => apply tame_look
      | |- tame _ _ (act _ _) => apply tame_act; [intros; by quiet|]
      | |- tame _ _ (Ask _ _) => apply tame_ask; [apply _|]
      | |- tame _ _ (if ?b then _ else _) => destruct b
      | |- tame _ _ (match ?y with _ => _ end) => destruct y
      | |- tame _ _ (let _ := _ in _) => cbv zeta
      end ].

Lemma leaves_delete_feed n a : leaves a (set_feeds (delete n (feeds a)) a).
Proof. split; [|done]. split; try done. intros m _ Hm. apply lookup_delete_None. by right. Qed.

Lemma leaves_delete_loop n a : leaves a (set_discovery (discovery a) (discoveryMessage a) (delete n (loops a)) a).
Proof. split; [|done]. split; try done. intros m _ Hm. cbn. apply lookup_delete_None. by right. Qed.

Lemma frame_cancel n a : frame a (cancel_ctx n a).
Proof. apply leaves_cancel. Qed.

Lemma tame_feed_end stops n : tame stops (Some n) (feed_end n).
Proof. apply tame_act; [intros; apply leaves_delete_feed|done]. Qed.

Lemma tame_loop_end stops n : tame stops (Some n) (loop_end n).
Proof. apply tame_act; [intros; apply leaves_delete_loop|done]. Qed.

Lemma tame_monitor stops n rounds commands peers : tame stops (Some n) (monitor rounds (Some n) commands peers).
Proof. revert peers. induction rounds as [|rounds IH]; intros peers; cbn [monitor]; tame_cases. apply IH. Qed.

Lemma tame_probe stops n d : tame stops (Some n) (probe (Some n) d).
Proof.
  unfold probe. tame_cases. apply tame_act; [|tame_cases]. intros a. split; [|done]. split; try done. intros Hk.
  by apply merge_probes_keyed; [apply probe_results_keyed|].
Qed.

Lemma tame_dispatch stops n rounds d : tame stops (Some n) (dispatch rounds (Some n) d).
Proof.
  unfold dispatch. apply tame_spec. intros s sp fp C a _ Hka. split; [apply leaves_refl|]. cbn.
  destruct (match distribution a with Some y => di_Active y | None => false end); [done|].
  destruct (negb _); [done|]. split; [by constructor; exact ""|]. intros id. split; [constructor; exact inhabitant|].
  intros t. split; [constructor; exact inhabitant|]. intros call. cbv zeta.
  match goal with |- tame_at _ _ _ ?p => cut (tame stops (Some n) p); [intros Hp; apply Hp|] end.
  destruct (negb _); [tame_cases|]. apply tame_unless; [done|].
  apply tame_act; [|tame_cases; apply tame_monitor]. intros b. split; [|done]. split; try done. intros Hkb.
  apply merge_started_keyed; [by apply start_all_keyed|done].
Qed.

Lemma tame_command stops n rounds d : tame stops (Some n) (command rounds (Some n) d).
Proof. unfold command. tame_cases. apply tame_monitor. Qed.

Lemma tame_distributionLoop stops rounds n f members : tame stops (Some n) (distributionLoop rounds n f members).
Proof.
  pose proof (tame_feed_end stops n) as Hend.
  revert members. induction rounds as [|rounds IH]; intros members; cbn [distributionLoop]; tame_cases.
  apply tame_act; [|tame_cases; apply IH]. intros b. unfold feed_note.
  destruct (distribution b); [|apply leaves_refl]. destruct (String.eqb _ _); [by quiet|apply leaves_refl].
Qed.

Lemma tame_ensureSender stops x y listen : tame stops x (ensureSender y listen).
Proof.
  apply tame_with_lock. intros C. apply brief_look. intros D [[c m] h]. destruct c; [done|].
  destruct (String.eqb _ _); [done|]. destruct h; [done|]. cbv zeta. apply brief_ask; [apply _|]. intros [|]; [|done].
  apply brief_sect; [intros; by quiet|]. intros E n. apply brief_ask; [apply _|]. intros published.
  apply brief_unless; intros F; [by apply brief_stop_session|]. apply brief_act; [intros; by quiet|done].
Qed.

Lemma tame_andthen stops x p q : tame stops x p → tame stops x q → tame stops x (andthen p q).
Proof. intros Hp Hq. apply tame_bind; [done|]. by intros [e|]. Qed.

Lemma tame_seq stops x p q : tame stops x p → tame stops x q → tame stops x (seq p q).
Proof. intros Hp Hq. by apply tame_bind. Qed.

Lemma tame_startSource stops x y path listen : tame stops x (startSource y path listen).
Proof.
  unfold startSource. tame_cases. apply tame_andthen; [apply tame_ensureSender|]. tame_cases.
  apply tame_act; [|done]. intros a. split; [|done]. split; try done. intros Hk. by apply keyed_fmap.
Qed.

Lemma brief_startAgent_at C y c addr : brief C (startAgent_at y c addr).
Proof.
  apply brief_unless; [done|]. clear C. intros C. apply brief_look. intros D baseline. apply brief_ask; [apply _|].
  intros [root|]; [|done]. apply brief_sect; [intros; by quiet|]. clear. intros C n. cbv zeta.
  assert (∀ C e, brief C (close_agent n (Ret (Some e)))) as Hfail by (intros; by apply brief_close_agent).
  apply brief_ask; [apply _|]. intros [|]; [|apply Hfail]. apply brief_act; [intros; apply leaves_work|]. clear C. intros C.
  apply brief_ask; [apply _|]. intros [|]; [|apply Hfail]. apply brief_ask; [apply _|]. intros [|]; [|apply Hfail].
  apply brief_unless; [intros; apply Hfail|]. intros D. apply brief_act; [intros; by quiet|]. intros E.
  apply brief_act; [intros; apply leaves_work|done].
Qed.

Lemma tame_startAgent stops x y c : tame stops x (startAgent y c).
Proof.
  apply tame_with_lock. intros C. apply brief_sect; [intros a; destruct (String.eqb _ _); by quiet|].
  clear C. intros C [allowed previous]. destruct allowed; [|done]. apply brief_close_opt. clear C. intros C.
  destruct (_ || _); [|apply brief_startAgent_at]. apply brief_ask; [apply _|].
  intros [addr|]; [apply brief_startAgent_at|done].
Qed.

(** It cancels what it waits for. *)
Lemma tame_stop_loop x n k : tame true x k → tame true x (act (cancel_ctx n) (Await (LoopGone n) k)).
Proof. intros Hk C a Ha _. split; [apply leaves_cancel|]. cbn. split; [|apply Hk]. split; [done|set_solver]. Qed.

Lemma tame_stop_feed x n k : tame true x k → tame true x (act (cancel_ctx n) (Await (FeedGone n) k)).
Proof. intros Hk C a Ha _. split; [apply leaves_cancel|]. cbn. split; [|apply Hk]. split; [done|set_solver]. Qed.

Lemma tame_stopDiscovery x k : tame true x k → tame true x (stopDiscovery k).
Proof.
  intros Hk. apply tame_sect; [intros; by quiet|]. intros [n|]; [apply tame_stop_loop|]; by apply tame_act; [intros; by quiet|].
Qed.

Lemma tame_stopDistribution x : tame true x stopDistribution.
Proof. apply tame_sect; [intros; by quiet|]. intros [n|]; [by apply tame_stop_feed|done]. Qed.

Lemma tame_startDiscovery x c : tame true x (startDiscovery c).
Proof.
  unfold startDiscovery. apply tame_look. intros [cl m]. destruct cl; [done|]. destruct (String.eqb _ _); [done|].
  apply tame_stopDiscovery, tame_sect; [|done]. intros a. destruct (closed a) eqn:E; [by quiet|].
  split; [|done]. split; cbn; try done; [lia|]. intros m' Hm Hl. rewrite lookup_insert_ne by lia. done.
Qed.

Lemma tame_stopRole x role : tame true x (stopRole role).
Proof.
  unfold stopRole. destruct (String.eqb _ _).
  - apply tame_seq; [apply tame_stopDistribution|]. apply tame_sect; [intros; by quiet|].
    intros [h|]; [by apply tame_stop_session|done].
  - apply tame_stopDiscovery, tame_with_lock. intros C. apply brief_sect; [intros; by quiet|]. clear C.
    intros C [n|]; [|done]. apply brief_close_agent. clear C. intros C. apply brief_ask; [apply _|]. intros tasks.
    apply brief_act; [intros; by quiet|done].
Qed.

Lemma tame_stopFile x : tame true x stopFile.
Proof. apply tame_seq; [apply tame_stopDistribution|]. by apply tame_act; [intros; by quiet|]. Qed.

Lemma tame_startDistribution x d : tame true x (startDistribution d).
Proof.
  unfold startDistribution. apply tame_spec. intros s sp _. apply tame_look. intros [already old].
  destruct already; [done|]. cbv zeta. set (start := Ask string _). assert (tame true x start) as Hs.
  { apply tame_ask; [apply _|]. intros id. apply tame_act; [|done]. intros a. split; [|done]. split; cbn; try done; [lia|].
    intros m Hm Hf. by rewrite lookup_insert_ne by lia. }
  destruct old; [|done]. apply tame_seq; [apply tame_stopDistribution|done].
Qed.

Lemma tame_selectMode x m : tame true x (selectMode m).
Proof.
  unfold selectMode. destruct (negb _); [done|]. apply tame_sect.
  - intros a. destruct (_ || _); [apply leaves_refl|by quiet].
  - intros [c|]; [|done]. destruct (String.eqb _ _); [apply tame_startDiscovery|].
    destruct (String.eqb _ _); [apply tame_ensureSender|done].
Qed.

Lemma tame_discover_rounds rounds n c : tame false (Some n) (discover_rounds rounds n c).
Proof.
  pose proof (tame_loop_end false n) as Hend.
  assert (∀ note k, tame false (Some n) k → tame false (Some n) (discoveryNote note k)) as Hnote
    by (intros; apply tame_act; [intros; by quiet|done]).
  induction rounds as [|rounds IH]; [by eapply tame_own|]. cbn [discover_rounds].
  set (again := unless (Some n) (loop_end n) (discover_rounds rounds n c)).
  assert (tame false (Some n) again) as Ha by by apply tame_unless.
  apply tame_unless; [done|]. apply tame_look. intros current. apply tame_ask; [apply _|]. intros live.
  set (connected := match current with Some _ => live | None => false end). set (search := Ask (option string) _).
  assert (tame false (Some n) search) as Hs.
  { apply tame_ask; [apply _|]. intros addr. apply tame_unless; [done|]. destruct connected.
    - apply tame_ask; [apply _|]. intros h. apply tame_unless; auto.
    - destruct addr as [addr|]; [|by apply Hnote]. apply tame_bind; [apply tame_startAgent|].
      intros [e|]; [|by apply Hnote]. apply tame_unless; auto. }
  destruct connected; [done|by apply Hnote].
Qed.

Lemma tame_discoverLoop rounds n c : tame false (Some n) (discoverLoop rounds n c).
Proof.
  pose proof (tame_discover_rounds rounds n c). apply tame_look. intros [|]; [done|].
  destruct (_ && _); [|done]. apply tame_bind; [apply tame_startAgent|]. intros [e|]; [|done].
  apply tame_unless; [done|]. apply tame_act; [intros; by quiet|done].
Qed.

Lemma tame_action rounds r fn n : action rounds r = Some fn → tame true (Some n) (fn (Some n)).
Proof.
  unfold action. intros Hf.
  repeat match type of Hf with (if ?b then _ else _) = _ => destruct b end; try discriminate; injection Hf as <-;
    auto using tame_selectMode, tame_startDiscovery, tame_stopFile, tame_startDistribution, tame_stopRole,
      tame_probe, tame_dispatch, tame_command.
  - destruct (is_empty _); [apply tame_ensureSender|apply tame_startSource].
  - apply tame_stopDiscovery, tame_andthen; [apply tame_startAgent|apply tame_startDiscovery].
  - by apply tame_act; [intros; by quiet|].
Qed.

Lemma tame_first c kind fn x : AutoStart c = Some (inl (kind, fn)) → tame true x (fn x).
Proof.
  unfold AutoStart. intros Hf. destruct (String.eqb _ _).
  - injection Hf as <- <-. apply tame_andthen; [apply tame_ensureSender|].
    destruct (negb _); [apply tame_startSource|done].
  - by destruct (String.eqb _ _).
Qed.

(** The part of [Close] after its waits. *)
Lemma tame_close_rest x : tame true x close_rest.
Proof.
  apply tame_seq; [apply tame_stopDistribution|]. apply tame_stopDiscovery, tame_sect; [intros; by quiet|].
  intros [[r h] dirs]. assert (tame true x (stop_opt h (Tell (List.map (λ p, ("RemoveAll", p)) dirs) (Ret None)))) as Hs.
  { destruct h; [by apply tame_stop_session|done]. }
  destruct r; [by apply tame_close_agent|done].
Qed.

(** A program that does not stop others is tame for one that may. *)
Lemma tame_at_stops x C p : tame_at false x C p → tame_at true x C p.
Proof.
  revert C. induction p as [e|A f k IH|A k IH|l k IH|w k IH|m lock k IH]; intros C; cbn; intros Hp.
  - done.
  - intros a Ha Hk. destruct (Hp a Ha Hk). split; [done|]. by apply IH.
  - destruct Hp as [? Hp]. split; [done|]. intros y. by apply IH.
  - by apply IH.
  - destruct Hp as [Hw Hp]. split; [|by apply IH]. destruct w; cbn in *; naive_solver.
  - destruct Hp as [Hr Hp]. split; [done|by apply IH].
Qed.
