(* ===== verification/WebInv.v ===== *)
(** * Sender or receiver, never both

    The invariant of the application: a sender's service and a receiver's agent do
    not exist together, and the mode says which. Operations are verified by weakest
    preconditions over what the discovery loops may do between their sections. *)

From S2P Require Import Prelude Text Json Model Session Transfer Prepare Tasks App Dispatch Web Operations.
Local Open Scope string_scope.
Local Open Scope Z_scope.

Record mode_inv (a : App) : Prop := {
  mi_hub : is_Some (hub a) → agent_of a = None ∧ mode a = "sender";
  mi_agent : is_Some (agent_of a) → mode a = "receiver";
  mi_src s : src a = Some s → hub a = Some (sr_session s);
  mi_loops n : is_Some (loops a !! n) → mode a = "receiver";
  mi_next n : is_Some (loops a !! n) → n < next_id a;
  mi_feeds n : is_Some (feeds a !! n) → n < next_id a;
}.

(** Between operations: a loop that has not ended is the one the application can stop. *)
Record settled (a : App) : Prop := {
  st_loops n : is_Some (loops a !! n) → discovery a = Some n;
  st_feeds n : is_Some (feeds a !! n) → distributing a = Some n;
}.

(** What the loops, and a close that begins, do between two sections of an operation. *)
Record env (a a' : App) : Prop := {
  en_hub : hub a' = hub a;
  en_src : src a' = src a;
  en_mode : mode a' = mode a;
  en_discovery : discovery a' = discovery a;
  en_distributing : distributing a' = distributing a;
  en_loops n : is_Some (loops a' !! n) → is_Some (loops a !! n);
  en_feeds n : is_Some (feeds a' !! n) → is_Some (feeds a !! n);
  en_agent : loops a = ∅ → agent_of a' = agent_of a;
  en_next : next_id a ≤ next_id a';
}.

Lemma env_refl a : env a a.
Proof. by split. Qed.

Lemma env_trans a b c : env a b → env b c → env a c.
Proof.
  intros [] []. split; try congruence; [auto|auto| |lia]. intros Hl. rewrite en_agent1, en_agent0; [done|done|].
  apply map_empty. intros n. destruct (loops b !! n) as [d|] eqn:E; [|done].
  destruct (en_loops0 n) as [? Hc]; [by eexists|]. by rewrite Hl, lookup_empty in Hc.
Qed.

Lemma settled_env a a' : settled a → env a a' → settled a'.
Proof.
  intros [H1 H2] []. split; intros n Hn.
  - rewrite en_discovery0. by apply H1, en_loops0.
  - rewrite en_distributing0. by apply H2, en_feeds0.
Qed.

(** What a section of an operation leaves to the loops. *)
Record keeps (a a' : App) : Prop := {
  kp_loops n c : loops a !! n = Some c → loops a' !! n = Some c;
  kp_next : next_id a ≤ next_id a';
}.

(** The operation may go on from [a], whatever happens beside it, and ends in [Q]. *)
Fixpoint wp (p : prog) (Q : App → Prop) (a : App) : Prop :=
  match p with
  | Ret _ => ∀ a', env a a' → mode_inv a' → Q a'
  | Sect A f k => ∀ a', env a a' → mode_inv a' →
      mode_inv (f a').2 ∧ keeps a' (f a').2 ∧ wp (k (f a').1) Q (f a').2
  | Ask A k => ∀ x, wp (k x) Q a
  | Tell l k => wp k Q a
  | Await w k => ∀ a', env a a' → mode_inv a' → ready w a' = true → wp k Q a'
  | Mutex m lock k => wp k Q a
  end.

Lemma wp_env p Q a a' : wp p Q a → env a a' → wp p Q a'.
Proof.
  revert a a'. induction p as [e|A f k IH|A k IH|l k IH|w k IH|m lock k IH]; intros a a'; cbn; intros Hp He.
  - intros b Hb. apply Hp. by eapply env_trans.
  - intros b Hb. apply Hp. by eapply env_trans.
  - intros x. by eapply IH.
  - by eapply IH.
  - intros b Hb. apply Hp. by eapply env_trans.
  - by eapply IH.
Qed.

Lemma wp_mono p (Q R : App → Prop) a : (∀ b, Q b → R b) → wp p Q a → wp p R a.
Proof.
  intros HQ. revert a. induction p as [e|A f k IH|A k IH|l k IH|w k IH|m lock k IH]; intros a; cbn; intros Hp.
  - intros b Hb Hi. apply HQ. by apply Hp.
  - intros b Hb Hi. destruct (Hp b Hb Hi) as (? & ? & ?). split_and!; try done. by apply IH.
  - intros x. by apply IH.
  - by apply IH.
  - intros b Hb Hi Hc. apply IH. by apply Hp.
  - by apply IH.
Qed.

Lemma wp_bind p q Q a :
  mode_inv a → wp p (λ b, ∀ e, wp (q e) Q b) a → wp (bind p q) Q a.
Proof.
  revert a. induction p as [e|A f k IH|A k IH|l k IH|w k IH|m lock k IH]; intros a Hi; cbn; intros Hp.
  - apply Hp; [apply env_refl|done].
  - intros b Hb Hib. destruct (Hp b Hb Hib) as (? & ? & ?). split_and!; try done. by apply IH.
  - intros x. by apply IH.
  - by apply IH.
  - intros b Hb Hib Hc. apply IH; [done|]. by apply Hp.
  - by apply IH.
Qed.

Lemma wp_ret e (Q : App → Prop) a : (∀ b, env a b → mode_inv b → Q b) → wp (Ret e) Q a.
Proof. done. Qed.

Lemma wp_settled e a : settled a → wp (Ret e) settled a.
Proof. intros Hs b Hb _. by eapply settled_env. Qed.

Lemma settled_now a : settled a → ∀ a', env a a' → mode_inv a' → settled a'.
Proof. intros Hs b Hb _. by eapply settled_env. Qed.

Lemma keeps_refl a : keeps a a.
Proof. by split. Qed.

Lemma wp_look {A} (f : App → A) k Q a :
  (∀ b, env a b → mode_inv b → wp (k (f b)) Q b) → wp (look f k) Q a.
Proof. intros H b Hb Hi. split; [done|]. split; [apply keeps_refl|]. by apply H. Qed.

Lemma wp_act f k Q a :
  (∀ b, env a b → mode_inv b → mode_inv (f b) ∧ keeps b (f b) ∧ wp k Q (f b)) → wp (act f k) Q a.
Proof. intros H b Hb Hi. by apply H. Qed.



(** Sections that touch neither the services nor the loops. *)
Record same_mode (a a' : App) : Prop := {
  sm_hub : hub a' = hub a;
  sm_src : src a' = src a;
  sm_agent : agent_of a' = agent_of a;
  sm_mode : mode a' = mode a;
  sm_discovery : discovery a' = discovery a;
  sm_loops : loops a' = loops a;
  sm_distributing : distributing a' = distributing a;
  sm_feeds : feeds a' = feeds a;
  sm_next : next_id a ≤ next_id a';
}.

Lemma same_mode_inv a a' : same_mode a a' → mode_inv a → mode_inv a' ∧ keeps a a' ∧ env a a'.
Proof.
  intros [E1 E2 E3 E4 E5 E6 E7 E8 E9] [H1 H2 H3 H4 H5 H6]. split; [|split; split; try done].
  - split; rewrite ?E1, ?E2, ?E3, ?E4, ?E6, ?E8; try done; intros n Hn; [specialize (H5 n Hn)|specialize (H6 n Hn)]; lia.
  - by rewrite E6.
  - by rewrite E6.
  - by rewrite E8.
Qed.

Lemma wp_quiet f k Q a :
  (∀ b, same_mode b (f b)) → (∀ b, env a b → mode_inv b → wp k Q b) → wp (act f k) Q a.
Proof.
  intros Hf Hk. apply wp_act. intros b Hb Hi.
  destruct (same_mode_inv _ _ (Hf b) Hi) as (Hi' & Hkp & He). split_and!; try done.
  apply Hk; [by eapply env_trans|done].
Qed.

Lemma wp_unless c stop go Q a :
  (∀ b, env a b → mode_inv b → wp stop Q b) → (∀ b, env a b → mode_inv b → wp go Q b) → wp (unless c stop go) Q a.
Proof. intros Hs Hg. apply wp_look. intros b Hb Hi. destruct (Err c b); auto. Qed.

(** The context is over: nothing more. *)
Lemma wp_stop c e go a :
  settled a → (∀ b, env a b → mode_inv b → settled b → wp go settled b) → wp (unless c (Ret e) go) settled a.
Proof.
  intros Hs Hg. apply wp_unless; intros b Hb Hi; assert (settled b) by (by eapply settled_env);
    [by apply wp_settled|by apply Hg].
Qed.

Lemma env_set_lock m lock a : env a (set_lock m lock a) ∧ (mode_inv a → mode_inv (set_lock m lock a)).
Proof. split; [by split|]. intros [H1 H2 H3 H4 H5 H6]. by split. Qed.

(** What tells a session, or an agent, to stop and waits for it. *)
Lemma wp_stop_session n g k Q a :
  (∀ b, env a b → mode_inv b → wp k Q b) → wp (stop_session n g k) Q a.
Proof.
  intros Hk. apply wp_quiet; [done|]. intros b Hb _. cbn [wp]. intros d Hd Hid _. apply Hk; [by eapply env_trans|done].
Qed.

Lemma wp_close_agent n k Q a : (∀ b, env a b → mode_inv b → wp k Q b) → wp (close_agent n k) Q a.
Proof.
  intros Hk. apply wp_quiet; [done|]. intros b Hb _. cbn [wp]. intros d Hd _ _. apply wp_stop_session.
  intros e He _. cbn [wp]. intros f Hf Hif _. apply Hk; [by do 3 (eapply env_trans; [eassumption|])|done].
Qed.

Lemma wp_close_opt r k Q a :
  mode_inv a → (∀ b, env a b → mode_inv b → wp k Q b) → wp (close_opt r k) Q a.
Proof. intros Hi Hk. destruct r; [by apply wp_close_agent|by apply Hk; [apply env_refl|]]. Qed.

Lemma wp_stop_opt h k Q a :
  mode_inv a → (∀ b, env a b → mode_inv b → wp k Q b) → wp (stop_opt h k) Q a.
Proof. intros Hi Hk. destruct h; [by apply wp_stop_session|by apply Hk; [apply env_refl|]]. Qed.

Lemma wp_closed_agent n e a : settled a → wp (close_agent n (Ret e)) settled a.
Proof. intros Hs. apply wp_close_agent. intros b Hb _. apply wp_settled. by eapply settled_env. Qed.

Lemma loops_empty_mode a : mode_inv a → mode a ≠ "receiver" → loops a = ∅.
Proof.
  intros Hi Hm. apply map_empty. intros n. destruct (loops a !! n) as [c|] eqn:E; [|done].
  destruct Hm. apply (mi_loops _ Hi n). by eexists.
Qed.

Lemma env_loops_empty a b : env a b → loops a = ∅ → loops b = ∅.
Proof.
  intros He Hl. apply map_empty. intros n. destruct (loops b !! n) as [c|] eqn:E; [|done].
  destruct (en_loops _ _ He n) as [d Hd]; [by eexists|]. by rewrite Hl, lookup_empty in Hd.
Qed.

(** A section that leaves no discovery loop and the loops of distribution as they are. *)
Lemma settled_empty a b :
  settled a → loops b = ∅ → feeds b = feeds a → distributing b = distributing a → settled b.
Proof.
  intros [H1 H2] Hl Hf Hd. split; intros n.
  - intros [c Hc]. by rewrite Hl, lookup_empty in Hc.
  - rewrite Hf, Hd. apply H2.
Qed.

Lemma settled_as a b :
  settled a → loops b = loops a → discovery b = discovery a → feeds b = feeds a →
  distributing b = distributing a → settled b.
Proof. intros [H1 H2] E1 E2 E3 E4. split; rewrite ?E1, ?E2, ?E3, ?E4; done. Qed.

(** The clauses of the invariant after a section: [rw] rewrites with what is known of
    the state before it, in which the invariant is [H]. *)
Ltac mode_goals H rw :=
  let Hl := fresh "Hl" in let Hf := fresh "Hf" in let Hx := fresh "Hx" in
  pose proof (mi_next _ H) as Hl; pose proof (mi_feeds _ H) as Hf;
  pose proof (mi_hub _ H); pose proof (mi_agent _ H); pose proof (mi_src _ H); pose proof (mi_loops _ H);
  split; cbn; rw; try done;
  try (intros [? ?]; done); try (intros ? [? ?]; done);
  try (intros ? Hx; first [specialize (Hl _ Hx)|specialize (Hf _ Hx)]; lia).

(** ** The operations *)

Lemma wp_inv p Q a : wp p Q a → wp p (λ b, Q b ∧ mode_inv b) a.
Proof.
  revert a. induction p as [e|A f k IH|A k IH|l k IH|w k IH|m lock k IH]; intros a; cbn; intros Hp.
  - intros b Hb Hi. split; [by apply Hp|done].
  - intros b Hb Hi. destruct (Hp b Hb Hi) as (? & ? & ?). split_and!; try done. by apply IH.
  - intros x. by apply IH.
  - by apply IH.
  - intros b Hb Hi Hc. apply IH. by apply Hp.
  - by apply IH.
Qed.

(** One operation after another. *)
Lemma wp_then p q a :
  mode_inv a → wp p settled a → (∀ e b, mode_inv b → settled b → wp (q e) settled b) →
  wp (bind p q) settled a.
Proof.
  intros Hi Hp Hq. apply wp_bind; [done|]. apply wp_inv in Hp. revert Hp.
  apply wp_mono. intros b [Hs Hb] e. by apply Hq.
Qed.

(** With a mutex held. *)
Lemma wp_with_lock m p a : mode_inv a → wp p settled a → wp (with_lock m p) settled a.
Proof. intros Hi Hp. change (wp (bind p (λ e, Mutex m false (Ret e))) settled a). apply wp_then; [done..|]. intros e b _ Hs. by apply (wp_settled e). Qed.

Lemma ensureSender_ok c listen a : mode_inv a → settled a → wp (ensureSender c listen) settled a.
Proof.
  intros Hi Hs. apply wp_with_lock; [done|]. apply wp_look. intros b Hb Hib.
  assert (settled b) as Hsb by by eapply settled_env.
  destruct (closed b); [by apply wp_settled|].
  destruct (String.eqb_spec (mode b) "receiver") as [|Hm]; [by apply wp_settled|].
  destruct (hub b) as [h|] eqn:Hh; [by apply wp_settled|].
  pose proof (loops_empty_mode _ Hib Hm) as Hl. cbn [wp]. intros started. destruct started; [|by apply wp_settled].
  cbn [negb wp]. intros x Hx Hix. cbn [fst snd].
  assert (same_mode x (work (next_id x) Sending (fresh x))) as Hsm by (split; cbn; try done; lia).
  destruct (same_mode_inv _ _ Hsm Hix) as (Hiy & Hkp & Hy). split_and!; [done|done|].
  set (y := work _ _ _) in *. assert (env b y) as Hby by by eapply env_trans.
  intros published. apply wp_unless; intros z Hz Hiz; assert (env b z) as Hbz by by eapply env_trans.
  { apply wp_stop_session. intros v Hv _. apply wp_settled. eapply settled_env; [exact Hsb|by eapply env_trans]. }
  apply wp_act. intros d Hed Hid. assert (env b d) as Hd by by eapply env_trans.
  pose proof (env_loops_empty _ _ Hd Hl) as Hld.
  assert (agent_of d = None) as Ha.
  { destruct (agent_of d) eqn:E; [|done]. exfalso. apply Hm. rewrite <-(en_mode _ _ Hd).
    apply (mi_agent _ Hid). by rewrite E. }
  assert (src d = None) as Hsrc.
  { destruct (src d) eqn:E; [|done]. apply (mi_src _ Hid) in E. rewrite (en_hub _ _ Hd) in E. congruence. }
  split; [|split].
  - mode_goals Hid ltac:(rewrite ?Ha, ?Hsrc, ?Hld).
  - split; cbn; try done; lia.
  - apply wp_settled, (settled_empty d); [by eapply settled_env|done..].
Qed.

Lemma wp_andthen p q a :
  mode_inv a → wp p settled a → (∀ b, mode_inv b → settled b → wp q settled b) →
  wp (andthen p q) settled a.
Proof.
  intros Hi Hp Hq. apply wp_then; [done..|]. intros [e|] b Hb Hs; [by apply wp_settled|by apply Hq].
Qed.

Lemma not_sender a : mode_inv a → mode a ≠ "sender" → hub a = None ∧ src a = None.
Proof.
  intros Hi Hm. assert (hub a = None) as Hh.
  { destruct (hub a) eqn:E; [|done]. destruct (mi_hub _ Hi) as [_ ?]; [by rewrite E|done]. }
  split; [done|]. destruct (src a) as [s|] eqn:E; [|done]. apply (mi_src _ Hi) in E. congruence.
Qed.

Lemma has_hub a h : mode_inv a → hub a = Some h → agent_of a = None ∧ mode a = "sender" ∧ loops a = ∅.
Proof.
  intros Hi Hh. destruct (mi_hub _ Hi) as [Ha Hm]; [by rewrite Hh|]. split_and!; try done.
  apply loops_empty_mode; [done|]. by rewrite Hm.
Qed.

Lemma startSource_ok x path listen a : mode_inv a → settled a → wp (startSource x path listen) settled a.
Proof.
  intros Hi Hs. unfold startSource. apply wp_look. intros b Hb Hib.
  assert (settled b) as Hsb by by eapply settled_env.
  destruct (String.eqb_spec (mode b) "receiver") as [|Hm]; [by apply wp_settled|].
  destruct (src b) as [s|]; [by apply wp_settled|]. cbn [wp]. intros [data|]; [|by apply wp_settled].
  cbn [wp]. intros [|]; [cbn [negb]|by apply wp_settled].
  apply wp_andthen; [done|by apply ensureSender_ok|]. intros c Hic Hsc. apply wp_look.
  intros d Hd Hid. assert (settled d) as Hsd by by eapply settled_env.
  destruct (hub d) as [ses|] eqn:Hh; [|by apply wp_settled].
  cbn [wp]. intros [|]; [cbn [negb]|by apply wp_settled]. intros generation.
  apply wp_stop; [done|]. intros g Hg Hig Hsg. rewrite <-(en_hub _ _ Hg) in Hh.
  apply wp_act. intros f Hf Hif. rewrite <-(en_hub _ _ Hf) in Hh.
  destruct (has_hub _ _ Hif Hh) as (Ha & Hmf & Hl).
  split_and!.
  - mode_goals Hif ltac:(rewrite ?Ha, ?Hl). by intros ? [= <-].
  - split; cbn; try done; lia.
  - apply wp_settled, (settled_empty f); [by eapply settled_env|done..].
Qed.

Lemma stopDistribution_ok a :
  mode_inv a → settled a → wp stopDistribution (λ b, settled b ∧ feeds b = ∅ ∧ distributing b = None) a.
Proof.
  intros Hi Hs. unfold stopDistribution. cbn [wp]. intros b Hb Hib. cbn [fst snd].
  assert (settled b) as Hsb by by eapply settled_env.
  set (b' := set_distribution _ _ b).
  assert (∀ d, env b' d → feeds d = ∅ → settled d ∧ feeds d = ∅ ∧ distributing d = None) as Hend.
  { intros d Hd Hf. split_and!; [|done|apply (en_distributing _ _ Hd)]. split; intros n.
    - intros Hn. rewrite (en_discovery _ _ Hd). apply (st_loops _ Hsb), (en_loops _ _ Hd), Hn.
    - intros [f Hn]. by rewrite Hf, lookup_empty in Hn. }
  assert (mode_inv b') as Hi' by (destruct Hib as [H1 H2 H3 H4 H5 H6]; by split).
  assert (∀ d m, env b' d → feeds d !! m ≠ None → distributing b = Some m) as Hfeed.
  { intros d m Hd Hm. apply (st_feeds _ Hsb), (en_feeds _ _ Hd). by apply not_eq_None_Some. }
  split_and!; [done|by split|]. destruct (distributing b) as [n|] eqn:Hn.
  - apply wp_quiet; [done|]. intros y Hy _. cbn [wp]. intros d Hd Hid Hdn x Hx Hix.
    apply Hend; [by do 2 (eapply env_trans; [eassumption|])|].
    apply map_empty. intros m. destruct (feeds x !! m) as [f|] eqn:E; [|done]. exfalso.
    assert (is_Some (feeds d !! m)) as Hm by (apply (en_feeds _ _ Hx); by eexists).
    assert (Some n = Some m) as [= <-]
      by (eapply Hfeed; [by eapply env_trans; [exact Hy|exact Hd]|]; by apply not_eq_None_Some).
    apply bool_decide_eq_true in Hdn. rewrite Hdn in Hm. by destruct Hm.
  - intros d Hd Hid. apply Hend; [done|]. apply map_empty. intros m.
    destruct (feeds d !! m) as [f|] eqn:E; [|done]. exfalso.
    assert (None = Some m) by (eapply Hfeed; [exact Hd|congruence]). done.
Qed.

Lemma wp_weaken p (R : App → Prop) a : wp p (λ b, settled b ∧ R b) a → wp p settled a.
Proof. apply wp_mono. by intros b []. Qed.

Lemma pauseDistribution_ok a : settled a → wp pauseDistribution settled a.
Proof.
  intros Hs. apply wp_quiet; [done|]. intros b Hb _. apply wp_settled. by eapply settled_env.
Qed.

Lemma stopFile_ok a : mode_inv a → settled a → wp stopFile settled a.
Proof.
  intros Hi Hs. apply wp_then; [done|by eapply wp_weaken, stopDistribution_ok|]. intros _ b Hib Hsb.
  apply wp_act. intros d Hd Hid. split_and!.
  - destruct Hid as [H1 H2 H3 H4 H5 H6]. by split.
  - by split.
  - apply wp_settled, (settled_as d); [by eapply settled_env|done..].
Qed.

Lemma startAgent_at_ok x c addr a : mode a ≠ "sender" → settled a → wp (startAgent_at x c addr) settled a.
Proof.
  intros Hm Hs. apply wp_stop; [done|]. intros b Hb Hib Hsb. apply wp_look.
  intros e He Hie. assert (settled e) as Hse by by eapply settled_env.
  cbn [wp]. intros [root|]; [|by apply wp_settled]. cbn [wp]. intros y Hy Hiy. cbn [fst snd].
  assert (same_mode y (fresh (fresh y))) as Hsm by (split; cbn; try done; lia).
  destruct (same_mode_inv _ _ Hsm Hiy) as (Hiz & Hkp & Hz). split_and!; [done|done|].
  assert (env e (fresh (fresh y))) as Hez by by eapply env_trans. set (n := next_id y). set (z := fresh (fresh y)) in *.
  assert (settled z) as Hsz by by eapply settled_env. clearbody n z. cbv zeta.
  cbn [wp]. intros [|]; cbn [negb]; [|by apply wp_closed_agent].
  apply wp_quiet; [done|]. intros v Hv _. assert (settled v) as Hsv by by eapply settled_env.
  cbn [wp]. intros [|]; cbn [negb]; [|by apply wp_closed_agent].
  cbn [wp]. intros [|]; cbn [negb]; [|by apply wp_closed_agent].
  apply wp_unless; intros g Hg Hig; assert (settled g) as Hsg by (by eapply settled_env); [by apply wp_closed_agent|].
  apply wp_act. intros f Hf Hif.
  assert (env b f) as Hbf by (eapply env_trans; [exact He|]; eapply env_trans; [exact Hez|];
    eapply env_trans; [exact Hv|]; by eapply env_trans).
  assert (mode f ≠ "sender") as Hmf by (by rewrite (en_mode _ _ Hbf), (en_mode _ _ Hb)).
  destruct (not_sender _ Hif Hmf) as [Hh Hsrc]. split_and!.
  - mode_goals Hif ltac:(rewrite ?Hh, ?Hsrc).
  - split; cbn; try done; lia.
  - apply wp_quiet; [done|]. intros h Hh' _. apply wp_settled. eapply settled_env; [|exact Hh'].
    apply (settled_as f); [by eapply settled_env|done..].
Qed.

Lemma startAgent_ok x c a : mode_inv a → settled a → wp (startAgent x c) settled a.
Proof.
  intros Hi Hs. apply wp_with_lock; [done|]. cbn [wp]. intros b Hb Hib.
  assert (settled b) as Hsb by by eapply settled_env.
  destruct (String.eqb_spec (mode b) "sender") as [|Hm]; cbn [fst snd negb].
  { split_and!; [done|apply keeps_refl|by apply wp_settled]. }
  assert (mode_inv (set_agent None b)) as Hib'
    by (destruct Hib as [H1 H2 H3 H4 H5 H6]; split; cbn; try done; naive_solver).
  split_and!; [done|by split|]. assert (settled (set_agent None b)) as Hs' by by apply (settled_as b).
  apply wp_close_opt; [done|]. intros d Hd _. assert (settled d) as Hsd by by eapply settled_env.
  assert (mode d ≠ "sender") as Hmd by (by rewrite (en_mode _ _ Hd)).
  destruct (_ || _).
  - cbn [wp]. intros [addr|]; [by apply startAgent_at_ok|by apply wp_settled].
  - by apply startAgent_at_ok.
Qed.

(** After [stopDiscovery] there is no loop. *)
Lemma stopDiscovery_wp k (Q : App → Prop) a :
  mode_inv a → settled a →
  (∀ b, mode_inv b → settled b → loops b = ∅ → discovery b = None → mode b = mode a →
    (feeds a = ∅ → feeds b = ∅) → wp k Q b) →
  wp (stopDiscovery k) Q a.
Proof.
  intros Hi Hs Hk. unfold stopDiscovery. cbn [wp]. intros b Hb Hib. cbn [fst snd].
  assert (settled b) as Hsb by by eapply settled_env.
  set (b' := set_discovery None _ _ b). assert (same_services : mode_inv b').
  { destruct Hib as [H1 H2 H3 H4 H5 H6]. by split. }
  assert (∀ d, env b' d → mode_inv d → loops d = ∅ →
    wp (act (λ x, set_discovery (discovery x) "自动发现已停止" (loops x) x) k) Q d) as Hrest.
  { intros d Hd Hid Hl. apply wp_act. intros e He Hie.
    assert (loops e = ∅) as Hle by by eapply env_loops_empty.
    assert (env b' e) as Hbe by by eapply env_trans.
    assert (mode_inv (set_discovery (discovery e) "自动发现已停止" (loops e) e)) as Hie'
      by (destruct Hie as [H1 H2 H3 H4 H5 H6]; by split).
    split_and!; [done|by split|]. apply Hk; try done.
    - split; cbn; intros n; [intros [c Hc]; by rewrite Hle, lookup_empty in Hc|]. intros Hn.
      rewrite (en_distributing _ _ Hbe). apply (st_feeds _ Hsb), (en_feeds _ _ Hbe), Hn.
    - apply (en_discovery _ _ Hbe).
    - change (mode e = mode a). rewrite (en_mode _ _ Hbe). apply (en_mode _ _ Hb).
    - intros Hf. apply map_empty. intros m. destruct (feeds (set_discovery _ _ _ e) !! m) as [f|] eqn:E; [|done].
      destruct (en_feeds _ _ Hbe m) as [g Hg]; [by exists f|].
      destruct (en_feeds _ _ Hb m) as [h Hh]; [by exists g|]. by rewrite Hf, lookup_empty in Hh. }
  split_and!; [done|by split|]. destruct (discovery b) as [n|] eqn:Hd.
  - apply wp_quiet; [done|]. intros y Hy _. cbn [wp]. intros d Hyd Hid Hn.
    assert (env b' d) as Hbd by by eapply env_trans. apply Hrest; [done..|]. apply map_empty. intros m.
    destruct (loops d !! m) as [c|] eqn:E; [|done]. exfalso.
    assert (is_Some (loops b !! m)) as Hm by (apply (en_loops _ _ Hbd); by eexists).
    apply (st_loops _ Hsb) in Hm. rewrite Hd in Hm. injection Hm as <-. apply bool_decide_eq_true in Hn. congruence.
  - apply Hrest; [apply env_refl|done|]. apply map_empty. intros m. cbn.
    destruct (loops b !! m) as [c|] eqn:E; [|done]. exfalso.
    assert (is_Some (loops b !! m)) as Hm by (by eexists). apply (st_loops _ Hsb) in Hm. congruence.
Qed.

Lemma stopDiscovery_ok k a :
  mode_inv a → settled a →
  (∀ b, mode_inv b → settled b → loops b = ∅ → discovery b = None → mode b = mode a → wp k settled b) →
  wp (stopDiscovery k) settled a.
Proof. intros Hi Hs Hk. apply stopDiscovery_wp; auto. Qed.

Lemma startDiscovery_ok c a : mode_inv a → settled a → wp (startDiscovery c) settled a.
Proof.
  intros Hi Hs. unfold startDiscovery. apply wp_look. intros b Hb Hib.
  assert (settled b) as Hsb by by eapply settled_env.
  destruct (closed b); [by apply wp_settled|].
  destruct (String.eqb_spec (mode b) "sender") as [|Hm]; [by apply wp_settled|].
  apply stopDiscovery_ok; [done..|]. intros d Hid Hsd Hl Hd Hmd. cbn [wp]. intros e He Hie.
  assert (loops e = ∅) as Hle by by eapply env_loops_empty.
  destruct (closed e); cbn [fst snd].
  { split_and!; [done|apply keeps_refl|by apply settled_now; eapply settled_env]. }
  assert (mode e ≠ "sender") as Hme by (by rewrite (en_mode _ _ He), Hmd).
  destruct (not_sender _ Hie Hme) as [Hh Hsrc]. split_and!.
  - mode_goals Hie ltac:(rewrite ?Hh, ?Hsrc, ?Hle).
    intros n [x Hx]. apply lookup_insert_Some in Hx. destruct Hx as [[<- _]|[_ Hx]]; [lia|done].
  - split; cbn; rewrite ?Hle; try done; lia.
  - apply settled_now. split; cbn; intros n.
    + rewrite Hle. intros [x Hx]. apply lookup_insert_Some in Hx. by destruct Hx as [[<- _]|[_ Hx]].
    + intros Hn. rewrite (en_distributing _ _ He). apply (st_feeds _ Hsd), (en_feeds _ _ He), Hn.
Qed.

Lemma stopRole_ok role a : mode_inv a → settled a → wp (stopRole role) settled a.
Proof.
  intros Hi Hs. unfold stopRole. destruct (String.eqb role "sender").
  - apply wp_then; [done|by eapply wp_weaken, stopDistribution_ok|]. intros _ b Hib Hsb. cbn [wp].
    intros d Hd Hid. cbn [fst snd]. set (d' := set_hub None _).
    assert (mode_inv d') as Hid'.
    { destruct Hid as [H1 H2 H3 H4 H5 H6]. split; cbn; try done; intros [? ?]; naive_solver. }
    split_and!; [done|by split|].
    assert (settled d') as Hsd by (apply (settled_as d); [by eapply settled_env|done..]).
    apply wp_stop_opt; [done|]. intros e He _. apply wp_settled. by eapply settled_env.
  - apply stopDiscovery_ok; [done..|]. intros b Hib Hsb _ _ _. apply wp_with_lock; [done|]. cbn [wp].
    intros d Hd Hid. cbn [fst snd].
    assert (mode_inv (set_agent None d)) as Hid'.
    { destruct Hid as [H1 H2 H3 H4 H5 H6]. split; cbn; try done; naive_solver. }
    split_and!; [done|by split|].
    assert (settled (set_agent None d)) by (apply (settled_as d); [by eapply settled_env|done..]).
    destruct (agent_of d); [|by apply wp_settled]. apply wp_close_agent. intros e He _. cbn [wp]. intros tasks.
    apply wp_quiet; [done|]. intros v Hv _. apply wp_settled. eapply settled_env; [|exact Hv]. by eapply settled_env.
Qed.

Lemma selectMode_ok m a : mode_inv a → settled a → wp (selectMode m) settled a.
Proof.
  intros Hi Hs. unfold selectMode. destruct (negb _); [by apply wp_settled|]. cbn [wp].
  intros b Hb Hib. assert (settled b) as Hsb by by eapply settled_env.
  destruct (hub b) as [?|] eqn:Hh; [by split_and!; [|apply keeps_refl|apply wp_settled]|].
  destruct (src b) as [?|] eqn:Hsrc; [by split_and!; [|apply keeps_refl|apply wp_settled]|].
  destruct (agent_of b) as [?|] eqn:Ha; [by split_and!; [|apply keeps_refl|apply wp_settled]|].
  destruct (discovery b) as [?|] eqn:Hd; [by split_and!; [|apply keeps_refl|apply wp_settled]|].
  cbn [bool_decide orb is_Some_dec fst snd decide].
  assert (loops b = ∅) as Hl.
  { apply map_empty. intros n. destruct (loops b !! n) eqn:E; [|done]. exfalso.
    assert (is_Some (loops b !! n)) as Hn by by eexists. apply (st_loops _ Hsb) in Hn. congruence. }
  match goal with |- mode_inv ?x ∧ _ => set (b' := x) end.
  assert (mode_inv b') as Hib'.
  { mode_goals Hib ltac:(rewrite ?Hh, ?Ha, ?Hsrc, ?Hl). }
  assert (settled b') as Hsb' by by apply (settled_as b).
  split_and!; [done|by split|].
  destruct (String.eqb m "receiver"); [by apply startDiscovery_ok|].
  destruct (String.eqb m "sender"); [by apply ensureSender_ok|by apply wp_settled].
Qed.

(** Everything is closed. *)
Record stopped (a : App) : Prop := {
  sp_hub : hub a = None;
  sp_src : src a = None;
  sp_agent : agent_of a = None;
  sp_loops : loops a = ∅;
  sp_feeds : feeds a = ∅;
}.

Lemma stopped_env a a' : stopped a → env a a' → stopped a'.
Proof.
  intros [H1 H2 H3 H4 H5] He. pose proof (env_loops_empty _ _ He H4). destruct He. split; try congruence.
  - by rewrite en_agent0.
  - apply map_empty. intros n. destruct (feeds a' !! n) as [f|] eqn:E; [|done].
    destruct (en_feeds0 n) as [g Hg]; [by eexists|]. by rewrite H5, lookup_empty in Hg.
Qed.

Lemma stopped_settled a : stopped a → settled a.
Proof. intros []. split; intros n [? H]; [by rewrite sp_loops0 in H|by rewrite sp_feeds0 in H]. Qed.

Lemma close_rest_ok a : mode_inv a → settled a → wp close_rest stopped a.
Proof.
  intros Hi Hs. apply wp_bind; [done|]. apply (wp_mono _ (λ b, (settled b ∧ feeds b = ∅ ∧ distributing b = None) ∧ mode_inv b)).
  2:{ by apply wp_inv, stopDistribution_ok. }
  intros b [(Hsb & Hf & _) Hib] _. apply stopDiscovery_wp; [done..|]. intros d Hid Hsd Hl _ _ Hfd e He Hie.
  specialize (Hfd Hf). pose proof (env_loops_empty _ _ He Hl) as Hle.
  assert (feeds e = ∅) as Hfe.
  { apply map_empty. intros m. destruct (feeds e !! m) as [f|] eqn:E; [|done].
    destruct (en_feeds _ _ He m) as [g Hg]; [by eexists|]. by rewrite Hfd, lookup_empty in Hg. }
  cbn [fst snd]. set (e' := set_src None _).
  assert (mode_inv e') as Hie' by (destruct Hie as [H1 H2 H3 H4 H5 H6]; split; cbn; try done; intros [? ?]; done).
  split_and!; [done|by split|]. assert (stopped e') as Hst by by split.
  apply wp_close_opt; [done|]. intros x Hx Hix. apply wp_stop_opt; [done|]. intros y Hy _. cbn [wp].
  intros z Hz _. eapply stopped_env; [|exact Hz]. eapply stopped_env; [|exact Hy]. by eapply stopped_env.
Qed.

(** ** Programs that only talk to receivers *)

(** A section that leaves the services, and only ends loops of distribution. *)
Definition side_section {A} (f : App → A * App) : Prop :=
  ∀ a, mode_inv a → mode_inv (f a).2 ∧ env a (f a).2 ∧ loops (f a).2 = loops a.

Fixpoint side (p : prog) : Prop :=
  match p with
  | Ret _ => True
  | Sect A f k => side_section f ∧ ∀ x, side (k x)
  | Ask A k => ∀ x, side (k x)
  | Tell l k => side k
  | Await w k => side k
  | Mutex m lock k => side k
  end.

Lemma side_wp p a : side p → settled a → wp p settled a.
Proof.
  revert a. induction p as [e|A f k IH|A k IH|l k IH|w k IH|m lock k IH]; intros a; cbn; intros Hp Hs.
  - intros b Hb _. by eapply settled_env.
  - intros b Hb Hib. destruct Hp as [Hf Hk]. destruct (Hf b Hib) as (Hi' & He & Hl).
    split_and!; [done|split; [by rewrite Hl|apply (en_next _ _ He)]|].
    apply IH; [done|]. eapply settled_env; [|done]. by eapply settled_env.
  - intros x. by apply IH.
  - by apply IH.
  - intros b Hb Hib _. apply IH; [done|]. by eapply settled_env.
  - by apply IH.
Qed.

Lemma side_look {A} (f : App → A) k : (∀ x, side (k x)) → side (look f k).
Proof. intros Hk. split; [|done]. intros a Hi. split_and!; [done|apply env_refl|done]. Qed.

Lemma side_unless c stop go : side stop → side go → side (unless c stop go).
Proof. intros Hs Hg. apply side_look. by intros [|]. Qed.

Lemma side_act f k : (∀ b, same_mode b (f b)) → side k → side (act f k).
Proof.
  intros Hf Hk. split; [|done]. intros a Hi. destruct (same_mode_inv _ _ (Hf a) Hi) as (? & _ & ?).
  split_and!; [done..|]. apply (sm_loops _ _ (Hf a)).
Qed.

Lemma side_bind p q : side p → (∀ e, side (q e)) → side (bind p q).
Proof.
  induction p as [e|A f k IH|A k IH|l k IH|w k IH|m lock k IH]; cbn; intros Hp Hq; [auto|naive_solver|auto..].
Qed.

Lemma side_store_all l command k : side k → side (store_all l command k).
Proof. intros Hk. induction l as [|p l IH]; [done|]. apply side_act; [done|exact IH]. Qed.

Lemma side_spec d k : (∀ s sp fp, side (k s sp fp)) → side (spec d k).
Proof. intros Hk. apply side_look. intros [s|]; [intros meta; apply Hk|done]. Qed.

Lemma side_monitor rounds c commands peers : side (monitor rounds c commands peers).
Proof.
  revert peers. induction rounds as [|rounds IH]; intros peers; [done|]. cbn [monitor].
  apply side_unless; [done|]. intros t call. apply side_store_all. destruct (forallb _ _); [done|].
  destruct (negb _); [done|]. by apply side_unless.
Qed.

Lemma side_probe c d : side (probe c d).
Proof.
  apply side_spec. intros s sp fp. destruct (bool_decide _); [done|]. intros peers t call.
  destruct (negb _); [done|]. apply side_unless; [done|]. apply side_act; [done|]. by apply side_act.
Qed.

Lemma side_dispatch rounds c d : side (dispatch rounds c d).
Proof.
  apply side_spec. intros s sp fp. apply side_look. intros [[[|] valid] ps]; [done|].
  destruct (negb valid); [done|]. intros id t call. cbv zeta. destruct (negb _); [done|]. apply side_unless; [done|]. apply side_act; [done|].
  destruct (_ =? 0); [done|apply side_monitor].
Qed.

Lemma side_command rounds c d : side (command rounds c d).
Proof.
  apply side_look. intros [h|]; [|done]. destruct (bool_decide _); [done|]. intros id peers call.
  cbv beta zeta. destruct (bool_decide (command_peers _ _ _ _ = ∅)); [done|].
  apply side_store_all, side_monitor.
Qed.

Lemma side_feed_end n : side (feed_end n).
Proof.
  split; [|done]. intros a [H1 H2 H3 H4 H5 H6]. cbn. split_and!; [| |done].
  - split; cbn; try done. intros m [f Hf]. apply lookup_delete_Some in Hf as [_ Hf]. apply H6. by eexists.
  - split; cbn; try done. intros m [f Hf]. apply lookup_delete_Some in Hf as [_ Hf]. by eexists.
Qed.

Lemma side_distributionLoop rounds n f members : side (distributionLoop rounds n f members).
Proof.
  pose proof (side_feed_end n) as Hend. revert members. induction rounds as [|rounds IH]; intros members; [done|].
  cbn [distributionLoop]. apply side_unless; [done|]. apply side_look. intros accepting peers an sent.
  apply side_store_all. destruct (negb _); [done|]. apply side_unless; [done|].
  apply side_act; [|by apply side_unless].
  intros b. unfold feed_note. destruct (distribution b); [|done]. by destruct (String.eqb _ _).
Qed.

Lemma startDistribution_ok d a : mode_inv a → settled a → wp (startDistribution d) settled a.
Proof.
  intros Hi Hs. unfold startDistribution, spec. apply wp_look. intros b Hb Hib.
  assert (settled b) as Hsb by by eapply settled_env.
  destruct (src b) as [s|]; [|by apply wp_settled]. intros meta. apply wp_look. intros x Hx Hix.
  assert (settled x) as Hsx by by eapply settled_env.
  set (already := match distribution x with Some y => di_Active y | None => false end).
  destruct already; [by apply wp_settled|].
  set (start := Ask string _).
  assert (∀ y, settled y → feeds y = ∅ → wp start settled y) as Hstart.
  { intros y Hy Hf id. apply wp_act. intros z Hz Hiz. cbn zeta.
    assert (feeds z = ∅) as Hfz.
    { apply map_empty. intros n. destruct (feeds z !! n) eqn:E; [|done].
      destruct (en_feeds _ _ Hz n) as [w Hw]; [by eexists|]. by rewrite Hf, lookup_empty in Hw. }
    split_and!.
    - mode_goals Hiz ltac:(rewrite ?Hfz). intros n [w Hw].
      apply lookup_insert_Some in Hw. destruct Hw as [[<- _]|[_ Hw]]; [lia|done].
    - split; cbn; try done; lia.
    - apply wp_settled. split; cbn; intros n.
      + intros Hn. rewrite (en_discovery _ _ Hz). apply (st_loops _ Hy), (en_loops _ _ Hz), Hn.
      + rewrite Hfz. intros [w Hw]. apply lookup_insert_Some in Hw. by destruct Hw as [[<- _]|[_ Hw]]. }
  destruct (bool_decide_reflect (is_Some (distributing x))) as [_|Hn].
  - apply wp_bind; [done|]. pose proof (stopDistribution_ok x Hix Hsx) as Hp. revert Hp. apply wp_mono.
    intros y (Hy & Hf & _) _. by apply Hstart.
  - apply Hstart; [done|]. apply map_empty. intros n. destruct (feeds x !! n) eqn:E; [|done].
    destruct Hn. exists n. apply (st_feeds _ Hsx). by eexists.
Qed.

Lemma action_ok rounds r fn x a : action rounds r = Some fn → mode_inv a → settled a → wp (fn x) settled a.
Proof.
  intros Hp Hi Hs. unfold action in Hp.
  repeat match type of Hp with
  | (if ?b then _ else _) = _ => destruct b
  end; try discriminate; injection Hp as <-;
    eauto using selectMode_ok, ensureSender_ok, startSource_ok, startDiscovery_ok, stopFile_ok,
      startDistribution_ok, pauseDistribution_ok, stopRole_ok, side_wp, side_probe, side_dispatch, side_command.
  - destruct (is_empty (ar_Path r)); [by apply ensureSender_ok|by apply startSource_ok].
  - apply stopDiscovery_ok; [done..|]. intros b Hib Hsb _ _ _.
    apply wp_andthen; [done|by apply startAgent_ok|]. intros. by apply startDiscovery_ok.
Qed.

Lemma command_side rounds r fn x : action rounds r = Some fn → ar_Action r = "command" → side (fn x).
Proof. unfold action. intros Hp Hc. rewrite Hc in Hp. cbn in Hp. injection Hp as <-. apply side_command. Qed.

(** ** The discovery loops *)

(** A section of the loop of channel [n] while it has not ended. *)
Definition loop_section {A} (n : Z) (f : App → A * App) : Prop :=
  ∀ a, mode_inv a → is_Some (loops a !! n) →
    mode_inv (f a).2 ∧ env a (f a).2 ∧ ∀ m, m ≠ n → loops (f a).2 !! m = loops a !! m.

(** A part of it that does not end it. *)
Fixpoint loop_part (n : Z) (p : prog) (R : option string → Prop) : Prop :=
  match p with
  | Ret e => R e
  | Sect A f k => loop_section n f ∧ (∀ a, loops (f a).2 = loops a) ∧ ∀ x, loop_part n (k x) R
  | Ask A k => ∀ x, loop_part n (k x) R
  | Tell l k => loop_part n k R
  | Await w k => loop_part n k R
  | Mutex m lock k => loop_part n k R
  end.

(** All of it: its last section removes it. *)
Fixpoint loop_ok (n : Z) (p : prog) : Prop :=
  match p with
  | Ret _ => False
  | Sect A f k => loop_section n f ∧
      ((∀ a, loops (f a).2 = loops a) ∧ (∀ x, loop_ok n (k x)) ∨ ∀ x, ∃ e, k x = Ret e)
  | Ask A k => ∀ x, loop_ok n (k x)
  | Tell l k => loop_ok n k
  | Await w k => loop_ok n k
  | Mutex m lock k => loop_ok n k
  end.

Lemma loop_bind n p q : loop_part n p (λ e, loop_ok n (q e)) → loop_ok n (bind p q).
Proof. induction p; cbn; naive_solver. Qed.

Lemma part_bind n p q R : loop_part n p (λ e, loop_part n (q e) R) → loop_part n (bind p q) R.
Proof. induction p; cbn; naive_solver. Qed.

Lemma part_quiet n f k R : (∀ b, same_mode b (f b)) → loop_part n k R → loop_part n (act f k) R.
Proof.
  intros Hf Hk. split.
  - intros a Hi _. destruct (same_mode_inv _ _ (Hf a) Hi) as (? & _ & ?). split_and!; try done.
    intros m _. cbn. by rewrite (sm_loops _ _ (Hf a)).
  - split; [|done]. intros a. apply (sm_loops _ _ (Hf a)).
Qed.

Lemma part_close_agent n m k R : loop_part n k R → loop_part n (close_agent m k) R.
Proof. intros Hk. apply part_quiet; [done|]. cbn [loop_part]. by apply part_quiet. Qed.

Lemma loop_quiet n f k : (∀ b, same_mode b (f b)) → loop_ok n k → loop_ok n (act f k).
Proof.
  intros Hf Hk. split.
  - intros a Hi _. destruct (same_mode_inv _ _ (Hf a) Hi) as (? & _ & ?). split_and!; try done.
    intros m _. cbn. by rewrite (sm_loops _ _ (Hf a)).
  - left. split; [|done]. intros a. apply (sm_loops _ _ (Hf a)).
Qed.

Lemma loop_look {A} n (f : App → A) k : (∀ x, loop_ok n (k x)) → loop_ok n (look f k).
Proof. intros Hk. split; [|by left]. intros a Hi _. by split_and!; try apply env_refl. Qed.

Lemma loop_unless n c stop go : loop_ok n stop → loop_ok n go → loop_ok n (unless c stop go).
Proof. intros Hs Hg. apply loop_look. by intros [|]. Qed.

Lemma part_unless n c (R : option string → Prop) stop go :
  loop_part n stop R → loop_part n go R → loop_part n (unless c stop go) R.
Proof.
  intros Hs Hg. split; [|split; [done|by intros [|]]].
  intros a Hi _. by split_and!; try apply env_refl.
Qed.

Lemma loop_end_ok n : loop_ok n (loop_end n).
Proof.
  split; [|right; by eexists]. intros a [H1 H2 H3 H4 H5 H6] _. cbn. split_and!.
  - split; cbn; try done; intros m [c Hc]; apply lookup_delete_Some in Hc; destruct Hc; eauto.
  - split; cbn; try done. intros m [c Hc]. apply lookup_delete_Some in Hc. naive_solver.
  - intros m Hm. by rewrite lookup_delete_ne.
Qed.

Lemma note_ok n note k : loop_ok n k → loop_ok n (discoveryNote note k).
Proof. by apply loop_quiet. Qed.

Lemma loop_alive a n : is_Some (loops a !! n) → loops a ≠ ∅.
Proof. intros [c Hc] Hl. by rewrite Hl, lookup_empty in Hc. Qed.

Lemma startAgent_at_part n x c addr (R : option string → Prop) :
  (∀ e, R e) → loop_part n (startAgent_at x c addr) R.
Proof.
  intros HR. apply part_unless; [apply HR|]. cbn [loop_part look]. split_and!; [|done|].
  { intros a Hi _. by split_and!; try apply env_refl. }
  intros _ [root|]; [|apply HR]. cbn [loop_part]. split_and!; [|done|].
  { intros a Hi _. assert (same_mode a (fresh (fresh a))) as Hsm by (split; cbn; try done; lia).
    destruct (same_mode_inv _ _ Hsm Hi) as (? & _ & ?). by split_and!. }
  intros m. cbv zeta. assert (∀ e, loop_part n (close_agent m (Ret e)) R) as Hfail by (intros; by apply part_close_agent, HR).
  cbn [loop_part]. intros [|]; cbn [negb]; [|apply Hfail]. apply part_quiet; [done|].
  do 2 (cbn [loop_part]; intros [|]; cbn [negb]; [|apply Hfail]).
  apply part_unless; [apply Hfail|]. split_and!; [|done|intros _; by apply part_quiet, HR].
  intros a Hi Hn. pose proof (mi_loops _ Hi n Hn) as Hm.
  destruct (not_sender a Hi) as [Hh Hsrc]; [by rewrite Hm|]. cbn.
  split_and!; [|split; cbn; try done; [intros Hl; by apply loop_alive in Hn]|done].
  mode_goals Hi ltac:(rewrite ?Hh, ?Hsrc).
Qed.

Lemma startAgent_part n x c (R : option string → Prop) : (∀ e, R e) → loop_part n (startAgent x c) R.
Proof.
  intros HR. unfold startAgent, with_lock. cbn [loop_part]. apply part_bind. cbn [loop_part].
  split_and!.
  - intros a Hi Hn. pose proof (mi_loops _ Hi n Hn) as Hm. rewrite Hm. cbn. split_and!; try done.
    + destruct Hi as [H1 H2 H3 H4 H5 H6]. split; cbn; try done; naive_solver.
    + split; cbn; try done. intros Hl. by apply loop_alive in Hn.
  - intros a. by destruct (String.eqb _ _).
  - intros [[|] r]; cbn [negb loop_part]; [|apply HR]. 
    match goal with |- loop_part n (close_opt r ?k) ?S => assert (loop_part n k S) as Hk end.
    { destruct (_ || _); [|by apply startAgent_at_part]. intros [addr|]; [by apply startAgent_at_part|apply HR]. }
    destruct r; [by apply part_close_agent|done].
Qed.

Lemma discover_rounds_ok rounds n c : loop_ok n (discover_rounds rounds n c).
Proof.
  pose proof (loop_end_ok n) as Hend. induction rounds as [|rounds IH]; [done|]. cbn [discover_rounds].
  set (again := unless (Some n) (loop_end n) (discover_rounds rounds n c)).
  assert (loop_ok n again) as Hagain by by apply loop_unless.
  apply loop_unless; [done|]. apply loop_look. intros current live.
  set (connected := match current with Some _ => live | None => false end). set (search := Ask (option string) _).
  assert (loop_ok n search) as Hsearch.
  { intros addr. apply loop_unless; [done|]. destruct connected.
    - intros healthy. apply loop_unless; [done|by apply note_ok].
    - destruct addr as [addr|]; [|by apply note_ok]. apply loop_bind, startAgent_part.
      intros [e|]; [|by apply note_ok]. apply loop_unless; [done|by apply note_ok]. }
  destruct connected; [done|by apply note_ok].
Qed.

Lemma discoverLoop_ok rounds n c : loop_ok n (discoverLoop rounds n c).
Proof.
  pose proof (discover_rounds_ok rounds n c). apply loop_look. intros [|]; [done|].
  destruct (_ && _); [|done]. apply loop_bind, startAgent_part. intros [e|]; [|done].
  apply loop_unless; [done|by apply note_ok].
Qed.

