(* ===== verification/WorldInv.v ===== *)
(** * The application as a whole

    What holds in every state the application of file Operations reaches, whatever the
    user asks for and however the goroutines interleave: the modes, the operations and
    their goroutines, and how far [Close] has come. *)

From S2P Require Import Prelude Text Json Model Session Transfer Prepare Tasks App Dispatch Web Operations Conduct WebInv.
Local Open Scope string_scope.
Local Open Scope Z_scope.

(** ** Operations and their goroutines *)

(** The goroutine of an operation: at its program, or at its last section. *)
Inductive working (fin : Z → option string → bool → App → App) (n : Z) (C : gset Z) : prog → Prop :=
| at_work q : tame_at true (Some n) C q → working fin n C (bind q (op_end fin n))
| at_end e wraps : working fin n C (act (fin n e wraps) (Ret e)).

Lemma working_mono fin n C C' p : working fin n C p → C ⊆ C' → working fin n C' p.
Proof. intros [q Hq|e wraps] HC; constructor. by eapply tame_at_mono. Qed.

Lemma not_ret_working fin n C p : working fin n C p → ¬ is_ret p.
Proof. intros [q _|e wraps] [x Hx]; [|done]. by destruct q. Qed.

Lemma bind_step a p q a' r :
  prog_step a (bind p q) a' r →
  (∃ e, p = Ret e ∧ prog_step a (q e) a' r) ∨ ∃ p', prog_step a p a' p' ∧ r = bind p' q.
Proof.
  destruct p as [e|A f k|A k|l k|w k|m lock k]; cbn; intros Hs; [left; by eexists|right..].
  - destruct Hs as [-> ->]. by eexists.
  - destruct Hs as [-> [x ->]]. by eauto.
  - destruct Hs as [-> ->]. by eexists.
  - destruct Hs as (-> & ? & ->). by eexists.
  - destruct Hs as (? & -> & ->). by eexists.
Qed.

Lemma working_step fin n a p a' p' :
  working fin n (cancelled a) p → keyed (probes a) → prog_step a p a' p' →
  (frame a a' ∧ working fin n (cancelled a') p') ∨ ∃ e wraps, a' = fin n e wraps a ∧ p' = Ret e.
Proof.
  intros [q Hq|e wraps] Hkd Hs.
  - apply bind_step in Hs as [(e & -> & [-> [wraps ->]])|(q' & Hs & ->)]; left.
    + split; [apply frame_refl|apply at_end].
    + destruct (tame_step _ _ _ _ _ _ _ Hq (reflexivity _) Hkd Hs). split; [done|]. by constructor.
  - destruct Hs as [-> ->]. right. by exists e, wraps.
Qed.

(** Of an operation or a command: idle and not running, or running in its goroutine. *)
Definition slot (fin : Z → option string → bool → App → App) (o : option Operation) (done : option Z) (a : App)
    (p : prog) : Prop :=
  (is_ret p ∧ is_running o = false) ∨
  ∃ n, done = Some n ∧ n ∈ doing a ∧ is_running o = true ∧ working fin n (cancelled a) p.

Record ops_inv (a : App) (main cmd : prog) : Prop := {
  oi_main : slot end_op (op a) (opDone a) a main;
  oi_cmd : slot end_command (commandOp a) (commandDone a) a cmd;
  oi_doing n : n ∈ doing a →
    (opDone a = Some n ∧ is_running (op a) = true) ∨ (commandDone a = Some n ∧ is_running (commandOp a) = true);
  oi_lt n : opDone a = Some n ∨ commandDone a = Some n → n < next_id a;
  oi_ne n m : opDone a = Some n → commandDone a = Some m → n ≠ m;
}.

(** What leaves the operations alone. *)
Record same_ops (a a' : App) : Prop := {
  so_op : op a' = op a ∧ opDone a' = opDone a;
  so_command : commandOp a' = commandOp a ∧ commandDone a' = commandDone a;
  so_doing : doing a' = doing a;
  so_cancelled : cancelled a ⊆ cancelled a';
  so_next : next_id a ≤ next_id a';
}.

Lemma frame_ops a a' : frame a a' → same_ops a a'.
Proof. intros []. by split. Qed.

Lemma slot_ops fin o d a a' p : slot fin o d a p → doing a' = doing a → cancelled a ⊆ cancelled a' → slot fin o d a' p.
Proof.
  intros [?|(n & ? & Hn & ? & Hw)] Hd HC; [by left|right]. exists n. rewrite Hd. split_and!; try done.
  by eapply working_mono.
Qed.

Lemma ops_same a a' m c : ops_inv a m c → same_ops a a' → ops_inv a' m c.
Proof.
  intros [H1 H2 H3 H4 H5] [[E1 E2] [E3 E4] Ed HC Hn]. split; rewrite ?E1, ?E2, ?E3, ?E4, ?Ed; try done.
  - by eapply slot_ops.
  - by eapply slot_ops.
  - intros n Hx. specialize (H4 n Hx). lia.
Qed.

Lemma ended_idle done e wraps o : is_running (ended done e wraps <$> o) = false.
Proof. destruct o as [o|]; [|done]. destruct e as [e|]; [|done]. cbn. by destruct (String.eqb e canceled || wraps). Qed.

Lemma ops_main a m c a' m' :
  ops_inv a m c → keyed (probes a) → prog_step a m a' m' →
  ops_inv a' m' c ∧ (frame a a' ∨ ∃ n e wraps, opDone a = Some n ∧ a' = end_op n e wraps a ∧ m' = Ret e).
Proof.
  intros Hi Hkd Hs. pose proof Hi as [H1 H2 H3 H4 H5].
  destruct H1 as [[[e ->] _]|(n & Hn & Hd & Hr & Hw)]; [done|].
  destruct (working_step _ _ _ _ _ _ Hw Hkd Hs) as [[Hf Hw']|(e & wraps & -> & ->)].
  - split; [|by left]. destruct (ops_same _ _ _ _ Hi (frame_ops _ _ Hf)) as [K1 K2 K3 K4 K5].
    split; try done. destruct Hf. right. exists n. rewrite (proj1 fr_op), (proj2 fr_op), fr_doing. done.
  - split; [|right; by exists n, e, wraps]. split; cbn; try done.
    + left. split; [by eexists|apply ended_idle].
    + destruct H2 as [?|(k & Hk & Hdk & ? & Hkw)]; [by left|right]. exists k.
      split_and!; try done; [apply elem_of_difference; split; [done|]; specialize (H5 n k Hn Hk); set_solver|].
      eapply working_mono; [done|]. cbn. set_solver.
    + intros k [Hk Hkn]%elem_of_difference. right. destruct (H3 k Hk) as [[Hk' _]|?]; [|done].
      rewrite Hn in Hk'. injection Hk' as <-. set_solver.
Qed.

Lemma ops_cmd a m c a' c' :
  ops_inv a m c → keyed (probes a) → prog_step a c a' c' →
  ops_inv a' m c' ∧ (frame a a' ∨ ∃ n e wraps, commandDone a = Some n ∧ a' = end_command n e wraps a ∧ c' = Ret e).
Proof.
  intros Hi Hkd Hs. pose proof Hi as [H1 H2 H3 H4 H5].
  destruct H2 as [[[e ->] _]|(n & Hn & Hd & Hr & Hw)]; [done|].
  destruct (working_step _ _ _ _ _ _ Hw Hkd Hs) as [[Hf Hw']|(e & wraps & -> & ->)].
  - split; [|by left]. destruct (ops_same _ _ _ _ Hi (frame_ops _ _ Hf)) as [K1 K2 K3 K4 K5].
    split; try done. destruct Hf. right. exists n. rewrite (proj1 fr_command), (proj2 fr_command), fr_doing. done.
  - split; [|right; by exists n, e, wraps]. split; cbn; try done.
    + destruct H1 as [?|(k & Hk & Hdk & ? & Hkw)]; [by left|right]. exists k.
      split_and!; try done; [apply elem_of_difference; split; [done|]; specialize (H5 k n Hk Hn); set_solver|].
      eapply working_mono; [done|]. cbn. set_solver.
    + left. split; [by eexists|apply ended_idle].
    + intros k [Hk Hkn]%elem_of_difference. left. destruct (H3 k Hk) as [?|[Hk' _]]; [done|].
      rewrite Hn in Hk'. injection Hk' as <-. set_solver.
Qed.

Lemma ops_begin a m c kind id now n a' fn :
  ops_inv a m c → begin kind id now a = (inr n, a') → tame true (Some n) (fn (Some n)) →
  is_ret m ∧ closed a = false ∧ same_mode a a' ∧ closed a' = false ∧ cancelled a' = cancelled a ∧
  probes a' = probes a ∧ ops_inv a' (operation n fn) c.
Proof.
  intros [H1 H2 H3 H4 H5] Hb Ht. unfold begin in Hb. destruct (closed a) eqn:Hc; [done|].
  destruct (is_running (op a)) eqn:Hr; [done|]. injection Hb as <- <-.
  assert (is_ret m) as Hm by (destruct H1 as [[? _]|(? & _ & _ & ? & _)]; [done|congruence]).
  split_and!; [done|done| |done|done|done|].
  - split; cbn; try done; lia.
  - split; cbn.
    + right. exists (next_id a). split_and!; [done|set_solver|done|]. by apply at_work.
    + destruct H2 as [?|(k & Hk & Hdk & ? & Hkw)]; [by left|right]. exists k. split_and!; try done. set_solver.
    + intros k [->%elem_of_singleton|Hk]%elem_of_union; [by left|]. right.
      destruct (H3 k Hk) as [[_ ?]|?]; [congruence|done].
    + intros k [[= <-]|Hk]; [lia|]. specialize (H4 k (or_intror Hk)). lia.
    + intros k j [= <-] Hj. specialize (H4 j (or_intror Hj)). lia.
Qed.

Lemma ops_begin_command a m c id now n a' fn :
  ops_inv a m c → beginCommand id now a = (inr n, a') → tame true (Some n) (fn (Some n)) →
  is_ret c ∧ closed a = false ∧ same_mode a a' ∧ closed a' = false ∧ cancelled a' = cancelled a ∧
  probes a' = probes a ∧ ops_inv a' m (command_operation n fn).
Proof.
  intros [H1 H2 H3 H4 H5] Hb Ht. unfold beginCommand in Hb. destruct (closed a) eqn:Hc; [done|].
  destruct (is_running (commandOp a)) eqn:Hr; [done|]. injection Hb as <- <-.
  assert (is_ret c) as Hm by (destruct H2 as [[? _]|(? & _ & _ & ? & _)]; [done|congruence]).
  split_and!; [done|done| |done|done|done|].
  - split; cbn; try done; lia.
  - split; cbn.
    + destruct H1 as [?|(k & Hk & Hdk & ? & Hkw)]; [by left|right]. exists k. split_and!; try done. set_solver.
    + right. exists (next_id a). split_and!; [done|set_solver|done|]. by apply at_work.
    + intros k [->%elem_of_singleton|Hk]%elem_of_union; [by right|]. left.
      destruct (H3 k Hk) as [?|[_ ?]]; [done|congruence].
    + intros k [Hk|[= <-]]; [|lia]. specialize (H4 k (or_introl Hk)). lia.
    + intros k j Hk [= <-]. specialize (H4 k (or_introl Hk)). lia.
Qed.

(** ** How far [Close] has come *)

Definition both_over (a : App) : Prop := ∀ n, opDone a = Some n ∨ commandDone a = Some n → n ∈ cancelled a.

(** Not closed, or waiting for the operation, then for the command, both cancelled. *)
Definition before (w : World) : Prop :=
  let a := w_app w in
  (closed a = false ∧ (is_ret (w_close w) ∨ w_close w = Close)) ∨
  (closed a = true ∧ both_over a ∧ ∃ n, opDone a = Some n ∧
     w_close w = Await (WorkDone n) (wait (commandDone a) close_rest)) ∨
  (closed a = true ∧ both_over a ∧ is_ret (w_main w) ∧ ∃ n, commandDone a = Some n ∧
     w_close w = Await (WorkDone n) close_rest).

(** After that it stops everything, and everything stays stopped. *)
Inductive closing (w : World) : Prop :=
| early : wp (w_main w) settled (w_app w) → before w → closing w
| late : closed (w_app w) = true → is_ret (w_main w) → is_ret (w_cmd w) →
    tame_at true None (cancelled (w_app w)) (w_close w) → wp (w_close w) stopped (w_app w) → closing w.

Record world_inv (w : World) : Prop := {
  wi_mode : mode_inv (w_app w);
  wi_ops : ops_inv (w_app w) (w_main w) (w_cmd w);
  wi_closing : closing w;
  wi_auto : is_ret (w_auto w);
  wi_keyed : keyed (probes (w_app w));
  wi_cmd : side (w_cmd w);
  wi_threads n p : w_threads w !! n = Some p →
    n < next_id (w_app w) ∧ tame_at false (Some n) (cancelled (w_app w)) p ∧
    (is_ret p ∨ (is_Some (loops (w_app w) !! n) ∧ loop_ok n p));
  wi_feeders n p : w_feeders w !! n = Some p →
    n < next_id (w_app w) ∧ tame_at false (Some n) (cancelled (w_app w)) p ∧ side p;
}.

(** ** Steps *)

Lemma wp_step (Q : App → Prop) a p a' p' :
  mode_inv a → wp p Q a → prog_step a p a' p' → mode_inv a' ∧ keeps a a' ∧ wp p' Q a'.
Proof.
  intros Hi Hp Hs. destruct p as [e|A f k|A k|l k|v k|m lock k]; cbn in Hp, Hs.
  - done.
  - destruct Hs as [-> ->]. by apply (Hp a (env_refl a)).
  - destruct Hs as [-> [x ->]]. split_and!; [done|apply keeps_refl|done].
  - destruct Hs as [-> ->]. split_and!; [done|apply keeps_refl|done].
  - destruct Hs as (-> & ? & ->). split_and!; [done|apply keeps_refl|]. by apply (Hp a (env_refl a)).
  - destruct Hs as (_ & -> & ->). destruct (env_set_lock m lock a). split_and!; [auto|by split|by eapply wp_env].
Qed.

Lemma side_step a p a' p' :
  mode_inv a → side p → prog_step a p a' p' → mode_inv a' ∧ env a a' ∧ loops a' = loops a ∧ side p'.
Proof.
  intros Hi Hp Hs. destruct p as [e|A f k|A k|l k|v k|m lock k]; cbn in Hp, Hs.
  - done.
  - destruct Hs as [-> ->], Hp as [Hf Hk]. destruct (Hf a Hi) as (? & ? & ?). by split_and!.
  - destruct Hs as [-> [x ->]]. by split_and!.
  - destruct Hs as [-> ->]. by split_and!.
  - destruct Hs as (-> & ? & ->). by split_and!.
  - destruct Hs as (_ & -> & ->). destruct (env_set_lock m lock a). split_and!; auto.
Qed.

Lemma thread_step n a p a' p' :
  mode_inv a → is_Some (loops a !! n) → loop_ok n p → prog_step a p a' p' →
  mode_inv a' ∧ env a a' ∧ (∀ m, m ≠ n → loops a' !! m = loops a !! m) ∧
  (is_ret p' ∨ (is_Some (loops a' !! n) ∧ loop_ok n p')).
Proof.
  intros Hi Hn Hp Hs. destruct p as [e|A f k|A k|l k|v k|m lock k]; cbn in Hp, Hs.
  - done.
  - destruct Hs as [-> ->], Hp as [Hsec Hk]. destruct (Hsec a Hi Hn) as (H1 & H2 & H3).
    split_and!; try done. destruct Hk as [[Hl Hk]|Hk]; [right; by rewrite Hl|left; apply Hk].
  - destruct Hs as [-> [x ->]]. split_and!; try done; by right.
  - destruct Hs as [-> ->]. split_and!; try done; by right.
  - destruct Hs as (-> & ? & ->). split_and!; try done; by right.
  - destruct Hs as (_ & -> & ->). destruct (env_set_lock m lock a). split_and!; auto.
Qed.

(** What happens to the state beside the goroutines that are looked at. *)
Record beside (a a' : App) : Prop := {
  be_env : env a a';
  be_closed : closed a' = closed a;
  be_opDone : opDone a' = opDone a;
  be_commandDone : commandDone a' = commandDone a;
  be_cancelled : cancelled a ⊆ cancelled a';
}.

Lemma frame_beside a a' : env a a' → frame a a' → beside a a'.
Proof. intros ? [[] []]. by split. Qed.

Lemma before_mono w w' :
  before w → closed (w_app w') = closed (w_app w) → opDone (w_app w') = opDone (w_app w) →
  commandDone (w_app w') = commandDone (w_app w) → cancelled (w_app w) ⊆ cancelled (w_app w') →
  (is_ret (w_main w) → is_ret (w_main w')) → w_close w' = w_close w → before w'.
Proof.
  unfold before. intros Hb Ec Eo Ed HC Hm Ex. rewrite Ec, Eo, Ed, Ex.
  assert (both_over (w_app w) → both_over (w_app w')) as Ho.
  { intros H n. rewrite Eo, Ed. intros Hn. apply HC, H, Hn. }
  destruct Hb as [?|[(? & ? & ?)|(? & ? & ? & ?)]]; auto 10.
Qed.

Lemma closing_beside w a' ts fs :
  closing w → beside (w_app w) a' →
  closing (mkWorld a' (w_main w) (w_cmd w) (w_auto w) (w_close w) ts fs).
Proof.
  intros [Hm Hb|H1 H2 H3 H4 H5] [He Ec Eo Ed HC].
  - apply early; [by eapply wp_env|]. by eapply before_mono.
  - apply late; cbn; [by rewrite Ec|done|done|by eapply tame_at_mono|by eapply wp_env].
Qed.

(** ** The invariant *)

Lemma threads_mono a a' (m : gmap Z prog) :
  (∀ n p, m !! n = Some p → n < next_id a ∧ tame_at false (Some n) (cancelled a) p ∧
    (is_ret p ∨ (is_Some (loops a !! n) ∧ loop_ok n p))) →
  next_id a ≤ next_id a' → cancelled a ⊆ cancelled a' → (∀ n c, loops a !! n = Some c → loops a' !! n = Some c) →
  ∀ n p, m !! n = Some p → n < next_id a' ∧ tame_at false (Some n) (cancelled a') p ∧
    (is_ret p ∨ (is_Some (loops a' !! n) ∧ loop_ok n p)).
Proof.
  intros H Hn HC Hl n p Hp. destruct (H n p Hp) as (? & ? & Hr). split_and!; [lia|by eapply tame_at_mono|].
  destruct Hr as [?|[[c ?] ?]]; [by left|right]. split; [|done]. exists c. by apply Hl.
Qed.

Lemma feeders_mono a a' (m : gmap Z prog) :
  (∀ n p, m !! n = Some p → n < next_id a ∧ tame_at false (Some n) (cancelled a) p ∧ side p) →
  next_id a ≤ next_id a' → cancelled a ⊆ cancelled a' →
  ∀ n p, m !! n = Some p → n < next_id a' ∧ tame_at false (Some n) (cancelled a') p ∧ side p.
Proof.
  intros H Hn HC n p Hp. destruct (H n p Hp) as (? & ? & Hr). split_and!; [lia|by eapply tame_at_mono|done].
Qed.

(** A step that touches neither the services nor the operations. *)
Lemma quiet_world w a' :
  world_inv w → mode_inv a' → beside (w_app w) a' → keeps (w_app w) a' → same_ops (w_app w) a' →
  keyed (probes a') →
  world_inv (mkWorld a' (w_main w) (w_cmd w) (w_auto w) (w_close w) (w_threads w) (w_feeders w)).
Proof.
  intros [] Hi Hb [Hl Hn] Hs Hkd. split; cbn; try done.
  - by eapply ops_same.
  - by apply closing_beside.
  - by eapply threads_mono; [| |apply (be_cancelled _ _ Hb)|].
  - by eapply feeders_mono; [| |apply (be_cancelled _ _ Hb)].
Qed.

Lemma cancel_opt_same n a : same_mode a (cancel_opt n a) ∧ frame a (cancel_opt n a).
Proof. destruct n as [n|]; [split; [done|apply frame_cancel]|split; [done|apply frame_refl]]. Qed.

(** What starts or ends goroutines of agents and sessions touches nothing else. *)
Lemma work_same n g a : same_mode a (work n g a) ∧ frame a (work n g a).
Proof. by split. Qed.

Lemma rest_same n g a : same_mode a (rest n g a) ∧ frame a (rest n g a).
Proof. by split. Qed.

Lemma begin_step w n fn a' :
  world_inv w → is_ret (w_main w) → closed (w_app w) = false → same_mode (w_app w) a' → closed a' = false →
  cancelled a' = cancelled (w_app w) → probes a' = probes (w_app w) → ops_inv a' (operation n fn) (w_cmd w) →
  (∀ x, mode_inv a' → settled a' → wp (fn x) settled a') →
  world_inv (mkWorld a' (operation n fn) (w_cmd w) (w_auto w) (w_close w) (w_threads w) (w_feeders w)).
Proof.
  intros [Hi Ho Hc Ha Hkd Hd Ht Hf] Hm Hcl Hs Hcl' HC HP Hops Hwp.
  destruct (same_mode_inv _ _ Hs Hi) as (Hi' & Hk & He).
  destruct Hc as [Hwm [[_ Hb]|[[? _]|[? _]]]|]; try congruence.
  assert (settled a') as Hset by (destruct Hm as [e Hm]; rewrite Hm in Hwm; by apply Hwm).
  split; cbn; try done.
  - apply early; [|by left]. cbn. apply wp_then; [done|by apply Hwp|]. intros e b Hib Hsb wraps.
    apply wp_quiet; [done|]. intros d Hd' _. apply wp_settled. by eapply settled_env.
  - by rewrite HP.
  - eapply threads_mono; [exact Ht|apply (kp_next _ _ Hk)|set_solver|apply (kp_loops _ _ Hk)].
  - eapply feeders_mono; [exact Hf|apply (kp_next _ _ Hk)|set_solver].
Qed.

Lemma begin_command_step w n fn a' :
  world_inv w → closed (w_app w) = false → same_mode (w_app w) a' → closed a' = false →
  cancelled a' = cancelled (w_app w) → probes a' = probes (w_app w) → ops_inv a' (w_main w) (command_operation n fn) → side (fn (Some n)) →
  world_inv (mkWorld a' (w_main w) (command_operation n fn) (w_auto w) (w_close w) (w_threads w) (w_feeders w)).
Proof.
  intros [Hi Ho Hc Ha Hkd Hd Ht Hf] Hcl Hs Hcl' HC HP Hops Hsd.
  destruct (same_mode_inv _ _ Hs Hi) as (Hi' & Hk & He).
  destruct Hc as [Hwm [[_ Hb]|[[? _]|[? _]]]|]; try congruence.
  split; cbn; try done.
  - apply early; [by eapply wp_env|by left].
  - by rewrite HP.
  - apply side_bind; [done|]. intros e wraps. by apply side_act.
  - eapply threads_mono; [exact Ht|apply (kp_next _ _ Hk)|set_solver|apply (kp_loops _ _ Hk)].
  - eapply feeders_mono; [exact Hf|apply (kp_next _ _ Hk)|set_solver].
Qed.

(** What the last section of an operation does to the rest. *)
Lemma end_beside a a' :
  frame a a' ∨ (∃ n e wraps, opDone a = Some n ∧ a' = end_op n e wraps a) ∨
    (∃ n e wraps, commandDone a = Some n ∧ a' = end_command n e wraps a) →
  closed a' = closed a ∧ opDone a' = opDone a ∧ commandDone a' = commandDone a ∧ cancelled a ⊆ cancelled a' ∧
  next_id a ≤ next_id a' ∧ (keyed (probes a) → keyed (probes a')).
Proof.
  intros [[[] []]|[(n & e & ws & _ & ->)|(n & e & ws & _ & ->)]]; [by split_and!|split_and!; cbn; try done; set_solver..].
Qed.

Lemma main_world w a' p' :
  world_inv w → prog_step (w_app w) (w_main w) a' p' →
  world_inv (mkWorld a' p' (w_cmd w) (w_auto w) (w_close w) (w_threads w) (w_feeders w)).
Proof.
  intros [Hi Ho Hc Ha Hkd Hd Ht Hf] Hs.
  destruct Hc as [Hwm Hb|_ [e Hr] _ _ _]; [|by rewrite Hr in Hs].
  destruct (wp_step _ _ _ _ _ Hi Hwm Hs) as (Hi' & Hk & Hw').
  destruct (ops_main _ _ _ _ _ Ho Hkd Hs) as [Ho' Hend].
  destruct (end_beside (w_app w) a') as (Ec & Eo & Ed & HC & Hn & HKd).
  { destruct Hend as [?|(n & e & ws & ? & -> & _)]; [by left|right; left; by eauto]. }
  split; cbn; try done.
  - apply early; [done|]. eapply before_mono; try done. intros [e Hr]. by rewrite Hr in Hs.
  - by apply HKd.
  - by eapply threads_mono; [exact Ht| | |apply (kp_loops _ _ Hk)].
  - by eapply feeders_mono.
Qed.

Lemma cmd_world w a' p' :
  world_inv w → prog_step (w_app w) (w_cmd w) a' p' →
  world_inv (mkWorld a' (w_main w) p' (w_auto w) (w_close w) (w_threads w) (w_feeders w)).
Proof.
  intros [Hi Ho Hc Ha Hkd Hd Ht Hf] Hs.
  destruct (side_step _ _ _ _ Hi Hd Hs) as (Hi' & He & Hl & Hd').
  destruct (ops_cmd _ _ _ _ _ Ho Hkd Hs) as [Ho' Hend].
  destruct (end_beside (w_app w) a') as (Ec & Eo & Ed & HC & Hn & HKd).
  { destruct Hend as [?|(n & e & ws & ? & -> & _)]; [by left|right; right; by eauto]. }
  destruct Hc as [Hwm Hb|_ _ [e Hr] _ _]; [|by rewrite Hr in Hs].
  split; cbn; try done.
  - apply early; [by eapply wp_env|]. by eapply before_mono.
  - by apply HKd.
  - eapply threads_mono; [exact Ht|done|done|by rewrite Hl].
  - by eapply feeders_mono.
Qed.

Lemma thread_world w n p a' p' :
  world_inv w → w_threads w !! n = Some p → prog_step (w_app w) p a' p' →
  world_inv (mkWorld a' (w_main w) (w_cmd w) (w_auto w) (w_close w) (<[n := p']> (w_threads w)) (w_feeders w)).
Proof.
  intros [Hi Ho Hc Ha Hkd Hd Ht Hf] Hp Hs.
  destruct (Ht n p Hp) as (Hn & Htm & [[e ->]|[Hl Hok]]); [done|].
  destruct (thread_step _ _ _ _ _ Hi Hl Hok Hs) as (Hi' & He & Hne & Hl').
  destruct (tame_step _ _ _ _ _ _ _ Htm (reflexivity _) Hkd Hs) as [Hfr Htm'].
  split; cbn; try done.
  - by eapply ops_same, frame_ops.
  - by apply closing_beside, frame_beside.
  - by apply (fr_keyed _ _ Hfr).
  - intros m q Hq. apply lookup_insert_Some in Hq as [[<- <-]|[Hm Hq]].
    + split_and!; [destruct Hfr; lia|done|done].
    + destruct (Ht m q Hq) as (? & ? & Hr). split_and!; [destruct Hfr; lia|eapply tame_at_mono; [done|apply Hfr]|].
      rewrite Hne by done. done.
  - eapply feeders_mono; [exact Hf|apply Hfr|apply Hfr].
Qed.

Lemma feeder_world w n p a' p' :
  world_inv w → w_feeders w !! n = Some p → prog_step (w_app w) p a' p' →
  world_inv (mkWorld a' (w_main w) (w_cmd w) (w_auto w) (w_close w) (w_threads w) (<[n := p']> (w_feeders w))).
Proof.
  intros [Hi Ho Hc Ha Hkd Hd Ht Hf] Hp Hs.
  destruct (Hf n p Hp) as (Hn & Htm & Hsd).
  destruct (side_step _ _ _ _ Hi Hsd Hs) as (Hi' & He & Hl & Hsd').
  destruct (tame_step _ _ _ _ _ _ _ Htm (reflexivity _) Hkd Hs) as [Hfr Htm'].
  split; cbn; try done.
  - by eapply ops_same, frame_ops.
  - by apply closing_beside, frame_beside.
  - by apply (fr_keyed _ _ Hfr).
  - eapply threads_mono; [exact Ht|apply Hfr|apply Hfr|by rewrite Hl].
  - intros m q Hq. apply lookup_insert_Some in Hq as [[<- <-]|[Hm Hq]].
    + split_and!; [destruct Hfr; lia|done|done].
    + destruct (Hf m q Hq) as (? & ? & Hr). split_and!; [destruct Hfr; lia|eapply tame_at_mono; [done|apply Hfr]|done].
Qed.

(** ** Steps of [Close] *)

(** It starts to stop everything. *)
Lemma enter_late w a ps fs :
  mode_inv a → settled a → closed a = true → is_ret (w_main w) → is_ret (w_cmd w) →
  closing (mkWorld a (w_main w) (w_cmd w) (w_auto w) close_rest ps fs).
Proof. intros. apply late; cbn; try done; [apply tame_close_rest|by apply close_rest_ok]. Qed.

(** Waiting for the command, or past it. *)
Lemma wait_command w a ps fs :
  mode_inv a → wp (w_main w) settled a → ops_inv a (w_main w) (w_cmd w) → closed a = true → both_over a →
  is_ret (w_main w) → closing (mkWorld a (w_main w) (w_cmd w) (w_auto w) (wait (commandDone a) close_rest) ps fs).
Proof.
  intros Hi Hw Ho Hc Hb Hm. destruct (commandDone a) as [m|] eqn:Hd; cbn [wait].
  - apply early; [done|]. right. right. cbn. rewrite Hd. split_and!; try done. by exists m.
  - apply enter_late; try done.
    + destruct Hm as [e Hm]. rewrite Hm in Hw. by apply Hw.
    + destruct (oi_cmd _ _ _ Ho) as [[? _]|(n & Hn & _)]; [done|congruence].
Qed.

Lemma waited n (o : option Operation) fin d a p :
  slot fin o d a p → d = Some n → ready (WorkDone n) a = true → is_ret p.
Proof.
  intros [[? _]|(m & Hm & Hd & _)] Hn Hb; [done|]. apply bool_decide_eq_true in Hb. congruence.
Qed.

Lemma closer_world w a' p' :
  world_inv w → prog_step (w_app w) (w_close w) a' p' →
  world_inv (mkWorld a' (w_main w) (w_cmd w) (w_auto w) p' (w_threads w) (w_feeders w)).
Proof.
  intros Hw Hs. pose proof Hw as [Hi Ho Hc Ha Hkd Hd Ht Hf].
  destruct Hc as [Hwm [[Hcl [[e Hr]|Hr]]|[(Hcl & Hov & n & Hn & Hr)|(Hcl & Hov & Hm & n & Hn & Hr)]]|Hcl Hm Hcm Htm Hwp];
    try rewrite Hr in Hs; cbn in Hs; try done.
  - rewrite Hcl in Hs. destruct Hs as [-> ->]. cbn [fst snd].
    set (a' := cancel_opt _ _).
    assert (same_mode (w_app w) a' ∧ closed a' = true ∧ same_ops (w_app w) a' ∧ probes a' = probes (w_app w))
      as (Hsm & Hc' & Hso & HP).
    { unfold a', cancel_opt. destruct (opDone (w_app w)), (commandDone (w_app w)); split_and!; try done; split; cbn; set_solver. }
    destruct (same_mode_inv _ _ Hsm Hi) as (Hi' & Hk & He). pose proof (ops_same _ _ _ _ Ho Hso) as Ho'.
    destruct Hso as [[Eo Ed] [Ec Ecd] Edo HC Hnx].
    assert (both_over a') as Hov.
    { unfold both_over, a', cancel_opt. destruct (opDone (w_app w)), (commandDone (w_app w)); cbn; set_solver. }
    split; cbn; try done.
    + rewrite <-Ed, <-Ecd. destruct (opDone a') as [n|] eqn:Hn; cbn [wait].
      * apply early; [by eapply wp_env|]. right. left. split_and!; [done|done|]. by exists n.
      * apply wait_command; [done|by eapply wp_env|done|done|done|].
        destruct (oi_main _ _ _ Ho') as [[? _]|(m & ? & _)]; [done|congruence].
    + by rewrite HP.
    + by eapply threads_mono; [exact Ht| | |apply (kp_loops _ _ Hk)].
    + by eapply feeders_mono.
  - destruct Hs as (-> & Hb & ->). split; cbn; try done.
    apply wait_command; try done. by eapply waited; [apply (oi_main _ _ _ Ho)| |].
  - destruct Hs as (-> & Hb & ->). split; cbn; try done. apply enter_late; try done.
    + destruct Hm as [e Hm]. rewrite Hm in Hwm. by apply Hwm.
    + by eapply waited; [apply (oi_cmd _ _ _ Ho)| |].
  - destruct (wp_step _ _ _ _ _ Hi Hwp Hs) as (Hi' & Hk & Hw').
    destruct (tame_step _ _ _ _ _ _ _ Htm (reflexivity _) Hkd Hs) as [Hfr Htm'].
    split; cbn; try done.
    + by eapply ops_same, frame_ops.
    + apply late; try done; cbn. by rewrite (fr_closed _ _ Hfr).
    + by apply (fr_keyed _ _ Hfr).
    + by eapply threads_mono; [exact Ht|apply Hfr|apply Hfr|apply (kp_loops _ _ Hk)].
    + by eapply feeders_mono; [exact Hf|apply Hfr|apply Hfr].
Qed.

Lemma app_step_inv w P w' : world_inv w → app_step w P w' → world_inv w'.
Proof.
  intros Hw Hs. pose proof Hw as [Hi Ho Hc Ha Hkd Hd Ht Hf].
  destruct Hs as [rounds r id now fn n a' Hact Hne Hb|rounds r id now fn n a' Hact Hne Hb|command|temp a' Hk
    |Hcl Hr|n Hj Hx|n g|n g Hj Hx|a' p' Hs|a' p' Hs|a' p' Hs|a' p' Hs|n c rounds Hl Hn|n p a' p' Hp Hs|n e Hp|n f rounds Hl Hn
    |n p a' p' Hp Hs|n e Hp].
  - destruct (ops_begin _ _ _ _ _ _ _ _ fn Ho Hb) as (Hm & Hcl & Hsm & Hcl' & HC & HP & Ho').
    { by eapply tame_action. }
    eapply begin_step; try done. intros x. by eapply action_ok.
  - destruct (ops_begin_command _ _ _ _ _ _ _ fn Ho Hb) as (Hm & Hcl & Hsm & Hcl' & HC & HP & Ho').
    { by eapply tame_action. }
    eapply begin_command_step; try done. by eapply command_side.
  - unfold cancel. destruct (cancel_opt_same (if command then commandDone (w_app w) else opDone (w_app w)) (w_app w))
      as [Hsm Hfr]. destruct (same_mode_inv _ _ Hsm Hi) as (? & ? & ?).
    apply quiet_world; try done; [by apply frame_beside|by apply frame_ops|by apply (fr_keyed _ _ Hfr)].
  - unfold keep_upload in Hk. destruct (closed (w_app w)); [done|]. injection Hk as <-.
    set (a' := set_uploads _ _). assert (same_mode (w_app w) a' ∧ frame (w_app w) a') as [Hsm Hfr] by by split.
    destruct (same_mode_inv _ _ Hsm Hi) as (? & ? & ?).
    by apply quiet_world.
  - split; cbn; try done. destruct Hc as [Hwm _|Hcl' _ _ _ _]; [|congruence].
    apply early; [done|]. left. split; [done|by right].
  - destruct (work_same n Jobs (w_app w)) as [Hsm Hfr]. destruct (same_mode_inv _ _ Hsm Hi) as (? & ? & ?).
    by apply quiet_world.
  - destruct (rest_same n g (w_app w)) as [Hsm Hfr]. destruct (same_mode_inv _ _ Hsm Hi) as (? & ? & ?).
    by apply quiet_world.
  - destruct (rest_same n g (w_app w)) as [Hsm Hfr]. destruct (same_mode_inv _ _ Hsm Hi) as (? & ? & ?).
    by apply quiet_world.
  - by apply main_world.
  - by apply cmd_world.
  - destruct Ha as [e Ha]. by rewrite Ha in Hs.
  - by apply closer_world.
  - split; cbn; try done; [by apply closing_beside|]. intros m q Hq.
    apply lookup_insert_Some in Hq as [[<- <-]|[_ Hq]]; [|by apply Ht]. split_and!.
    + apply (mi_next _ Hi). by eexists.
    + apply tame_discoverLoop.
    + right. split; [by eexists|apply discoverLoop_ok].
  - by eapply thread_world.
  - split; cbn; try done; [by apply closing_beside|]. intros m q Hq.
    apply lookup_delete_Some in Hq as [_ Hq]. by apply Ht.
  - split; cbn; try done; [by apply closing_beside|]. intros m q Hq.
    apply lookup_insert_Some in Hq as [[<- <-]|[_ Hq]]; [|by apply Hf]. split_and!.
    + apply (mi_feeds _ Hi). by eexists.
    + apply tame_distributionLoop.
    + apply side_distributionLoop.
  - by eapply feeder_world.
  - split; cbn; try done; [by apply closing_beside|]. intros m q Hq.
    apply lookup_delete_Some in Hq as [_ Hq]. by apply Hf.
Qed.

Lemma steps_inv w w' : world_inv w → rtc step w w' → world_inv w'.
Proof. intros Hw Hr. induction Hr as [|x y z [P Hs] _ IH]; [done|]. apply IH. by eapply app_step_inv. Qed.

(** ** From the start *)

(** Nothing has been asked for yet. *)
Record unused (a : App) : Prop := {
  un_op : op a = None ∧ opDone a = None;
  un_command : commandOp a = None ∧ commandDone a = None;
  un_doing : doing a = ∅;
  un_closed : closed a = false;
  un_keyed : keyed (probes a);
}.

Lemma unused_frame a a' : unused a → frame a a' → unused a'.
Proof. intros [[] [] ? ? ?] [[] [] ? ? ? ? ? ? ?]. split; [split; congruence..|congruence|congruence|auto]. Qed.

Lemma unused_ops a : unused a → ops_inv a idle idle.
Proof.
  intros [[E1 E2] [E3 E4] E5 E6 _]. split; rewrite ?E1, ?E2, ?E3, ?E4, ?E5; try done.
  - left. split; [by eexists|done].
  - left. split; [by eexists|done].
  - by intros n [|].
Qed.

Lemma unused_world a : mode_inv a → settled a → unused a → world_inv (fresh_world a).
Proof.
  intros Hi Hs Hu. split; cbn; try done; [by apply unused_ops| |by eexists|apply (un_keyed _ Hu)]. apply early; [by apply wp_settled|].
  left. split; [apply (un_closed _ Hu)|left; by eexists].
Qed.

Lemma New_inv c wd a : New c wd = Some a → mode_inv a ∧ settled a ∧ unused a.
Proof.
  unfold New. destruct (negb _); [done|]. intros H. apply bind_Some in H as (dir & _ & (abs & _ & [= <-])%bind_Some). split_and!.
  - split; cbn; try done; first [by intros [? ?]|by intros ? [? ?]].
  - split; by intros n [? ?].
  - split; by cbn.
Qed.

Lemma alone_inv x a p b e :
  alone a p b e → mode_inv a → wp p settled a → tame_at true x (cancelled a) p → unused a →
  mode_inv b ∧ settled b ∧ unused b.
Proof.
  induction 1 as [a e|a p a' p' b e Hs _ IH]; intros Hi Hwp Htm Hu.
  - split_and!; [done|by apply Hwp; [apply env_refl|]|done].
  - destruct (wp_step _ _ _ _ _ Hi Hwp Hs) as (Hi' & _ & Hwp').
    destruct (tame_step _ _ _ _ _ _ _ Htm (reflexivity _) (un_keyed _ Hu) Hs) as [Hfr Htm'].
    apply IH; try done. by eapply unused_frame.
Qed.

Lemma first_ok c kind fn x a :
  AutoStart c = Some (inl (kind, fn)) → mode_inv a → settled a → wp (fn x) settled a.
Proof.
  unfold AutoStart. intros Hf Hi Hs. destruct (String.eqb _ _); [|by destruct (String.eqb _ _)].
  injection Hf as <- <-. apply wp_andthen; [done|by apply ensureSender_ok|]. intros b Hib Hsb.
  destruct (negb _); [by apply startSource_ok|by apply wp_settled].
Qed.

Lemma started_inv c wd a w : New c wd = Some a → started a w → world_inv w.
Proof.
  intros Hn Hst. destruct (New_inv _ _ _ Hn) as (Hi & Hs & Hu).
  destruct Hst as [_|kind fn id now n a' Hf Hb|p b e Hp Hal].
  - by apply unused_world.
  - destruct (ops_begin _ _ _ _ _ _ _ _ fn (unused_ops _ Hu) Hb) as (Hm & Hcl & Hsm & Hcl' & HC & HP & Ho').
    { by eapply tame_first. }
    apply (begin_step (fresh_world a)); try done; [by apply unused_world|]. intros x. by eapply first_ok.
  - unfold AutoStart in Hp. destruct (String.eqb _ _); [done|]. destruct (String.eqb _ _); [|done].
    injection Hp as <-. destruct (alone_inv None _ _ _ _ Hal) as (? & ? & ?); try done.
    + by apply startDiscovery_ok.
    + apply tame_startDiscovery.
    + by apply unused_world.
Qed.

(** The states the application may be in. *)
Definition reachable (w : World) : Prop :=
  ∃ c wd a w0, New c wd = Some a ∧ started a w0 ∧ rtc step w0 w.

Lemma reachable_world w : reachable w → world_inv w.
Proof. intros (c & wd & a & w0 & Hn & Hs & Hr). eapply steps_inv; [|done]. by eapply started_inv. Qed.

(** ** Sender or receiver, never both *)

(** C13. An instance is a sender or a receiver, never both: from start-up, whatever
    operations and commands the user asks for, however they interleave with the
    discovery loops, the loops of distribution, cancellation and [Close], a sender's
    session and a receiver's agent never exist together, the mode names the one that
    does, and the file is offered through the session that exists; while neither an
    operation nor [Close] runs at most one discovery loop and one loop of distribution
    are left, those the application can stop. ([AutoStart] is taken to finish before the
    first operation.) *)
Theorem modes_exclusive w :
  reachable w →
  (is_Some (hub (w_app w)) → agent_of (w_app w) = None ∧ mode (w_app w) = "sender") ∧
  (is_Some (agent_of (w_app w)) → mode (w_app w) = "receiver") ∧
  (∀ s, src (w_app w) = Some s → hub (w_app w) = Some (sr_session s)) ∧
  (is_ret (w_main w) → is_ret (w_close w) → settled (w_app w)).
Proof.
  intros Hr. destruct (reachable_world w Hr) as [[] _ Hc _ _ _ _ _]. split_and!; try done.
  intros [e Hm] [e' Hcl]. destruct Hc as [Hwm _|_ _ _ _ Hwp].
  - rewrite Hm in Hwm. by apply Hwm.
  - rewrite Hcl in Hwp. apply stopped_settled. by apply Hwp.
Qed.

(** ** Operations *)

(** [Close] leaves what is shown of them. *)
Lemma closer_ops w a' p' :
  closing w → keyed (probes (w_app w)) → prog_step (w_app w) (w_close w) a' p' →
  op a' = op (w_app w) ∧ commandOp a' = commandOp (w_app w).
Proof.
  intros [Hwm [[Hcl [[e Hr']|Hr']]|[(Hcl & _ & n & Hn & Hr')|(Hcl & _ & Hm & n & Hn & Hr')]]|Hcl Hm Hcm Htm Hwp] Hkd Hs;
    try rewrite Hr' in Hs; cbn in Hs; try done; try by destruct Hs as (-> & _).
  - destruct Hs as [-> _]. rewrite Hcl. cbn. by destruct (opDone _), (commandDone _).
  - destruct (tame_step _ _ _ _ _ _ _ Htm (reflexivity _) Hkd Hs) as [Hfr _].
    split; [apply (fr_op _ _ Hfr)|apply (fr_command _ _ Hfr)].
Qed.

(** While it runs it is what it was, or its own goroutine's last step has ended it; and nobody else
    touches that goroutine. *)
Lemma op_step w P w' :
  world_inv w → app_step w P w' →
  (is_running (op (w_app w)) = true →
    op (w_app w') = op (w_app w) ∨
    (P = Main ∧ ∃ e wraps, w_main w' = Ret e ∧ op (w_app w') = ended "操作完成" e wraps <$> op (w_app w))) ∧
  (P ≠ Main → is_running (op (w_app w)) = true → w_main w' = w_main w).
Proof.
  intros [Hi Ho Hc Ha Hkd Hd Ht Hf] Hs. split; [intros Hr|intros HP Hr].
  - destruct Hs as [rounds r id now fn n a' Hact Hne Hb|rounds r id now fn n a' Hact Hne Hb|command|temp a' Hk
      |Hcl Hr'|n Hj Hx|n g|n g Hj Hx|a' p' Hs|a' p' Hs|a' p' Hs|a' p' Hs|n c rounds Hl Hn|n p a' p' Hp Hs|n e Hp
      |n f rounds Hl Hn|n p a' p' Hp Hs|n e Hp]; cbn; try (by left).
    + unfold begin in Hb. rewrite Hr in Hb. by destruct (closed _).
    + left. unfold beginCommand in Hb. destruct (closed _); [done|]. destruct (is_running (commandOp _)); [done|].
      by injection Hb as <- <-.
    + left. unfold cancel. by destruct (if command then _ else _).
    + left. unfold keep_upload in Hk. destruct (closed _); [done|]. by injection Hk as <-.
    + destruct (ops_main _ _ _ _ _ Ho Hkd Hs) as [_ [Hfr|(n & e & wraps & _ & -> & ->)]].
      * left. apply (fr_op _ _ Hfr).
      * right. split; [done|]. by exists e, wraps.
    + left. destruct (ops_cmd _ _ _ _ _ Ho Hkd Hs) as [_ [Hfr|(n & e & wraps & _ & -> & ->)]]; [apply (fr_op _ _ Hfr)|done].
    + destruct Ha as [e Ha]. by rewrite Ha in Hs.
    + left. by apply (closer_ops _ _ _ Hc Hkd Hs).
    + left. destruct (Ht n p Hp) as (_ & Htm & _).
      destruct (tame_step _ _ _ _ _ _ _ Htm (reflexivity _) Hkd Hs) as [Hfr _]. apply (fr_op _ _ Hfr).
    + left. destruct (Hf n p Hp) as (_ & Htm & _).
      destruct (tame_step _ _ _ _ _ _ _ Htm (reflexivity _) Hkd Hs) as [Hfr _]. apply (fr_op _ _ Hfr).
  - destruct Hs as [rounds r id now fn n a' Hact Hne Hb| | | | | | | | | | | | | | | | |]; try done.
    unfold begin in Hb. rewrite Hr in Hb. by destruct (closed _).
Qed.

Lemma command_step w P w' :
  world_inv w → app_step w P w' →
  (is_running (commandOp (w_app w)) = true →
    commandOp (w_app w') = commandOp (w_app w) ∨
    (P = Cmd ∧ ∃ e wraps, w_cmd w' = Ret e ∧ commandOp (w_app w') = ended "命令执行完成" e wraps <$> commandOp (w_app w))) ∧
  (P ≠ Cmd → is_running (commandOp (w_app w)) = true → w_cmd w' = w_cmd w).
Proof.
  intros [Hi Ho Hc Ha Hkd Hd Ht Hf] Hs. split; [intros Hr|intros HP Hr].
  - destruct Hs as [rounds r id now fn n a' Hact Hne Hb|rounds r id now fn n a' Hact Hne Hb|command|temp a' Hk
      |Hcl Hr'|n Hj Hx|n g|n g Hj Hx|a' p' Hs|a' p' Hs|a' p' Hs|a' p' Hs|n c rounds Hl Hn|n p a' p' Hp Hs|n e Hp
      |n f rounds Hl Hn|n p a' p' Hp Hs|n e Hp]; cbn; try (by left).
    + left. unfold begin in Hb. destruct (closed _); [done|]. destruct (is_running (op _)); [done|].
      by injection Hb as <- <-.
    + unfold beginCommand in Hb. rewrite Hr in Hb. by destruct (closed _).
    + left. unfold cancel. by destruct (if command then _ else _).
    + left. unfold keep_upload in Hk. destruct (closed _); [done|]. by injection Hk as <-.
    + left. destruct (ops_main _ _ _ _ _ Ho Hkd Hs) as [_ [Hfr|(n & e & wraps & _ & -> & ->)]];
        [apply (fr_command _ _ Hfr)|done].
    + destruct (ops_cmd _ _ _ _ _ Ho Hkd Hs) as [_ [Hfr|(n & e & wraps & _ & -> & ->)]].
      * left. apply (fr_command _ _ Hfr).
      * right. split; [done|]. by exists e, wraps.
    + destruct Ha as [e Ha]. by rewrite Ha in Hs.
    + left. by apply (closer_ops _ _ _ Hc Hkd Hs).
    + left. destruct (Ht n p Hp) as (_ & Htm & _).
      destruct (tame_step _ _ _ _ _ _ _ Htm (reflexivity _) Hkd Hs) as [Hfr _]. apply (fr_command _ _ Hfr).
    + left. destruct (Hf n p Hp) as (_ & Htm & _).
      destruct (tame_step _ _ _ _ _ _ _ Htm (reflexivity _) Hkd Hs) as [Hfr _]. apply (fr_command _ _ Hfr).
  - destruct Hs as [|rounds r id now fn n a' Hact Hne Hb| | | | | | | | | | | | | | | |]; try done.
    unfold beginCommand in Hb. rewrite Hr in Hb. by destruct (closed _).
Qed.

Lemma shown_running fin o d a p : slot fin o d a p → is_running o = true ↔ ¬ is_ret p.
Proof.
  intros [[Hp Hr]|(n & _ & _ & Hr & Hw)].
  - rewrite Hr. split; [done|]. by intros [].
  - split; [|done]. intros _. by eapply not_ret_working.
Qed.

(** What has become of the operation [o], whose goroutine is now at [p]. *)
Definition ended_as (p : prog) (o o' : option Operation) : Prop :=
  ∃ e x x', p = Ret e ∧ o = Some x ∧ o' = Some x' ∧ op_ID x' = op_ID x ∧ op_Kind x' = op_Kind x ∧
    match e with
    | None => op_Status x' = "completed"
    | Some m => op_Message x' = m ∧ (op_Status x' = "cancelled" ∨ m ≠ canceled ∧ op_Status x' = "failed")
    end.

Lemma ended_as_ended p o done_ e wraps :
  p = Ret e → is_running o = true → ended_as p o (ended done_ e wraps <$> o).
Proof.
  intros -> Hr. destruct o as [x|]; [|done]. exists e, x. eexists. split_and!; try done; destruct e as [m|]; cbn; try done.
  split; [done|]. destruct (String.eqb_spec m canceled) as [|Hne]; [by left|]. destruct wraps; [by left|by right].
Qed.

(** When one can begin. *)
Lemma begins fin o d a p (open : bool) :
  slot fin o d a p → (open = true ∧ is_running o = false ↔ open = true ∧ is_ret p).
Proof.
  intros Hs. split; intros [? H]; (split; [done|]).
  - destruct Hs as [[? _]|(? & _ & _ & ? & _)]; [done|congruence].
  - destruct (is_running o) eqn:E; [|done]. by destruct (proj1 (shown_running _ _ _ _ _ Hs) E).
Qed.

(** C14. One operation and one command at a time. An operation is shown as running exactly while
    its goroutine runs, and so is a command. A new operation begins exactly when none runs and
    the application is open, a new command exactly when no command runs and it is open; no step
    but its own touches the goroutine of an operation or of a command that runs, so none is
    displaced. And each stops running only by the last step of its own goroutine, which records
    what became of it: completed when its program returned no error, cancelled when that error is
    the cancellation of its context, failed or cancelled with the error's text otherwise. *)
Theorem one_operation w :
  reachable w →
  (is_running (op (w_app w)) = true ↔ ¬ is_ret (w_main w)) ∧
  (is_running (commandOp (w_app w)) = true ↔ ¬ is_ret (w_cmd w)) ∧
  (∀ kind id now, (∃ n a', begin kind id now (w_app w) = (inr n, a')) ↔
     closed (w_app w) = false ∧ is_ret (w_main w)) ∧
  (∀ id now, (∃ n a', beginCommand id now (w_app w) = (inr n, a')) ↔
     closed (w_app w) = false ∧ is_ret (w_cmd w)) ∧
  ∀ P w', app_step w P w' →
    (P ≠ Main → ¬ is_ret (w_main w) → w_main w' = w_main w) ∧
    (P ≠ Cmd → ¬ is_ret (w_cmd w) → w_cmd w' = w_cmd w) ∧
    (is_running (op (w_app w)) = true → is_running (op (w_app w')) = false →
       P = Main ∧ ended_as (w_main w') (op (w_app w)) (op (w_app w'))) ∧
    (is_running (commandOp (w_app w)) = true → is_running (commandOp (w_app w')) = false →
       P = Cmd ∧ ended_as (w_cmd w') (commandOp (w_app w)) (commandOp (w_app w'))).
Proof.
  intros Hr. pose proof (reachable_world w Hr) as Hw. pose proof Hw as [_ [Hm Hc _ _ _] _ _ _ _ _ _].
  pose proof (shown_running _ _ _ _ _ Hm) as Hsm. pose proof (shown_running _ _ _ _ _ Hc) as Hsc.
  assert (∀ b x, negb b = true ∧ x ↔ b = false ∧ x) as Hneg by (intros [] ?; naive_solver).
  split_and!; [done|done| | |].
  - intros kind id now. rewrite <-Hneg, <-(begins _ _ _ _ _ _ Hm). unfold begin. destruct (closed (w_app w)); [naive_solver|].
    destruct (is_running (op (w_app w))); naive_solver.
  - intros id now. rewrite <-Hneg, <-(begins _ _ _ _ _ _ Hc). unfold beginCommand.
    destruct (closed (w_app w)); [naive_solver|]. destruct (is_running (commandOp (w_app w))); naive_solver.
  - intros P w' Hs. destruct (op_step w P w' Hw Hs) as [Ho1 Ho2]. destruct (command_step w P w' Hw Hs) as [Hc1 Hc2].
    split_and!; [intros HP Hx; by apply Ho2, Hsm|intros HP Hx; by apply Hc2, Hsc|..]; intros Hrun Hend.
    + destruct (Ho1 Hrun) as [E|(-> & e & wraps & Hm' & ->)]; [congruence|]. split; [done|]. by eapply ended_as_ended.
    + destruct (Hc1 Hrun) as [E|(-> & e & wraps & Hm' & ->)]; [congruence|]. split; [done|]. by eapply ended_as_ended.
Qed.

(** ** Closed *)




(** ** Concrete runs *)

Definition demo_sender : Config := mkConfig false "sender" "" "" ":0" "/work" "" true.
Definition demo_new : App :=
  mkApp demo_sender None None None None "" None None ∅ "" "" None None None None None [] false 0 ∅ ∅ ∅ ∅ ∅ ∅.

Definition demo_fn (x : context) : prog := andthen (ensureSender x ":0") (Ret None).

(** The sender starts: its operation runs. *)
Definition demo_started : World :=
  mkWorld (begin "sender.start" "k" 7 demo_new).2 (operation 0 demo_fn) idle idle idle ∅ ∅.

Lemma demo_started_reachable : reachable demo_started.
Proof.
  exists demo_sender, None, demo_new, demo_started. split_and!; [reflexivity| |apply rtc_refl].
  by apply (S_operation _ "sender.start" demo_fn "k" 7 0).
Qed.

Lemma reachable_next w P w' : reachable w → app_step w P w' → reachable w'.
Proof.
  intros (c & wd & a & w0 & Hn & Hs & Hr) Hw. exists c, wd, a, w0. split_and!; try done.
  eapply rtc_r; [exact Hr|]. by exists P.
Qed.

(** A step of the operation, of [Close]. *)
Lemma reachable_main w a' p' :
  reachable w → prog_step (w_app w) (w_main w) a' p' →
  reachable (mkWorld a' p' (w_cmd w) (w_auto w) (w_close w) (w_threads w) (w_feeders w)).
Proof. intros Hr Hs. eapply reachable_next; [exact Hr|]. by apply W_main. Qed.


Ltac section H lem := eapply lem in H; [|cbn; split; reflexivity]; cbn in H.
Ltac answer H lem x := eapply lem in H; [|cbn; split; [reflexivity|exists x; reflexivity]]; cbn in H.

Ltac latch H lem :=
  eapply lem in H; [|cbn; split; [let E := fresh in intros E; first [discriminate E|exact (not_elem_of_empty _)]|split; reflexivity]]; cbn in H.

Lemma reachable_sect w A (f : App → A * App) k x :
  reachable w → w_main w = Sect A f k → (f (w_app w)).1 = x →
  reachable (mkWorld (f (w_app w)).2 (k x) (w_cmd w) (w_auto w) (w_close w) (w_threads w) (w_feeders w)).
Proof. intros Hr Hm <-. apply reachable_main; [done|]. by rewrite Hm. Qed.

(** It has started. *)
Lemma demo_sending : ∃ w, reachable w ∧ hub (w_app w) = Some 1 ∧ is_ret (w_main w) ∧
  op_Status <$> op (w_app w) = Some "completed".
Proof.
  pose proof demo_started_reachable as H. unfold demo_started, operation, demo_fn in H.
  latch H reachable_main. section H reachable_main. answer H reachable_main true. section H reachable_main.
  answer H reachable_main true.
  eapply (reachable_sect _ _ _ _ false) in H; [|reflexivity|apply bool_decide_eq_false; exact (not_elem_of_empty _)].
  cbn in H. section H reachable_main. latch H reachable_main. answer H reachable_main false. section H reachable_main.
  eexists. split; [exact H|]. split; [reflexivity|]. split; [by eexists|reflexivity].
Qed.

Lemma modes_exclusive_witness :
  ∃ w, reachable w ∧ is_Some (hub (w_app w)) ∧ agent_of (w_app w) = None ∧ mode (w_app w) = "sender".
Proof.
  destruct demo_sending as (w & Hr & Hh & _ & _). exists w. split; [exact Hr|].
  assert (is_Some (hub (w_app w))) as Hs by (by eexists). split; [exact Hs|].
  exact (proj1 (modes_exclusive w Hr) Hs).
Defined.

Lemma one_operation_witness :
  ∃ w, reachable w ∧ is_running (op (w_app w)) = true ∧ ¬ is_ret (w_main w).
Proof.
  exists demo_started. split; [exact demo_started_reachable|]. split; [reflexivity|].
  by apply (one_operation demo_started demo_started_reachable).
Defined.



