(* ===== verification/Closing.v ===== *)
(** * Operations and [Close] end

    An operation that is cancelled can always be brought to its end, and so can [Close]:
    from every state the application reaches there is an order in which its goroutines,
    without the user, get there, whatever the outside answers them. Loops that are cancelled come
    to their end, who holds a mutex comes to unlock it, and a group of goroutines that was told to
    end is taken to be able to. *)

From S2P Require Import Prelude Text Json Model Session Transfer Prepare Tasks App Dispatch Web Operations Conduct.
From S2P Require Import WebInv WorldInv.
Local Open Scope string_scope.
Local Open Scope Z_scope.

(** Some goroutine can go on, and whatever its step is it is on the way to [Q]. *)
Inductive eventually (Q : World → Prop) (w : World) : Prop :=
| ev_done : Q w → eventually Q w
| ev_step P : P ≠ User → (∃ w', app_step w P w') → (∀ w', app_step w P w' → eventually Q w') → eventually Q w.

(** ** What a goroutine runs *)

Definition prog_of (P : process) (w : World) : option prog :=
  match P with
  | User | Group _ _ => None
  | Main => Some (w_main w)
  | Cmd => Some (w_cmd w)
  | Auto => Some (w_auto w)
  | Closer => Some (w_close w)
  | Thread n => w_threads w !! n
  | Feeder n => w_feeders w !! n
  end.

#[export] Instance process_eq_dec : EqDecision process.
Proof. solve_decision. Defined.

Lemma not_user P p w : prog_of P w = Some p → P ≠ User.
Proof. by intros Hp ->. Qed.

Lemma can_step w P p a' p' : prog_of P w = Some p → prog_step (w_app w) p a' p' → ∃ w', app_step w P w'.
Proof.
  destruct P; cbn; intros Hp Hs; try done; try injection Hp as <-.
  - eexists. by apply W_main.
  - eexists. by apply W_cmd.
  - eexists. by apply W_auto.
  - eexists. by apply W_closer.
  - eexists. by eapply W_thread.
  - eexists. by eapply W_feeder.
Qed.

Lemma its_step w P p w' :
  prog_of P w = Some p → ¬ is_ret p → app_step w P w' →
  ∃ p', prog_step (w_app w) p (w_app w') p' ∧ prog_of P w' = Some p' ∧ ∀ P', P' ≠ P → prog_of P' w' = prog_of P' w.
Proof.
  intros Hp Hn Hs.
  destruct Hs as [rounds r id now fn n a' Hact Hne Hb|rounds r id now fn n a' Hact Hne Hb|command|temp a' Hk
    |Hcl Hr'|n Hj Hx|n g|n g Hj Hx|a' p' Hs|a' p' Hs|a' p' Hs|a' p' Hs|n c rounds Hl Hx|n q a' p' Hq Hs|n e Hq
    |n f rounds Hl Hx|n q a' p' Hq Hs|n e Hq]; try done; cbn in Hp; try (rewrite Hx in Hp; done);
    try (rewrite Hq in Hp; injection Hp as <-; destruct Hn; by eexists);
    try (rewrite Hq in Hp; injection Hp as <-); try injection Hp as <-; exists p';
    (split; [exact Hs|]); (split; [cbn; try done; apply lookup_insert_eq|]);
    intros P' HP'; destruct P'; try done; cbn; rewrite lookup_insert_ne; congruence.
Qed.

(** ** What ends makes way *)

(** [gone] holds before it ends and after some section. *)
Fixpoint drops (gone : App → Prop) (p : prog) : Prop :=
  match p with
  | Ret _ => False
  | Sect A f k => (∀ a, gone (f a).2) ∨ ∀ x, drops gone (k x)
  | Ask A k => ∀ x, drops gone (k x)
  | Tell l k => drops gone k
  | Await w k => drops gone k
  | Mutex m lock k => drops gone k
  end.

Definition loop_gone (n : Z) (a : App) : Prop := loops a !! n = None.
Definition feed_gone (n : Z) (a : App) : Prop := feeds a !! n = None.

Lemma drops_look {A} gone (f : App → A) k : (∀ x, drops gone (k x)) → drops gone (look f k).
Proof. by right. Qed.

Lemma drops_unless gone c stop go : drops gone stop → drops gone go → drops gone (unless c stop go).
Proof. intros Hs Hg. apply drops_look. by intros [|]. Qed.

Lemma drops_bind gone p q : (∀ e, drops gone (q e)) → drops gone (bind p q).
Proof. intros Hq. induction p; cbn; auto. Qed.

Lemma drops_loop_end n : drops (loop_gone n) (loop_end n).
Proof. left. intros a. apply lookup_delete_eq. Qed.

Lemma drops_feed_end n : drops (feed_gone n) (feed_end n).
Proof. left. intros a. apply lookup_delete_eq. Qed.

Lemma drops_rounds rounds n c : drops (loop_gone n) (discover_rounds rounds n c).
Proof.
  pose proof (drops_loop_end n) as Hend. induction rounds as [|rounds IH]; [done|]. cbn [discover_rounds].
  set (again := unless (Some n) (loop_end n) (discover_rounds rounds n c)).
  assert (drops (loop_gone n) again) as Ha by by apply drops_unless.
  apply drops_unless; [done|]. apply drops_look. intros current live.
  set (connected := match current with Some _ => live | None => false end). set (search := Ask (option string) _).
  assert (drops (loop_gone n) search) as Hs.
  { intros addr. apply drops_unless; [done|]. destruct connected.
    - intros h. apply drops_unless; [done|by right].
    - destruct addr as [addr|]; [|by right]. apply drops_bind. intros [e|]; [|by right].
      apply drops_unless; [done|by right]. }
  destruct connected; [done|by right].
Qed.

Lemma drops_discoverLoop rounds n c : drops (loop_gone n) (discoverLoop rounds n c).
Proof.
  pose proof (drops_rounds rounds n c). apply drops_look. intros [|]; [done|].
  destruct (_ && _); [|done]. apply drops_bind. intros [e|]; [|done]. apply drops_unless; [done|by right].
Qed.

Lemma drops_store_all gone l command k : drops gone k → drops gone (store_all l command k).
Proof. intros Hk. induction l as [|p l IH]; [done|]. by right. Qed.

Lemma drops_distributionLoop rounds n f members : drops (feed_gone n) (distributionLoop rounds n f members).
Proof.
  pose proof (drops_feed_end n) as Hend. revert members. induction rounds as [|rounds IH]; intros members; [done|].
  cbn [distributionLoop]. apply drops_unless; [done|]. apply drops_look. intros accepting peers an sent.
  apply drops_store_all. destruct (negb _); [done|]. apply drops_unless; [done|]. right. intros _. by apply drops_unless.
Qed.

Lemma drops_step gone a p a' p' : drops gone p → prog_step a p a' p' → gone a' ∨ drops gone p'.
Proof.
  destruct p as [e|A f k|A k|l k|c k|m lock k]; cbn; intros Hd Hs; try done.
  - destruct Hs as [-> ->], Hd as [Hd|Hd]; auto.
  - destruct Hs as [-> [x ->]]. auto.
  - destruct Hs as [-> ->]. auto.
  - destruct Hs as (-> & _ & ->). auto.
  - destruct Hs as (_ & -> & ->). auto.
Qed.

(** ** Mutexes are released *)

(** Who holds one is on the way to unlock it. *)
Definition locked (w : World) : Prop := ∀ m, m ∈ locks (w_app w) →
  ∃ P p, prog_of P w = Some p ∧ releases m (cancelled (w_app w)) p.

(** The next step of [p]: what it locks, it then releases. *)
Definition latched (a : App) (p : prog) : Prop :=
  match p with
  | Sect A f k => locks (f a).2 = locks a
  | Mutex m true k => releases m (cancelled a) k
  | _ => True
  end.

Lemma tame_latched stops x C a p : tame_at stops x C p → C ⊆ cancelled a → keyed (probes a) → latched a p.
Proof.
  destruct p as [e|A f k|A k|l k|c k|m [|] k]; cbn; intros Hp HC Hk; try done.
  - apply (Hp a HC Hk).
  - destruct Hp as [Hr _]. eapply releases_mono; [by apply Hr|done].
Qed.

Lemma latched_bind a p q : latched a p → (∀ e, latched a (q e)) → latched a (bind p q).
Proof.
  destruct p as [e|A f k|A k|l k|c k|m [|] k]; cbn; intros Hp Hq; try done. by apply releases_bind.
Qed.

Lemma latched_step a p a' p' m :
  latched a p → prog_step a p a' p' → m ∈ locks a' → m ∈ locks a ∨ releases m (cancelled a') p'.
Proof.
  destruct p as [e|A f k|A k|l k|c k|m' [|] k]; cbn; intros Hp Hs; try done.
  - destruct Hs as [-> ->]. rewrite Hp. by left.
  - destruct Hs as [-> _]. by left.
  - destruct Hs as [-> _]. by left.
  - destruct Hs as [-> _]. by left.
  - destruct Hs as (_ & -> & ->). cbn. intros [->%elem_of_singleton|Hm]%elem_of_union; [by right|by left].
  - destruct Hs as (_ & -> & ->). cbn. intros [Hm _]%elem_of_difference. by left.
Qed.

Lemma working_latched fin n a p :
  (∀ e ws, locks (fin n e ws a) = locks a) → working fin n (cancelled a) p → keyed (probes a) → latched a p.
Proof.
  intros Hf [q Hq|e ws] Hk; [|apply Hf]. apply latched_bind; [by eapply tame_latched|done].
Qed.

Lemma world_latched w P p : world_inv w → prog_of P w = Some p → latched (w_app w) p.
Proof.
  intros [Hi Ho Hc [e Ha] Hkd Hd Ht Hf] Hp. destruct P as [| | | | |n|n|n g]; try done; cbn in Hp.
  - injection Hp as <-. destruct (oi_main _ _ _ Ho) as [[[? ->] _]|(n & _ & _ & _ & Hw)]; [done|].
    by apply (working_latched end_op n).
  - injection Hp as <-. destruct (oi_cmd _ _ _ Ho) as [[[? ->] _]|(n & _ & _ & _ & Hw)]; [done|].
    by apply (working_latched end_command n).
  - injection Hp as <-. by rewrite Ha.
  - injection Hp as <-.
    destruct Hc as [_ [[Hcl [[? ->]| ->]]|[(_ & _ & n & _ & ->)|(_ & _ & _ & n & _ & ->)]]|_ _ _ Htm _]; try done.
    + cbn. rewrite Hcl. cbn. by destruct (opDone _), (commandDone _).
    + by eapply tame_latched.
  - destruct (Ht n p Hp) as (_ & Htm & _). by eapply tame_latched.
  - destruct (Hf n p Hp) as (_ & Htm & _). by eapply tame_latched.
Qed.

(** ** The invariant *)

Record live_inv (w : World) : Prop := {
  li_world : world_inv w;
  li_threads n p : w_threads w !! n = Some p → loop_gone n (w_app w) ∨ drops (loop_gone n) p;
  li_feeders n p : w_feeders w !! n = Some p → feed_gone n (w_app w) ∨ drops (feed_gone n) p;
  li_locks : locked w;
}.

(** What has gone does not come back under its number. *)
Record stays (a a' : App) : Prop := {
  sy_loops n : n < next_id a → loop_gone n a → loop_gone n a';
  sy_feeds n : n < next_id a → feed_gone n a → feed_gone n a';
  sy_cancelled : cancelled a ⊆ cancelled a';
  sy_closed : closed a = true → closed a' = true;
}.

Lemma stays_refl a : stays a a.
Proof. by split. Qed.

Lemma frame_stays a a' : frame a a' → stays a a'.
Proof. intros []. split; [done..|congruence]. Qed.

Lemma same_stays a a' :
  loops a' = loops a → feeds a' = feeds a → cancelled a ⊆ cancelled a' → (closed a = true → closed a' = true) →
  stays a a'.
Proof. intros El Ef HC Hc. split; unfold loop_gone, feed_gone; rewrite ?El, ?Ef; done. Qed.

Lemma step_stays w P w' : world_inv w → app_step w P w' → stays (w_app w) (w_app w').
Proof.
  intros Hw Hs. pose proof Hw as [Hi Ho Hc Ha Hkd Hd Ht Hf].
  destruct Hs as [rounds r id now fn n a' Hact Hne Hb|rounds r id now fn n a' Hact Hne Hb|command|temp a' Hk
    |Hcl Hr'|n Hj Hx|n g|n g Hj Hx|a' p' Hs|a' p' Hs|a' p' Hs|a' p' Hs|n c rounds Hl Hx|n q a' p' Hq Hs|n e Hq
    |n f rounds Hl Hx|n q a' p' Hq Hs|n e Hq]; cbn; try apply stays_refl; try (by apply same_stays).
  - destruct (ops_begin _ _ _ _ _ _ _ _ fn Ho Hb) as (_ & Hcl & [] & _ & E & _ & _); [by eapply tame_action|].
    apply same_stays; [done|done|by rewrite E|congruence].
  - destruct (ops_begin_command _ _ _ _ _ _ _ fn Ho Hb) as (_ & Hcl & [] & _ & E & _ & _); [by eapply tame_action|].
    apply same_stays; [done|done|by rewrite E|congruence].
  - apply frame_stays. unfold cancel. apply cancel_opt_same.
  - unfold keep_upload in Hk. destruct (closed _); [done|]. injection Hk as <-. by apply same_stays.
  - destruct (ops_main _ _ _ _ _ Ho Hkd Hs) as [_ [Hfr|(n & e & wraps & _ & -> & ->)]]; [by apply frame_stays|].
    apply same_stays; cbn; set_solver.
  - destruct (ops_cmd _ _ _ _ _ Ho Hkd Hs) as [_ [Hfr|(n & e & wraps & _ & -> & ->)]]; [by apply frame_stays|].
    apply same_stays; cbn; set_solver.
  - destruct Ha as [e Ha]. by rewrite Ha in Hs.
  - destruct Hc as [Hwm [[Hcl [[e Hr]|Hr]]|[(Hcl & Hov & n & Hn & Hr)|(Hcl & Hov & Hm & n & Hn & Hr)]]|Hcl Hm Hcm Htm Hwp];
      try rewrite Hr in Hs; cbn in Hs; try done; try (destruct Hs as (-> & _); apply stays_refl).
    + destruct Hs as [-> _]. rewrite Hcl. unfold cancel_opt. destruct (opDone _), (commandDone _);
        apply same_stays; cbn; set_solver.
    + apply frame_stays. by eapply tame_step.
  - apply frame_stays. destruct (Ht n q Hq) as (_ & Htm & _). by eapply tame_step.
  - apply frame_stays. destruct (Hf n q Hq) as (_ & Htm & _). by eapply tame_step.
Qed.

(** A step of a goroutine, and one that leaves the goroutines alone. *)
Lemma locked_step w P p a' p' w' :
  locked w → prog_of P w = Some p → prog_step (w_app w) p a' p' → latched (w_app w) p → w_app w' = a' →
  cancelled (w_app w) ⊆ cancelled a' → prog_of P w' = Some p' →
  (∀ P', P' ≠ P → prog_of P' w' = prog_of P' w) → locked w'.
Proof.
  intros Hw Hp Hs Hl <- HC Hp' Hne m Hm.
  destruct (latched_step _ _ _ _ m Hl Hs Hm) as [Hm'|Hr]; [|by exists P, p'].
  destruct (Hw m Hm') as (R & r & Hr & Hrel). destruct (decide (R = P)) as [->|HR].
  - rewrite Hp in Hr. injection Hr as <-.
    destruct (releases_step _ _ _ _ _ _ Hrel (reflexivity _) Hs) as [?|?]; [done|by exists P, p'].
  - exists R, r. split; [by rewrite Hne|by eapply releases_mono].
Qed.

Lemma locked_quiet w w' :
  locked w → locks (w_app w') ⊆ locks (w_app w) → cancelled (w_app w) ⊆ cancelled (w_app w') →
  (∀ P p, prog_of P w = Some p → ¬ is_ret p → prog_of P w' = Some p) → locked w'.
Proof.
  intros Hw Hl HC Hp m Hm. destruct (Hw m (Hl m Hm)) as (P & p & HP & Hr). exists P, p.
  split; [|by eapply releases_mono]. apply Hp; [done|]. by intros [e ->].
Qed.

Lemma locked_app_step w P w' : world_inv w → locked w → app_step w P w' → locked w'.
Proof.
  intros Hw Hk Hs. pose proof (sy_cancelled _ _ (step_stays _ _ _ Hw Hs)) as HC.
  pose proof Hw as [Hi Ho Hc Ha Hkd Hd Ht Hf].
  assert (∀ P p, prog_of P w = Some p → latched (w_app w) p) as Hl by (intros; by eapply world_latched).
  destruct Hs as [rounds r id now fn n a' Hact Hne Hb|rounds r id now fn n a' Hact Hne Hb|command|temp a' Hu
    |Hcl Hr'|n Hj Hx|n g|n g Hj Hx|a' p' Hs|a' p' Hs|a' p' Hs|a' p' Hs|n c rounds Hlp Hx|n q a' p' Hq Hs|n e Hq
    |n f rounds Hlp Hx|n q a' p' Hq Hs|n e Hq]; cbn in HC.
  - destruct (ops_begin _ _ _ _ _ _ _ _ fn Ho Hb) as (Hm & _); [by eapply tame_action|].
    apply (locked_quiet w); [done| |done|by intros [] p [= <-] Hp].
    unfold begin in Hb. destruct (closed _); [done|]. destruct (is_running _); [done|]. by injection Hb as <- <-.
  - destruct (ops_begin_command _ _ _ _ _ _ _ fn Ho Hb) as (Hm & _); [by eapply tame_action|].
    apply (locked_quiet w); [done| |done|by intros [] p [= <-] Hp].
    unfold beginCommand in Hb. destruct (closed _); [done|]. destruct (is_running _); [done|]. by injection Hb as <- <-.
  - apply (locked_quiet w); [done| |done|by intros [] p [= <-] Hp]. cbn. unfold cancel. by destruct (if command then _ else _).
  - apply (locked_quiet w); [done| |done|by intros [] p [= <-] Hp].
    unfold keep_upload in Hu. destruct (closed _); [done|]. by injection Hu as <-.
  - apply (locked_quiet w); [done|done|done|by intros [] p [= <-] Hp].
  - apply (locked_quiet w); [done|done|done|by intros [] p [= <-] Hp].
  - apply (locked_quiet w); [done|done|done|by intros [] p [= <-] Hp].
  - apply (locked_quiet w); [done|done|done|by intros [] p [= <-] Hp].
  - apply (locked_step w Main (w_main w) a' p'); try done; [by apply (Hl Main)|by intros []].
  - apply (locked_step w Cmd (w_cmd w) a' p'); try done; [by apply (Hl Cmd)|by intros []].
  - apply (locked_step w Auto (w_auto w) a' p'); try done; [by apply (Hl Auto)|by intros []].
  - apply (locked_step w Closer (w_close w) a' p'); try done; [by apply (Hl Closer)|by intros []].
  - apply (locked_quiet w); [done|done|done|]. intros [| | | | |n'|n'|] p Hp _; cbn in *; try done.
    rewrite lookup_insert_ne; congruence.
  - apply (locked_step w (Thread n) q a' p'); try done; [by apply (Hl (Thread n))|apply lookup_insert_eq|].
    intros [| | | | |n'|n'|] HP; try done; cbn. rewrite lookup_insert_ne; congruence.
  - apply (locked_quiet w); [done|done|done|]. intros [| | | | |n'|n'|] p Hp Hr; cbn in *; try done.
    rewrite lookup_delete_ne; [done|]. intros <-. rewrite Hq in Hp. injection Hp as <-. destruct Hr. by eexists.
  - apply (locked_quiet w); [done|done|done|]. intros [| | | | |n'|n'|] p Hp _; cbn in *; try done.
    rewrite lookup_insert_ne; congruence.
  - apply (locked_step w (Feeder n) q a' p'); try done; [by apply (Hl (Feeder n))|apply lookup_insert_eq|].
    intros [| | | | |n'|n'|] HP; try done; cbn. rewrite lookup_insert_ne; congruence.
  - apply (locked_quiet w); [done|done|done|]. intros [| | | | |n'|n'|] p Hp Hr; cbn in *; try done.
    rewrite lookup_delete_ne; [done|]. intros <-. rewrite Hq in Hp. injection Hp as <-. destruct Hr. by eexists.
Qed.

Lemma live_step w P w' : live_inv w → app_step w P w' → live_inv w'.
Proof.
  intros [Hw Hth Hfe Hlk] Hs. pose proof (step_stays _ _ _ Hw Hs) as [Hsl Hsf _ _].
  assert (∀ n p, w_threads w !! n = Some p → loop_gone n (w_app w') ∨ drops (loop_gone n) p) as Hth'.
  { intros n p Hp. destruct (Hth n p Hp) as [?|?]; [left|by right]. apply Hsl; [|done]. by destruct (wi_threads _ Hw n p Hp). }
  assert (∀ n p, w_feeders w !! n = Some p → feed_gone n (w_app w') ∨ drops (feed_gone n) p) as Hfe'.
  { intros n p Hp. destruct (Hfe n p Hp) as [?|?]; [left|by right]. apply Hsf; [|done]. by destruct (wi_feeders _ Hw n p Hp). }
  split; [by eapply app_step_inv| | |by eapply locked_app_step]; clear Hth Hfe Hsl Hsf Hlk; destruct Hs; cbn in *; try done;
    intros m r Hr.
  - apply lookup_insert_Some in Hr as [[<- <-]|[_ Hr]]; [right; apply drops_discoverLoop|by apply Hth'].
  - apply lookup_insert_Some in Hr as [[<- <-]|[_ Hr]]; [|by apply Hth'].
    destruct (Hth' n p) as [?|Hd]; [done|by left|by eapply drops_step].
  - apply lookup_delete_Some in Hr as [_ Hr]. by apply Hth'.
  - apply lookup_insert_Some in Hr as [[<- <-]|[_ Hr]]; [right; apply drops_distributionLoop|by apply Hfe'].
  - apply lookup_insert_Some in Hr as [[<- <-]|[_ Hr]]; [|by apply Hfe'].
    destruct (Hfe' n p) as [?|Hd]; [done|by left|by eapply drops_step].
  - apply lookup_delete_Some in Hr as [_ Hr]. by apply Hfe'.
Qed.

Lemma live_steps w w' : live_inv w → rtc step w w' → live_inv w'.
Proof. intros Hw Hr. induction Hr as [|x y z [P Hs] _ IH]; [done|]. apply IH. by eapply live_step. Qed.

(** No mutex is held after what ran alone. *)
Lemma alone_unlocked x a p b e :
  alone a p b e → tame_at true x (cancelled a) p → keyed (probes a) →
  (∀ m, m ∈ locks a → releases m (cancelled a) p) → locks b = ∅.
Proof.
  induction 1 as [a e|a p a' p' b e Hs _ IH]; intros Ht Hk Hl.
  - apply elem_of_equiv_empty_L. intros m Hm. by apply Hl in Hm.
  - destruct (tame_step _ _ _ _ _ _ _ Ht (reflexivity _) Hk Hs) as [Hfr Ht'].
    apply IH; [done|by apply (fr_keyed _ _ Hfr)|]. intros m Hm.
    destruct (latched_step _ _ _ _ m (tame_latched _ _ _ _ _ Ht (reflexivity _) Hk) Hs Hm) as [Hm'|?]; [|done].
    by destruct (releases_step _ _ _ _ _ _ (Hl m Hm') (reflexivity _) Hs).
Qed.

Lemma New_unlocked c wd a : New c wd = Some a → locks a = ∅ ∧ keyed (probes a).
Proof.
  unfold New. destruct (negb _); [done|]. intros H. apply bind_Some in H as (dir & _ & (abs & _ & [= <-])%bind_Some).
  split; [done|apply keyed_empty].
Qed.

Lemma started_locked c wd a w : New c wd = Some a → started a w → locked w.
Proof.
  intros Hn Hs. destruct (New_unlocked _ _ _ Hn) as [El Hk]. assert (locks (w_app w) = ∅) as E.
  { destruct Hs as [_|kind fn id now n a' Hf Hb|p b e Hp Hal]; cbn.
    - done.
    - unfold begin in Hb. destruct (closed _); [done|]. destruct (is_running _); [done|]. by injection Hb as <- <-.
    - unfold AutoStart in Hp. destruct (String.eqb _ _); [done|]. destruct (String.eqb _ _); [|done]. injection Hp as <-.
      apply (alone_unlocked None _ _ _ _ Hal); [apply tame_startDiscovery|done|]. by rewrite El. }
  intros m. rewrite E. by intros ?%not_elem_of_empty.
Qed.

Lemma started_live c wd a w : New c wd = Some a → started a w → live_inv w.
Proof. intros Hn Hs. split; [by eapply started_inv|by destruct Hs|by destruct Hs|by eapply started_locked]. Qed.

Lemma reachable_live w : reachable w → live_inv w.
Proof. intros (c & wd & a & w0 & Hn & Hs & Hr). eapply live_steps; [|done]. by eapply started_live. Qed.

(** ** Running one goroutine to its end *)

(** The goroutines that are not loops. *)
Definition single (P : process) : Prop :=
  match P with Main | Cmd | Closer => True | _ => False end.

(** It holds no mutex: nobody else waits for it to go on. *)
Definition stuck (p : prog) : Prop := ∀ m C, ¬ releases m C p.

(** What [P] has done, and those that were in its way. *)
Record past (P : process) (w w' : World) : Prop := {
  pa_cancelled : cancelled (w_app w) ⊆ cancelled (w_app w');
  pa_closed : closed (w_app w) = true → closed (w_app w') = true;
  pa_single P' p : single P' → P' ≠ P → prog_of P' w = Some p → stuck p → prog_of P' w' = Some p;
}.

Lemma past_refl P w : past P w w.
Proof. by split. Qed.

Lemma past_trans P w1 w2 w3 : past P w1 w2 → past P w2 w3 → past P w1 w3.
Proof. intros [H1 Hc H2] [H3 Hc' H4]. split; [set_solver|auto|]. intros P' p HP Hne Hp Hs. by apply H4; [..|apply H2|]. Qed.

Lemma ret_stuck p : is_ret p → stuck p.
Proof. intros [e ->] m C Hr. exact Hr. Qed.

Lemma past_main P w w' : past P w w' → P ≠ Main → is_ret (w_main w) → is_ret (w_main w').
Proof.
  intros [_ _ H] Hne Hr. assert (prog_of Main w' = Some (w_main w)) as [= E] by (apply H; try done; by apply ret_stuck).
  by rewrite E.
Qed.

Lemma past_cmd P w w' : past P w w' → P ≠ Cmd → is_ret (w_cmd w) → is_ret (w_cmd w').
Proof.
  intros [_ _ H] Hne Hr. assert (prog_of Cmd w' = Some (w_cmd w)) as [= E] by (apply H; try done; by apply ret_stuck).
  by rewrite E.
Qed.

(** Only [P], and groups of goroutines, have gone on. *)
Record calm (P : process) (w w' : World) : Prop := {
  ca_cancelled : cancelled (w_app w) ⊆ cancelled (w_app w');
  ca_closed : closed (w_app w) = true → closed (w_app w') = true;
  ca_others P' : P' ≠ P → prog_of P' w' = prog_of P' w;
}.

Lemma calm_refl P w : calm P w w.
Proof. by split. Qed.

Lemma calm_trans P w1 w2 w3 : calm P w1 w2 → calm P w2 w3 → calm P w1 w3.
Proof. intros [H1 Hc H2] [H3 Hc' H4]. split; [set_solver|auto|]. intros P' Hne. by rewrite H4, H2. Qed.

Lemma calm_step w P p w' : live_inv w → prog_of P w = Some p → ¬ is_ret p → app_step w P w' → calm P w w'.
Proof.
  intros Hw Hp Hn Hs. destruct (step_stays _ _ _ (li_world _ Hw) Hs). split; [done|done|].
  by destruct (its_step _ _ _ _ Hp Hn Hs) as (_ & _ & _ & H).
Qed.

Lemma calm_past P w w' : calm P w w' → past P w w'.
Proof. intros [? ? H]. split; [done|done|]. intros P' p _ Hne Hp _. by rewrite H. Qed.

(** Who held a mutex has gone on. *)
Lemma holder_past P R r m C w w' : prog_of R w = Some r → releases m C r → calm R w w' → past P w w'.
Proof.
  intros Hr Hrel [? ? H]. split; [done|done|]. intros P' p _ _ Hp Hs.
  rewrite H; [done|]. intros ->. rewrite Hr in Hp. injection Hp as ->. by destruct (Hs m C).
Qed.

(** What waits for a group of goroutines that was told to end: they do, all else as it is. *)
Lemma group_ends n g P w (Q : World → Prop) :
  live_inv w → n ∈ cancelled (w_app w) →
  (∀ w', live_inv w' → calm P w w' → prog_of P w' = prog_of P w → ready (GroupGone n g) (w_app w') = true →
    eventually Q w') → eventually Q w.
Proof.
  intros Hw Hn Hk. destruct (decide ((n, g) ∈ busy (w_app w))) as [Hb|Hb].
  - apply ev_step with (Group n g); [done|eexists; by apply W_group|]. intros w' Hs.
    assert (live_inv w') as Hw' by by eapply live_step.
    inversion Hs; subst. apply Hk; [done|by split; [..|intros []]|by destruct P|].
    apply bool_decide_eq_true. cbn. set_solver.
  - apply Hk; [done|by split|done|]. by apply bool_decide_eq_true.
Qed.

(** A step that [R] can make. *)
Lemma one_step R p w (Q : World → Prop) :
  live_inv w → prog_of R w = Some p → ¬ is_ret p → (∃ a' p', prog_step (w_app w) p a' p') →
  (∀ w' p', live_inv w' → calm R w w' → prog_of R w' = Some p' → prog_step (w_app w) p (w_app w') p' →
    eventually Q w') → eventually Q w.
Proof.
  intros Hw Hp Hn (a' & p' & Hs) Hrest.
  apply ev_step with R; [by eapply not_user|by eapply can_step|]. intros w' Hw'.
  destruct (its_step _ _ _ _ Hp Hn Hw') as (q & Hq & Hpq & _).
  apply (Hrest w' q); [by eapply live_step|by eapply calm_step|done|done].
Qed.

Lemma one_ready R n g k w (Q : World → Prop) :
  live_inv w → prog_of R w = Some (Await (GroupGone n g) k) → n ∈ cancelled (w_app w) →
  (∀ w', live_inv w' → calm R w w' → prog_of R w' = Some k → eventually Q w') → eventually Q w.
Proof.
  intros Hw Hp Hn Hk. apply (group_ends n g R); [done|done|]. intros v Hv Hpa Hpv Hb. rewrite Hp in Hpv.
  apply (one_step R _ _ _ Hv Hpv); [by intros []|by do 2 eexists|].
  intros w' q Hw' Hpa' Hp' (_ & _ & ->). apply Hk; [done|by eapply calm_trans|done].
Qed.

(** Who holds a mutex comes to unlock it. *)
Lemma holder_unlocks m R p C w (Q : World → Prop) :
  live_inv w → prog_of R w = Some p → releases m C p → C ⊆ cancelled (w_app w) →
  (∀ w', live_inv w' → calm R w w' → m ∉ locks (w_app w') → eventually Q w') → eventually Q w.
Proof.
  revert C w. induction p as [e|A f k IH|A k IH|l k IH|c k IH|m' lock k IH]; intros C w Hw Hp Hr HC Hk; cbn in Hr.
  - done.
  - apply (one_step R _ _ _ Hw Hp); [by intros []|by do 2 eexists|]. intros v q Hv Hpa Hpv [E ->].
    destruct (Hr (w_app w) HC) as [_ Hrel]. rewrite <-E in Hrel. apply (IH _ _ v Hv Hpv Hrel); [done|].
    intros w' Hw' Hpa'. apply Hk; [done|by eapply calm_trans].
  - destruct Hr as [[y] Hr].
    apply (one_step R _ _ _ Hw Hp); [by intros []|exists (w_app w), (k y); split; [done|by exists y]|].
    intros v q Hv Hpa Hpv [E [z ->]]. apply (IH z _ v Hv Hpv (Hr z)); [by rewrite E|].
    intros w' Hw' Hpa'. apply Hk; [done|by eapply calm_trans].
  - apply (one_step R _ _ _ Hw Hp); [by intros []|by do 2 eexists|]. intros v q Hv Hpa Hpv [E ->].
    apply (IH _ v Hv Hpv Hr); [by rewrite E|]. intros w' Hw' Hpa'. apply Hk; [done|by eapply calm_trans].
  - destruct Hr as [Hn Hr], c as [ | | | |n g]; try done.
    apply (one_ready R n g k _ _ Hw Hp); [by apply HC|]. intros v Hv Hpa Hpv.
    apply (IH _ v Hv Hpv Hr); [by etrans; [|apply (ca_cancelled _ _ _ Hpa)]|].
    intros w' Hw' Hpa'. apply Hk; [done|by eapply calm_trans].
  - destruct Hr as [-> ->]. apply (one_step R _ _ _ Hw Hp); [by intros []|by do 2 eexists|].
    intros v q Hv Hpa Hpv (_ & E & _). apply Hk; [done|done|]. rewrite E. cbn. set_solver.
Qed.

(** A mutex becomes free while [P], who does not hold it, waits. *)
Lemma mutex_free m P p w (Q : World → Prop) :
  live_inv w → prog_of P w = Some p → stuck p →
  (∀ w', live_inv w' → past P w w' → prog_of P w' = Some p → m ∉ locks (w_app w') → eventually Q w') → eventually Q w.
Proof.
  intros Hw Hp Hst Hk. destruct (decide (m ∈ locks (w_app w))) as [Hm|Hm]; [|by apply Hk; [|apply past_refl|..]].
  destruct (li_locks _ Hw m Hm) as (R & r & Hr & Hrel).
  apply (holder_unlocks m R r _ _ _ Hw Hr Hrel); [done|]. intros v Hv Hpa. apply Hk; [done|by eapply holder_past|].
  rewrite (ca_others _ _ _ Hpa); [done|]. intros ->. rewrite Hp in Hr. injection Hr as ->. by destruct (Hst _ _ Hrel).
Qed.

(** It does not go on by itself, and holds no mutex. *)
Definition waits (q : prog) : Prop :=
  match q with
  | Await (GroupGone _ _) _ => False
  | Await _ _ => True
  | Mutex _ lock _ => lock = true
  | _ => False
  end.

(** The frame around the part that is looked at: nothing, or the end of an operation. *)
Record hole (K : prog → prog) : Prop := {
  ho_ret q : is_ret (K q) → is_ret q;
  ho_down a q a' r : ¬ is_ret q → prog_step a (K q) a' r → ∃ q', prog_step a q a' q' ∧ r = K q';
  ho_up a q a' q' : prog_step a q a' q' → prog_step a (K q) a' (K q');
  ho_stuck q : waits q → stuck (K q);
}.

Lemma hole_id : hole id.
Proof.
  split; [done| |done|].
  - intros a q a' r _ Hs. by exists r.
  - intros [ | | | |[]|] Hq m0 C Hr; cbn in *; naive_solver.
Qed.

Lemma hole_bind r : hole (λ q, bind q r).
Proof.
  split.
  - intros [e|A f k|A k|l k|c k|m lock k] [x Hx]; try done. by eexists.
  - intros a q a' s Hn Hs. apply bind_step in Hs as [(e & -> & _)|Hs]; [|done]. destruct Hn. by eexists.
  - intros a [e|A f k|A k|l k|c k|m lock k] a' q' Hs; cbn in *; try done.
    + by destruct Hs as [-> ->].
    + destruct Hs as [-> [x ->]]. split; [done|]. by exists x.
    + by destruct Hs as [-> ->].
    + by destruct Hs as (-> & ? & ->).
    + by destruct Hs as (? & -> & ->).
  - intros [ | | | |[]|] Hq m0 C Hr; cbn in *; naive_solver.
Qed.

(** Loops that are cancelled can be brought to their end. *)
Definition resolves : Prop := ∀ m w (Q : World → Prop), live_inv w → m ∈ cancelled (w_app w) →
  ((∀ w', live_inv w' → past (Thread m) w w' → loop_gone m (w_app w') → eventually Q w') → eventually Q w) ∧
  ((∀ w', live_inv w' → past (Feeder m) w w' → feed_gone m (w_app w') → eventually Q w') → eventually Q w).

Section run.
Context (stops : bool) (P : process) (K : prog → prog) (x : context).
Hypothesis (HK : hole K) (Hres : stops = true → single P ∧ resolves).

(** A step that can be made, then the rest. *)
Lemma run_step q w (Q : World → Prop) :
  live_inv w → prog_of P w = Some (K q) → ¬ is_ret q → (∃ a' q', prog_step (w_app w) q a' q') →
  (∀ w' q', live_inv w' → past P w w' → prog_of P w' = Some (K q') → prog_step (w_app w) q (w_app w') q' →
    eventually Q w') → eventually Q w.
Proof.
  intros Hw Hp Hn (a' & q' & Hs) Hrest. assert (¬ is_ret (K q)) as HnK by (intros H; by apply Hn, (ho_ret _ HK)).
  apply (one_step P _ _ _ Hw Hp HnK); [do 2 eexists; by apply (ho_up _ HK)|]. intros w' p' Hw' Hpa Hp' Hps.
  apply (ho_down _ HK) in Hps as (r & Hr & ->); [|done]. apply (Hrest w' r); [done|by apply calm_past|done|done].
Qed.

(** From a later state in which it is where it was. *)
Definition goal (Q : World → Prop) (w : World) : Prop :=
  ∀ e w', live_inv w' → past P w w' → prog_of P w' = Some (K (Ret e)) → eventually Q w'.

Lemma goal_past Q w w' : goal Q w → past P w w' → goal Q w'.
Proof. intros Hg Hpa e v Hv Hpv. apply Hg; [done|by eapply past_trans]. Qed.

(** What [P] itself waits for comes. *)
Lemma run_wait c k C w (Q : World → Prop) :
  live_inv w → prog_of P w = Some (K (Await c k)) → wakes stops x C c → C ⊆ cancelled (w_app w) →
  (∀ n, x = Some n → n ∈ cancelled (w_app w)) → goal Q w →
  (∀ w', live_inv w' → cancelled (w_app w) ⊆ cancelled (w_app w') → prog_of P w' = Some (K (Await c k)) →
    ready c (w_app w') = true → goal Q w' → eventually Q w') → eventually Q w.
Proof.
  intros Hw Hp Hc HC Hx Hg Hk.
  assert (∀ R, ¬ single R → single P → waits (Await c k) → ∀ v, live_inv v → past R w v → ready c (w_app v) = true →
    eventually Q v) as Hnext.
  { intros R HR HP Hwt v Hv [Hvc Hvcl Hvp] Hcv. assert (∀ P', single P' → P' ≠ R) as Hne by (intros P' HP' ->; done).
    apply Hk; try done.
    - apply Hvp; auto. by apply (ho_stuck _ HK).
    - intros e w' Hw' [Hc1 Hcl Hc2]. apply Hg; [done|]. split; [set_solver|auto|].
      intros P' p HP' HPP Hpp Hs. apply Hc2; auto. }
  destruct c as [c|m|m|n|n g]; cbn in Hc.
  - destruct Hc as [-> [n ->]]. apply Hk; try done. cbn. by apply bool_decide_eq_true, Hx.
  - destruct Hc as [-> Hm], (Hres eq_refl) as [Hsi Hrs]. destruct (Hrs m w Q Hw (HC m Hm)) as [Hloop _].
    apply Hloop. intros v Hv Hpa Hgone. apply (Hnext (Thread m)); [by intros []|done..|]. by apply bool_decide_eq_true.
  - destruct Hc as [-> Hm], (Hres eq_refl) as [Hsi Hrs]. destruct (Hrs m w Q Hw (HC m Hm)) as [_ Hfeed].
    apply Hfeed. intros v Hv Hpa Hgone. apply (Hnext (Feeder m)); [by intros []|done..|]. by apply bool_decide_eq_true.
  - done.
  - apply (group_ends n g P); [done|by apply HC|]. intros v Hv Hpa Hpv Hb. rewrite Hp in Hpv.
    apply Hk; try done; [apply Hpa|]. eapply goal_past; [done|by apply calm_past].
Qed.

Lemma run q C w (Q : World → Prop) :
  live_inv w → prog_of P w = Some (K q) → tame_at stops x C q → C ⊆ cancelled (w_app w) →
  (∀ n, x = Some n → n ∈ cancelled (w_app w)) → goal Q w → eventually Q w.
Proof.
  revert C w. induction q as [e|A f k IH|A k IH|l k IH|c k IH|m lock k IH]; intros C w Hw Hp Ht HC Hx Hret; cbn in Ht.
  - apply (Hret e); [done|apply past_refl|done].
  - apply (run_step _ _ _ Hw Hp); [by intros []|by do 2 eexists|].
    intros w' q' Hw' Hpa Hp' [E ->]. destruct (Ht (w_app w) HC (wi_keyed _ (li_world _ Hw))) as [_ Hk]. rewrite <-E in Hk.
    apply (IH _ _ w' Hw' Hp' Hk); [done|intros n Hn; by apply (pa_cancelled _ _ _ Hpa), Hx|by eapply goal_past].
  - destruct Ht as [[y] Ht]. apply (run_step _ _ _ Hw Hp); [by intros []|exists (w_app w), (k y); split; [done|by exists y]|].
    intros w' q' Hw' Hpa Hp' [E [z ->]].
    apply (IH z C w' Hw' Hp'); [done|by rewrite E|by rewrite E|by eapply goal_past].
  - apply (run_step _ _ _ Hw Hp); [by intros []|by do 2 eexists|].
    intros w' q' Hw' Hpa Hp' [E ->]. apply (IH C w' Hw' Hp'); [done|by rewrite E|by rewrite E|by eapply goal_past].
  - destruct Ht as [Hwake Ht]. apply (run_wait c k C w Q Hw Hp Hwake HC Hx Hret).
    intros v Hv HCv Hpv Hb Hg. apply (run_step _ _ _ Hv Hpv); [by intros []|by do 2 eexists|].
    intros w' q' Hw' Hpa Hp' (E & _ & ->).
    apply (IH C w' Hw' Hp'); [done|by rewrite E; etrans|by rewrite E; auto|by eapply goal_past].
  - destruct Ht as [_ Ht].
    assert (∀ v, live_inv v → past P w v → prog_of P v = Some (K (Mutex m lock k)) → (lock = true → m ∉ locks (w_app v)) →
      eventually Q v) as Hfree.
    { intros v Hv Hpa Hpv Hb. apply (run_step _ _ _ Hv Hpv); [by intros []|by do 2 eexists|].
      intros w' q' Hw' Hpa' Hp' (_ & E & ->). assert (cancelled (w_app w) ⊆ cancelled (w_app w')) as HCw.
      { rewrite E. cbn. apply (pa_cancelled _ _ _ Hpa). }
      apply (IH C w' Hw' Hp'); [done|by etrans|by auto|by eapply goal_past; [|eapply past_trans]]. }
    destruct lock; [|by apply Hfree; [|apply past_refl|..]].
    apply (mutex_free m P _ _ _ Hw Hp); [by apply (ho_stuck _ HK)|]. intros v Hv Hpa Hpv Hm. by apply Hfree.
Qed.
End run.

(** ** Loops, operations and [Close] *)

Lemma resolve_thread m p w (Q : World → Prop) :
  live_inv w → m ∈ cancelled (w_app w) → w_threads w !! m = Some p →
  (∀ w', live_inv w' → past (Thread m) w w' → loop_gone m (w_app w') → eventually Q w') → eventually Q w.
Proof.
  intros Hw Hm Hp Hk. destruct (wi_threads _ (li_world _ Hw) m p Hp) as (_ & Ht & _).
  apply (run false (Thread m) id (Some m) hole_id) with (q := p) (C := cancelled (w_app w)); try done; [by intros n [= <-]|].
  intros e w' Hw' Hpa Hp'. apply Hk; [done|done|].
  destruct (li_threads _ Hw' m (Ret e) Hp') as [?|[]]. done.
Qed.

Lemma resolve_feeder m p w (Q : World → Prop) :
  live_inv w → m ∈ cancelled (w_app w) → w_feeders w !! m = Some p →
  (∀ w', live_inv w' → past (Feeder m) w w' → feed_gone m (w_app w') → eventually Q w') → eventually Q w.
Proof.
  intros Hw Hm Hp Hk. destruct (wi_feeders _ (li_world _ Hw) m p Hp) as (_ & Ht & _).
  apply (run false (Feeder m) id (Some m) hole_id) with (q := p) (C := cancelled (w_app w)); try done; [by intros n [= <-]|].
  intros e w' Hw' Hpa Hp'. apply Hk; [done|done|].
  destruct (li_feeders _ Hw' m (Ret e) Hp') as [?|[]]. done.
Qed.

(** A loop that has not started does so first. *)
Lemma cancelled_loops_end : resolves.
Proof.
  intros m w Q Hw Hm. split; intros Hk.
  - destruct (loops (w_app w) !! m) as [c|] eqn:El; [|by apply Hk; [|apply past_refl|]].
    destruct (w_threads w !! m) as [p|] eqn:Ep; [by eapply resolve_thread|].
    apply ev_step with (Thread m); [done|eexists; by apply (W_spawn w m c 0)|].
    intros w' Hs. assert (live_inv w') as Hw' by by eapply live_step.
    inversion Hs; subst; try congruence.
    eapply (resolve_thread m); [done|done|apply lookup_insert_eq|].
    intros v Hv [Hc Hcl Hs'] Hg. apply Hk; [done| |done]. split; [done|done|]. intros P' p HP' Hne Hp. apply Hs'; [done|done|by destruct P'].
  - destruct (feeds (w_app w) !! m) as [f|] eqn:El; [|by apply Hk; [|apply past_refl|]].
    destruct (w_feeders w !! m) as [p|] eqn:Ep; [by eapply resolve_feeder|].
    apply ev_step with (Feeder m); [done|eexists; by apply (W_feed w m f 0)|].
    intros w' Hs. assert (live_inv w') as Hw' by by eapply live_step.
    inversion Hs; subst; try congruence.
    eapply (resolve_feeder m); [done|done|apply lookup_insert_eq|].
    intros v Hv [Hc Hcl Hs'] Hg. apply Hk; [done| |done]. split; [done|done|]. intros P' p HP' Hne Hp. apply Hs'; [done|done|by destruct P'].
Qed.

(** The goroutine [P] of an operation whose context is over. *)
Lemma working_ends P fin n p w (Q : World → Prop) :
  single P → live_inv w → prog_of P w = Some p → working fin n (cancelled (w_app w)) p →
  n ∈ cancelled (w_app w) →
  (∀ e w', live_inv w' → past P w w' → prog_of P w' = Some (Ret e) → eventually Q w') → eventually Q w.
Proof.
  intros Hsi Hw Hp Hwork Hn Hk.
  assert (∀ e ws v, live_inv v → past P w v → prog_of P v = Some (act (fin n e ws) (Ret e)) → eventually Q v) as Hend.
  { intros e ws v Hv Hpv Hpp. apply (run_step P id hole_id _ _ _ Hv Hpp); [by intros []|by do 2 eexists|].
    intros v' q' Hv' Hpa Hp' [_ ->]. apply (Hk e); [done|by eapply past_trans|done]. }
  destruct Hwork as [q Hq|e ws]; [|by apply (Hend e ws); [|apply past_refl|]].
  apply (run true P (λ q, bind q (op_end fin n)) (Some n) (hole_bind _)) with (q := q) (C := cancelled (w_app w)); try done.
  - intros _. split; [done|apply cancelled_loops_end].
  - by intros m [= <-].
  - intros e v Hv Hpa Hpv. cbn [bind] in Hpv.
    apply (run_step P id hole_id _ _ _ Hv Hpv).
    + by intros [].
    + exists (w_app v), (act (fin n e true) (Ret e)). split; [done|by exists true].
    + intros v' q' Hv' Hpa' Hp' [_ [ws ->]]. apply (Hend e ws); [done|by eapply past_trans|done].
Qed.

Lemma main_ends w (Q : World → Prop) :
  live_inv w → (∀ n, opDone (w_app w) = Some n → n ∈ cancelled (w_app w)) →
  (∀ w', live_inv w' → past Main w w' → is_ret (w_main w') → eventually Q w') → eventually Q w.
Proof.
  intros Hw Hn Hk. destruct (oi_main _ _ _ (wi_ops _ (li_world _ Hw))) as [[Hr _]|(n & Hd & _ & _ & Hwork)].
  - apply Hk; [done|apply past_refl|done].
  - eapply (working_ends Main); try done; [by apply Hn|]. intros e w' Hw' Hpa [= Hp]. apply Hk; [done|done|by exists e].
Qed.

Lemma cmd_ends w (Q : World → Prop) :
  live_inv w → (∀ n, commandDone (w_app w) = Some n → n ∈ cancelled (w_app w)) →
  (∀ w', live_inv w' → past Cmd w w' → is_ret (w_cmd w') → eventually Q w') → eventually Q w.
Proof.
  intros Hw Hn Hk. destruct (oi_cmd _ _ _ (wi_ops _ (li_world _ Hw))) as [[Hr _]|(n & Hd & _ & _ & Hwork)].
  - apply Hk; [done|apply past_refl|done].
  - eapply (working_ends Cmd); try done; [by apply Hn|]. intros e w' Hw' Hpa [= Hp]. apply Hk; [done|done|by exists e].
Qed.

Definition closed_down (w : World) : Prop := closed (w_app w) = true ∧ is_ret (w_close w).

Lemma rest_ends w p :
  live_inv w → closed (w_app w) = true → prog_of Closer w = Some p → tame_at true None (cancelled (w_app w)) p →
  eventually closed_down w.
Proof.
  intros Hw Hc Hp Ht.
  apply (run true Closer id None hole_id) with (q := p) (C := cancelled (w_app w)); try done.
  - intros _. split; [done|apply cancelled_loops_end].
  - intros e w' _ [_ Hcl _] [= Hp']. apply ev_done. split; [by apply Hcl|by exists e].
Qed.

Lemma nothing_doing w : live_inv w → is_ret (w_main w) → is_ret (w_cmd w) → doing (w_app w) = ∅.
Proof.
  intros [[_ Ho _ _ _ _ _ _] _ _ _] Hm Hc. apply elem_of_equiv_empty_L. intros n Hn.
  destruct (oi_doing _ _ _ Ho n Hn) as [[_ Hr]|[_ Hr]].
  - by apply (shown_running _ _ _ _ _ (oi_main _ _ _ Ho)) in Hr.
  - by apply (shown_running _ _ _ _ _ (oi_cmd _ _ _ Ho)) in Hr.
Qed.

(** Nothing is left to wait for. *)
Lemma wait_ends w n k (Q : World → Prop) :
  live_inv w → is_ret (w_main w) → is_ret (w_cmd w) →
  prog_of Closer w = Some (Await (WorkDone n) k) →
  (∀ w', live_inv w' → past Closer w w' → is_ret (w_main w') → is_ret (w_cmd w') → prog_of Closer w' = Some k →
    eventually Q w') → eventually Q w.
Proof.
  intros Hw Hm Hc Hp Hk. pose proof (nothing_doing w Hw Hm Hc) as Hd.
  apply (run_step Closer id hole_id _ _ _ Hw Hp); [by intros []| |].
  - exists (w_app w), k. split_and!; [done| |done]. apply bool_decide_eq_true. rewrite Hd. set_solver.
  - intros w' q' Hw' Hpa Hp' (_ & _ & ->). apply Hk; try done; [by eapply past_main|by eapply past_cmd].
Qed.

(** The operation and the command have ended. *)
Lemma close_ends w :
  live_inv w → closed (w_app w) = true → is_ret (w_main w) → is_ret (w_cmd w) → eventually closed_down w.
Proof.
  intros Hw Hc Hm Hcm.
  assert (∀ v, live_inv v → past Closer w v → prog_of Closer v = Some close_rest → eventually closed_down v) as Hrest.
  { intros v Hv [_ Hcl _] Hp. apply (rest_ends v close_rest); [done|by apply Hcl|done|apply tame_close_rest]. }
  destruct (wi_closing _ (li_world _ Hw)) as [_ [[? _]|[(_ & _ & n & _ & E)|(_ & _ & _ & n & _ & E)]]|_ _ _ Ht _];
    [congruence|..].
  - eapply wait_ends; [done|done|done|by cbn; rewrite E|]. intros v Hv Hpa Hmv Hcv Hpv.
    destruct (commandDone (w_app w)) as [m|]; cbn [wait] in Hpv; [|by apply Hrest].
    eapply wait_ends; [done|done|done|exact Hpv|]. intros u Hu Hpu _ _ Hpp. apply Hrest; [done|by eapply past_trans|done].
  - eapply wait_ends; [done|done|done|by cbn; rewrite E|]. intros v Hv Hpa _ _ Hpv. by apply Hrest.
  - by eapply rest_ends.
Qed.

Lemma closed_ends w : live_inv w → closed (w_app w) = true → eventually closed_down w.
Proof.
  intros Hw Hc. destruct (wi_closing _ (li_world _ Hw)) as [_ Hb|_ Hm Hcm _ _]; [|by apply close_ends].
  assert (both_over (w_app w)) as Ho by (destruct Hb as [[? _]|[(_ & ? & _)|(_ & ? & _)]]; [congruence|done..]).
  apply main_ends; [done|intros n Hn; apply Ho; by left|]. intros v Hv Hpa Hm.
  assert (closed (w_app v) = true) as Hcv by by apply (pa_closed _ _ _ Hpa).
  destruct (wi_closing _ (li_world _ Hv)) as [_ Hbv|_ _ Hcm _ _]; [|by apply close_ends].
  assert (both_over (w_app v)) as Hov by (destruct Hbv as [[? _]|[(_ & ? & _)|(_ & ? & _)]]; [congruence|done..]).
  apply cmd_ends; [done|intros n Hn; apply Hov; by right|]. intros u Hu Hpu Hcm.
  apply close_ends; [done|by apply (pa_closed _ _ _ Hpu)|by eapply past_main|done].
Qed.

(** C15. [Close] always returns: from every state the application reaches in which [Close]
    has been called, whatever operation, command and loops run, wherever each of them is and
    whichever mutexes they hold, its goroutines have an order of steps, without the user, that
    takes it to the end of [Close], whatever the outside answers them on the way. All that
    [Close] and those it waits for wait for is there: the operation and the command, the loops,
    the goroutines of the agent and of the sessions, and [receiverMu] and [hubMu]; nobody waits
    for one that waits for it, for a loop that nobody has cancelled, or for a goroutine that
    nobody has told to end. (A group of goroutines of an agent or a session that was told to end
    can.) *)
Theorem close_returns w :
  reachable w → ¬ (closed (w_app w) = false ∧ is_ret (w_close w)) →
  eventually (λ w', closed (w_app w') = true ∧ is_ret (w_close w')) w.
Proof.
  intros Hr Hn. pose proof (reachable_live w Hr) as Hw.
  destruct (closed (w_app w)) eqn:Hc; [by apply closed_ends|].
  destruct (wi_closing _ (li_world _ Hw)) as [_ [[_ [?|E]]|[[? _]|[? _]]]|]; try congruence; [by destruct Hn|].
  assert (prog_of Closer w = Some (id Close)) as Hp by (cbn; by rewrite E).
  apply (run_step Closer id hole_id _ _ _ Hw Hp); [by intros []|by do 2 eexists|].
  intros w' q' Hw' _ _ [Ea _]. apply closed_ends; [done|]. rewrite Ea, Hc. cbn. by destruct (opDone _), (commandDone _).
Qed.

(** C16. Cancelling works: from every state the application reaches in which the context of
    the operation is over, the goroutines have an order of steps, without the user, that
    takes it to the operation's end, whatever the outside answers; the same for the
    command. What it may wait for is its own context, a loop that it has cancelled, an agent or
    a session that it has told to stop, and a mutex: who holds one waits for nothing but agents
    and sessions that it has told to stop, so that starting and stopping roles cannot block each
    other for good. *)
Theorem cancelled_ends w :
  reachable w →
  ((∀ n, opDone (w_app w) = Some n → n ∈ cancelled (w_app w)) →
     eventually (λ w', is_ret (w_main w') ∧ is_running (op (w_app w')) = false) w) ∧
  ((∀ n, commandDone (w_app w) = Some n → n ∈ cancelled (w_app w)) →
     eventually (λ w', is_ret (w_cmd w') ∧ is_running (commandOp (w_app w')) = false) w).
Proof.
  intros Hr. pose proof (reachable_live w Hr) as Hw. split; intros Hn.
  - apply main_ends; [done..|]. intros w' Hw' _ Hm. apply ev_done. split; [done|].
    destruct (oi_main _ _ _ (wi_ops _ (li_world _ Hw'))) as [[_ ?]|(n & _ & _ & _ & Hwk)]; [done|].
    by apply not_ret_working in Hwk.
  - apply cmd_ends; [done..|]. intros w' Hw' _ Hm. apply ev_done. split; [done|].
    destruct (oi_cmd _ _ _ (wi_ops _ (li_world _ Hw'))) as [[_ ?]|(n & _ & _ & _ & Hwk)]; [done|].
    by apply not_ret_working in Hwk.
Qed.

(** [Close] while the sender starts; the start is cancelled. *)
Definition demo_with (a : App) (closer : prog) : World :=
  mkWorld a (w_main demo_started) idle idle closer ∅ ∅.

Lemma close_returns_witness :
  let w := demo_with (w_app demo_started) Close in
  reachable w ∧ is_running (op (w_app w)) = true ∧
  eventually (λ w', closed (w_app w') = true ∧ is_ret (w_close w')) w.
Proof.
  set (w := demo_with (w_app demo_started) Close).
  assert (reachable w) as Hr.
  { apply (reachable_next demo_started User); [exact demo_started_reachable|].
    apply (W_close demo_started); [reflexivity|by eexists]. }
  split; [exact Hr|]. split; [reflexivity|]. apply (close_returns w Hr). intros [_ [e He]]. done.
Defined.

Lemma cancelled_ends_witness :
  let w := demo_with (cancel false (w_app demo_started)) idle in
  reachable w ∧ is_running (op (w_app w)) = true ∧
  eventually (λ w', is_ret (w_main w') ∧ is_running (op (w_app w')) = false) w.
Proof.
  set (w := demo_with (cancel false (w_app demo_started)) idle).
  assert (reachable w) as Hr.
  { apply (reachable_next demo_started User); [exact demo_started_reachable|]. apply (W_cancel demo_started false). }
  split; [exact Hr|]. split; [reflexivity|]. apply (cancelled_ends w Hr). intros n [= <-]. by apply elem_of_union_l, elem_of_singleton.
Defined.
