(* ===== verification/Http.v ===== *)
(** * The web application: requests of the page

    internal/webui/http.go: which requests are served at all, the route of one, the JSON of
    an action and of a cancellation, and what they do to the application. [net/url]'s host
    of an origin is an argument; paths are those without percent escapes, on which
    [ServeMux] works as written here. *)

From S2P Require Import Prelude Text Net Paths Json Model Session Transfer Prepare Tasks App Dispatch Web Operations.
Local Open Scope string_scope.
Local Open Scope Z_scope.

(** ** Who may ask *)

(** internal/webui/http.go:82-83 [Handler] *)
Definition local_host (host : string) : bool :=
  String.eqb host "localhost" || match ParseIP host with Some ip => IsLoopback ip | None => false end.

(** internal/webui/http.go:78-81 [Handler] *)
Definition request_host (host : string) : string :=
  match SplitHostPort host with Some (h, _) => h | None => host end.

Record Request : Type := mkRequest {
  rq_Method : string; rq_Path : string; rq_Host : string; rq_Origin : string; rq_FetchSite : string;
  rq_Token : string; rq_QueryToken : string; rq_ContentLength : Z; rq_Body : bytes;
}.

Inductive refusal : Type := NotLocal | CrossSite | SessionExpired.

Definition prefixed (p s : string) : bool := has_prefix (chars_of p) (chars_of s).

(** internal/webui/http.go:78-107 [Handler] *)
Definition guard (url_host : string → option string) (csrf : string) (r : Request) : option refusal :=
  if negb (local_host (request_host (rq_Host r))) then Some NotLocal else
  if negb (is_empty (rq_Origin r))
     && match url_host (rq_Origin r) with Some h => negb (String.eqb h (rq_Host r)) | None => true end
  then Some CrossSite else
  if String.eqb (rq_FetchSite r) "cross-site" then Some CrossSite else
  if prefixed "/api/" (rq_Path r) && negb (String.eqb (rq_Path r) "/api/session") then
    let token := if String.eqb (rq_Path r) "/api/events" then rq_QueryToken r else rq_Token r in
    if negb (String.eqb token csrf) then Some SessionExpired else None
  else None.

(** ** Routes *)

Inductive page : Type :=
| PSession | PState | PEvents | PLocal | PUpload | PCancel | PAction | PBrowse | PIndex | PStatic
| PNotFound | PMoved | PNotAllowed.

#[export] Instance page_eq_dec : EqDecision page.
Proof. solve_decision. Defined.

(** [cleanPath] of [net/http]. *)
Definition clean_path (p : chars) : chars :=
  match p with
  | [] => [slash]
  | _ =>
      let p := match p with c :: _ => if Ascii.eqb c slash then p else slash :: p | [] => p end in
      let np := Clean p in
      if bool_decide (last p = Some slash) && bool_decide (np ≠ [slash]) then (np ++ [slash])%list else np
  end.

(** The exact routes. internal/webui/http.go:29-61 [Handler] *)
Definition fixed_routes : list (string * string * page) :=
  [("GET", "/api/session", PSession); ("GET", "/api/state", PState); ("GET", "/api/events", PEvents);
   ("GET", "/api/local", PLocal); ("POST", "/api/upload", PUpload); ("POST", "/api/cancel", PCancel);
   ("POST", "/api/action", PAction); ("POST", "/api/browse", PBrowse)].

Definition method_ok (want got : string) : bool :=
  String.eqb want got || (String.eqb want "GET" && String.eqb got "HEAD").

(** Everything else is under [GET /] and [GET /static/].
    internal/webui/http.go:28-72 [Handler] *)
Definition route (method path : string) : page :=
  if negb (bool_decide (clean_path (chars_of path) = chars_of path)) then PMoved else
  match List.find (λ '(m, p, _), String.eqb p path && method_ok m method) fixed_routes with
  | Some (_, _, pg) => pg
  | None =>
      if method_ok "GET" method then
        if prefixed "/static/" path then PStatic
        else if String.eqb path "/" then PIndex else PNotFound
      else PNotAllowed
  end.

(** ** The JSON of an action *)

(** The members a value may have: of a structure, or anything. *)
Inductive shape : Type :=
| Any
| Members (l : list (string * shape)).

(** [DisallowUnknownFields] *)
Fixpoint known (s : shape) (j : json) : bool :=
  match s, j with
  | Members l, JObj ms =>
      forallb (λ m, existsb (λ f, let '(n, s') := f in same_name m.1 n && known s' m.2) l) ms
  | _, _ => true
  end.

(** internal/webui/http.go:119-131 [decode] *)
Definition decode {A} (s : shape) (dec : json → option A) (body : bytes) : option A :=
  if 2097152 <? zlen body then None else
  j ← ParseJson (of_bytes body);
  if known s j then dec j else None.

(** The working directory is never read. internal/webui/app.go:27-36 [Config] *)
Definition decode_Config (j : json) : option Config :=
  discover ← flag "discover" false j;
  m ← text "mode" "" j;
  file ← text "file" "" j;
  addr ← text "senderAddr" "" j;
  listen ← text "listen" "" j;
  token ← text "token" "" j;
  allow ← flag "allowCommands" false j;
  Some (mkConfig discover m file addr listen "" token allow).

Definition no_config : Config := mkConfig false "" "" "" "" "" "" false.
Definition no_dispatch : Dispatch := mkDispatch [] "" "" false.
Definition no_command : Command := mkCommand "" "" "" 0.

Definition leaves (l : list string) : shape := Members (List.map (λ n, (n, Any)) l).

(** internal/webui/http.go:133-141 [actionRequest] *)
Definition action_shape : shape :=
  Members [("mode", Any); ("action", Any); ("path", Any); ("listen", Any);
           ("config", leaves ["discover"; "mode"; "file"; "senderAddr"; "listen"; "token"; "allowCommands"]);
           ("dispatch", leaves ["ids"; "target"; "token"; "overwrite"]);
           ("command", leaves ["id"; "text"; "directory"; "timeout"])].

(** internal/webui/http.go:133-141 [actionRequest] *)
Definition decode_actionRequest (j : json) : option actionRequest :=
  m ← text "mode" "" j;
  act ← text "action" "" j;
  path ← text "path" "" j;
  listen ← text "listen" "" j;
  config ← field decode_Config "config" no_config j;
  dispatch ← field decode_Dispatch "dispatch" no_dispatch j;
  command ← field decode_Command "command" no_command j;
  Some (mkAction m act path listen config dispatch command).

(** ** Answers *)

(** The status, and the application when the action has begun; [id] and [now]: a fresh
    key and the clock. internal/webui/http.go:143-209 [action] *)
Definition action_page (rounds : nat) (id : string) (now : Z) (w : World) (body : bytes) : Z * option World :=
  match decode action_shape decode_actionRequest body with
  | None => (400, None)
  | Some r =>
      match action rounds r with
      | None => (400, None)
      | Some fn =>
          if String.eqb (ar_Action r) "command" then
            match beginCommand id now (w_app w) with
            | (inl _, _) => (409, None)
            | (inr n, a) => (202, Some (mkWorld a (w_main w) (command_operation n fn) (w_auto w) (w_close w)
                                          (w_threads w) (w_feeders w)))
            end
          else
            match begin (ar_Action r) id now (w_app w) with
            | (inl _, _) => (409, None)
            | (inr n, a) => (202, Some (mkWorld a (operation n fn) (w_cmd w) (w_auto w) (w_close w)
                                          (w_threads w) (w_feeders w)))
            end
      end
  end.

(** Without a body, the operation; one of unknown length is read.
    internal/webui/http.go:46-58 [Handler] *)
Definition cancel_page (w : World) (length : Z) (body : bytes) : Z * option World :=
  let scope := if length =? 0 then Some "" else decode (leaves ["scope"]) (text "scope" "") body in
  match scope with
  | None => (400, None)
  | Some s => (202, Some (mkWorld (cancel (String.eqb s "command") (w_app w)) (w_main w) (w_cmd w) (w_auto w)
                            (w_close w) (w_threads w) (w_feeders w)))
  end.

(** What is answered: a refusal, a page, or an action with its status and what it did. *)
Inductive outcome : Type :=
| Refused (why : refusal)
| Shown (p : page)
| Acted (status : Z) (after : option World).

(** internal/webui/http.go:27-110 [Handler] *)
Definition serve (url_host : string → option string) (csrf : string) (rounds : nat) (id : string) (now : Z)
    (w : World) (r : Request) : outcome :=
  match guard url_host csrf r with
  | Some why => Refused why
  | None =>
      match route (rq_Method r) (rq_Path r) with
      | PAction => let '(status, w') := action_page rounds id now w (rq_Body r) in Acted status w'
      | PCancel => let '(status, w') := cancel_page w (rq_ContentLength r) (rq_Body r) in Acted status w'
      | p => Shown p
      end
  end.

(** ** Only the local page acts *)

Definition api_page (p : page) : Prop :=
  match p with PState | PEvents | PLocal | PUpload | PCancel | PAction | PBrowse => True | _ => False end.

Lemma route_api m path :
  api_page (route m path) →
  ∃ m', (m', path, route m path) ∈ fixed_routes ∧ method_ok m' m = true.
Proof.
  unfold route. destruct (negb _); [done|]. destruct (List.find _ _) as [[[m' p'] pg]|] eqn:E.
  - intros _. apply List.find_some in E as [Hin Hok]. apply andb_true_iff in Hok as [Hp Hm].
    apply String.eqb_eq in Hp as ->. exists m'. split; [by apply list_elem_of_In|done].
  - destruct (method_ok _ _); [|done]. destruct (prefixed _ _); [done|]. by destruct (String.eqb _ _).
Qed.

(** The routes of the pages, all below /api/. *)
Lemma fixed_routes_api m p pg :
  (m, p, pg) ∈ fixed_routes → api_page pg →
  prefixed "/api/" p = true ∧ p ≠ "/api/session" ∧
  (pg = PAction ∨ pg = PCancel → m = "POST") ∧
  (pg = PAction → p = "/api/action") ∧ (pg = PCancel → p = "/api/cancel") ∧
  (pg = PEvents ↔ p = "/api/events").
Proof.
  intros Hin Hp. unfold fixed_routes in Hin.
  repeat (apply elem_of_cons in Hin as [[= -> -> ->]|Hin]; [try done; split_and!; naive_solver|]).
  by apply elem_of_nil in Hin.
Qed.

Record authorised (url_host : string → option string) (csrf : string) (r : Request) (p : page) : Prop := {
  au_local : request_host (rq_Host r) = "localhost" ∨
    ∃ ip, ParseIP (request_host (rq_Host r)) = Some ip ∧ IsLoopback ip = true;
  au_origin : rq_Origin r = "" ∨ url_host (rq_Origin r) = Some (rq_Host r);
  au_site : rq_FetchSite r ≠ "cross-site";
  au_token : (if bool_decide (p = PEvents) then rq_QueryToken r else rq_Token r) = csrf;
}.

Lemma guard_authorised url_host csrf r m :
  guard url_host csrf r = None → (m, rq_Path r, route (rq_Method r) (rq_Path r)) ∈ fixed_routes →
  api_page (route (rq_Method r) (rq_Path r)) →
  authorised url_host csrf r (route (rq_Method r) (rq_Path r)).
Proof.
  intros Hg Hin Hp. destruct (fixed_routes_api _ _ _ Hin Hp) as (Hpre & Hns & _ & _ & _ & Hev).
  unfold guard in Hg. destruct (negb (local_host _)) eqn:Hl; [done|]. apply negb_false_iff in Hl.
  destruct (negb (is_empty (rq_Origin r)) && _) eqn:Ho; [done|].
  destruct (String.eqb_spec (rq_FetchSite r) "cross-site") as [|Hs]; [done|].
  rewrite Hpre, (proj2 (String.eqb_neq _ _) Hns) in Hg. cbn [andb negb] in Hg.
  destruct (String.eqb_spec (if String.eqb (rq_Path r) "/api/events" then rq_QueryToken r else rq_Token r) csrf)
    as [Ht|]; [|done].
  split.
  - unfold local_host in Hl. apply orb_true_iff in Hl as [Hl|Hl]; [left; by apply String.eqb_eq|right].
    destruct (ParseIP _) as [ip|]; [|done]. by exists ip.
  - apply andb_false_iff in Ho as [Ho|Ho].
    + apply negb_false_iff, is_empty_true in Ho. by left.
    + destruct (url_host (rq_Origin r)) as [h|]; [|done]. apply negb_false_iff, String.eqb_eq in Ho as ->. by right.
  - done.
  - rewrite <-Ht. destruct (String.eqb_spec (rq_Path r) "/api/events") as [E|E].
    + by rewrite bool_decide_eq_true_2 by by apply Hev.
    + rewrite bool_decide_eq_false_2; [done|]. intros Hx. by apply E, Hev.
Qed.

Lemma acts_post m path :
  route m path = PAction ∨ route m path = PCancel →
  m = "POST" ∧ (route m path = PAction → path = "/api/action") ∧ (route m path = PCancel → path = "/api/cancel").
Proof.
  intros Hp. assert (api_page (route m path)) as Ha by by destruct Hp as [-> | ->].
  destruct (route_api _ _ Ha) as (m' & Hin & Hm).
  destruct (fixed_routes_api _ _ _ Hin Ha) as (_ & _ & Hpost & Hact & Hcan & _). split_and!; [|done|done].
  rewrite (Hpost Hp) in Hm. unfold method_ok in Hm. apply orb_true_iff in Hm as [Hm|Hm]; [|done].
  symmetry. by apply String.eqb_eq.
Qed.

Lemma action_page_step rounds id now w body status w' :
  action_page rounds id now w body = (status, Some w') →
  status = 202 ∧ app_step w User w' ∧
  ∃ a fn, decode action_shape decode_actionRequest body = Some a ∧ action rounds a = Some fn.
Proof.
  unfold action_page. destruct (decode _ _ _) as [a|] eqn:Hd; [|done].
  destruct (action rounds a) as [fn|] eqn:Ha; [|done].
  destruct (String.eqb_spec (ar_Action a) "command") as [Hc|Hc].
  - destruct (beginCommand _ _ _) as [[e|n] b] eqn:Hb; [done|]. intros [= <- <-]. split_and!; [done| |by eauto].
    by eapply W_begin_command.
  - destruct (begin _ _ _ _) as [[e|n] b] eqn:Hb; [done|]. intros [= <- <-]. split_and!; [done| |by eauto].
    by eapply W_begin.
Qed.

Lemma action_page_status rounds id now w body status w' :
  action_page rounds id now w body = (status, w') → w' = None → status = 400 ∨ status = 409.
Proof.
  unfold action_page. destruct (decode _ _ _) as [a|]; [|intros [= <- <-]; auto].
  destruct (action rounds a) as [fn|]; [|intros [= <- <-]; auto]. destruct (String.eqb _ _).
  - destruct (beginCommand _ _ _) as [[e|n] b]; intros [= <- <-]; [auto|done].
  - destruct (begin _ _ _ _) as [[e|n] b]; intros [= <- <-]; [auto|done].
Qed.

Lemma cancel_page_step w length body status w' :
  cancel_page w length body = (status, Some w') → status = 202 ∧ app_step w User w'.
Proof.
  unfold cancel_page. destruct (if _ =? 0 then _ else _) as [s|]; [|done]. intros [= <- <-].
  split; [done|apply W_cancel].
Qed.

Lemma cancel_page_status w length body status w' :
  cancel_page w length body = (status, w') → w' = None → status = 400 ∨ status = 409.
Proof. unfold cancel_page. destruct (if _ =? 0 then _ else _); intros [= <- <-]; [done|by left]. Qed.

(** C22. Only the local page acts: whatever a browser or another machine sends, a page
    below /api/ other than the session is shown, an action is begun and a cancellation
    done, only for a request to the local host, of the page's own origin and with the
    session's secret, by POST to the page of that name; and what it does to the
    application is one step of the user in its transition system, answered 202, while
    a request that is refused or that cannot be begun leaves it as it is. *)
Theorem only_local_page_acts url_host csrf rounds id now w r :
  (∀ p, serve url_host csrf rounds id now w r = Shown p → api_page p → authorised url_host csrf r p) ∧
  (∀ status after, serve url_host csrf rounds id now w r = Acted status after →
    rq_Method r = "POST" ∧
    (rq_Path r = "/api/action" ∧ authorised url_host csrf r PAction ∨
     rq_Path r = "/api/cancel" ∧ authorised url_host csrf r PCancel) ∧
    (after = None → status = 400 ∨ status = 409) ∧
    ∀ w', after = Some w' → status = 202 ∧ app_step w User w' ∧
      (rq_Path r = "/api/action" →
        ∃ a fn, decode action_shape decode_actionRequest (rq_Body r) = Some a ∧ action rounds a = Some fn)).
Proof.
  unfold serve. destruct (guard url_host csrf r) as [why|] eqn:Hg; [by split|].
  assert (api_page (route (rq_Method r) (rq_Path r)) →
    authorised url_host csrf r (route (rq_Method r) (rq_Path r))) as Hauth.
  { intros Ha. destruct (route_api _ _ Ha) as (m & Hin & _). by eapply guard_authorised. }
  pose proof (acts_post (rq_Method r) (rq_Path r)) as Hpost. split.
  - intros p Hs Hp. assert (route (rq_Method r) (rq_Path r) = p) as E.
    { destruct (route _ _); try congruence; [by destruct (cancel_page _ _ _)|by destruct (action_page _ _ _ _ _)]. }
    rewrite E in Hauth. by apply Hauth.
  - intros status after Hs. destruct (route (rq_Method r) (rq_Path r)) eqn:E; try done.
    + destruct Hpost as (Hm & _ & Hpath); [by right|]. specialize (Hpath eq_refl).
      destruct (cancel_page w (rq_ContentLength r) (rq_Body r)) as [st af] eqn:Hc. injection Hs as -> ->.
      split; [done|]. split; [right; split; [done|by apply Hauth]|]. split; [by eapply cancel_page_status|].
      intros w' ->. destruct (cancel_page_step _ _ _ _ _ Hc). split_and!; [done|done|]. congruence.
    + destruct Hpost as (Hm & Hpath & _); [by left|]. specialize (Hpath eq_refl).
      destruct (action_page rounds id now w (rq_Body r)) as [st af] eqn:Hc. injection Hs as -> ->.
      split; [done|]. split; [left; split; [done|by apply Hauth]|]. split; [by eapply action_page_status|].
      intros w' ->. destruct (action_page_step _ _ _ _ _ _ _ Hc) as (? & ? & ?). split_and!; done.
Qed.

Definition demo_world : World :=
  fresh_world (mkApp (mkConfig false "" "" "" ":0" "/w" "" true) None None None None "" None None ∅ "" ""
    None None None None None [] false 0 ∅ ∅ ∅ ∅ ∅ ∅).

Definition demo_request (host origin token path body : string) : Request :=
  mkRequest "POST" path host origin "" token "" (zlen (chars_of body)) (to_bytes (chars_of body)).

(** [{"action":"mode.reset"}] *)
Definition demo_body : string :=
  string_of (List.map (λ c, if Ascii.eqb c "'" then quote_char else c) (chars_of "{'action':'mode.reset'}")).

(** What is answered, without the application. *)
Definition answered (o : outcome) : outcome :=
  match o with Acted status _ => Acted status None | _ => o end.

Example serve_examples :
  let url_host o := if String.eqb o "http://127.0.0.1:9" then Some "127.0.0.1:9" else Some "evil.test" in
  let run host origin token path :=
    answered (serve url_host "k" 0 "id" 7 demo_world (demo_request host origin token path demo_body)) in
  run "127.0.0.1:9" "http://127.0.0.1:9" "k" "/api/action" = Acted 202 None ∧
  run "127.0.0.1:9" "http://127.0.0.1:9" "k" "/api/cancel" = Acted 400 None ∧
  run "evil.test:9" "" "k" "/api/action" = Refused NotLocal ∧
  run "127.0.0.1:9" "http://evil.test" "k" "/api/action" = Refused CrossSite ∧
  run "localhost" "" "x" "/api/action" = Refused SessionExpired ∧
  run "localhost" "" "x" "//api/action" = Shown PMoved ∧
  run "[::1]:80" "" "x" "/" = Shown PNotAllowed.
Proof. vm_compute. split_and!; reflexivity. Qed.

(** After an operation has begun another has to wait. *)
Example second_action :
  let r := demo_request "localhost" "" "k" "/api/action" demo_body in
  let serve := serve (λ _, None) "k" 0 "id" 7 in
  match serve demo_world r with
  | Acted 202 (Some w) => answered (serve w r) = Acted 409 None
  | _ => False
  end.
Proof. vm_compute. reflexivity. Qed.

Lemma only_local_page_acts_witness :
  let r := demo_request "127.0.0.1:9" "" "k" "/api/action" demo_body in
  ∃ w', serve (λ _, None) "k" 0 "id" 7 demo_world r = Acted 202 (Some w') ∧ app_step demo_world User w' ∧
    op_Kind <$> op (w_app w') = Some "mode.reset".
Proof.
  set (r := demo_request "127.0.0.1:9" "" "k" "/api/action" demo_body).
  set (w' := mkWorld (begin "mode.reset" "id" 7 (w_app demo_world)).2 (operation 0 (λ _, selectMode ""))
               idle idle idle ∅ ∅).
  assert (serve (λ _, None) "k" 0 "id" 7 demo_world r = Acted 202 (Some w')) as Hs by (vm_compute; reflexivity).
  exists w'. split; [exact Hs|]. split; [|reflexivity].
  apply (proj2 (only_local_page_acts (λ _, None) "k" 0 "id" 7 demo_world r) _ _ Hs). reflexivity.
Defined.
