(* ===== verification/State.v ===== *)
(** * The web application: what the page is shown

    internal/webui/app.go ([state], [localAddresses]) and http.go ([events], [browse]): the
    JSON of the state of the application, the stream of its changes and the listing of
    another machine. The texts of a time and of a speed are arguments. *)

From S2P Require Import Prelude Text Net Paths Json Float64 Model Session Transfer Prepare Tasks Listing App Dispatch.
From S2P Require Import DispatchInv Web Operations WorldInv Http.
Local Open Scope string_scope.
Local Open Scope Z_scope.
Local Open Scope list_scope.

(** ** Peers *)

Definition with_info (i : PeerInfo) (p : PeerState) : PeerState :=
  mkPeerState (Some i) (ps_Ready p) (ps_Probe p) (ps_Warnings p) (ps_Task p) (ps_Command p).

(** internal/webui/app.go:641-647 [state] *)
Definition offline (p : PeerState) : PeerState :=
  let gone i := mkPeerInfo (pi_UUID i) (pi_Addr i) (pi_Chunks i) (pi_Total i) (pi_Speed i) (pi_Inflight i)
                  (pi_Failed i) (pi_Self i) false in
  let ended t := mkTaskState (t_ID t) (t_Kind t) "ended" "节点已下线，任务结束" (t_Error t) (t_Output t)
                   (t_Progress t) in
  mkPeerState (gone <$> ps_Info p) (ps_Ready p) (ps_Probe p) (ps_Warnings p) (ended <$> ps_Task p) (ps_Command p).

Definition uuid_le (p q : PeerState) : Prop := String.leb (ps_UUID p) (ps_UUID q) = true.
#[export] Instance uuid_le_dec : RelDecision uuid_le := λ p q, decide (String.leb (ps_UUID p) (ps_UUID q) = true).

(** Those on line, then those that are remembered, in the order of their identifiers.
    internal/webui/app.go:626-651 [state] *)
Definition state_peers (snapshot : list PeerInfo) (probes : gmap string PeerState) : list PeerState :=
  let on := List.filter (λ i, negb (pi_Self i)) snapshot in
  let seen := List.map pi_UUID on in
  merge_sort uuid_le
    (List.map (λ i, with_info i (default no_peer (probes !! pi_UUID i))) on
     ++ omap (λ '(id, p), if bool_decide (id ∈ seen) then None else Some (offline p)) (map_to_list probes)).

(** internal/webui/app.go:664-674 [localAddresses] *)
Definition localAddresses (ifaces : list (option (list Z))) : list (list Z) :=
  omap (λ a, ip ← a; if negb (IsLoopback ip) && bool_decide (is_Some (To4 ip)) then Some ip else None) ifaces.

(** ** The JSON of the state *)

(** A map is written in the order of its keys. *)
Definition key_le (m n : string * json) : Prop := String.leb m.1 n.1 = true.
#[export] Instance key_le_dec : RelDecision key_le := λ m n, decide (String.leb m.1 n.1 = true).
Definition encode_map (m : gmap string json) : json := JObj (merge_sort key_le (map_to_list m)).

Definition or_null {A} (enc : A → json) (a : option A) : json := match a with Some a => enc a | None => JNull end.

(** A member that is there when there is a value. *)
Definition add_opt {A} (k : string) (enc : A → json) (a : option A) (m : gmap string json) : gmap string json :=
  match a with Some a => <[k := enc a]> m | None => m end.

Definition member_if {A} (k : string) (enc : A → json) (a : option A) : list (string * json) :=
  match a with Some a => [(k, enc a)] | None => [] end.

(** The working directory is not shown. internal/webui/app.go:27-36 [Config] *)
Definition encode_Config (c : Config) : json :=
  JObj (omit_if (negb (cf_Discover c)) ("discover", JBool (cf_Discover c))
    ++ [("mode", JStr (cf_Mode c))]
    ++ [("file", JStr (cf_File c))]
    ++ [("senderAddr", JStr (cf_SenderAddr c))]
    ++ [("listen", JStr (cf_Listen c))]
    ++ [("token", JStr (cf_Token c))]
    ++ [("allowCommands", JBool (cf_AllowCommands c))]).

(** internal/webui/distribution.go:13-21 [Distribution] *)
Definition encode_Distribution (d : Distribution) : json :=
  JObj ([("id", JStr (di_ID d))]
    ++ [("active", JBool (di_Active d))]
    ++ [("name", JStr (di_Name d))]
    ++ [("target", JStr (di_Target d))]
    ++ [("message", JStr (di_Message d))]
    ++ [("members", jint (di_Members d))]
    ++ [("excluded", jint (di_Excluded d))]).

(** internal/webui/http.go:282-287 [FileEntry] *)
Definition encode_FileEntry (e : FileEntry) : json :=
  JObj ([("name", JStr (fe_Name e))]
    ++ [("path", JStr (string_of (fe_Path e)))]
    ++ [("dir", JBool (fe_Dir e))]
    ++ [("size", jint (fe_Size e))]).

(** internal/webui/http.go:288-294 [Listing] *)
Definition encode_Listing (l : Listing) : json :=
  JObj ([("path", JStr (string_of (l_Path l)))]
    ++ [("parent", JStr (string_of (l_Parent l)))]
    ++ [("root", JStr (string_of (l_Root l)))]
    ++ [("entries", JArr (List.map encode_FileEntry (l_Entries l)))]
    ++ [("truncated", JBool (l_Truncated l))]).

Definition no_info : PeerInfo := mkPeerInfo "" "" 0 0 f_zero 0 0 false false.

(** The receiver's agent: its root, whether its sender is gone, its tasks. *)
Record agent_view : Type := mkAgentView {
  av_root : string; av_address : string; av_port : Z; av_disconnected : bool;
  av_task : TaskState; av_command : TaskState;
}.

(** What [state] asks the session, the source's session, the agent and the network. *)
Record outside : Type := mkOutside {
  o_addresses : list string; o_snapshot : list PeerInfo; o_hub_port : Z; o_source_port : Z; o_agent : agent_view;
}.

Section state.
Context (time_text : Z → string) (number_text : float64 → string).

(** internal/webui/app.go:37-43 [Operation] *)
Definition encode_Operation (o : Operation) : json :=
  JObj ([("id", JStr (op_ID o))]
    ++ [("kind", JStr (op_Kind o))]
    ++ [("status", JStr (op_Status o))]
    ++ [("message", JStr (op_Message o))]
    ++ [("started", JStr (time_text (op_Started o)))]).

(** internal/gsp_sdk/model/type.go:79-89 [PeerInfo] *)
Definition encode_PeerInfo (i : PeerInfo) : list (string * json) :=
  [("uuid", JStr (pi_UUID i))]
  ++ [("addr", JStr (pi_Addr i))]
  ++ [("chunks", jint (pi_Chunks i))]
  ++ [("total", jint (pi_Total i))]
  ++ [("speed", JNum (chars_of (number_text (pi_Speed i))))]
  ++ [("inflight", jint (pi_Inflight i))]
  ++ [("failed", jint (pi_Failed i))]
  ++ [("self", JBool (pi_Self i))]
  ++ [("online", JBool (pi_Online i))].

(** The members of the embedded structure come first.
    internal/webui/app.go:44-51 [PeerState] *)
Definition encode_PeerState (p : PeerState) : json :=
  JObj (encode_PeerInfo (default no_info (ps_Info p))
    ++ [("ready", JBool (ps_Ready p))]
    ++ [("probe", JStr (ps_Probe p))]
    ++ omit_if (bool_decide (ps_Warnings p = [])) ("warnings", JArr (List.map JStr (ps_Warnings p)))
    ++ member_if "task" encode_TaskState (ps_Task p)
    ++ member_if "command" encode_TaskState (ps_Command p)).

(** internal/webui/app.go:621-624 [state] *)
Definition encode_source (s : source) (port : Z) : json :=
  encode_map (<["name" := JStr (s_Name (sr_data s))]>
    (<["size" := jint (s_Size (sr_data s))]>
      (<["archive" := JBool (s_Archive (sr_data s))]>
        (<["count" := jint (zlen (s_Entries (sr_data s)))]> (<["port" := jint port]> ∅))))).

(** internal/webui/app.go:653-660 [state] *)
Definition encode_receiver (a : App) (v : agent_view) : option json :=
  match agent_of a, lastReceiver a with
  | Some _, _ =>
      Some (encode_map (<["workingDir" := JStr (av_root v)]>
        (<["address" := JStr (av_address v)]>
          (<["port" := jint (av_port v)]>
            (<["online" := JBool true]>
              (<["disconnected" := JBool (av_disconnected v)]>
                (<["task" := encode_TaskState (av_task v)]>
                  (<["command" := encode_TaskState (av_command v)]> ∅))))))))
  | None, Some (task, command) =>
      Some (encode_map (<["online" := JBool false]>
        (<["address" := JStr (cf_SenderAddr (config a))]>
          (<["task" := encode_TaskState task]>
            (<["command" := encode_TaskState command]> ∅)))))
  | None, None => None
  end.

(** internal/webui/app.go:603-663 [state] *)
Definition state (o : outside) (a : App) : json :=
  let peers := match hub a with Some _ => state_peers (o_snapshot o) (probes a) | None => [] end in
  encode_map
    (add_opt "receiver" id (encode_receiver a (o_agent o))
      (add_opt "sender" (λ _, encode_map {["port" := jint (o_hub_port o)]}) (hub a)
        (add_opt "source" (λ s, encode_source s (o_source_port o)) (src a)
          (add_opt "distribution" encode_Distribution (distribution a)
            (add_opt "commandOperation" encode_Operation (commandOp a)
              (<["config" := encode_Config (config a)]>
                (<["operation" := or_null encode_Operation (op a)]>
                  (<["notice" := JStr (notice a)]>
                    (<["peers" := JArr (List.map encode_PeerState peers)]>
                      (<["addresses" := JArr (List.map JStr (o_addresses o))]>
                        (<["discovery" := encode_map
                              (<["active" := JBool (bool_decide (is_Some (discovery a)))]>
                                (<["message" := JStr (discoveryMessage a)]> ∅))]> ∅))))))))))).
End state.

(** ** Events *)

Definition newline : string := String (chr 10) EmptyString.

(** The texts of the states at the ticks, and whether they can be written; the stream
    ends when one cannot. internal/webui/http.go:255-279 [events] *)
Fixpoint events (last : string) (ticks : list (string * bool)) : list string :=
  match ticks with
  | [] => []
  | (data, ok) :: ticks =>
      if String.eqb data last then events last ticks
      else if (ok : bool) then ("data: " +:+ data +:+ newline +:+ newline) :: events data ticks
      else []
  end.

(** ** Browsing another machine *)

(** The address of the machine that is browsed, if it is on line.
    internal/webui/http.go:227-237 [browse] *)
Definition browse_address (peer : string) (peers : list PeerInfo) : option string :=
  match List.find (λ i, String.eqb (pi_UUID i) peer && negb (pi_Self i)) peers with
  | Some i => if is_empty (pi_Addr i) then None else Some (pi_Addr i)
  | None => None
  end.

(** [call]: the address, the secret and the path, and what the machine answers.
    internal/webui/http.go:210-248 [browse] *)
Definition browse (a : App) (peers : list PeerInfo) (call : string → string → string → reply Listing) (body : bytes)
    : Z * option Listing :=
  match decode (leaves ["peer"; "token"; "path"])
          (λ j, peer ← text "peer" "" j; token ← text "token" "" j; path ← text "path" "" j;
                Some (peer, token, path)) body with
  | None => (400, None)
  | Some (peer, token, path) =>
      match hub a with
      | None => (400, None)
      | Some _ =>
          match browse_address peer peers with
          | None => (400, None)
          | Some address =>
              match call address token path with inl _ => (400, None) | inr out => (200, Some out) end
          end
      end
  end.

(** ** What is shown of the peers *)

#[export] Instance uuid_le_trans : Transitive uuid_le.
Proof. intros p q r H1 H2. exact (str_le_trans _ _ _ H1 H2). Qed.

#[export] Instance uuid_le_total : Total uuid_le.
Proof. intros p q. apply String.leb_total. Qed.

Definition shown_online (i : PeerInfo) (probes : gmap string PeerState) : PeerState :=
  with_info i (default no_peer (probes !! pi_UUID i)).

Lemma online_in snapshot i :
  i ∈ List.filter (λ i, negb (pi_Self i)) snapshot ↔ i ∈ snapshot ∧ pi_Self i = false.
Proof. rewrite !list_elem_of_In, List.filter_In, negb_true_iff. done. Qed.

Lemma seen_in snapshot id :
  id ∈ List.map pi_UUID (List.filter (λ i, negb (pi_Self i)) snapshot) ↔
  ∃ i, i ∈ snapshot ∧ pi_Self i = false ∧ pi_UUID i = id.
Proof.
  rewrite list_elem_of_In, List.in_map_iff. split.
  - intros (i & E & Hi). apply list_elem_of_In, online_in in Hi as []. by exists i.
  - intros (i & Hi & Hs & E). exists i. split; [done|]. by apply list_elem_of_In, online_in.
Qed.

(** The remembered that are not on line, with their identifiers. *)
Lemma absent_uuids (seen : list string) (l : list (string * PeerState)) :
  (∀ id p, (id, p) ∈ l → ps_UUID p = id) →
  List.map ps_UUID (omap (λ '(id, p), if bool_decide (id ∈ seen) then None else Some (offline p)) l) =
  List.filter (λ id, negb (bool_decide (id ∈ seen))) l.*1.
Proof.
  intros Hk. induction l as [|[id p] l IH]; [done|]. cbn [fmap list_fmap omap list_omap List.filter fst].
  assert (ps_UUID (offline p) = id) as E.
  { rewrite <-(Hk id p) by set_solver. unfold ps_UUID, offline. by destruct (ps_Info p). }
  destruct (bool_decide (id ∈ seen)); cbn [negb List.map]; rewrite IH by set_solver; [done|]. by rewrite E.
Qed.

Lemma state_peers_spec snapshot probes :
  NoDup (List.map pi_UUID snapshot) → keyed probes →
  StronglySorted uuid_le (state_peers snapshot probes) ∧
  NoDup (List.map ps_UUID (state_peers snapshot probes)) ∧
  ∀ q, q ∈ state_peers snapshot probes ↔
    (∃ i, i ∈ snapshot ∧ pi_Self i = false ∧ q = shown_online i probes) ∨
    (∃ id p, probes !! id = Some p ∧ q = offline p ∧ ∀ i, i ∈ snapshot → pi_Self i = false → pi_UUID i ≠ id).
Proof.
  intros Hnd Hk. unfold state_peers. set (on := List.filter _ snapshot). set (seen := List.map pi_UUID on).
  set (l := _ ++ _). pose proof (merge_sort_Permutation uuid_le l) as Hp. split_and!.
  - apply Sorted_StronglySorted, Sorted_merge_sort; apply _.
  - rewrite Hp. unfold l. rewrite List.map_app, List.map_map.
    change (List.map (λ x, ps_UUID (with_info x (default no_peer (probes !! pi_UUID x)))) on) with seen.
    rewrite absent_uuids by (intros id p Hin; by apply Hk, elem_of_map_to_list). apply NoDup_app. split_and!.
    + unfold seen, on. clear -Hnd. induction snapshot as [|i snapshot IH]; [constructor|]. cbn in *.
      apply NoDup_cons in Hnd as [Hi Hnd]. destruct (pi_Self i); cbn; [by apply IH|]. constructor; [|by apply IH].
      intros Hx. apply Hi. rewrite list_elem_of_In, List.in_map_iff in Hx |- *. destruct Hx as (j & E & Hj).
      exists j. split; [done|]. by apply List.filter_In in Hj as [].
    + intros id Hid Hx. apply list_elem_of_In, List.filter_In in Hx as [_ Hx].
      apply negb_true_iff, bool_decide_eq_false in Hx. done.
    + apply NoDup_ListNoDup, List.NoDup_filter, NoDup_ListNoDup, NoDup_fst_map_to_list.
  - intros q. rewrite Hp. unfold l. rewrite elem_of_app. f_equiv.
    + rewrite list_elem_of_In, List.in_map_iff. split.
      * intros (i & <- & Hi). apply list_elem_of_In, online_in in Hi as []. by exists i.
      * intros (i & Hi & Hs & ->). exists i. split; [done|]. by apply list_elem_of_In, online_in.
    + rewrite list_elem_of_omap. split.
      * intros ([id p] & Hin & Hx). destruct (bool_decide_reflect (id ∈ seen)) as [|Hns]; [done|].
        injection Hx as <-. exists id, p. split_and!; [by apply elem_of_map_to_list|done|].
        intros i Hi Hs E. apply Hns, seen_in. by exists i.
      * intros (id & p & Hin & -> & Hns). exists (id, p). split; [by apply elem_of_map_to_list|].
        rewrite bool_decide_eq_false_2; [done|]. intros (i & Hi & Hs & E)%seen_in. by eapply Hns.
Qed.

(** What the page shows of the peers, in every state the application reaches: every
    machine that is on line, other than the sender itself, with what is remembered of it,
    and every machine that is remembered and no longer on line, as off line and its task
    as ended; no other, none twice, and in the order of their identifiers, so that the
    page does not jump. *)
Theorem state_peers_shown w snapshot :
  reachable w → NoDup (List.map pi_UUID snapshot) →
  let shown := state_peers snapshot (probes (w_app w)) in
  StronglySorted uuid_le shown ∧ NoDup (List.map ps_UUID shown) ∧
  ∀ q, q ∈ shown ↔
    (∃ i, i ∈ snapshot ∧ pi_Self i = false ∧ q = shown_online i (probes (w_app w))) ∨
    (∃ id p, probes (w_app w) !! id = Some p ∧ q = offline p ∧
       ∀ i, i ∈ snapshot → pi_Self i = false → pi_UUID i ≠ id).
Proof. intros Hr Hs. apply state_peers_spec; [done|]. apply (wi_keyed _ (reachable_world w Hr)). Qed.

Definition demo_row (uuid : string) (self : bool) : PeerInfo := mkPeerInfo uuid "10.0.0.1:80" 0 0 f_zero 0 0 self true.

Lemma state_peers_shown_witness :
  reachable demo_started ∧
  NoDup (List.map ps_UUID (state_peers [demo_row "b" false; demo_row "a" true] (probes (w_app demo_started)))).
Proof.
  split; [exact demo_started_reachable|].
  apply (state_peers_shown demo_started [demo_row "b" false; demo_row "a" true]); [exact demo_started_reachable|].
  cbn. repeat constructor; set_solver.
Defined.

(** Two peers, one of which has left, in the order of their names. *)
Example state_peers_example :
  let gone := mkPeerState (Some (demo_row "c" false)) true "/in" []
                (Some (mkTaskState "t" "download" "running" "" "" "" no_progress)) None in
  let here := mkPeerState (Some (demo_row "b" false)) true "/in" [] None None in
  List.map (λ p, (ps_UUID p, ps_Ready p, t_Status <$> ps_Task p))
    (state_peers [demo_row "d" false; demo_row "b" false; demo_row "a" true] {["c" := gone; "b" := here]}) =
  [("b", true, None); ("c", true, Some "ended"); ("d", false, None)].
Proof. vm_compute. reflexivity. Qed.

(** What is sent is what changed, and its last text is that of the last state sent. *)
Lemma events_change last ticks :
  Forall (λ t, t.2 = true) ticks →
  (events last ticks = [] ↔ ∀ data ok, (data, ok) ∈ ticks → data = last).
Proof.
  revert last. induction ticks as [|[data ok] ticks IH]; intros last Hok; cbn.
  { split; [|done]. intros _ d o Hin. by apply elem_of_nil in Hin. }
  apply Forall_cons in Hok as [Ho Hok]. cbn in Ho. subst ok. destruct (String.eqb_spec data last) as [-> |Hne].
  - rewrite IH by done. split.
    + intros H d o [[= -> ->]|Hin]%elem_of_cons; [done|by eapply H].
    + intros H d o Hin. eapply H. by right.
  - split; [done|]. intros H. exfalso. apply Hne. eapply H. by left.
Qed.
