(* ===== verification/CommandLine.v ===== *)
(** * The command line

    cmd/main.go: the flags as the package [flag] reads them, and what the program does
    with them, from the check of the page's address to the shutdown. *)

From S2P Require Import Prelude Text Net Json Model Session Transfer Prepare Tasks App Dispatch Web Operations Http.
Local Open Scope string_scope.
Local Open Scope Z_scope.
Local Open Scope list_scope.

(** ** Flags *)

Record Flags : Type := mkFlags { fl_config : Config; fl_webAddr : string; fl_noBrowser : bool }.

(** A flag with what sets it. *)
Inductive flag : Type :=
| FString (set : string → Flags → Flags)
| FBool (set : bool → Flags → Flags).

Definition with_config (f : Config → Config) (fl : Flags) : Flags :=
  mkFlags (f (fl_config fl)) (fl_webAddr fl) (fl_noBrowser fl).

(** cmd/main.go:28-35 [run] *)
Definition lookup_flag (name : string) : option flag :=
  let conf f := Some (FString (λ v, with_config (f v))) in
  let named s := String.eqb name s in
  if named "mode" then conf set_Mode
  else if named "file" then conf (λ v c, mkConfig (cf_Discover c) (cf_Mode c) v (cf_SenderAddr c) (cf_Listen c) (cf_WorkDir c)
                                (cf_Token c) (cf_AllowCommands c))
  else if named "senderAddr" then conf (λ v c, mkConfig (cf_Discover c) (cf_Mode c) (cf_File c) v (cf_Listen c)
                                      (cf_WorkDir c) (cf_Token c) (cf_AllowCommands c))
  else if named "listen" then conf (λ v c, mkConfig (cf_Discover c) (cf_Mode c) (cf_File c) (cf_SenderAddr c) v
                                  (cf_WorkDir c) (cf_Token c) (cf_AllowCommands c))
  else if named "token" then conf (λ v c, mkConfig (cf_Discover c) (cf_Mode c) (cf_File c) (cf_SenderAddr c) (cf_Listen c)
                                 (cf_WorkDir c) v (cf_AllowCommands c))
  else if named "allowCommands" then
    Some (FBool (λ b, with_config (λ c, mkConfig (cf_Discover c) (cf_Mode c) (cf_File c) (cf_SenderAddr c) (cf_Listen c)
                                          (cf_WorkDir c) (cf_Token c) b)))
  else if named "webAddr" then Some (FString (λ v fl, mkFlags (fl_config fl) v (fl_noBrowser fl)))
  else if named "noBrowser" then Some (FBool (λ b fl, mkFlags (fl_config fl) (fl_webAddr fl) b))
  else None.

(** The defaults; [token] is GOSILVER_TOKEN. cmd/main.go:27-35 [run] *)
Definition default_flags (token : string) : Flags :=
  mkFlags (mkConfig false "" "" "" ":0" "" token true) "127.0.0.1:0" false.

(** [strconv.ParseBool] *)
Definition ParseBool (s : string) : option bool :=
  if existsb (String.eqb s) ["1"; "t"; "T"; "true"; "TRUE"; "True"] then Some true
  else if existsb (String.eqb s) ["0"; "f"; "F"; "false"; "FALSE"; "False"] then Some false
  else None.

(** The name of a flag and the value after its first [=], if it has one. *)
Fixpoint cut_value (l : chars) : chars * option chars :=
  match l with
  | [] => ([], None)
  | c :: l => if Ascii.eqb c "=" then ([], Some l) else let '(n, v) := cut_value l in (c :: n, v)
  end.

(** What [Parse] does with the first argument: it is a flag's text, it ends the flags, or
    it is a bad flag. *)
Inductive argument : Type := TFlag (name : string) (value : option string) | TEnd | TBad.

Definition classify (arg : string) : argument :=
  match chars_of arg with
  | "-"%char :: rest =>
      let body := match rest with "-"%char :: r => r | _ => rest end in
      match rest, body with
      | [], _ => TEnd
      | "-"%char :: _, [] => TEnd
      | _, c :: _ => if Ascii.eqb c "-" || Ascii.eqb c "=" then TBad
                     else let '(n, v) := cut_value body in TFlag (string_of n) (string_of <$> v)
      | _, [] => TBad
      end
  | _ => TEnd
  end.

(** [flag.Parse] on the arguments: the flags, or the status the process exits with. *)
Fixpoint parse_flags (args : list string) (fl : Flags) : Z + Flags :=
  match args with
  | [] => inr fl
  | arg :: rest =>
      match classify arg with
      | TEnd => inr fl
      | TBad => inl 2
      | TFlag name value =>
          match lookup_flag name with
          | None => inl (if String.eqb name "help" || String.eqb name "h" then 0 else 2)
          | Some (FBool set) =>
              match (match value with None => Some true | Some v => ParseBool v end) with
              | Some b => parse_flags rest (set b fl)
              | None => inl 2
              end
          | Some (FString set) =>
              match value, rest with
              | Some v, _ => parse_flags rest (set v fl)
              | None, v :: rest => parse_flags rest (set v fl)
              | None, [] => inl 2
              end
          end
      end
  end.

(** ** The run *)

(** cmd/main.go:36-45 [run] *)
Definition webAddr_ok (addr : string) : bool :=
  match SplitHostPort addr with Some (h, _) => local_host h | None => false end.

(** What the program does that is seen outside. *)
Inductive effect : Type :=
| EListen (addr : string) | EServe | EAutoStart (c : Config) | EBrowser | EClose | EShutdown.

(** The outside: GOSILVER_TOKEN, the working directory, whether the address can be
    listened on, the text of the error of what fails before the page is served, how serving
    ends ([None]: the user interrupts first; else an error, and whether it is
    [ErrServerClosed]), how the shutdown ends. *)
Record machine : Type := mkMachine {
  m_token : string; m_dir : option string; m_listen : bool; m_error : string; m_failure : option (string * bool);
  m_shutdown : option string;
}.

Inductive result : Type :=
| Exited (status : Z)
| Returned (done : list effect) (err : option string).

(** The deferred [Close] is last. cmd/main.go:26-78 [run] *)
Definition run (m : machine) (args : list string) : result :=
  match parse_flags args (default_flags (m_token m)) with
  | inl status => Exited status
  | inr fl =>
      if negb (webAddr_ok (fl_webAddr fl)) then
        Returned [] (Some (if SplitHostPort (fl_webAddr fl) then "webAddr 必须绑定本机回环地址" else m_error m))
      else
      match New (fl_config fl) (m_dir m) with
      | None => Returned [] (Some (if known_mode (cf_Mode (fl_config fl)) then m_error m
                                   else "mode 必须为 sender 或 receiver"))
      | Some a =>
          if negb (m_listen m) then
            Returned [EClose] (Some ("WebUI 启动失败，可用 -webAddr=127.0.0.1:0 自动选择端口: " +:+ m_error m))
          else
          let start := [EListen (fl_webAddr fl); EServe; EAutoStart (config a)]
                       ++ (if fl_noBrowser fl then [] else [EBrowser]) in
          match m_failure m with
          | Some (e, false) => Returned (start ++ [EClose]) (Some e)
          | _ => Returned (start ++ [EClose; EShutdown; EClose]) (m_shutdown m)
          end
      end
  end.

(** What the process prints and exits with. cmd/main.go:19-24 [main] *)
Definition status (r : result) : Z :=
  match r with Exited s => s | Returned _ (Some _) => 1 | Returned _ None => 0 end.

(** ** Examples *)

Example flag_examples :
  let run args := match parse_flags args (default_flags "k") with
                  | inr fl => inr (cf_Mode (fl_config fl), cf_Token (fl_config fl), cf_AllowCommands (fl_config fl),
                                   fl_webAddr fl, fl_noBrowser fl)
                  | inl n => inl n end in
  run [] = inr ("", "k", true, "127.0.0.1:0", false) ∧
  run ["-mode=sender"; "--token"; "x=y"; "-noBrowser"] = inr ("sender", "x=y", true, "127.0.0.1:0", true) ∧
  run ["-allowCommands"; "false"; "-mode=sender"] = inr ("", "k", true, "127.0.0.1:0", false) ∧
  run ["-allowCommands=false"; "-mode"; "a"; "-mode"; "b"] = inr ("b", "k", false, "127.0.0.1:0", false) ∧
  run ["-mode"] = inl 2 ∧ run ["-x"] = inl 2 ∧ run ["-h"] = inl 0 ∧ run ["--"; "-x"] = inr ("", "k", true, "127.0.0.1:0", false).
Proof. vm_compute. split_and!; reflexivity. Qed.

(** ** What the program does *)

(** The application was made: the arguments are flags, the address is local, and [New] accepts. *)
Definition made (m : machine) (args : list string) : Prop :=
  ∃ fl a, parse_flags args (default_flags (m_token m)) = inr fl ∧ webAddr_ok (fl_webAddr fl) = true ∧
    New (fl_config fl) (m_dir m) = Some a.

(** Nothing; or, with an application, [Close] alone, or the start and more, then [Close]. *)
Lemma run_shape m args done err :
  run m args = Returned done err →
  (done = [] ∧ ¬ made m args) ∨ ∃ fl a, parse_flags args (default_flags (m_token m)) = inr fl ∧ webAddr_ok (fl_webAddr fl) = true ∧
    New (fl_config fl) (m_dir m) = Some a ∧
    (done = [EClose] ∨ ∃ l, (∀ e, e ∈ l → e = EBrowser ∨ e = EClose ∨ e = EShutdown) ∧
       done = [EListen (fl_webAddr fl); EServe; EAutoStart (config a)] ++ l ++ [EClose]).
Proof.
  unfold run, made. destruct (parse_flags _ _) as [s|fl]; [done|].
  destruct (webAddr_ok (fl_webAddr fl)) eqn:Hw; cbn [negb];
    [|intros [= <- <-]; left; split; [done|intros (? & ? & ? & ? & ?); congruence]].
  destruct (New _ _) as [a|] eqn:Hn;
    [|intros [= <- <-]; left; split; [done|intros (? & ? & ? & ? & ?); congruence]].
  intros H. right. exists fl, a. split_and!; [done..|].
  destruct (m_listen m); [cbn [negb] in H|injection H as <- _; by left]. right.
  destruct (fl_noBrowser fl), (m_failure m) as [[e [|]]|]; cbn in H; injection H as <- _;
    lazymatch goal with
    | |- ∃ l, _ ∧ ?x :: ?y :: ?z :: ?r = _ =>
        let l' := eval cbn in (take (length r - 1) r) in exists l'; split; [set_solver|reflexivity]
    end.
Qed.

Lemma webAddr_local addr :
  webAddr_ok addr = true → ∃ h p, SplitHostPort addr = Some (h, p) ∧
    (h = "localhost" ∨ ∃ ip, ParseIP h = Some ip ∧ IsLoopback ip = true).
Proof.
  unfold webAddr_ok. destruct (SplitHostPort _) as [[h p]|]; [|done]. intros Hw. exists h, p. split; [done|].
  unfold local_host in Hw. apply orb_true_iff in Hw as [Hw|Hw]; [left; by apply String.eqb_eq|right].
  destruct (ParseIP h) as [ip|]; [|done]. by exists ip.
Qed.

Lemma New_mode c wd a :
  New c wd = Some a → cf_Mode (config a) = "" ∨ cf_Mode (config a) = "sender" ∨ cf_Mode (config a) = "receiver".
Proof.
  unfold New. destruct (known_mode (cf_Mode c)) eqn:Hm; cbn [negb]; [|done].
  intros (dir & _ & (abs & _ & [= <-])%bind_Some)%bind_Some. cbn [config cf_Mode]. unfold known_mode in Hm.
  apply orb_true_iff in Hm as [Hm|Hm]; [apply orb_true_iff in Hm as [Hm|Hm]|]; apply String.eqb_eq in Hm; auto.
Qed.

(** C24. The program exposes its page to nobody else and always cleans up: whatever its
    arguments and its environment, it listens only on an address whose host is localhost
    or a loopback IP, it serves and starts a mode only after it listens, with the
    configuration of its flags, the mode one that exists; it does nothing exactly when the
    application is not made; and whenever the application is made, [Close] is the last thing it
    does, also when it cannot listen or serving fails. *)
Theorem run_confined m args done err :
  run m args = Returned done err →
  (∀ addr, EListen addr ∈ done → ∃ h p, SplitHostPort addr = Some (h, p) ∧
     (h = "localhost" ∨ ∃ ip, ParseIP h = Some ip ∧ IsLoopback ip = true)) ∧
  (∀ c, EAutoStart c ∈ done → ∃ addr l1 l2 l3, done = l1 ++ [EListen addr; EServe] ++ l2 ++ EAutoStart c :: l3 ∧
     ∃ fl a, parse_flags args (default_flags (m_token m)) = inr fl ∧ fl_webAddr fl = addr ∧
       New (fl_config fl) (m_dir m) = Some a ∧ c = config a ∧
       (cf_Mode c = "" ∨ cf_Mode c = "sender" ∨ cf_Mode c = "receiver")) ∧
  (done = [] ↔ ¬ made m args) ∧ (made m args → last done = Some EClose).
Proof.
  intros Hr. destruct (run_shape _ _ _ _ Hr) as [[-> Hno]|(fl & a & Hp & Hw & Hn & Hd)].
  { split_and!; [intros ? Hx; by apply elem_of_nil in Hx..|done|done]. }
  assert (made m args) as Hmade by by exists fl, a.
  destruct Hd as [-> |(l & Hl & ->)].
  { split_and!; [set_solver|set_solver|split; [done|by intros []]|done]. }
  assert (∀ e, e ∈ l ++ [EClose] → e = EBrowser ∨ e = EClose ∨ e = EShutdown) as Hl' by set_solver.
  split_and!.
  - intros addr Hin. cbn in Hin. apply webAddr_local.
    repeat (apply elem_of_cons in Hin as [Hin|Hin]; [by simplify_eq|]). by apply Hl' in Hin as [|[|]].
  - intros c Hin. cbn in Hin. apply elem_of_cons in Hin as [|Hin]; [done|]. apply elem_of_cons in Hin as [|Hin]; [done|].
    apply elem_of_cons in Hin as [[= ->]|Hin]; [|by apply Hl' in Hin as [|[|]]].
    exists (fl_webAddr fl), [], [], (l ++ [EClose]). split; [done|]. exists fl, a. split_and!; try done.
    by eapply New_mode.
  - split; [done|by intros []].
  - intros _. by rewrite app_assoc, last_snoc.
Qed.

Lemma run_confined_witness :
  let m listens := mkMachine "" (Some "/w") listens "in use" None None in
  let args := ["-mode=sender"; "-webAddr"; "[::1]:0"] in
  let all := [EListen "[::1]:0"; EServe; EAutoStart (mkConfig false "sender" "" "" ":0" "/w" "" true); EBrowser;
              EClose; EShutdown; EClose] in
  (run (m true) args = Returned all None ∧
   ∃ h p, SplitHostPort "[::1]:0" = Some (h, p) ∧
     (h = "localhost" ∨ ∃ ip, ParseIP h = Some ip ∧ IsLoopback ip = true)) ∧
  made (m false) args ∧ ∃ done err, run (m false) args = Returned done err ∧ last done = Some EClose.
Proof.
  cbv zeta. set (m listens := mkMachine "" (Some "/w") listens "in use" None None).
  assert (∀ b, made (m b) ["-mode=sender"; "-webAddr"; "[::1]:0"]) as Hm.
  { intros b. eexists _, _. split_and!; [vm_compute; reflexivity..]. }
  split; [|split; [apply Hm|]].
  - match goal with |- ?P ∧ _ => assert P as Hr by (vm_compute; reflexivity) end.
    split; [exact Hr|]. apply (proj1 (run_confined (m true) _ _ _ Hr)). left.
  - destruct (run (m false) ["-mode=sender"; "-webAddr"; "[::1]:0"]) as [|done err] eqn:Hr; [by vm_compute in Hr|].
    exists done, err. split; [reflexivity|].
    exact (proj2 (proj2 (proj2 (run_confined (m false) _ _ _ Hr))) (Hm false)).
Defined.
